(* ===== verification/_CoqProject ===== *)
-Q . S2P
Prelude.v
Bytes.v
HttpLib.v
Normalize.v
Stream.v
SyncBody.v
SyncClient.v
Pool.v
PoolSystem.v
AsyncIo.v
ServerAuto.v
Lifecycle.v
ServerTask.v
Connect.v
Agreement.v
Client.v
Errors.v
BodyUtil.v
BodyStreams.v
WebRouter.v
Numbers.v
Load.v
Programs.v
WebExtract.v
WebSse.v
EndToEnd.v
WebSocket.v
TlsConfig.v
ServerSystem.v
Runtime.v
