(* ===== verification/Prelude.v ===== *)
(** * h12tiny: a verification of its HTTP clients, server and web layer

    h12tiny is a family of small Rust crates around Hyper: a blocking HTTP/1
    client, an asynchronous HTTP/1 and HTTP/2 client with a connection pool, a
    server that selects the protocol of a connection, body utilities, and a
    router with extractors, CORS, server-sent events and WebSocket upgrades.
    This library translates their code into executable functions and step
    relations and proves what makes each part correct.

    ** The parts and how they meet

    A request of the asynchronous client ([crates/h12tiny-client/src/lib.rs])
    is checked and keyed by its origin ([crates/h12tiny-client-normalize]), gets
    a connection from the pool ([pool.rs]) or from the connector ([connect.rs]),
    whichever is first, is normalized for HTTP/1, and is retried when a reused
    connection returned it unsent.  The blocking client
    ([crates/h12tiny-client-sync]) does the same work over one socket per
    request and has its own response parser.  The server
    ([crates/h12tiny-server]) runs an accept loop ([lifecycle.rs]) whose tasks
    pick HTTP/1 or HTTP/2 ([conn/auto.rs]) and hand the connection to Hyper
    through the I/O adapters of [crates/h12tiny-core/src/io.rs].  Hyper calls
    the router ([crates/h12tiny-web/src/lib.rs]), which reads request bodies
    with the utilities of [crates/h12tiny-util].

    ** Files

    - [Prelude]: results and [?], [Poll], timed futures, machine integers, the
      tactics and the hint database [h12].
    - [Bytes], [Numbers]: the standard library's byte strings, integers and
      [f64] as text.
    - [HttpLib]: the interface of the crate [http] ([HttpLib], its documented
      laws [HttpLaws]) and a concrete implementation [RefHttp] of both.
    - [Normalize]: [h12tiny-client-normalize/src/lib.rs].
    - [Stream], [SyncBody], [SyncClient]: the blocking client; [Stream] is the
      transport, [SyncBody] the type [ResponseBody] and its framing state
      machine, [SyncClient] everything else in the file.
    - [Pool], [PoolSystem]: [pool.rs]; [Pool] has one function per
      operation, critical section of the mutex and [Drop], [PoolSystem] the
      interleavings of all callers as a step relation over the guards they own;
      an operation that takes the lock twice, or works without it before, is two
      steps.
    - [Connect]: [connect.rs].  [Client]: [lib.rs] of the asynchronous client;
      the class [Poolable] of [Pool] is the interface between the two, and
      [Client] instantiates it.
    - [TlsConfig]: the two [ClientTlsConfigBuilder]s.
    - [AsyncIo], [ServerAuto], [Lifecycle], [ServerTask], [ServerSystem]: the
      adapters, [conn/auto.rs], [lifecycle.rs], the task of a connection with
      [conn/auto.rs] inside, and the accept loop running concurrently with its
      tasks.
    - [Agreement]: clients and server composed on one connection.
    - [Errors]: the texts and causes of the clients' errors.
    - [Load], [Programs]: [examples/], the load generator and the benchmark
      servers; [Programs] has their [main]s.
    - [Runtime]: [h12tiny-core/src/runtime.rs], executors and timers.
    - [BodyUtil], [BodyStreams]: [h12tiny-util/src/lib.rs]; [BodyStreams] has the
      constructors of bodies and composes them with the collection of [BodyUtil].
    - [WebRouter], [WebExtract], [WebSse], [WebSocket]: [h12tiny-web/src/lib.rs]
      in four parts: routing and responses; arguments of handlers; event
      streams; the upgrade handshake.
    - [EndToEnd]: the blocking client and the web layer composed over Hyper's
      HTTP/1 codec, of which [carries] and [answers] are the contract.

    ** How the code is modelled

    A [Result] is [result], a panic, of a debug assertion too, is the [None] of
    an outer [option], and the theorems that say a function returns exclude
    it.  State is passed
    explicitly; also a failed operation returns the state it leaves behind.  A
    future is a state with a poll function where the order of polls matters
    ([Pool], [Client], [ServerAuto], [Lifecycle], the body wrappers), and a
    [timed] value, ready after a duration or never, where only the durations
    do ([Connect], handlers).  What the world decides at a poll is an argument
    of the poll, so theorems hold for every scheduling and every answer.
    Transports are scripts: any sequence of segments, errors and not-ready
    answers, so theorems hold for every segmentation.  When a request body that
    is not ready wakes its reader is a parameter ([Arrival]), so the time of a
    handler includes the arrival of its arguments.  [usize] and [u64] are
    integers with their 64-bit bounds; saturation and overflow checks are
    written out where the code has them.  Code outside the repository (the
    crates [http], Hyper, Rustls, [matchit], [miniserde], Base64 and SHA-1, name
    resolution, timers) is a parameter with laws from its documentation, and
    each group of laws is satisfied by a concrete instance.

    Loops that are not structural take fuel.  The blocking client's loops over
    a head, a line, trailers or a body are given the limits the code enforces
    (64 KiB of head, the line and trailer limits, the bytes asked for), and
    [read_is_total] and [request_is_total] show that this always suffices.  Its
    loop over interim responses has no limit in the code, so the number of heads
    a request reads is an argument: [request_is_total] shows that it runs out
    only on a connection that starts with that many interim responses,
    [interim_responses_hold_request] that it does on each such connection, and
    the theorems on exchanges hold for every number above the length of the
    answer.  The retry loop of the asynchronous client takes what each iteration
    observes, and [client_refines_pool] shows that a poll needs at most two.
    The detector of [ServerAuto] is given the
    length of the preface; bodies are collected with fuel above the length of
    their script; printing a number uses its bit length.

    ** What is proved

    - The blocking client: a response written by a peer, in any segments and
      after interim responses, is read back with its status, fields and body
      ([response_roundtrip], [body_reads_content]); a framing is accepted
      exactly when it is unambiguous ([response_body_mode_spec]); whatever the
      peer sends, every body read returns, and a request does unless it is still
      reading interim responses, which nothing bounds, with bounded buffers and
      classified errors ([read_is_total], [request_is_total],
      [interim_responses_hold_request], [truncated_body_fails]); the bytes sent are the request
      ([write_request_wire], [request_exchange]).
    - Normalization: the target forms and the [Host] header, against the host
      and default port of the origin ([normalize_http1_request_spec]).
    - The pool, for all interleavings: the bounds on open and idle connections,
      one HTTP/2 establishment per origin, no forgotten checkout, no panic, and
      the order in which waiters are served.  [lost_slots_block_origin] shows that
      a slot once lost stays lost, [closed_connection_strands_waiter] that the
      end of a connection wakes nobody who waits for its slot.
    - The asynchronous client: in every reachable state of the pool, every poll
      ends without panic and is a path of the pool's transition system
      ([client_refines_pool], [cancellation_refines_pool]); requests are refused and retried as
      documented ([request_checks], [retries_resend_same_request]).
    - Establishment: the race of addresses ([happy_eyeballs_in_time],
      [connect_resolved_addresses_spec]) and the protocol of a connection
      ([connect_negotiates]).
    - The server: exact protocol detection without loss of bytes
      ([detection_is_exact], [serve_connection_dispatches],
      [serve_tls_connection_spec]); the connection limit, complete drain and
      possible shutdown of the whole server ([server_lifecycle],
      [server_can_shut_down]); the tasks with the real connection inside refine
      the abstract ones without panic, shut their connection down when asked,
      end only with it, and let go of silent clients ([conn_task_run_refines],
      [silent_client_is_released]); the adapters are inverse to each other
      ([hyper_io_futures_io]).
    - Both ends: a client's connection and the server at its other end speak the
      same protocol, and the server reads the client's bytes unchanged
      ([connections_agree], [blocking_client_is_served_http1]).
    - The load generator: exact accounts, bounded concurrency, and clean runs
      against the benchmark service ([load_accounts], [concurrency_bounded],
      [load_against_benchmark]); its report and exit code
      ([load_main_reports]); the servers' listeners and TLS policy
      ([interop_main_spec], [interop_tls_serves]).
    - The web layer: routing tables ([route_tables]), dispatch
      ([call_dispatches]), handler arguments from the router to the handler
      ([handler_receives_state_and_body], [body_limit_enforced]), queries as
      JSON without injection ([query_as_json_spec]), CORS grants to exactly the
      configured origins ([cors_grants_allowed_origins]), event streams
      read back by a client of the format ([sse_roundtrip], [keep_alive_spec])
      and the WebSocket handshake ([websocket_upgrade_spec]); integers in paths
      at their width ([int_path_exact]); a deadline holds against a slow or
      stalled body ([slow_body_times_out]).
    - One exchange, from the caller of the blocking client to a handler and back
      ([exchange_end_to_end]), and event streams over HTTP ([events_end_to_end]).
    - Body utilities: idle timeouts ([idle_timeout_spec]), and readers served as
      bodies and collected with a limit ([reader_body_collects]).
    - Executors and timers: a sleep that is reset completes at its new deadline,
      whatever runtime it came from ([reset_completes]).

    ** Not modelled

    [upgrade.rs] and the facade crate (re-exports), the frames of an accepted
    WebSocket (the crate [fastwebsockets]), logging and [Debug], accessors that
    only return a field, and tests.  The memory model of the atomics and wakers
    under the channels is taken as correct: a step sees every earlier step. *)

From Stdlib Require Import ZArith Lia.
From stdpp Require Import base option list list_numbers.

Open Scope Z_scope.

(** ** Results and the [?] operator

    [result A E] is Rust's [Result<A, E>]; [let? x := e in k] is [let x = e?;].
    A Rust panic ([expect], [unreachable!], [assert!]) is the [None] of an
    [option] wrapped around the value the function would have returned. *)
Inductive result (A E : Type) : Type :=
| Ok (a : A)
| Err (e : E).
Arguments Ok {A E} a.
Arguments Err {A E} e.

Declare Scope rust_scope.
Delimit Scope rust_scope with rust.
Open Scope rust_scope.

Definition and_then {A B E} (r : result A E) (k : A -> result B E) : result B E :=
  match r with Ok a => k a | Err e => Err e end.

Definition map_err {A E F} (f : E -> F) (r : result A E) : result A F :=
  match r with Ok a => Ok a | Err e => Err (f e) end.

Definition map_ok {A B E} (f : A -> B) (r : result A E) : result B E :=
  match r with Ok a => Ok (f a) | Err e => Err e end.

Definition ok_or {A E} (o : option A) (e : E) : result A E :=
  match o with Some a => Ok a | None => Err e end.

Definition result_ok {A E} (r : result A E) : option A :=
  match r with Ok a => Some a | Err _ => None end.

Definition is_ok {A E} (r : result A E) : bool :=
  match r with Ok _ => true | Err _ => false end.

Notation "'let?' x ':=' e 'in' k" := (and_then e (fun x => k))
  (at level 10, x pattern, e at level 100, k at level 200) : rust_scope.

(** [std::task::Poll]. *)
Inductive poll (A : Type) := Pending | Ready (a : A).
Arguments Pending {A}.
Arguments Ready {A} _.

(** ** Machine integers

    [usize] and [u64] are both 64 bits wide (the 64-bit targets the TLS
    backend supports); arithmetic that the source saturates or wraps is
    written with the operations below, everything else is proved in range. *)
Definition USIZE_MAX : Z := 2 ^ 64 - 1.
Definition U64_MAX : Z := 2 ^ 64 - 1.
Definition U32_MAX : Z := 2 ^ 32 - 1.
Definition U16_MAX : Z := 2 ^ 16 - 1.

Definition saturating_add (a b : Z) : Z := Z.min (a + b) USIZE_MAX.
Definition saturating_sub (a b : Z) : Z := Z.max (a - b) 0.

(** The length of a slice as the [usize] Rust reports. *)
Definition zlen {A} (l : list A) : Z := Z.of_nat (length l).

Lemma zlen_nonneg {A} (l : list A) : 0 <= zlen l.
Proof. unfold zlen; lia. Qed.

Lemma zlen_nil {A} : zlen (@nil A) = 0.
Proof. reflexivity. Qed.

Lemma zlen_cons {A} (x : A) l : zlen (x :: l) = 1 + zlen l.
Proof. unfold zlen; simpl; lia. Qed.

Lemma zlen_app {A} (l k : list A) : zlen (l ++ k) = zlen l + zlen k.
Proof. unfold zlen; rewrite length_app; lia. Qed.

Lemma zlen_zero {A} (l : list A) : zlen l = 0 -> l = [].
Proof. destruct l; [done|]. rewrite zlen_cons. pose proof (zlen_nonneg l); lia. Qed.

(** ** Proof automation of the development *)
Create HintDb h12.
Create Rewrite HintDb h12.
#[export] Hint Resolve zlen_nonneg : h12.
#[export] Hint Rewrite @zlen_nil @zlen_cons @zlen_app : h12.

(** Turns boolean tests of the context into propositions. *)
Ltac bool_hyps :=
  repeat match goal with
  | H : (_ && _)%bool = true |- _ => apply andb_true_iff in H as [? ?]
  | H : (_ && _)%bool = false |- _ => apply andb_false_iff in H as [?|?]
  | H : (_ || _)%bool = true |- _ => apply orb_true_iff in H as [?|?]
  | H : (_ || _)%bool = false |- _ => apply orb_false_iff in H as [? ?]
  | H : negb _ = true |- _ => apply negb_true_iff in H
  | H : negb _ = false |- _ => apply negb_false_iff in H
  | H : (_ <? _) = true |- _ => apply Z.ltb_lt in H
  | H : (_ <? _) = false |- _ => apply Z.ltb_ge in H
  | H : (_ <=? _) = true |- _ => apply Z.leb_le in H
  | H : (_ <=? _) = false |- _ => apply Z.leb_gt in H
  | H : (_ =? _) = true |- _ => apply Z.eqb_eq in H
  | H : (_ =? _) = false |- _ => apply Z.eqb_neq in H
  end.

(** Splits every boolean test of the goal and the context first. *)
Ltac bool_cases :=
  repeat match goal with
  | H : context [if ?b then _ else _] |- _ => destruct b eqn:?
  | |- context [if ?b then _ else _] => destruct b eqn:?
  end;
  bool_hyps.

(** Length arithmetic over slices. *)
Ltac zlen_lia :=
  unfold saturating_add, saturating_sub, USIZE_MAX, U64_MAX in *;
  autorewrite with h12 in *;
  repeat match goal with
  | H : context [zlen ?l] |- _ =>
      lazymatch goal with
      | _ : 0 <= zlen l |- _ => fail
      | _ => pose proof (zlen_nonneg l)
      end
  | |- context [zlen ?l] =>
      lazymatch goal with
      | _ : 0 <= zlen l |- _ => fail
      | _ => pose proof (zlen_nonneg l)
      end
  end; lia.

(** Inverts a hypothesis [let? x := e in k = Ok r]. *)
Lemma and_then_ok {A B E} (r : result A E) (k : A -> result B E) b :
  and_then r k = Ok b -> exists a, r = Ok a /\ k a = Ok b.
Proof. destruct r; simpl; [eauto | discriminate]. Qed.

Lemma map_err_ok {A E F} (f : E -> F) (r : result A E) a :
  map_err f r = Ok a -> r = Ok a.
Proof. destruct r; simpl; congruence. Qed.

Ltac invert_ok :=
  repeat match goal with
  | H : and_then _ _ = Ok _ |- _ => apply and_then_ok in H as (? & ? & ?)
  | H : map_err _ _ = Ok _ |- _ => apply map_err_ok in H
  end.

(** ** Lists *)

(** The shape of any split of a list into a prefix and a rest. *)
Lemma take_drop_length {A} (n : nat) (l : list A) :
  (length (take n l) + length (drop n l))%nat = length l.
Proof. rewrite length_take, length_drop; lia. Qed.

Lemma take_app_exact {A} (l k : list A) n :
  n = length l -> take n (l ++ k) = l.
Proof. intros ->. by rewrite take_app_length. Qed.

Lemma drop_app_exact {A} (l k : list A) n :
  n = length l -> drop n (l ++ k) = k.
Proof. intros ->. by rewrite drop_app_length. Qed.

(** Cutting [min n (length l)] elements off a non-empty list makes progress. *)
Lemma take_nonempty {A} (n : nat) (l : list A) :
  (0 < n)%nat -> l <> [] -> take n l <> [].
Proof. destruct n, l; simpl; [lia | lia | congruence | discriminate]. Qed.

(** Two splits of the same list: the longer first part extends the shorter. *)
Lemma app_split_le {A} (a d p u : list A) :
  a ++ d = p ++ u -> (length p <= length a)%nat -> exists r, a = p ++ r /\ u = r ++ d.
Proof.
  intros E Hl. exists (drop (length p) a).
  rewrite <- (take_drop (length p) a), <- app_assoc in E.
  apply app_inj_1 in E as [E1 E2]; [|rewrite length_take; lia].
  rewrite <- E1 at 1. rewrite take_drop. auto.
Qed.

(** Sequencing after a defined value. *)
Lemma some_bind {A B} (x : A) (f : A -> option B) : (Some x ≫= f) = f x.
Proof. reflexivity. Qed.

(** ** Futures with a completion time

    When a future is ready, counted from its start in nanoseconds, and with
    what; [None] is a future that is never ready. *)
Abbreviation timed A := (option (Z * A)).

Definition now_ready {A} (a : A) : timed A := Some (0, a).

Definition await {A B} (m : timed A) (k : A -> timed B) : timed B :=
  '(d, a) ← m; '(d', b) ← k a; Some (d + d', b).

Definition await_ok {A B E} (m : timed (result A E)) (k : A -> timed (result B E))
    : timed (result B E) :=
  await m (fun r => match r with Ok a => k a | Err e => now_ready (Err e) end).

Definition timed_map {A B} (f : A -> B) (m : timed A) : timed B :=
  '(d, a) ← m; Some (d, f a).

Notation "'await?' x ':=' e 'in' k" := (await_ok e (fun x => k))
  (at level 10, x pattern, e at level 100, k at level 200) : rust_scope.

(** [future::select]: the left future is polled first. *)
Definition select {A B} (l : timed A) (r : timed B) : timed (A + B) :=
  match l, r with
  | Some (d, a), Some (d', b) => if d <=? d' then Some (d, inl a) else Some (d', inr b)
  | Some (d, a), None => Some (d, inl a)
  | None, Some (d', b) => Some (d', inr b)
  | None, None => None
  end.

Lemma await_now {A B} (a : A) (k : A -> timed B) : await (now_ready a) k = k a.
Proof. unfold await, now_ready. simpl. by destruct (k a) as [[d b]|]. Qed.

Lemma await_some {A B} d (a : A) (k : A -> timed B) :
  await (Some (d, a)) k = '(d', b) ← k a; Some (d + d', b).
Proof. done. Qed.

Lemma await_map {A B C} (f : A -> B) (m : timed A) (k : B -> timed C) :
  await (timed_map f m) k = await m (fun a => k (f a)).
Proof. by destruct m as [[d a]|]. Qed.

Lemma await_assoc {A B C} (m : timed A) (k : A -> timed B) (h : B -> timed C) :
  await (await m k) h = await m (fun a => await (k a) h).
Proof.
  unfold await. destruct m as [[d a]|]; simpl; [|done]. destruct (k a) as [[d1 b]|]; simpl; [|done].
  destruct (h b) as [[d2 c]|]; simpl; [|done]. by rewrite Z.add_assoc.
Qed.

Lemma await_ok_inv {A B E} (m : timed (result A E)) (k : A -> timed (result B E)) d b :
  await_ok m k = Some (d, Ok b) -> exists d1 a d2, m = Some (d1, Ok a) /\ k a = Some (d2, Ok b).
Proof.
  unfold await_ok, await. destruct m as [[d1 [a|e]]|]; simpl; [| |done].
  - destruct (k a) as [[d2 r]|] eqn:Ek; simpl; [|done]. intros [= <- ->]. eauto.
  - by intros [= _ ?].
Qed.

Lemma timed_map_inv {A B} (f : A -> B) (m : timed A) d b :
  timed_map f m = Some (d, b) -> exists a, m = Some (d, a) /\ f a = b.
Proof. unfold timed_map. destruct m as [[d' a]|]; simpl; [|done]. intros [= <- <-]. eauto. Qed.
