(* ===== verification/Bytes.v ===== *)
(** * Bytes and strings of the Rust standard library

    Byte slices ([&[u8]], [Vec<u8>], [Bytes]) and [str]s are lists of
    [Byte.byte].  This file models the slice, string and integer-parsing
    routines of the standard library that the crates call: [windows(n)] search,
    [split], [splitn], [trim], ASCII case folding, [from_utf8],
    [from_str_radix] and the decimal/hexadecimal printing of integers. *)

From Stdlib Require Import ZArith Lia String.
From Stdlib Require Import Strings.Byte.
From stdpp Require Import base option list sets.
From S2P Require Import Prelude.

Abbreviation byte := Byte.byte.
Abbreviation bytes := (list Byte.byte).

(** A byte-string literal. *)
Definition bs (s : string) : bytes := list_byte_of_string s.
Arguments bs s%_string.

(** The numeric value of a byte, and the byte of a value below 256. *)
Definition bz (b : byte) : Z := Z.of_N (Byte.to_N b).
Definition byte_of_Z (z : Z) : byte := default x00 (Byte.of_N (Z.to_N z)).

#[export] Instance byte_eq_decision : EqDecision byte := Byte.byte_eq_dec.

Lemma bz_range b : 0 <= bz b < 256.
Proof. unfold bz. pose proof (Byte.to_N_bounded b). lia. Qed.

Lemma bz_inj b c : bz b = bz c -> b = c.
Proof.
  unfold bz; intros H. assert (Byte.to_N b = Byte.to_N c) as E by lia.
  pose proof (Byte.of_to_N b) as B; pose proof (Byte.of_to_N c) as C.
  rewrite E in B. congruence.
Qed.

Lemma byte_of_Z_bz b : byte_of_Z (bz b) = b.
Proof. unfold byte_of_Z, bz. by rewrite N2Z.id, Byte.of_to_N. Qed.

Lemma bz_byte_of_Z z : 0 <= z < 256 -> bz (byte_of_Z z) = z.
Proof.
  intros Hz. unfold byte_of_Z, bz.
  destruct (Byte.of_N (Z.to_N z)) eqn:E; simpl.
  - apply Byte.to_of_N in E. lia.
  - apply Byte.of_N_None_iff in E. lia.
Qed.

Lemma eqb_byte_true a b : Byte.eqb a b = true <-> a = b.
Proof.
  split; [apply Byte.byte_dec_bl | intros ->; apply Byte.byte_dec_lb; reflexivity].
Qed.

Lemma eqb_byte_refl a : Byte.eqb a a = true.
Proof. by apply eqb_byte_true. Qed.

Lemma eqb_byte_false a b : Byte.eqb a b = false <-> a <> b.
Proof.
  rewrite <- not_true_iff_false, eqb_byte_true. done.
Qed.

(** Equality of byte slices. *)
Definition bytes_eqb (a b : bytes) : bool := bool_decide (a = b).

(** ** Searching *)

Fixpoint starts_with (pat l : bytes) : bool :=
  match pat, l with
  | [], _ => true
  | p :: pat', x :: l' => Byte.eqb p x && starts_with pat' l'
  | _ :: _, [] => false
  end.

(** [l.windows(pat.len()).position(|w| w == pat)] for a non-empty [pat]. *)
Fixpoint find_window (pat l : bytes) : option nat :=
  if starts_with pat l then Some O
  else match l with
       | [] => None
       | _ :: l' => S <$> find_window pat l'
       end.

(** [l.iter().position(|b| *b == c)]. *)
Fixpoint position (c : byte) (l : bytes) : option nat :=
  match l with
  | [] => None
  | x :: l' => if Byte.eqb x c then Some O else S <$> position c l'
  end.

Definition contains (c : byte) (l : bytes) : bool := existsb (Byte.eqb c) l.

(** [l.split(|b| *b == c)]: always at least one piece. *)
Fixpoint split_on (c : byte) (l : bytes) : list bytes :=
  match l with
  | [] => [[]]
  | x :: l' =>
      if Byte.eqb x c then [] :: split_on c l'
      else match split_on c l' with
           | s :: r => (x :: s) :: r
           | [] => [[x]]
           end
  end.

(** [s.split_once(c)]. *)
Fixpoint split_once (c : byte) (l : bytes) : option (bytes * bytes) :=
  match l with
  | [] => None
  | x :: l' =>
      if Byte.eqb x c then Some ([], l')
      else match split_once c l' with
           | Some (a, b) => Some (x :: a, b)
           | None => None
           end
  end.

(** [s.splitn(n, c)]. *)
Fixpoint splitn (n : nat) (c : byte) (l : bytes) : list bytes :=
  match n with
  | O => []
  | S n' =>
      match n', split_once c l with
      | O, _ | _, None => [l]
      | _, Some (a, b) => a :: splitn n' c b
      end
  end.

(** [pieces.join(c)]. *)
Fixpoint join_with (c : byte) (ls : list bytes) : bytes :=
  match ls with
  | [] => []
  | [l] => l
  | l :: ls' => l ++ c :: join_with c ls'
  end.

(** [l.strip_suffix(suf)] and [l.strip_prefix(pre)]. *)
Definition strip_prefix (pre l : bytes) : option bytes :=
  if starts_with pre l then Some (drop (length pre) l) else None.

Definition strip_suffix (suf l : bytes) : option bytes :=
  let n := (length l - length suf)%nat in
  if bytes_eqb (drop n l) suf then Some (take n l) else None.

(** ** Trimming *)

Fixpoint drop_while (f : byte -> bool) (l : bytes) : bytes :=
  match l with
  | [] => []
  | x :: l' => if f x then drop_while f l' else l
  end.

Definition trim_end_while (f : byte -> bool) (l : bytes) : bytes :=
  rev (drop_while f (rev l)).

Definition trim_while (f : byte -> bool) (l : bytes) : bytes :=
  trim_end_while f (drop_while f l).

(** [str::trim] on ASCII text: the ASCII white-space characters. *)
Definition is_ascii_space (b : byte) : bool :=
  (bz b =? 32) || ((9 <=? bz b) && (bz b <=? 13)).

Definition str_trim : bytes -> bytes := trim_while is_ascii_space.

(** ** ASCII case *)

Definition to_lower (b : byte) : byte :=
  if (65 <=? bz b) && (bz b <=? 90) then byte_of_Z (bz b + 32) else b.

Definition eq_ignore_ascii_case (a b : bytes) : bool :=
  bytes_eqb (map to_lower a) (map to_lower b).

(** ** [std::str::from_utf8] *)

Definition in_range (lo hi : Z) (b : byte) : bool := (lo <=? bz b) && (bz b <=? hi).

Fixpoint utf8_valid (l : bytes) : bool :=
  match l with
  | [] => true
  | b0 :: t0 =>
      if bz b0 <? 128 then utf8_valid t0
      else match t0 with
      | [] => false
      | b1 :: t1 =>
          if in_range 194 223 b0 then in_range 128 191 b1 && utf8_valid t1
          else match t1 with
          | [] => false
          | b2 :: t2 =>
              if in_range 224 239 b0 then
                in_range (if bz b0 =? 224 then 160 else 128)
                         (if bz b0 =? 237 then 159 else 191) b1
                && in_range 128 191 b2 && utf8_valid t2
              else match t2 with
              | [] => false
              | b3 :: t3 =>
                  in_range 240 244 b0
                  && in_range (if bz b0 =? 240 then 144 else 128)
                              (if bz b0 =? 244 then 143 else 191) b1
                  && in_range 128 191 b2 && in_range 128 191 b3 && utf8_valid t3
              end
          end
      end
  end.

Definition from_utf8 (l : bytes) : option bytes := if utf8_valid l then Some l else None.

(** ** Integers: [from_str_radix], [parse] and [to_string] *)

Definition to_digit (radix : Z) (c : byte) : option Z :=
  let v :=
    if in_range 48 57 c then bz c - 48
    else if in_range 97 122 c then bz c - 87
    else if in_range 65 90 c then bz c - 55
    else 255 in
  if v <? radix then Some v else None.

Fixpoint parse_digits (radix max acc : Z) (l : bytes) : option Z :=
  match l with
  | [] => Some acc
  | c :: l' =>
      match to_digit radix c with
      | None => None
      | Some d =>
          let v := acc * radix + d in
          if max <? v then None else parse_digits radix max v l'
      end
  end.

(** An unsigned [T::from_str_radix(s, radix)] with [T::MAX = max]: the empty
    string and a lone sign are errors, one leading [+] is accepted. *)
Definition from_str_radix (radix max : Z) (l : bytes) : option Z :=
  match l with
  | [] => None
  | [c] => if Byte.eqb c "+" || Byte.eqb c "-" then None else parse_digits radix max 0 [c]
  | c :: l' => parse_digits radix max 0 (if Byte.eqb c "+" then l' else l)
  end.

Definition parse_u64 : bytes -> option Z := from_str_radix 10 U64_MAX.
Definition parse_u16 : bytes -> option Z := from_str_radix 10 U16_MAX.

Definition digit_char (d : Z) : byte := byte_of_Z (if d <? 10 then 48 + d else 87 + d).

Fixpoint print_loop (fuel : nat) (radix n : Z) (acc : bytes) : bytes :=
  match fuel with
  | O => acc
  | S fuel' =>
      let acc' := digit_char (n mod radix) :: acc in
      if n <? radix then acc' else print_loop fuel' radix (n / radix) acc'
  end.

(** [n.to_string()] (radix 10) and [format!("{:x}", n)] (radix 16); the fuel
    is the bit length of [n], an upper bound on its number of digits. *)
Definition print_radix (radix n : Z) : bytes :=
  print_loop (S (Z.to_nat (Z.log2 n))) radix n [].

Definition print_dec : Z -> bytes := print_radix 10.
Definition print_hex : Z -> bytes := print_radix 16.

(** [format!("{:?}", s)] of a string: quoted, with [\t], [\r], [\n], the null
    byte, quotes and backslashes escaped and other ASCII control characters
    as [\u{..}].  Bytes above 127 are kept, which is right for the printable
    characters beyond ASCII. *)
Definition debug_char (b : byte) : bytes :=
  let z := bz b in
  if z =? 0 then x5c :: bs "0"
  else if z =? 9 then x5c :: bs "t"
  else if z =? 10 then x5c :: bs "n"
  else if z =? 13 then x5c :: bs "r"
  else if (z =? 34) || (z =? 92) then [x5c; b]
  else if (z <? 32) || (z =? 127) then x5c :: bs "u{" ++ print_hex z ++ bs "}"
  else [b].
Definition debug_str (s : bytes) : bytes := x22 :: concat (map debug_char s) ++ [x22].

(** ** Facts about searching *)

Lemma starts_with_spec pat l : starts_with pat l = true <-> exists k, l = pat ++ k.
Proof.
  revert l. induction pat as [|p pat IH]; intros l; simpl.
  - split; eauto.
  - destruct l as [|x l]; [split; [done | intros [k ?]; done]|].
    rewrite andb_true_iff, eqb_byte_true, IH. split.
    + intros [-> [k ->]]. eauto.
    + intros [k [= -> ->]]. eauto.
Qed.

Lemma starts_with_app pat l k : starts_with pat l = true -> starts_with pat (l ++ k) = true.
Proof.
  rewrite !starts_with_spec. intros [r ->]. exists (r ++ k). by rewrite app_assoc.
Qed.

(** The window found is an occurrence ... *)
Lemma find_window_some pat l n :
  find_window pat l = Some n ->
  l = take n l ++ pat ++ drop (n + length pat) l /\ (n + length pat <= length l)%nat.
Proof.
  revert n. induction l as [|x l IH]; intros n; simpl.
  - destruct pat; simpl; [|done]. intros [= <-]. done.
  - destruct (starts_with pat (x :: l)) eqn:E.
    + intros [= <-]. apply starts_with_spec in E as [k E].
      change (S (length l)) with (length (x :: l)). rewrite E.
      rewrite Nat.add_0_l, drop_app_length, length_app. split; [done | lia].
    + destruct (find_window pat l) eqn:F; simpl; [|done]. intros [= <-].
      destruct (IH _ eq_refl) as [E' ?]. simpl. rewrite <- E'. split; [done | lia].
Qed.

(** ... reading more input does not move it ... *)
Lemma find_window_app pat l k n :
  find_window pat l = Some n -> find_window pat (l ++ k) = Some n.
Proof.
  revert n. induction l as [|x l IH]; intros n.
  - simpl. destruct pat; simpl; [|done]. intros [= <-]. by destruct k.
  - rewrite <- app_comm_cons. cbn [find_window].
    destruct (starts_with pat (x :: l)) eqn:E.
    + rewrite app_comm_cons, (starts_with_app _ _ k E). done.
    + destruct (find_window pat l) eqn:F; [|done]. intros [= <-].
      rewrite (IH _ eq_refl).
      destruct (starts_with pat (x :: l ++ k)) eqn:G; [|done].
      exfalso. apply find_window_some in F as [_ F].
      apply starts_with_spec in G as [r G].
      assert (starts_with pat (x :: l) = true) as C; [|congruence].
      apply starts_with_spec. exists (drop (length pat) (x :: l)).
      rewrite <- (take_drop (length pat) (x :: l)) at 1. f_equal.
      rewrite app_comm_cons in G. apply (f_equal (take (length pat))) in G.
      rewrite take_app_length in G. rewrite <- G at 2.
      rewrite take_app_le by (simpl; lia). done.
Qed.

(** ... and no shorter prefix of the input contains one. *)
Lemma find_window_prefix_none pat l k n :
  find_window pat (l ++ k) = Some n -> (length l < n + length pat)%nat ->
  find_window pat l = None.
Proof.
  intros H Hl. destruct (find_window pat l) as [m|] eqn:E; [|done].
  pose proof (find_window_app _ _ k _ E) as E'.
  apply find_window_some in E as [_ E]. assert (m = n) by congruence. lia.
Qed.

(** An occurrence is found. *)
Lemma find_window_occurs pat a k : find_window pat (a ++ pat ++ k) <> None.
Proof.
  induction a as [|x a IH].
  - simpl app. assert (starts_with pat (pat ++ k) = true) as H by (apply starts_with_spec; eauto).
    destruct (pat ++ k); simpl; by rewrite H.
  - rewrite <- app_comm_cons. cbn [find_window]. destruct (starts_with _ _); [done|].
    by destruct (find_window pat (a ++ pat ++ k)).
Qed.

Definition CRLF : bytes := [x0d; x0a].

(** A line that contains no line feed ends at its CRLF. *)
Lemma find_window_crlf a k :
  x0a ∉ a -> find_window CRLF (a ++ CRLF ++ k) = Some (length a).
Proof.
  induction a as [|x a IH]; intros Ha; [done|].
  apply not_elem_of_cons in Ha as [Hx Ha]. rewrite <- app_comm_cons. cbn [find_window].
  destruct (starts_with CRLF (x :: a ++ CRLF ++ k)) eqn:E.
  - exfalso. unfold CRLF in E. cbn [starts_with] in E.
    apply andb_true_iff in E as [_ E]. destruct a as [|y a]; [done|].
    apply not_elem_of_cons in Ha as [Hy _]. cbn [app starts_with] in E.
    rewrite andb_true_r in E. apply eqb_byte_true in E. congruence.
  - rewrite (IH Ha). done.
Qed.

Lemma contains_spec c l : contains c l = true <-> c ∈ l.
Proof.
  unfold contains. rewrite existsb_exists. split.
  - intros (x & Hx & E). apply eqb_byte_true in E as ->. by apply list_elem_of_In.
  - intros H. exists c. split; [by apply list_elem_of_In | apply eqb_byte_refl].
Qed.

Lemma position_app c a k : c ∉ a -> position c (a ++ c :: k) = Some (length a).
Proof.
  induction a as [|x a IH]; intros H; simpl; [by rewrite eqb_byte_refl|].
  apply not_elem_of_cons in H as [Hx H]. rewrite (IH H).
  destruct (Byte.eqb x c) eqn:E; [apply eqb_byte_true in E; congruence | done].
Qed.

Lemma split_once_app c a k : c ∉ a -> split_once c (a ++ c :: k) = Some (a, k).
Proof.
  induction a as [|x a IH]; intros H; simpl; [by rewrite eqb_byte_refl|].
  apply not_elem_of_cons in H as [Hx H]. rewrite (IH H).
  destruct (Byte.eqb x c) eqn:E; [apply eqb_byte_true in E; congruence | done].
Qed.

Lemma split_on_nonempty c l : split_on c l <> [].
Proof. destruct l; simpl; [done|]. destruct (Byte.eqb b c), (split_on c l); done. Qed.

Lemma split_on_none c l : c ∉ l -> split_on c l = [l].
Proof.
  induction l as [|x l IH]; intros H; simpl; [done|].
  apply not_elem_of_cons in H as [Hx H]. rewrite (IH H).
  destruct (Byte.eqb x c) eqn:E; [apply eqb_byte_true in E; congruence | done].
Qed.

Lemma split_on_app c a k : c ∉ a -> split_on c (a ++ c :: k) = a :: split_on c k.
Proof.
  induction a as [|x a IH]; intros H; simpl; [by rewrite eqb_byte_refl|].
  apply not_elem_of_cons in H as [Hx H]. rewrite (IH H).
  destruct (Byte.eqb x c) eqn:E; [apply eqb_byte_true in E; congruence | done].
Qed.

(** Splitting is the inverse of joining pieces that do not contain the
    separator, and joining is the inverse of splitting. *)
Lemma split_join c ls :
  ls <> [] -> Forall (fun l => c ∉ l) ls -> split_on c (join_with c ls) = ls.
Proof.
  induction ls as [|l ls IH]; intros Hne HF; [done|].
  apply Forall_cons in HF as [? ?]. destruct ls as [|l' ls]; cbn [join_with]; [by apply split_on_none|].
  rewrite split_on_app by done. f_equal. by apply IH.
Qed.

Lemma join_split c l : join_with c (split_on c l) = l.
Proof.
  induction l as [|x l IH]; simpl; [done|].
  pose proof (split_on_nonempty c l) as Hne.
  destruct (split_on c l) as [|s r] eqn:E; [done|]. destruct (Byte.eqb x c) eqn:F.
  - apply eqb_byte_true in F as ->. by rewrite <- IH.
  - rewrite <- IH. by destruct r.
Qed.

Lemma split_on_pieces c l : Forall (fun p => c ∉ p) (split_on c l).
Proof.
  induction l as [|x l IH]; simpl; [constructor; [set_solver | done]|].
  destruct (Byte.eqb x c) eqn:E; [constructor; [set_solver | done]|].
  apply eqb_byte_false in E. pose proof (split_on_nonempty c l).
  destruct (split_on c l) as [|s r]; [done|]. apply Forall_cons in IH as [? ?].
  constructor; [by apply not_elem_of_cons | done].
Qed.

(** ** Facts about trimming *)

Lemma drop_while_stop f x l : f x = false -> drop_while f (x :: l) = x :: l.
Proof. intros H. simpl. by rewrite H. Qed.

Lemma drop_while_spec f l :
  exists p, l = p ++ drop_while f l /\ Forall (fun b => f b = true) p /\
            (forall x r, drop_while f l = x :: r -> f x = false).
Proof.
  induction l as [|x l (p & E & Hp & Hs)]; simpl; [exists []; done|].
  destruct (f x) eqn:F.
  - exists (x :: p). simpl. split; [by f_equal|]. auto.
  - exists []. split; [done|]. split; [done|]. intros ? ? [= -> ->]. done.
Qed.

(** [trim_while f l] is what is left of [l] between two runs of [f]-bytes. *)
Lemma trim_while_spec f l :
  exists p s, l = p ++ trim_while f l ++ s /\
    Forall (fun b => f b = true) p /\ Forall (fun b => f b = true) s /\
    (forall x r, trim_while f l = x :: r -> f x = false) /\
    (forall r x, trim_while f l = r ++ [x] -> f x = false).
Proof.
  unfold trim_while, trim_end_while.
  destruct (drop_while_spec f l) as (p & E & Hp & Hs).
  destruct (drop_while_spec f (rev (drop_while f l))) as (q & E' & Hq & Hs').
  exists p, (rev q). split_and!; [|done|by apply Forall_rev| |].
  - rewrite E at 1. f_equal. rewrite <- rev_app_distr, <- E'. by rewrite rev_involutive.
  - intros x r H. apply (Hs x (r ++ rev q)).
    rewrite <- (rev_involutive (drop_while f l)), E', rev_app_distr, H. done.
  - intros r x H. apply (Hs' x (rev r)). apply (f_equal (@rev byte)) in H.
    rewrite rev_involutive, rev_app_distr in H. done.
Qed.

(** Text whose first and last bytes are not trimmed is left alone. *)
Lemma trim_while_id f l :
  (forall x r, l = x :: r -> f x = false) -> (forall r x, l = r ++ [x] -> f x = false) ->
  trim_while f l = l.
Proof.
  intros Hh Ht. unfold trim_while, trim_end_while.
  assert (drop_while f l = l) as ->.
  { destruct l as [|x l]; [done|]. apply drop_while_stop. by apply (Hh x l). }
  destruct (rev l) as [|x r] eqn:E.
  - simpl. apply (f_equal (@rev byte)) in E. rewrite rev_involutive in E. done.
  - rewrite drop_while_stop, <- E; [by rewrite rev_involutive|].
    apply (Ht (rev r) x). apply (f_equal (@rev byte)) in E.
    rewrite rev_involutive in E. done.
Qed.

Lemma trim_while_idem f l : trim_while f (trim_while f l) = trim_while f l.
Proof.
  destruct (trim_while_spec f l) as (? & ? & _ & _ & _ & Hh & Ht).
  apply trim_while_id; eauto.
Qed.

(** ** Integers print and parse back *)

Definition is_digit_char (radix : Z) (b : byte) : Prop :=
  exists d, 0 <= d < radix /\ b = digit_char d.

Lemma digit_char_range d : 0 <= d < 36 -> 48 <= bz (digit_char d) <= 122.
Proof. intros H. unfold digit_char. bool_cases; rewrite bz_byte_of_Z; lia. Qed.

Lemma to_digit_digit_char radix d :
  0 <= d < radix -> radix <= 36 -> to_digit radix (digit_char d) = Some d.
Proof.
  intros H Hr. unfold to_digit, in_range.
  assert (bz (digit_char d) = if d <? 10 then 48 + d else 87 + d) as ->.
  { unfold digit_char. bool_cases; rewrite bz_byte_of_Z; lia. }
  bool_cases; try lia; f_equal; lia.
Qed.

Lemma parse_print_loop radix max fuel n acc :
  2 <= radix <= 36 -> 0 <= n <= max -> n < radix ^ Z.of_nat fuel -> (0 < fuel)%nat ->
  parse_digits radix max 0 (print_loop fuel radix n acc) = parse_digits radix max n acc.
Proof.
  intros Hr. revert n acc. induction fuel as [|fuel IH]; intros n acc Hn Hf H0; [lia|].
  cbn [print_loop]. destruct (n <? radix) eqn:E; bool_cases.
  - cbn [parse_digits]. rewrite to_digit_digit_char; [|apply Z.mod_pos_bound; lia|lia].
    rewrite Z.mod_small by lia. replace (0 * radix + n) with n by lia.
    destruct (max <? n) eqn:M; bool_cases; [lia | done].
  - rewrite Nat2Z.inj_succ, Z.pow_succ_r in Hf by lia.
    assert (0 <= n / radix) by (apply Z.div_pos; lia).
    assert (n / radix < radix ^ Z.of_nat fuel) by (apply Z.div_lt_upper_bound; lia).
    assert (1 <= n / radix) by (apply Z.div_le_lower_bound; lia).
    assert (n / radix <= n) by (apply Z.div_le_upper_bound; nia).
    rewrite IH; [|lia|done|destruct fuel; [simpl in *; lia | lia]].
    cbn [parse_digits]. rewrite to_digit_digit_char; [|apply Z.mod_pos_bound; lia|lia].
    replace (n / radix * radix + n mod radix) with n
      by (pose proof (Z.div_mod n radix); lia).
    destruct (max <? n) eqn:M; bool_cases; [lia | done].
Qed.

Lemma print_loop_chars radix fuel n acc :
  2 <= radix -> 0 <= n -> Forall (is_digit_char radix) acc ->
  Forall (is_digit_char radix) (print_loop fuel radix n acc).
Proof.
  intros Hr. revert n acc. induction fuel as [|fuel IH]; intros n acc Hn Ha; [done|].
  cbn [print_loop].
  assert (Forall (is_digit_char radix) (digit_char (n mod radix) :: acc)).
  { constructor; [|done]. eexists; split; [|done]. apply Z.mod_pos_bound; lia. }
  destruct (n <? radix); [done|]. apply IH; [apply Z.div_pos; lia | done].
Qed.

Lemma print_loop_nonempty radix fuel n acc :
  (0 < fuel)%nat \/ acc <> [] -> print_loop fuel radix n acc <> [].
Proof.
  revert n acc. induction fuel as [|fuel IH]; intros n acc [H|H]; simpl; try done; try lia;
    (destruct (n <? radix); [done|]; apply IH; right; done).
Qed.

Lemma log2_fuel radix n : 2 <= radix -> 0 <= n -> n < radix ^ Z.of_nat (S (Z.to_nat (Z.log2 n))).
Proof.
  intros Hr Hn. destruct (Z.eq_dec n 0) as [->|Hn0]; [apply Z.pow_pos_nonneg; lia|].
  assert (n < 2 ^ Z.succ (Z.log2 n)) as H by (apply Z.log2_spec; lia).
  eapply Z.lt_le_trans; [exact H|].
  rewrite Nat2Z.inj_succ, Z2Nat.id by apply Z.log2_nonneg.
  apply Z.pow_le_mono_l. pose proof (Z.log2_nonneg n). lia.
Qed.

Lemma print_radix_chars radix n :
  2 <= radix -> 0 <= n -> Forall (is_digit_char radix) (print_radix radix n).
Proof. intros. by apply print_loop_chars. Qed.

Lemma print_radix_nonempty radix n : print_radix radix n <> [].
Proof. apply print_loop_nonempty. left. lia. Qed.

(** [from_str_radix] reads back what [to_string]/[{:x}] printed. *)
Lemma parse_print_radix radix max n :
  2 <= radix <= 36 -> 0 <= n <= max -> from_str_radix radix max (print_radix radix n) = Some n.
Proof.
  intros Hr Hn.
  assert (parse_digits radix max 0 (print_radix radix n) = Some n) as E.
  { unfold print_radix. rewrite parse_print_loop; [done|lia|lia| |lia]. apply log2_fuel; lia. }
  pose proof (print_radix_chars radix n) as HF.
  destruct (print_radix radix n) as [|c l] eqn:P; [by apply print_radix_nonempty in P|].
  assert (48 <= bz c) as Hc.
  { assert (Forall (is_digit_char radix) (c :: l)) as HF' by (apply HF; lia).
    inversion_clear HF' as [|? ? Hd _]. destruct Hd as (d & Hd & ->).
    pose proof (digit_char_range d). lia. }
  assert (Byte.eqb c "+" = false) as Hp.
  { apply eqb_byte_false. intros ->. vm_compute in Hc. by apply Hc. }
  assert (Byte.eqb c "-" = false) as Hm.
  { apply eqb_byte_false. intros ->. vm_compute in Hc. by apply Hc. }
  unfold from_str_radix. rewrite Hp, Hm. by destruct l.
Qed.

(** A byte below 48 (white space, CR, LF) never appears in a printed number. *)
Lemma print_radix_not_elem radix n b :
  2 <= radix <= 36 -> 0 <= n -> bz b < 48 -> b ∉ print_radix radix n.
Proof.
  intros Hr Hn Hb Hin. pose proof (print_radix_chars radix n ltac:(lia) Hn) as HF.
  rewrite Forall_forall in HF. destruct (HF _ Hin) as (d & Hd & ->).
  pose proof (digit_char_range d). lia.
Qed.

Lemma utf8_ascii l : Forall (fun b => bz b < 128) l -> utf8_valid l = true.
Proof.
  induction 1 as [|b l Hb _ IH]; [done|]. cbn [utf8_valid].
  destruct (bz b <? 128) eqn:E; bool_hyps; [done | lia].
Qed.

Lemma length_print_loop radix fuel n acc :
  (length (print_loop fuel radix n acc) <= fuel + length acc)%nat.
Proof.
  revert n acc. induction fuel as [|fuel IH]; intros n acc; simpl; [lia|].
  destruct (n <? radix); simpl; [lia|].
  specialize (IH (n / radix) (digit_char (n mod radix) :: acc)). simpl in IH. lia.
Qed.

(** A 64-bit number has at most 64 digits in any radix. *)
Lemma zlen_print_radix radix n : 0 <= n <= U64_MAX -> zlen (print_radix radix n) <= 64.
Proof.
  intros Hn. unfold zlen, print_radix. pose proof (length_print_loop radix (S (Z.to_nat (Z.log2 n))) n []).
  simpl length in *. pose proof (Z.log2_nonneg n).
  assert (Z.log2 n <= Z.log2 U64_MAX) by (apply Z.log2_le_mono; lia).
  change (Z.log2 U64_MAX) with 63 in *. lia.
Qed.

Lemma to_digit_range radix c d : to_digit radix c = Some d -> 0 <= d < radix.
Proof.
  unfold to_digit, in_range. pose proof (bz_range c).
  intros H'. bool_cases; simplify_eq; lia.
Qed.

Lemma parse_digits_range radix max acc l n :
  0 < radix -> 0 <= acc <= max -> parse_digits radix max acc l = Some n -> 0 <= n <= max.
Proof.
  intros Hr. revert acc. induction l as [|c l IH]; intros acc Hacc; simpl; [intros [= <-]; lia|].
  destruct (to_digit radix c) as [d|] eqn:E; [|done]. apply to_digit_range in E.
  destruct (max <? acc * radix + d) eqn:M; bool_hyps; [done|]. apply IH. nia.
Qed.

Lemma from_str_radix_range radix max l n :
  0 < radix -> 0 <= max -> from_str_radix radix max l = Some n -> 0 <= n <= max.
Proof.
  intros Hr Hm. unfold from_str_radix. destruct l as [|c l]; [done|].
  destruct l; [destruct (_ || _); [done|]|]; apply parse_digits_range; lia.
Qed.

(** ** Texts: an element between white space, and decimal numbers *)

(** [e] is [v] without the [f]-bytes around it. *)
Definition trimmed (f : byte -> bool) (v e : bytes) : Prop :=
  exists p s, v = p ++ e ++ s /\
    Forall (fun b => f b = true) p /\ Forall (fun b => f b = true) s /\
    (forall x r, e = x :: r -> f x = false) /\ (forall r x, e = r ++ [x] -> f x = false).

Lemma drop_while_app f p l : Forall (fun b => f b = true) p -> drop_while f (p ++ l) = drop_while f l.
Proof. induction 1 as [|x p Hx _ IH]; simpl; [done|]. by rewrite Hx. Qed.

Lemma trim_end_while_app f l s :
  Forall (fun b => f b = true) s -> trim_end_while f (l ++ s) = trim_end_while f l.
Proof. intros Hs. unfold trim_end_while. by rewrite rev_app_distr, drop_while_app by by apply Forall_rev. Qed.

Lemma trim_while_all f p : Forall (fun b => f b = true) p -> trim_while f p = [].
Proof. intros H. unfold trim_while. rewrite <- (app_nil_r p), drop_while_app by done. done. Qed.

Lemma trimmed_iff f v e : trimmed f v e <-> e = trim_while f v.
Proof.
  split.
  - intros (p & s & -> & Hp & Hs & Hh & Ht). destruct e as [|x e].
    + simpl. symmetry. apply trim_while_all. by apply Forall_app.
    + unfold trim_while. rewrite drop_while_app by done. rewrite <- app_comm_cons.
      rewrite drop_while_stop by (by apply (Hh x e)). rewrite app_comm_cons, trim_end_while_app by done.
      rewrite <- (trim_while_id f (x :: e) Hh Ht) at 1. unfold trim_while.
      by rewrite drop_while_stop by (by apply (Hh x e)).
  - intros ->. destruct (trim_while_spec f v) as (p & s & E & ?). by exists p, s.
Qed.

Definition dec_digit (c : byte) : Prop := 48 <= bz c <= 57.
Definition dec_value (l : bytes) : Z := fold_left (fun a c => a * 10 + (bz c - 48)) l 0.

Lemma to_digit_dec c d : to_digit 10 c = Some d <-> dec_digit c /\ d = bz c - 48.
Proof.
  unfold to_digit, in_range, dec_digit. pose proof (bz_range c).
  split; [intros E | intros [? ->]]; bool_cases; simplify_eq; try lia; done.
Qed.

Lemma dec_fold_grows l : forall a, 0 <= a -> Forall dec_digit l ->
  a <= fold_left (fun a c => a * 10 + (bz c - 48)) l a.
Proof.
  induction l as [|c l IH]; intros a Ha HF; simpl; [lia|].
  apply Forall_cons in HF as [Hc HF]. unfold dec_digit in Hc.
  etransitivity; [|apply IH; [lia | done]]. lia.
Qed.

Lemma parse_digits_dec max l : forall acc n, 0 <= acc <= max ->
  parse_digits 10 max acc l = Some n <->
  Forall dec_digit l /\ n = fold_left (fun a c => a * 10 + (bz c - 48)) l acc /\ n <= max.
Proof.
  induction l as [|c l IH]; intros acc n Ha; simpl.
  - split; [intros [= <-]; split_and!; [constructor | done | lia] | by intros (_ & -> & _)].
  - rewrite Forall_cons. destruct (to_digit 10 c) as [d|] eqn:E.
    + apply to_digit_dec in E as [Hc ->]. unfold dec_digit in *.
      destruct (max <? _) eqn:M; bool_hyps.
      * split; [done|]. intros ([_ HF] & -> & Hm). exfalso.
        pose proof (dec_fold_grows l (acc * 10 + (bz c - 48)) ltac:(lia) HF). lia.
      * rewrite IH by lia. naive_solver.
    + split; [done|]. intros ([Hc _] & _). exfalso.
      assert (to_digit 10 c = Some (bz c - 48)) by (by apply to_digit_dec). congruence.
Qed.

(** [str::parse] of an unsigned integer: an optional plus sign and at least one
    decimal digit, whose value is at most the maximum. *)
Definition dec_text (max : Z) (l : bytes) (n : Z) : Prop :=
  exists plus ds, l = plus ++ ds /\ (plus = [] \/ plus = bs "+") /\ ds <> [] /\
    Forall dec_digit ds /\ n = dec_value ds /\ n <= max.

Lemma from_str_radix_dec max l n :
  0 <= max -> from_str_radix 10 max l = Some n <-> dec_text max l n.
Proof.
  intros Hm. split.
  - destruct l as [|c [|c' l]]; [done| |]; unfold from_str_radix.
    + destruct (Byte.eqb c "+" || Byte.eqb c "-"); [done|].
      intros H%parse_digits_dec; [|lia]. exists [], [c]. naive_solver.
    + destruct (Byte.eqb c "+") eqn:E; intros H%parse_digits_dec; try lia.
      * apply eqb_byte_true in E as ->. exists (bs "+"), (c' :: l). naive_solver.
      * exists [], (c :: c' :: l). naive_solver.
  - intros (plus & ds & -> & Hp & Hne & HF & -> & Hn).
    assert (parse_digits 10 max 0 ds = Some (dec_value ds)) as E by (apply parse_digits_dec; [lia | done]).
    destruct ds as [|c ds]; [done|]. apply Forall_cons in HF as [Hc _].
    assert (Byte.eqb c "+" = false /\ Byte.eqb c "-" = false) as [E1 E2].
    { split; apply eqb_byte_false; intros ->; by destruct Hc. }
    destruct Hp as [-> | ->]; [|done].
    unfold from_str_radix. simpl app. destruct ds; by rewrite E1, ?E2.
Qed.

Lemma dec_text_ascii max l n : dec_text max l n -> utf8_valid l = true.
Proof.
  intros (plus & ds & -> & Hp & _ & HF & _). apply utf8_ascii, Forall_app. split.
  - destruct Hp as [-> | ->]; repeat constructor.
  - eapply Forall_impl; [exact HF|]. unfold dec_digit. intros; lia.
Qed.
