(* ===== verification/HttpLib.v ===== *)
(** * The interface of the [http] crate

    The crates use [http::Uri], [http::HeaderMap], [HeaderName], [HeaderValue]
    and [StatusCode], whose code is not part of the repository.  [HttpLib] is
    the record of the operations used, [HttpLaws] the documented behaviour the
    crates rely on; every definition and theorem that touches these types is
    stated over any implementation of the interface.  [RefHttp] is a small
    concrete implementation: it shows that the laws can hold together, and the
    witnesses evaluate on it. *)

From Stdlib Require Import ZArith Lia String.
From Stdlib Require Import Strings.Byte.
From stdpp Require Import countable base option list.
From S2P Require Import Prelude Bytes.

Open Scope Z_scope.

(** Byte strings are keys of maps. *)
#[export] Instance byte_countable : Countable byte := inj_countable Byte.to_N Byte.of_N Byte.of_to_N.

(** [HeaderName::as_str] (always lower case), [HeaderValue::as_bytes],
    [Method::as_str] and [StatusCode::as_u16] are the models of the types. *)
Abbreviation HeaderName := bytes (only parsing).
Abbreviation HeaderValue := bytes (only parsing).
Abbreviation Method := bytes (only parsing).
Abbreviation StatusCode := Z (only parsing).

Inductive Version := HTTP_09 | HTTP_10 | HTTP_11 | HTTP_2 | HTTP_3.
#[export] Instance Version_eq_dec : EqDecision Version.
Proof. solve_decision. Defined.

(** Constants of the [http] crate. *)
Definition GET : Method := bs "GET".
Definition POST : Method := bs "POST".
Definition PUT : Method := bs "PUT".
Definition PATCH : Method := bs "PATCH".
Definition DELETE : Method := bs "DELETE".
Definition HEAD : Method := bs "HEAD".
Definition OPTIONS : Method := bs "OPTIONS".
Definition CONNECT : Method := bs "CONNECT".
Definition HOST : HeaderName := bs "host".
Definition CONNECTION : HeaderName := bs "connection".
Definition CONTENT_LENGTH : HeaderName := bs "content-length".
Definition CONTENT_TYPE : HeaderName := bs "content-type".
Definition TRANSFER_ENCODING : HeaderName := bs "transfer-encoding".
Definition ALLOW : HeaderName := bs "allow".
Definition ORIGIN : HeaderName := bs "origin".
Definition CACHE_CONTROL : HeaderName := bs "cache-control".

(** [http::uri::Parts]: the public fields of a taken-apart URI. *)
Record UriParts (Scheme Authority PathAndQuery : Type) := mkParts {
  p_scheme : option Scheme;
  p_authority : option Authority;
  p_path_and_query : option PathAndQuery
}.
Arguments mkParts {Scheme Authority PathAndQuery} _ _ _.
Arguments p_scheme {Scheme Authority PathAndQuery} _.
Arguments p_authority {Scheme Authority PathAndQuery} _.
Arguments p_path_and_query {Scheme Authority PathAndQuery} _.

Class HttpLib := {
  (* http::uri *)
  Scheme : Type;
  Authority : Type;
  PathAndQuery : Type;
  Uri : Type;
  SCHEME_HTTP : Scheme;
  SCHEME_HTTPS : Scheme;
  scheme_as_str : Scheme -> bytes;
  authority_as_str : Authority -> bytes;
  authority_host : Authority -> bytes;
  authority_port : Authority -> option bytes;     (* Port::as_str *)
  authority_port_u16 : Authority -> option Z;
  paq_as_str : PathAndQuery -> bytes;
  paq_slash : PathAndQuery;                       (* parse of "/" *)
  uri_into_parts : Uri -> UriParts Scheme Authority PathAndQuery;
  uri_from_parts : UriParts Scheme Authority PathAndQuery -> option Uri;
  uri_default : Uri;
  uri_display : Uri -> bytes;
  uri_path : Uri -> bytes;
  uri_query : Uri -> option bytes;
  (* http::header *)
  HeaderMap : Type;
  hm_new : HeaderMap;
  hm_get_all : HeaderName -> HeaderMap -> list HeaderValue;
  hm_insert : HeaderName -> HeaderValue -> HeaderMap -> HeaderMap;
  hm_append : HeaderName -> HeaderValue -> HeaderMap -> HeaderMap;
  hm_extend : HeaderMap -> HeaderMap -> HeaderMap;   (* Extend: the other map's names win *)
  hm_iter : HeaderMap -> list (HeaderName * HeaderValue);
  header_name_from_bytes : bytes -> option HeaderName;
  header_value_from_bytes : bytes -> option HeaderValue;
  (* http::StatusCode *)
  status_from_u16 : Z -> option StatusCode
}.

(** Accessors derived from the ones above, as [http] documents them. *)
Section Derived.
Context {L : HttpLib}.

Definition uri_scheme (u : Uri) : option Scheme := p_scheme (uri_into_parts u).
Definition uri_authority (u : Uri) : option Authority := p_authority (uri_into_parts u).
Definition uri_path_and_query (u : Uri) : option PathAndQuery :=
  p_path_and_query (uri_into_parts u).
Definition uri_scheme_str (u : Uri) : option bytes := scheme_as_str <$> uri_scheme u.
Definition uri_host (u : Uri) : option bytes := authority_host <$> uri_authority u.
Definition uri_port (u : Uri) : option bytes := uri_authority u ≫= authority_port.
Definition uri_port_u16 (u : Uri) : option Z := uri_authority u ≫= authority_port_u16.

Definition hm_get (n : HeaderName) (m : HeaderMap) : option HeaderValue := head (hm_get_all n m).
Definition hm_contains (n : HeaderName) (m : HeaderMap) : bool :=
  match hm_get_all n m with [] => false | _ => true end.
End Derived.

Class HttpLaws (L : HttpLib) := {
  scheme_str_http : scheme_as_str SCHEME_HTTP = bs "http";
  scheme_str_https : scheme_as_str SCHEME_HTTPS = bs "https";
  paq_slash_str : paq_as_str paq_slash = bs "/";
  (* Uri::from_parts accepts the three shapes the crates build, and the parts
     of the result are the parts it was given. *)
  from_parts_absolute s a p :
    exists u, uri_from_parts (mkParts (Some s) (Some a) (Some p)) = Some u
      /\ uri_into_parts u = mkParts (Some s) (Some a) (Some p);
  from_parts_origin p :
    exists u, uri_from_parts (mkParts None None (Some p)) = Some u
      /\ uri_into_parts u = mkParts None None (Some p);
  from_parts_authority a :
    exists u, uri_from_parts (mkParts None (Some a) None) = Some u
      /\ uri_into_parts u = mkParts None (Some a) None;
  (* A default Uri is the root path. *)
  into_parts_default : uri_into_parts uri_default = mkParts None None (Some paq_slash);
  (* the host and port of a URI are characters a header value may hold *)
  header_value_host a : header_value_from_bytes (authority_host a) = Some (authority_host a);
  header_value_host_port a p :
    authority_port a = Some p ->
    header_value_from_bytes (authority_host a ++ ":"%byte :: p)
      = Some (authority_host a ++ ":"%byte :: p);
  (* HeaderMap: a multimap; insert replaces, append adds at the end. *)
  get_all_new n : hm_get_all n hm_new = [];
  get_all_insert_eq n v m : hm_get_all n (hm_insert n v m) = [v];
  get_all_insert_ne n n' v m : n <> n' -> hm_get_all n' (hm_insert n v m) = hm_get_all n' m;
  get_all_append_eq n v m : hm_get_all n (hm_append n v m) = hm_get_all n m ++ [v];
  get_all_append_ne n n' v m : n <> n' -> hm_get_all n' (hm_append n v m) = hm_get_all n' m;
  (* a name of the extending map replaces all values it had *)
  get_all_extend n m other :
    hm_get_all n (hm_extend m other) = match hm_get_all n other with [] => hm_get_all n m | vs => vs end;
  (* iteration yields every value of every name *)
  iter_get_all n m :
    map snd (filter (fun '(k, _) => k = n) (hm_iter m)) = hm_get_all n m;
  (* decimal text is a legal header value *)
  header_value_decimal n : 0 <= n -> header_value_from_bytes (print_dec n) = Some (print_dec n);
  (* StatusCode::from_u16 accepts 100..=999 *)
  status_from_u16_spec n :
    status_from_u16 n = if (100 <=? n) && (n <? 1000) then Some n else None
}.

Section Facts.
Context {L : HttpLib} {W : HttpLaws L}.

Lemma hm_contains_spec n m : hm_contains n m = true <-> hm_get_all n m <> [].
Proof. unfold hm_contains. destruct (hm_get_all n m); split; congruence. Qed.

Lemma hm_contains_false n m : hm_contains n m = false <-> hm_get_all n m = [].
Proof. unfold hm_contains. destruct (hm_get_all n m); split; congruence. Qed.

Lemma get_insert_eq n v m : hm_get n (hm_insert n v m) = Some v.
Proof. unfold hm_get. by rewrite get_all_insert_eq. Qed.

Lemma get_insert_ne n n' v m : n <> n' -> hm_get n' (hm_insert n v m) = hm_get n' m.
Proof. intros. unfold hm_get. by rewrite get_all_insert_ne. Qed.
End Facts.

#[export] Hint Rewrite @get_all_insert_eq @get_all_append_eq @get_all_new : h12.

(** ** Requests

    [http::Request<B>]: the head and a body. *)
Record Request `{HttpLib} (B : Type) := mkRequest {
  r_method : Method;
  r_uri : Uri;
  r_version : Version;
  r_headers : HeaderMap;
  r_body : B
}.
Arguments mkRequest {_ B} _ _ _ _ _.
Arguments r_method {_ B} _.
Arguments r_uri {_ B} _.
Arguments r_version {_ B} _.
Arguments r_headers {_ B} _.
Arguments r_body {_ B} _.

Definition with_uri `{HttpLib} {B} (u : Uri) (r : Request B) : Request B :=
  mkRequest (r_method r) u (r_version r) (r_headers r) (r_body r).
Definition with_headers `{HttpLib} {B} (h : HeaderMap) (r : Request B) : Request B :=
  mkRequest (r_method r) (r_uri r) (r_version r) h (r_body r).

(** [http::Response<B>]. *)
Record Response `{HttpLib} (B : Type) := mkResponse {
  rs_status : StatusCode;
  rs_version : Version;
  rs_headers : HeaderMap;
  rs_body : B
}.
Arguments mkResponse {_ B} _ _ _ _.
Arguments rs_status {_ B} _.
Arguments rs_version {_ B} _.
Arguments rs_headers {_ B} _.
Arguments rs_body {_ B} _.

(** [StatusCode::is_informational] and the codes the crates name. *)
Definition is_informational (s : StatusCode) : bool := (100 <=? s) && (s <? 200).
Definition SWITCHING_PROTOCOLS : StatusCode := 101.
Definition NO_CONTENT : StatusCode := 204.
Definition NOT_MODIFIED : StatusCode := 304.

(** ** A concrete implementation of the interface

    URIs are their parts, an authority is a host with the text and the value
    of its port, a header map is the list of its fields in order. *)
Module RefHttp.

Record RefAuthority := mkAuth { a_host : bytes; a_port : option Z }.

(** Only characters [HeaderValue::from_bytes] documents as legal. *)
Definition value_char (b : byte) : bool :=
  ((32 <=? bz b) && negb (bz b =? 127)) || (bz b =? 9).

(** RFC 9110 token characters. *)
Definition token_char (b : byte) : bool :=
  in_range 48 57 b || in_range 65 90 b || in_range 97 122 b
  || contains b (bs "!#$%&'*+-.^_`|~").

Definition host_text (a : RefAuthority) : bytes := List.filter value_char (a_host a).

Definition drop_name (n : bytes) (m : list (bytes * bytes)) : list (bytes * bytes) :=
  filter (fun '(k, _) => k <> n) m.
Definition values_of (n : bytes) (m : list (bytes * bytes)) : list bytes :=
  map snd (filter (fun '(k, _) => k = n) m).

Definition port_text (a : RefAuthority) : option bytes :=
  match a_port a with
  | Some p => if 0 <=? p then Some (print_dec p) else None
  | None => None
  end.

Definition valid_parts (p : UriParts bytes RefAuthority bytes) : bool :=
  match p_scheme p, p_authority p, p_path_and_query p with
  | Some _, Some _, Some _ | None, None, Some _ | None, Some _, None => true
  | _, _, _ => false
  end.

Definition display_parts (p : UriParts bytes RefAuthority bytes) : bytes :=
  match p_scheme p with Some s => s ++ bs "://" | None => [] end
  ++ match p_authority p with
     | Some a => host_text a ++ match port_text a with Some p => ":"%byte :: p | None => [] end
     | None => []
     end
  ++ default [] (p_path_and_query p).

#[export] Instance lib : HttpLib := {|
  Scheme := bytes;
  Authority := RefAuthority;
  PathAndQuery := bytes;
  Uri := UriParts bytes RefAuthority bytes;
  SCHEME_HTTP := bs "http";
  SCHEME_HTTPS := bs "https";
  scheme_as_str := id;
  authority_as_str a := display_parts (mkParts None (Some a) None);
  authority_host := host_text;
  authority_port := port_text;
  authority_port_u16 a := a_port a;
  paq_as_str := id;
  paq_slash := bs "/";
  uri_into_parts := id;
  uri_from_parts p := if valid_parts p then Some p else None;
  uri_default := mkParts None None (Some (bs "/"));
  uri_display := display_parts;
  uri_path p := match split_once "?" (default [] (p_path_and_query p)) with
                | Some (path, _) => path
                | None => default [] (p_path_and_query p)
                end;
  uri_query p := snd <$> split_once "?" (default [] (p_path_and_query p));
  HeaderMap := list (bytes * bytes);
  hm_new := [];
  hm_get_all := values_of;
  hm_insert n v m := drop_name n m ++ [(n, v)];
  hm_append n v m := m ++ [(n, v)];
  hm_extend m other := filter (fun '(k, _) => values_of k other = []) m ++ other;
  hm_iter := id;
  header_name_from_bytes b :=
    if negb (bytes_eqb b []) && forallb token_char b then Some (map to_lower b) else None;
  header_value_from_bytes b := if forallb value_char b then Some b else None;
  status_from_u16 n := if (100 <=? n) && (n <? 1000) then Some n else None
|}.

Lemma values_of_app n m m' : values_of n (m ++ m') = values_of n m ++ values_of n m'.
Proof. unfold values_of. by rewrite filter_app, map_app. Qed.

Lemma values_of_drop_eq n m : values_of n (drop_name n m) = [].
Proof.
  unfold values_of, drop_name. induction m as [|[k v] m IH]; [done|].
  rewrite filter_cons. case_decide; [|done]. rewrite filter_cons.
  case_decide; [congruence | done].
Qed.

Lemma values_of_drop_ne n n' m : n <> n' -> values_of n' (drop_name n m) = values_of n' m.
Proof.
  intros Hne. unfold values_of, drop_name. induction m as [|[k v] m IH]; [done|].
  rewrite !filter_cons. repeat (case_decide; simplify_eq; rewrite ?filter_cons; simpl);
    try congruence.
Qed.

Lemma values_of_single n n' v : values_of n' [(n, v)] = if decide (n = n') then [v] else [].
Proof. unfold values_of. rewrite filter_cons. simpl. case_decide; done. Qed.

Lemma values_of_extend n m other :
  values_of n (filter (fun '(k, _) => values_of k other = []) m ++ other)
  = match values_of n other with [] => values_of n m | vs => vs end.
Proof.
  rewrite values_of_app. destruct (values_of n other) as [|v vs] eqn:E.
  - rewrite app_nil_r. unfold values_of. induction m as [|[k w] m IH]; [done|].
    rewrite !filter_cons. repeat (case_decide; simplify_eq; rewrite ?filter_cons; simpl); congruence.
  - assert (values_of n (filter (fun '(k, _) => values_of k other = []) m) = []) as ->; [|done].
    unfold values_of at 1. induction m as [|[k w] m IH]; [done|].
    rewrite filter_cons. case_decide; [|done]. rewrite filter_cons. case_decide; [congruence | done].
Qed.

Lemma digit_value_char d : 0 <= d < 36 -> value_char (digit_char d) = true.
Proof.
  intros H. pose proof (digit_char_range d H). unfold value_char.
  apply orb_true_iff; left. apply andb_true_iff. split; [apply Z.leb_le; lia|].
  apply negb_true_iff, Z.eqb_neq; lia.
Qed.

Lemma print_dec_value n : 0 <= n -> forallb value_char (print_dec n) = true.
Proof.
  intros Hn. pose proof (print_radix_chars 10 n ltac:(lia) Hn) as HF.
  apply forallb_forall. intros x Hx. rewrite List.Forall_forall in HF.
  destruct (HF _ Hx) as (d & Hd & ->). apply digit_value_char; lia.
Qed.

Lemma host_text_value a : forallb value_char (host_text a) = true.
Proof.
  apply forallb_forall. intros x Hx. by apply filter_In in Hx as [_ ?].
Qed.

#[export] Instance laws : HttpLaws lib.
Proof.
  constructor; simpl; try done; eauto.
  - intros a. by rewrite host_text_value.
  - intros a p. unfold port_text. destruct (a_port a) as [q|]; [|done].
    destruct (0 <=? q) eqn:E; [|done]. intros [= <-]. apply Z.leb_le in E.
    rewrite forallb_app, host_text_value. simpl. by rewrite print_dec_value.
  - intros n v m. rewrite values_of_app, values_of_drop_eq, values_of_single.
    by rewrite decide_True.
  - intros n n' v m Hne. rewrite values_of_app, values_of_drop_ne, values_of_single by done.
    rewrite decide_False by done. by rewrite app_nil_r.
  - intros n v m. rewrite values_of_app, values_of_single. by rewrite decide_True.
  - intros n n' v m Hne. rewrite values_of_app, values_of_single, decide_False by done.
    by rewrite app_nil_r.
  - intros n m other. apply values_of_extend.
  - intros n Hn. by rewrite print_dec_value.
Qed.
End RefHttp.
