(* ===== verification/Normalize.v ===== *)
(** * Direct-origin request normalization ([h12tiny-client-normalize])

    [crates/h12tiny-client-normalize/src/lib.rs]: the absolute URI of a request
    chooses the peer ([extract_origin]); HTTP/1 then receives an origin-form
    target, or an authority-form one for [CONNECT], and a [Host] header
    ([normalize_http1_request]).  [None] is a panic of one of the [expect]s;
    the theorems show that no request that passed [extract_origin] panics. *)

From Stdlib Require Import ZArith Lia String.
From Stdlib Require Import Strings.Byte.
From stdpp Require Import base option list.
From S2P Require Import Prelude Bytes HttpLib.

Open Scope Z_scope.

Module Normalize.
Section Normalize.
Context {L : HttpLib}.

Record Origin := mkOrigin { scheme : Scheme; authority : Authority }.

(** [Origin::uri]: the origin with the root target. *)
Definition origin_uri (o : Origin) : option Uri :=
  uri_from_parts (mkParts (Some (scheme o)) (Some (authority o)) (Some paq_slash)).

(** [Origin::display]. *)
Definition origin_display (o : Origin) : bytes :=
  scheme_as_str (scheme o) ++ bs "://" ++ authority_as_str (authority o).

Inductive Error := AbsoluteUriRequired.

(** [set_connect_scheme]: the debug assertion, then the rebuilt URI. *)
Definition set_connect_scheme (uri : Uri) (s : Scheme) : option Uri :=
  match uri_scheme uri with
  | Some _ => None
  | None =>
      let parts := uri_into_parts uri in
      uri_from_parts (mkParts (Some s) (p_authority parts) (Some paq_slash))
  end.

(** The scheme assigned to a bare [CONNECT] authority. *)
Definition connect_scheme (a : Authority) : Scheme :=
  match authority_port_u16 a with
  | Some 443 => SCHEME_HTTPS
  | _ => SCHEME_HTTP
  end.

(** [extract_origin(uri: &mut Uri, is_connect)]: the URI it leaves behind and
    its result. *)
Definition extract_origin (uri : Uri) (is_connect : bool)
    : option (Uri * result Origin Error) :=
  match uri_scheme uri, uri_authority uri with
  | Some s, Some a => Some (uri, Ok (mkOrigin s a))
  | None, Some a =>
      if is_connect then
        let s := connect_scheme a in
        uri' ← set_connect_scheme uri s;
        Some (uri', Ok (mkOrigin s a))
      else Some (uri, Err AbsoluteUriRequired)
  | _, _ => Some (uri, Err AbsoluteUriRequired)
  end.

Definition is_secure_scheme (uri : Uri) : bool :=
  match uri_scheme_str uri with
  | Some s => bytes_eqb s (bs "https") || bytes_eqb s (bs "wss")
  | None => false
  end.

Definition non_default_port (uri : Uri) : option bytes :=
  match uri_port_u16 uri, is_secure_scheme uri with
  | Some 443, true | Some 80, false => None
  | _, _ => uri_port uri
  end.

(** The [Host] text [synthesize_host] derives from a URI with host [host]. *)
Definition host_value (uri : Uri) (host : bytes) : bytes :=
  match non_default_port uri with
  | Some port => host ++ ":"%byte :: port
  | None => host
  end.

Definition synthesize_host {B} (request : Request B) : option (Request B) :=
  if hm_contains HOST (r_headers request) then Some request
  else
    host ← uri_host (r_uri request);
    value ← header_value_from_bytes (host_value (r_uri request) host);
    Some (with_headers (hm_insert HOST value (r_headers request)) request).

(** [origin_form]: the path and query alone; an absent or root one becomes the
    default URI [/]. *)
Definition origin_form (uri : Uri) : option Uri :=
  match uri_path_and_query uri with
  | Some path =>
      if bytes_eqb (paq_as_str path) (bs "/") then Some uri_default
      else uri_from_parts (mkParts None None (Some path))
  | None => Some uri_default
  end.

Definition authority_form (uri : Uri) : option Uri :=
  a ← uri_authority uri;
  uri_from_parts (mkParts None (Some a) None).

Definition normalize_http1_request {B} (request : Request B) (set_host : bool)
    : option (Request B) :=
  request ← (if set_host then synthesize_host request else Some request);
  uri ← (if bytes_eqb (r_method request) CONNECT
         then authority_form (r_uri request)
         else origin_form (r_uri request));
  Some (with_uri uri request).

(** ** Lemmas *)
Context {W : HttpLaws L}.

(** A URI that names a peer completely. *)
Definition absolute (u : Uri) : Prop := is_Some (uri_scheme u) /\ is_Some (uri_authority u).

Lemma set_connect_scheme_ok uri s a :
  uri_scheme uri = None -> uri_authority uri = Some a ->
  exists u, set_connect_scheme uri s = Some u
    /\ uri_into_parts u = mkParts (Some s) (Some a) (Some paq_slash).
Proof.
  intros Hs Ha. unfold set_connect_scheme. rewrite Hs.
  unfold uri_authority in Ha. rewrite Ha. apply from_parts_absolute.
Qed.

(** After a successful extraction the URI is absolute and its scheme and
    authority are the origin's. *)
Lemma extract_origin_absolute uri c uri' o :
  extract_origin uri c = Some (uri', Ok o) ->
  uri_scheme uri' = Some (scheme o) /\ uri_authority uri' = Some (authority o).
Proof.
  unfold extract_origin. destruct (uri_scheme uri) as [s|] eqn:Hs, (uri_authority uri) as [a|] eqn:Ha;
    try (intros [= <- <-]; done); try done.
  - destruct c; [|done].
    destruct (set_connect_scheme_ok uri (connect_scheme a) a Hs Ha) as (u & E0 & E).
    simpl. rewrite E0. simpl. intros [= <- <-].
    unfold uri_scheme, uri_authority. by rewrite E.
Qed.

Lemma extract_origin_total uri c : is_Some (extract_origin uri c).
Proof.
  unfold extract_origin.
  destruct (uri_scheme uri) as [s|] eqn:Hs, (uri_authority uri) as [a|] eqn:Ha; try done.
  destruct c; [|done].
  destruct (set_connect_scheme_ok uri (connect_scheme a) a Hs Ha) as (u & -> & _). done.
Qed.

Lemma origin_uri_parts o :
  exists u, origin_uri o = Some u
    /\ uri_into_parts u = mkParts (Some (scheme o)) (Some (authority o)) (Some paq_slash).
Proof. apply from_parts_absolute. Qed.

Lemma host_value_valid u a :
  uri_authority u = Some a ->
  header_value_from_bytes (host_value u (authority_host a))
    = Some (host_value u (authority_host a)).
Proof.
  intros Ha. unfold host_value.
  destruct (non_default_port u) as [p|] eqn:E; [|apply header_value_host].
  apply header_value_host_port. unfold non_default_port, uri_port in E. rewrite Ha in E.
  simpl in E. repeat case_match; simplify_eq; done.
Qed.

(** What [synthesize_host] does to the headers of an absolute request. *)
Definition host_headers (u : Uri) (a : Authority) (m : HeaderMap) : HeaderMap :=
  if hm_contains HOST m then m else hm_insert HOST (host_value u (authority_host a)) m.

Lemma synthesize_host_ok {B} (r : Request B) a :
  uri_authority (r_uri r) = Some a ->
  synthesize_host r = Some (with_headers (host_headers (r_uri r) a (r_headers r)) r).
Proof.
  intros Ha. unfold synthesize_host, host_headers.
  destruct (hm_contains HOST (r_headers r)); [by destruct r|].
  unfold uri_host. rewrite Ha. simpl. by rewrite (host_value_valid _ _ Ha).
Qed.

(** The request target of HTTP/1, as URI parts. *)
Definition wire_target (m : Method) (u : Uri) : UriParts Scheme Authority PathAndQuery :=
  if bytes_eqb m CONNECT then mkParts None (uri_authority u) None
  else mkParts None None
         (Some match uri_path_and_query u with
               | Some p => if bytes_eqb (paq_as_str p) (bs "/") then paq_slash else p
               | None => paq_slash
               end).

Lemma target_ok m u :
  is_Some (uri_authority u) ->
  exists t, (if bytes_eqb m CONNECT then authority_form u else origin_form u) = Some t
    /\ uri_into_parts t = wire_target m u.
Proof.
  intros [a Ha]. unfold wire_target, authority_form, origin_form.
  destruct (bytes_eqb m CONNECT).
  - rewrite Ha. apply from_parts_authority.
  - destruct (uri_path_and_query u) as [p|]; [|eauto using into_parts_default].
    destruct (bytes_eqb (paq_as_str p) (bs "/")); [eauto using into_parts_default|].
    apply from_parts_origin.
Qed.

(** Normalization of an absolute request, in closed form. *)
Lemma normalize_ok {B} (r : Request B) set_host a :
  uri_authority (r_uri r) = Some a ->
  exists t,
    normalize_http1_request r set_host
      = Some (with_uri t
               (with_headers
                  (if set_host then host_headers (r_uri r) a (r_headers r) else r_headers r) r))
    /\ uri_into_parts t = wire_target (r_method r) (r_uri r).
Proof.
  intros Ha. destruct (target_ok (r_method r) (r_uri r)) as (t & E & Et); [eauto|].
  exists t. split; [|done]. unfold normalize_http1_request. destruct set_host; simpl.
  - rewrite (synthesize_host_ok _ _ Ha). simpl. by rewrite E.
  - rewrite E. by destruct r.
Qed.

(** The [Host] of an origin: its host, followed by the port when the authority
    names one that is not the scheme's own: 443 for [https] and [wss], 80 for
    every other scheme. *)
Definition default_port (s : Scheme) : Z :=
  if decide (scheme_as_str s = bs "https" \/ scheme_as_str s = bs "wss") then 443 else 80.

Definition origin_host (o : Origin) : bytes :=
  let a := authority o in
  match authority_port a with
  | Some port =>
      if decide (authority_port_u16 a = Some (default_port (scheme o)))
      then authority_host a
      else authority_host a ++ bs ":" ++ port
  | None => authority_host a
  end.

Lemma is_secure_scheme_default u s :
  uri_scheme u = Some s -> default_port s = if is_secure_scheme u then 443 else 80.
Proof.
  intros Hs. unfold is_secure_scheme, default_port, uri_scheme_str. rewrite Hs. simpl.
  unfold bytes_eqb. repeat case_bool_decide; case_decide; simpl; tauto.
Qed.

Lemma host_value_origin u o :
  uri_scheme u = Some (scheme o) -> uri_authority u = Some (authority o) ->
  host_value u (authority_host (authority o)) = origin_host o.
Proof.
  intros Hs Ha. unfold origin_host, host_value, non_default_port.
  rewrite (is_secure_scheme_default _ _ Hs).
  unfold uri_port_u16, uri_port. rewrite Ha. simpl.
  destruct (authority_port (authority o)) as [p|] eqn:P, (is_secure_scheme u);
    repeat case_match; simplify_eq; try case_decide; simplify_eq; done.
Qed.

Lemma host_headers_contains u a m : hm_contains HOST (host_headers u a m) = true.
Proof.
  unfold host_headers. destruct (hm_contains HOST m) eqn:E; [done|].
  apply hm_contains_spec. by rewrite get_all_insert_eq.
Qed.

Lemma host_headers_other u a m n : n <> HOST -> hm_get_all n (host_headers u a m) = hm_get_all n m.
Proof.
  intros Hn. unfold host_headers. destruct (hm_contains HOST m); [done|]. by rewrite get_all_insert_ne.
Qed.

Lemma host_headers_idem u u' a a' m :
  host_headers u' a' (host_headers u a m) = host_headers u a m.
Proof. unfold host_headers at 1. by rewrite host_headers_contains. Qed.

(** ** Properties *)

(** [extract_origin] never panics, and succeeds exactly when the URI names a
    peer: an absolute URI, or a bare authority of a [CONNECT]; the scheme of
    the latter is [https] for port 443 and [http] otherwise. *)
Theorem extract_origin_spec uri is_connect :
  exists uri' r, extract_origin uri is_connect = Some (uri', r) /\
    match uri_scheme uri, uri_authority uri with
    | Some s, Some a => uri' = uri /\ r = Ok (mkOrigin s a)
    | None, Some a =>
        if is_connect then
          uri_into_parts uri'
            = mkParts (Some (connect_scheme a)) (Some a) (Some paq_slash)
          /\ r = Ok (mkOrigin (connect_scheme a) a)
        else uri' = uri /\ r = Err AbsoluteUriRequired
    | _, None => uri' = uri /\ r = Err AbsoluteUriRequired
    end.
Proof.
  unfold extract_origin.
  destruct (uri_scheme uri) eqn:Hs, (uri_authority uri) as [a|] eqn:Ha; eauto.
  destruct is_connect; eauto.
  destruct (set_connect_scheme_ok uri (connect_scheme a) a Hs Ha) as (u & -> & E). eauto.
Qed.

(** C34. The peer a request was normalized for and the bytes written agree: for
    every request whose origin was extracted, normalization does not panic,
    writes the authority form for [CONNECT] and the path and query otherwise,
    keeps an explicit [Host], synthesizes the one of the origin when asked to
    (the host, with the port unless it is 443 for [https] and [wss] or 80 for
    another scheme), and leaves every other header, the method, the version
    and the body alone. *)
Theorem normalize_http1_request_spec {B} (r : Request B) uri o set_host :
  extract_origin (r_uri r) (bytes_eqb (r_method r) CONNECT) = Some (uri, Ok o) ->
  exists r', normalize_http1_request (with_uri uri r) set_host = Some r' /\
    uri_into_parts (r_uri r') = wire_target (r_method r) uri /\
    r_method r' = r_method r /\ r_version r' = r_version r /\ r_body r' = r_body r /\
    hm_get_all HOST (r_headers r') =
      (if set_host && negb (hm_contains HOST (r_headers r))
       then [origin_host o]
       else hm_get_all HOST (r_headers r)) /\
    forall n, n <> HOST -> hm_get_all n (r_headers r') = hm_get_all n (r_headers r).
Proof.
  intros H. apply extract_origin_absolute in H as [Hs Ha].
  rewrite <- (host_value_origin _ _ Hs Ha).
  destruct (normalize_ok (with_uri uri r) set_host _ Ha) as (t & E & Et).
  eexists. split; [exact E|]. simpl. split; [exact Et|].
  split_and!; try done; intros; unfold host_headers;
    destruct set_host, (hm_contains HOST (r_headers r)) eqn:C; simpl;
    rewrite ?get_all_insert_eq, ?get_all_insert_ne by done; done.
Qed.

(** Normalizing a normalized request again. *)
Lemma normalize_again {B} (r r1 : Request B) set_host :
  absolute (r_uri r) ->
  normalize_http1_request r set_host = Some r1 ->
  normalize_http1_request (with_uri (r_uri r) r1) set_host = Some r1.
Proof.
  intros [_ [a Ha]] H. destruct (target_ok (r_method r) (r_uri r)) as (t & E & _); [eauto|].
  unfold normalize_http1_request in *. destruct set_host.
  - rewrite (synthesize_host_ok _ _ Ha) in H. simpl in H. rewrite E in H. simpl in H.
    injection H as <-. erewrite synthesize_host_ok by exact Ha. simpl.
    rewrite host_headers_idem, E. done.
  - simpl in *. rewrite E in H. simpl in H. injection H as <-. simpl. by rewrite E.
Qed.

(** A stale-connection retry restores the absolute URI and normalizes again:
    the request written the second time is the request written the first. *)
Theorem normalize_retry {B} (r r1 : Request B) set_host :
  absolute (r_uri r) ->
  normalize_http1_request r set_host = Some r1 ->
  normalize_http1_request (with_uri (r_uri r) r1) set_host = Some r1.
Proof. apply normalize_again. Qed.

End Normalize.

Import RefHttp.

(** A port-8080 origin and the [CONNECT] target of the tests. *)
Definition sample_auth : Authority := mkAuth (bs "example.test") (Some 8080).
Definition sample_request : Request bytes :=
  mkRequest GET (mkParts (Some (bs "http")) (Some sample_auth) (Some (bs "/a?x=1")))
    HTTP_11 [(CONTENT_TYPE, bs "text/plain")] [].

Lemma extract_origin_spec_witness :
  exists uri', extract_origin (mkParts None (Some (mkAuth (bs "proxy.test") (Some 443))) None) true
    = Some (uri', Ok (mkOrigin (L := lib) (bs "https") (mkAuth (bs "proxy.test") (Some 443)))).
Proof.
  destruct (extract_origin_spec (L := lib)
    (mkParts None (Some (mkAuth (bs "proxy.test") (Some 443))) None) true)
    as (uri' & r & E & _ & Hr).
  exists uri'. rewrite E, Hr. reflexivity.
Defined.

Lemma normalize_http1_request_spec_witness :
  exists r', normalize_http1_request (with_uri (r_uri sample_request) sample_request) true
               = Some r' /\
    hm_get_all HOST (r_headers r') = [bs "example.test:8080"].
Proof.
  edestruct (normalize_http1_request_spec sample_request (r_uri sample_request)
               (mkOrigin (L := lib) (bs "http") sample_auth) true) as (r' & E & _ & _ & _ & _ & H & _).
  - reflexivity.
  - exists r'. split; [exact E|]. rewrite H. vm_compute. reflexivity.
Defined.

Lemma normalize_retry_witness :
  exists r1, normalize_http1_request sample_request true = Some r1 /\
    normalize_http1_request (with_uri (r_uri sample_request) r1) true = Some r1.
Proof.
  eexists. split; [reflexivity|].
  apply (normalize_retry sample_request); [|reflexivity].
  split; eexists; reflexivity.
Defined.

End Normalize.
