(* ===== verification/Stream.v ===== *)
(** * Blocking streams ([std::io] / [std::net])

    The transport under the blocking client.  A socket is the sequence of
    things that the peer and the operating system make [Read::read] return:
    segments of bytes, possibly errors (a timeout, a reset), and end of file
    when the sequence is over.  [read] hands out at most [output.len()] bytes
    of the next segment, so a sequence of segments stands for every way a
    byte stream can be cut by the network.  Writes are collected in [sent];
    [write_fault] lets a write fail after a given number of bytes; an
    interruption happens once, every other fault stays. *)

From Stdlib Require Import ZArith Lia String.
From stdpp Require Import base option list.
From S2P Require Import Prelude Bytes.

Open Scope Z_scope.

Inductive io_kind :=
| TimedOut | WouldBlock | UnexpectedEof | InvalidData | InvalidInput
| Interrupted | Unsupported | ConnectionReset | ConnectionRefused | WriteZero | OtherKind.
#[export] Instance io_kind_eq_dec : EqDecision io_kind.
Proof. solve_decision. Defined.

Record io_error := mkIoError { ioe_kind : io_kind; ioe_message : string }.
Arguments mkIoError _ _%_string.

Inductive rx :=
| RxData (b : bytes)
| RxErr (e : io_error).

(** A [Duration] in nanoseconds. *)
Abbreviation Duration := Z (only parsing).

Record Transport := mkTransport {
  incoming : list rx;
  sent : bytes;
  write_fault : option (nat * io_error);
  read_timeout : option Duration;
  write_timeout : option Duration
}.

Definition set_incoming (l : list rx) (t : Transport) : Transport :=
  mkTransport l (sent t) (write_fault t) (read_timeout t) (write_timeout t).

(** [Read::read] into a buffer of [n] bytes: the bytes it stored. *)
Definition transport_read (n : nat) (t : Transport) : result bytes io_error * Transport :=
  match incoming t with
  | [] => (Ok [], t)
  | RxErr e :: rest => (Err e, set_incoming rest t)
  | RxData b :: rest =>
      (Ok (take n b),
       set_incoming (match drop n b with [] => rest | b' => RxData b' :: rest end) t)
  end.

(** [Write::write_all]: what [write] accepted is followed by the rest, a write
    that was interrupted is tried again, and any other error ends it. *)
Definition transport_write_all (b : bytes) (t : Transport) : result () io_error * Transport :=
  match write_fault t with
  | Some (budget, e) =>
      if (budget <? length b)%nat then
        if bool_decide (ioe_kind e = Interrupted) then
          (Ok (), mkTransport (incoming t) (sent t ++ b) None (read_timeout t) (write_timeout t))
        else
          (Err e, mkTransport (incoming t) (sent t ++ take budget b) (Some (O, e))
                    (read_timeout t) (write_timeout t))
      else
        (Ok (), mkTransport (incoming t) (sent t ++ b) (Some ((budget - length b)%nat, e))
                  (read_timeout t) (write_timeout t))
  | None =>
      (Ok (), mkTransport (incoming t) (sent t ++ b) None (read_timeout t) (write_timeout t))
  end.

(** [TcpStream::set_read_timeout] and [set_write_timeout]: a zero duration is
    rejected. *)
Definition transport_set_read_timeout (d : option Duration) (t : Transport)
    : result () io_error * Transport :=
  if bool_decide (d = Some 0) then
    (Err (mkIoError InvalidInput "cannot set a 0 duration timeout"), t)
  else (Ok (), mkTransport (incoming t) (sent t) (write_fault t) d (write_timeout t)).

Definition transport_set_write_timeout (d : option Duration) (t : Transport)
    : result () io_error * Transport :=
  if bool_decide (d = Some 0) then
    (Err (mkIoError InvalidInput "cannot set a 0 duration timeout"), t)
  else (Ok (), mkTransport (incoming t) (sent t) (write_fault t) (read_timeout t) d).

(** ** Well-behaved streams *)

Definition segment_ok (r : rx) : Prop := match r with RxData [] => False | _ => True end.
(** No empty segment: only end of file makes [read] return zero. *)
Definition segments_ok (l : list rx) : Prop := Forall segment_ok l.

(** A stream that delivers exactly the bytes [b] and then ends. *)
Fixpoint delivers (l : list rx) (b : bytes) : Prop :=
  match l with
  | [] => b = []
  | RxErr _ :: _ => False
  | RxData s :: l' => s <> [] /\ exists b', b = s ++ b' /\ delivers l' b'
  end.

Lemma delivers_read n t b :
  (0 < n)%nat -> delivers (incoming t) b ->
  exists s b' t', transport_read n t = (Ok s, t') /\ b = s ++ b' /\
    (length s <= n)%nat /\ (s = [] -> b = []) /\ delivers (incoming t') b'.
Proof.
  intros Hn. unfold transport_read. destruct (incoming t) as [|[s|e] l] eqn:E; simpl.
  - intros ->. exists [], [], t. rewrite E. split_and!; try done. simpl; lia.
  - intros (Hs & b' & -> & Hd). exists (take n s), (drop n s ++ b').
    eexists. split; [done|]. split; [by rewrite app_assoc, take_drop|].
    split; [rewrite length_take; lia|]. split.
    + intros Ht. by apply take_nonempty in Ht.
    + simpl. destruct (drop n s) as [|c r]; simpl; [done|]. split; [done|]. eauto.
  - done.
Qed.

Lemma transport_read_length n t b t' :
  transport_read n t = (Ok b, t') -> (length b <= n)%nat.
Proof.
  unfold transport_read. destruct (incoming t) as [|[s|e] l]; intros [= <- <-]; simpl;
    [lia | rewrite length_take; lia].
Qed.

Lemma transport_read_segments n t :
  segments_ok (incoming t) -> segments_ok (incoming (snd (transport_read n t))).
Proof.
  unfold transport_read, segments_ok. destruct (incoming t) as [|[s|e] l] eqn:E; intros H; simpl.
  - by rewrite E.
  - inversion_clear H. destruct (drop n s); [done|]. constructor; done.
  - by inversion_clear H.
Qed.

(** Every cut of a byte string into non-empty segments delivers it. *)
Lemma delivers_segments segs :
  Forall (fun s => s <> []) segs -> delivers (map RxData segs) (concat segs).
Proof. induction 1; simpl; eauto. Qed.
