(* ===== verification/SyncBody.v ===== *)
(** * The blocking client's response body ([h12tiny-client-sync])

    [crates/h12tiny-client-sync/src/lib.rs]: [Connection], [ResponseBody] and
    the framing state machine [BodyMode].  A read into a buffer of [n] bytes
    returns the bytes it stored; the state it leaves behind is explicit also
    when it fails.  Loops take fuel; [None] means that the fuel ran out, and
    [read_line_total], [consume_trailers_total] and [read_chunked_any] show that
    the fuel the definitions pass never does, whatever the peer sends. *)

From Stdlib Require Import ZArith Lia String.
From Stdlib Require Import Strings.Byte.
From stdpp Require Import base option list.
From S2P Require Import Prelude Bytes Stream.

Open Scope Z_scope.

Module SyncBody.

Definition MAX_RESPONSE_HEAD_BYTES : Z := 64 * 1024.
Definition MAX_CHUNK_LINE_BYTES : Z := 8 * 1024.
Definition MAX_TRAILER_BYTES : Z := 64 * 1024.

(** ** [Connection]: TCP, or TLS over TCP (the plaintext view of it) *)
Inductive Connection :=
| Tcp (stream : Transport)
| Tls (stream : Transport).

Definition transport (c : Connection) : Transport :=
  match c with Tcp t => t | Tls t => t end.
Definition with_transport (t : Transport) (c : Connection) : Connection :=
  match c with Tcp _ => Tcp t | Tls _ => Tls t end.

Definition lift {A} (f : Transport -> A * Transport) (c : Connection) : A * Connection :=
  match c with
  | Tcp stream => let '(r, stream') := f stream in (r, Tcp stream')
  | Tls stream => let '(r, stream') := f stream in (r, Tls stream')
  end.

Definition conn_read (n : nat) : Connection -> result bytes io_error * Connection :=
  lift (transport_read n).
Definition conn_write_all (b : bytes) : Connection -> result () io_error * Connection :=
  lift (transport_write_all b).
Definition conn_flush : Connection -> result () io_error * Connection :=
  lift (fun t => (Ok (), t)).
Definition conn_set_read_timeout (d : option Duration)
    : Connection -> result () io_error * Connection := lift (transport_set_read_timeout d).

Definition conn_set_timeouts (rd wr : option Duration) (c : Connection)
    : result () io_error * Connection :=
  match lift (transport_set_read_timeout rd) c with
  | (Ok _, c') => lift (transport_set_write_timeout wr) c'
  | (Err e, c') => (Err e, c')
  end.

(** ** [BodyMode] and [ResponseBody] *)
Inductive BodyMode :=
| Empty
| ContentLength (remaining : Z)
| Chunked (remaining : Z) (separator_due complete : bool)
| Eof.

Record ResponseBody := mkBody {
  connection : Connection;
  buffered : bytes;
  mode : BodyMode
}.

Definition set_mode (m : BodyMode) (b : ResponseBody) : ResponseBody :=
  mkBody (connection b) (buffered b) m.
Definition set_buffered (l : bytes) (b : ResponseBody) : ResponseBody :=
  mkBody (connection b) l (mode b).
Definition set_connection (c : Connection) (b : ResponseBody) : ResponseBody :=
  mkBody c (buffered b) (mode b).

Definition is_complete (b : ResponseBody) : bool :=
  match mode b with
  | Empty | ContentLength 0 | Chunked _ _ true => true
  | _ => false
  end.

Definition set_read_timeout (d : option Duration) (b : ResponseBody)
    : result () io_error * ResponseBody :=
  if is_complete b || negb (bytes_eqb (buffered b) []) then (Ok (), b)
  else let '(r, c) := conn_set_read_timeout d (connection b) in (r, set_connection c b).

Definition find_crlf (l : bytes) : option nat := find_window CRLF l.

Definition is_ows (b : byte) : bool := Byte.eqb b " " || Byte.eqb b x09.
Definition trim_ows (l : bytes) : bytes := trim_while is_ows l.

Definition chunk_size_not_ascii := mkIoError InvalidData "HTTP chunk size was not ASCII".
Definition chunk_size_invalid := mkIoError InvalidData "HTTP chunk size was invalid".

Definition parse_chunk_size (line : bytes) : result Z io_error :=
  let size := default [] (head (split_on ";" line)) in
  let? size := ok_or (from_utf8 (trim_ows size)) chunk_size_not_ascii in
  ok_or (from_str_radix 16 U64_MAX size) chunk_size_invalid.

(** A step of a fallible stateful routine: its result and the state after. *)
Abbreviation io A := (result A io_error * ResponseBody)%type.

Definition read_buffered (n : nat) (b : ResponseBody) : io bytes :=
  match buffered b with
  | [] => let '(r, c) := conn_read n (connection b) in (r, set_connection c b)
  | buf => let count := Nat.min n (length buf) in
           (Ok (take count buf), set_buffered (drop count buf) b)
  end.

Definition body_ended_early :=
  mkIoError UnexpectedEof "HTTP response ended before its declared body framing completed".

(** The loop of [read_exact_buffered]: [n] bytes of [output] are left. *)
Fixpoint read_exact_loop (fuel n : nat) (output : bytes) (b : ResponseBody) : option (io bytes) :=
  match n with
  | O => Some (Ok output, b)
  | _ =>
      match fuel with
      | O => None
      | S fuel' =>
          match read_buffered n b with
          | (Err e, b') => Some (Err e, b')
          | (Ok [], b') => Some (Err body_ended_early, b')
          | (Ok s, b') => read_exact_loop fuel' (n - length s) (output ++ s) b'
          end
      end
  end.

Definition read_exact_buffered (n : nat) (b : ResponseBody) : option (io bytes) :=
  read_exact_loop n n [] b.

Definition line_too_long := mkIoError InvalidData "HTTP chunk line exceeds the configured limit".
Definition ended_in_line := mkIoError UnexpectedEof "HTTP response ended in a chunk line".

Fixpoint read_line_loop (fuel : nat) (max_len : Z) (b : ResponseBody) : option (io bytes) :=
  match find_crlf (buffered b) with
  | Some e =>
      let line := take e (buffered b) in
      Some (Ok line, set_buffered (drop 2 (drop e (buffered b))) b)
  | None =>
      if max_len <=? zlen (buffered b) then Some (Err line_too_long, b)
      else match fuel with
      | O => None
      | S fuel' =>
          let '(r, c) := conn_read 4096 (connection b) in
          let b' := set_connection c b in
          match r with
          | Err e => Some (Err e, b')
          | Ok [] => Some (Err ended_in_line, b')
          | Ok input => read_line_loop fuel' max_len (set_buffered (buffered b' ++ input) b')
          end
      end
  end.

(** Every iteration buffers at least one byte and stops at [max_len]. *)
Definition read_line (max_len : Z) (b : ResponseBody) : option (io bytes) :=
  read_line_loop (Z.to_nat max_len) max_len b.

Definition trailers_too_long :=
  mkIoError InvalidData "HTTP response trailers exceed the configured limit".
Definition malformed_trailer := mkIoError InvalidData "malformed HTTP response trailer".

Fixpoint consume_trailers_loop (fuel : nat) (total : Z) (b : ResponseBody) : option (io ()) :=
  match fuel with
  | O => None
  | S fuel' =>
      r ← read_line MAX_CHUNK_LINE_BYTES b;
      match r with
      | (Err e, b') => Some (Err e, b')
      | (Ok line, b') =>
          let total := saturating_add total (zlen line + 2) in
          if MAX_TRAILER_BYTES <? total then Some (Err trailers_too_long, b')
          else match line with
          | [] => Some (Ok (), b')
          | _ => if negb (contains ":" line) then Some (Err malformed_trailer, b')
                 else consume_trailers_loop fuel' total b'
          end
      end
  end.

(** Every line counts at least two bytes against the limit. *)
Definition consume_trailers (b : ResponseBody) : option (io ()) :=
  consume_trailers_loop (Z.to_nat MAX_TRAILER_BYTES) 0 b.

Definition no_chunk_crlf := mkIoError InvalidData "HTTP chunk data was not followed by CRLF".
Definition ended_in_chunk := mkIoError UnexpectedEof "HTTP response ended in a chunk".

(** The separator that follows the data of a chunk. *)
Definition read_separator (b : ResponseBody) : option (io ()) :=
  r ← read_exact_buffered 2 b;
  match r with
  | (Err e, b') => Some (Err e, b')
  | (Ok sep, b') => if bytes_eqb sep CRLF then Some (Ok (), b') else Some (Err no_chunk_crlf, b')
  end.

(** A chunk-size line; a size of zero consumes the trailers.  [Ok true]: the
    body is complete; [Ok false]: a chunk is open. *)
Definition read_chunk_header (b : ResponseBody) : option (io bool) :=
  r ← read_line MAX_CHUNK_LINE_BYTES b;
  match r with
  | (Err e, b') => Some (Err e, b')
  | (Ok line, b') =>
      match parse_chunk_size line with
      | Err e => Some (Err e, b')
      | Ok size =>
          if size =? 0 then
            t ← consume_trailers b';
            match t with
            | (Err e, b'') => Some (Err e, b'')
            | (Ok _, b'') => Some (Ok true, set_mode (Chunked 0 false true) b'')
            end
          else Some (Ok false, set_mode (Chunked size false false) b')
      end
  end.

(** [output.len().min(usize::try_from(remaining).unwrap_or(usize::MAX))]. *)
Definition wanted (n : nat) (remaining : Z) : nat :=
  Z.to_nat (Z.min (Z.of_nat n) (Z.min remaining USIZE_MAX)).

(** The data of an open chunk ([remaining > 0]). *)
Definition read_chunk_data (n : nat) (remaining : Z) (b : ResponseBody) : io bytes :=
  match read_buffered (wanted n remaining) b with
  | (Err e, b') => (Err e, b')
  | (Ok [], b') => (Err ended_in_chunk, b')
  | (Ok s, b') =>
      (Ok s, set_mode (Chunked (remaining - zlen s) (remaining =? zlen s) false) b')
  end.

(** [read_chunked]: the body of its [loop] runs at most twice. *)
Fixpoint read_chunked_loop (fuel n : nat) (b : ResponseBody) : option (io bytes) :=
  match fuel with
  | O => None
  | S fuel' =>
      match mode b with
      | Chunked remaining separator_due complete =>
          if complete then Some (Ok [], b)
          else if remaining =? 0 then
            s ← (if separator_due then read_separator b else Some (Ok (), b));
            match s with
            | (Err e, b') => Some (Err e, b')
            | (Ok _, b') =>
                h ← read_chunk_header b';
                match h with
                | (Err e, b'') => Some (Err e, b'')
                | (Ok true, b'') => Some (Ok [], b'')
                | (Ok false, b'') => read_chunked_loop fuel' n b''
                end
            end
          else Some (read_chunk_data n remaining b)
      | _ => None
      end
  end.

Definition read_chunked (n : nat) (b : ResponseBody) : option (io bytes) :=
  read_chunked_loop 2 n b.

Definition ended_before_length :=
  mkIoError UnexpectedEof "HTTP response ended before its Content-Length".

(** [impl Read for ResponseBody]. *)
Definition read (n : nat) (b : ResponseBody) : option (io bytes) :=
  match n with
  | O => Some (Ok [], b)
  | _ =>
      match mode b with
      | Empty => Some (Ok [], b)
      | Eof => Some (read_buffered n b)
      | ContentLength remaining =>
          if remaining =? 0 then Some (Ok [], b)
          else
            match read_buffered (wanted n remaining) b with
            | (Err e, b') => Some (Err e, b')
            | (Ok [], b') => Some (Err ended_before_length, b')
            | (Ok s, b') => Some (Ok s, set_mode (ContentLength (remaining - zlen s)) b')
            end
      | Chunked _ _ _ => read_chunked n b
      end
  end.

(** Reading until end of body with buffers of the given sizes: what
    [read_to_end] and its like observe. *)
Fixpoint read_seq (sizes : list nat) (b : ResponseBody) : option (io bytes) :=
  match sizes with
  | [] => Some (Ok [], b)
  | n :: sizes' =>
      r ← read n b;
      match r with
      | (Err e, b') => Some (Err e, b')
      | (Ok [], b') => Some (Ok [], b')
      | (Ok s, b') =>
          r' ← read_seq sizes' b';
          Some (match r' with
                | (Ok rest, b'') => (Ok (s ++ rest), b'')
                | (Err e, b'') => (Err e, b'')
                end)
      end
  end.

(** ** Well-behaved transports

    [unread b u]: the bytes still to come, buffered or from the peer, are
    exactly [u], and the peer then closes. *)
Definition unread (b : ResponseBody) (u : bytes) : Prop :=
  exists d, delivers (incoming (transport (connection b))) d /\ u = buffered b ++ d.

Lemma lift_transport {A} (f : Transport -> A * Transport) c :
  lift f c = (fst (f (transport c)), with_transport (snd (f (transport c))) c).
Proof. destruct c; simpl; by destruct (f stream). Qed.

Lemma transport_with t c : transport (with_transport t c) = t.
Proof. by destruct c. Qed.

Lemma conn_read_delivers n c d :
  (0 < n)%nat -> delivers (incoming (transport c)) d ->
  exists s d' c', conn_read n c = (Ok s, c') /\ d = s ++ d' /\
    (length s <= n)%nat /\ (s = [] -> d = []) /\ delivers (incoming (transport c')) d'.
Proof.
  intros Hn H. destruct (delivers_read _ _ _ Hn H) as (s & d' & t' & E & ? & ? & ? & ?).
  exists s, d', (with_transport t' c). unfold conn_read. rewrite lift_transport, E.
  simpl. by rewrite transport_with.
Qed.

Lemma read_buffered_unread n b u :
  (0 < n)%nat -> unread b u ->
  exists s u' b', read_buffered n b = (Ok s, b') /\ u = s ++ u' /\ (length s <= n)%nat /\
    (s = [] -> u = []) /\ unread b' u' /\ mode b' = mode b.
Proof.
  intros Hn (d & Hd & ->). unfold read_buffered. destruct (buffered b) as [|x l] eqn:E.
  - destruct (conn_read_delivers n _ d Hn Hd) as (s & d' & c' & -> & -> & ? & ? & ?).
    exists s, d', (set_connection c' b). split_and!; try done. exists d'. simpl. by rewrite E.
  - exists (take (Nat.min n (length (x :: l))) (x :: l)),
      (drop (Nat.min n (length (x :: l))) (x :: l) ++ d). eexists. split; [done|].
    split_and!; try done.
    + by rewrite app_assoc, take_drop.
    + rewrite length_take; lia.
    + intros H. apply take_nonempty in H; [done | simpl; lia | done].
    + exists d. done.
Qed.

Lemma read_exact_loop_unread fuel n out b x u :
  (n <= fuel)%nat -> unread b (x ++ u) -> length x = n ->
  exists b', read_exact_loop fuel n out b = Some (Ok (out ++ x), b') /\
    unread b' u /\ mode b' = mode b.
Proof.
  revert n out b x. induction fuel as [|fuel IH]; intros n out b x Hf Hu Hx.
  - destruct n; [|lia]. destruct x; [|done]. exists b. simpl. by rewrite app_nil_r.
  - destruct n as [|n].
    { destruct x; [|done]. exists b. simpl. by rewrite app_nil_r. }
    destruct (read_buffered_unread (S n) b _ ltac:(lia) Hu) as (s & u' & b' & E & Es & Hs & Hnil & Hu' & Hm).
    cbn [read_exact_loop]. rewrite E. destruct s as [|y s].
    { exfalso. apply (f_equal (@length byte)) in Hnil; [|done].
      rewrite length_app in Hnil. simpl in Hnil. lia. }
    set (k := length (y :: s)) in *.
    apply app_split_le in Es as (r & -> & ->); [|lia]. rewrite length_app in Hx.
    destruct (IH (S n - k)%nat (out ++ y :: s) b' r) as (b'' & E' & ? & ?);
      [unfold k; simpl; lia | done | unfold k in *; lia |].
    exists b''. rewrite E'. rewrite <- app_assoc. split_and!; congruence.
Qed.

Lemma read_exact_unread n b x u :
  unread b (x ++ u) -> length x = n ->
  exists b', read_exact_buffered n b = Some (Ok x, b') /\ unread b' u /\ mode b' = mode b.
Proof. intros. by apply (read_exact_loop_unread n n [] b x u). Qed.

(** The line and its CRLF are already buffered. *)
Lemma read_line_loop_ready fuel max b line u d :
  delivers (incoming (transport (connection b))) d ->
  line ++ CRLF ++ u = buffered b ++ d -> x0a ∉ line ->
  (length line + 2 <= length (buffered b))%nat ->
  exists b', read_line_loop fuel max b = Some (Ok line, b') /\ unread b' u /\ mode b' = mode b.
Proof.
  intros Hd E Hl Hin. symmetry in E. rewrite app_assoc in E.
  apply app_split_le in E as (r & Eb & ->); [|rewrite length_app; simpl; lia].
  rewrite <- app_assoc in Eb. exists (set_buffered r b).
  assert (find_crlf (buffered b) = Some (length line)) as F
    by (unfold find_crlf; rewrite Eb; by apply find_window_crlf).
  destruct fuel; cbn [read_line_loop]; rewrite F, Eb, take_app_length, drop_app_length;
    (split_and!; [done | by exists d | done]).
Qed.

Lemma read_line_loop_unread fuel max b line u :
  unread b (line ++ CRLF ++ u) -> x0a ∉ line -> zlen line + 2 <= max ->
  max <= zlen (buffered b) + Z.of_nat fuel ->
  exists b', read_line_loop fuel max b = Some (Ok line, b') /\ unread b' u /\ mode b' = mode b.
Proof.
  intros Hu Hl Hmax. revert b Hu. induction fuel as [|fuel IH]; intros b (d & Hd & E) Hf;
    pose proof (find_window_crlf line u Hl) as Hw; rewrite E in Hw;
    (destruct (decide (length line + 2 <= length (buffered b))%nat) as [Hin|Hout];
     [by eapply read_line_loop_ready; eauto|]).
  - exfalso. unfold zlen in *. lia.
  - assert (find_crlf (buffered b) = None) as F.
    { eapply find_window_prefix_none; [exact Hw|]. simpl. lia. }
    cbn [read_line_loop]. rewrite F.
    destruct (max <=? zlen (buffered b)) eqn:M; bool_cases; [unfold zlen in *; lia|].
    destruct (conn_read_delivers 4096 _ d ltac:(lia) Hd) as (s & d' & c' & Er & Ed & _ & Hnil & Hd').
    rewrite Er. destruct s as [|x s].
    { exfalso. specialize (Hnil eq_refl). subst. rewrite Hnil, app_nil_r in E.
      apply (f_equal (@length byte)) in E. rewrite !length_app in E. simpl in E. lia. }
    destruct (IH (set_buffered (buffered b ++ x :: s) (set_connection c' b)))
      as (b' & E' & ? & ?); [|simpl; zlen_lia|eauto].
    exists d'. split; [done|]. simpl. rewrite <- app_assoc. by rewrite <- Ed, <- E.
Qed.

(** A line within the limit is read whole, and nothing after it is consumed. *)
Lemma read_line_unread max b line u :
  unread b (line ++ CRLF ++ u) -> x0a ∉ line -> zlen line + 2 <= max ->
  exists b', read_line max b = Some (Ok line, b') /\ unread b' u /\ mode b' = mode b.
Proof.
  intros. apply read_line_loop_unread; try done. zlen_lia.
Qed.

(** ** Framings *)

(** Lines and trailers within the limits the reader enforces. *)
Definition line_ok (l : bytes) : Prop := (x0a ∉ l) /\ zlen l + 2 <= MAX_CHUNK_LINE_BYTES.
Definition trailer_ok (l : bytes) : Prop := line_ok l /\ l <> [] /\ (":"%byte) ∈ l.

Definition trailers_wire (ls : list bytes) : bytes :=
  concat (map (fun l => l ++ CRLF) ls) ++ CRLF.

(** [chunked w p]: the bytes [w] are a chunked message body (RFC 9112 §7.1: any
    spelling of the sizes the parser accepts, chunk extensions, trailers) whose
    content is [p]. *)
Inductive chunked : bytes -> bytes -> Prop :=
| chunked_last line trailers :
    line_ok line -> parse_chunk_size line = Ok 0 ->
    Forall trailer_ok trailers -> zlen (trailers_wire trailers) <= MAX_TRAILER_BYTES ->
    chunked (line ++ CRLF ++ trailers_wire trailers) []
| chunked_chunk line data w p :
    line_ok line -> parse_chunk_size line = Ok (zlen data) -> data <> [] ->
    chunked w p -> chunked (line ++ CRLF ++ data ++ CRLF ++ w) (data ++ p).

(** [framed m u p x]: in mode [m], of the unread bytes [u] the content of the
    body is [p] and the bytes after the message are [x]. *)
Inductive framed : BodyMode -> bytes -> bytes -> bytes -> Prop :=
| framed_empty x : framed Empty x [] x
| framed_length p x : framed (ContentLength (zlen p)) (p ++ x) p x
| framed_eof p : framed Eof p p []
| framed_next w p x : chunked w p -> framed (Chunked 0 false false) (w ++ x) p x
| framed_open d sd w p x :
    d <> [] -> chunked w p ->
    framed (Chunked (zlen d) sd false) (d ++ CRLF ++ w ++ x) (d ++ p) x
| framed_sep w p x : chunked w p -> framed (Chunked 0 true false) (CRLF ++ w ++ x) p x
| framed_done sd x : framed (Chunked 0 sd true) x [] x.

Lemma consume_trailers_loop_unread fuel total b ls u :
  unread b (trailers_wire ls ++ u) -> Forall trailer_ok ls -> 0 <= total ->
  total + zlen (trailers_wire ls) <= MAX_TRAILER_BYTES -> (length ls < fuel)%nat ->
  exists b', consume_trailers_loop fuel total b = Some (Ok (), b') /\
    unread b' u /\ mode b' = mode b.
Proof.
  revert total b ls. induction fuel as [|fuel IH]; intros total b ls Hu Hls Ht Hlim Hf; [lia|].
  cbn [consume_trailers_loop]. destruct ls as [|l ls].
  - destruct (read_line_unread MAX_CHUNK_LINE_BYTES b [] u) as (b' & -> & ? & ?);
      [done | by apply not_elem_of_nil | done |]. cbn -[Z.ltb].
    destruct (MAX_TRAILER_BYTES <? _) eqn:M; bool_cases; [|by eauto].
    change (zlen (trailers_wire [])) with 2 in Hlim. zlen_lia.
  - apply Forall_cons in Hls as [[[Hl1 Hl2] [Hne Hc]] Hls'].
    assert (trailers_wire (l :: ls) = l ++ CRLF ++ trailers_wire ls) as Ew
      by (unfold trailers_wire; simpl; by rewrite <- !app_assoc).
    rewrite Ew in Hu, Hlim. rewrite <- !app_assoc in Hu.
    destruct (read_line_unread MAX_CHUNK_LINE_BYTES b l _ Hu Hl1 Hl2) as (b' & -> & Hu' & Hm').
    assert (zlen (l ++ CRLF ++ trailers_wire ls) = zlen l + 2 + zlen (trailers_wire ls)) as Hz
      by (rewrite !zlen_app; change (zlen CRLF) with 2; lia).
    unfold MAX_TRAILER_BYTES in *. pose proof (zlen_nonneg (trailers_wire ls)).
    pose proof (zlen_nonneg l). cbn -[Z.ltb].
    assert (saturating_add total (zlen l + 2) = total + (zlen l + 2)) as ->
      by (unfold saturating_add, USIZE_MAX; lia).
    destruct (_ <? _) eqn:M; bool_hyps; [lia|]. destruct l as [|x l]; [done|].
    apply contains_spec in Hc. rewrite Hc. simpl.
    destruct (IH (total + (zlen (x :: l) + 2)) b' ls) as (b'' & -> & ? & ?);
      [done | done | lia | lia | simpl in Hf; lia |].
    exists b''. split_and!; congruence.
Qed.

Lemma trailers_wire_length ls : 2 * Z.of_nat (length ls) + 2 <= zlen (trailers_wire ls).
Proof.
  induction ls as [|l ls IH]; [done|].
  unfold trailers_wire in *. simpl. rewrite <- app_assoc, !zlen_app.
  rewrite zlen_app in IH. change (zlen CRLF) with 2 in *. zlen_lia.
Qed.

Lemma consume_trailers_unread b ls u :
  unread b (trailers_wire ls ++ u) -> Forall trailer_ok ls ->
  zlen (trailers_wire ls) <= MAX_TRAILER_BYTES ->
  exists b', consume_trailers b = Some (Ok (), b') /\ unread b' u /\ mode b' = mode b.
Proof.
  intros Hu Hls Hlim. pose proof (trailers_wire_length ls). unfold MAX_TRAILER_BYTES in *.
  apply (consume_trailers_loop_unread _ _ _ ls); try done; unfold MAX_TRAILER_BYTES; lia.
Qed.

(** The header of the next chunk, or the end of the body. *)
Lemma read_chunk_header_unread b w p x :
  chunked w p -> unread b (w ++ x) ->
  exists fin u' b', read_chunk_header b = Some (Ok fin, b') /\ unread b' u' /\
    framed (mode b') u' p x /\
    (if fin then p = [] /\ u' = x /\ mode b' = Chunked 0 false true
     else exists r, mode b' = Chunked r false false /\ r <> 0).
Proof.
  intros Hc Hu. unfold read_chunk_header. destruct Hc as [line ls [Hl1 Hl2] Hp Hls Hlim | line d w p [Hl1 Hl2] Hp Hd Hc];
    rewrite <- !app_assoc in Hu;
    destruct (read_line_unread _ b line _ Hu Hl1 Hl2) as (b1 & E1 & Hu1 & Hm1);
    rewrite E1, some_bind; cbn iota beta; rewrite Hp.
  - change (0 =? 0) with true. cbn iota.
    destruct (consume_trailers_unread b1 ls x Hu1 Hls Hlim) as (b2 & E2 & Hu2 & Hm2).
    rewrite E2, some_bind. exists true, x. eexists. split; [done|].
    split; [exact Hu2|]. split; [constructor | done].
  - destruct (zlen d =? 0) eqn:Ez; bool_hyps; [by apply zlen_zero in Ez|].
    exists false. eexists _, _. split; [done|]. split; [exact Hu1|].
    split; [by apply framed_open | by exists (zlen d)].
Qed.

Lemma read_separator_unread b u :
  unread b (CRLF ++ u) ->
  exists b', read_separator b = Some (Ok (), b') /\ unread b' u /\ mode b' = mode b.
Proof.
  intros Hu. destruct (read_exact_unread 2 b CRLF u Hu eq_refl) as (b' & E & ? & ?).
  exists b'. unfold read_separator. rewrite E. done.
Qed.

(** One read of an open chunk. *)
Lemma read_chunk_data_unread n b d sd w p x :
  (0 < n)%nat -> d <> [] -> chunked w p -> unread b (d ++ CRLF ++ w ++ x) ->
  mode b = Chunked (zlen d) sd false ->
  exists s p' u' b', read_chunk_data n (zlen d) b = (Ok s, b') /\ d ++ p = s ++ p' /\
    (length s <= n)%nat /\ s <> [] /\ unread b' u' /\ framed (mode b') u' p' x /\ mode b' <> Eof.
Proof.
  intros Hn Hd Hc Hu Hm. unfold read_chunk_data.
  assert (0 < wanted n (zlen d) /\ wanted n (zlen d) <= n
          /\ wanted n (zlen d) <= length d)%nat as (Hw0 & Hwn & Hwd).
  { destruct d; [done|]. unfold wanted, USIZE_MAX, zlen. simpl length. lia. }
  destruct (read_buffered_unread (wanted n (zlen d)) b _ Hw0 Hu)
    as (s & u' & b' & -> & Es & Hs & Hnil & Hu' & Hm').
  destruct s as [|y s].
  { exfalso. specialize (Hnil eq_refl). by destruct d. }
  apply app_split_le in Es as (r & -> & ->); [|lia].
  exists (y :: s), (r ++ p). eexists _, _. split; [done|].
  split; [by rewrite app_assoc|]. split; [lia|]. split; [done|]. split; [exact Hu'|].
  cbn [mode set_mode]. split; [|done].
  replace (zlen ((y :: s) ++ r) - zlen (y :: s)) with (zlen r) by zlen_lia.
  destruct r as [|z r].
  - rewrite app_nil_r, Z.eqb_refl. by apply framed_sep.
  - by apply framed_open.
Qed.

Lemma read_chunked_loop_S fuel n b :
  read_chunked_loop (S fuel) n b =
    match mode b with
    | Chunked remaining separator_due complete =>
        if complete then Some (Ok [], b)
        else if remaining =? 0 then
          s ← (if separator_due then read_separator b else Some (Ok (), b));
          match s with
          | (Err e, b') => Some (Err e, b')
          | (Ok _, b') =>
              h ← read_chunk_header b';
              match h with
              | (Err e, b'') => Some (Err e, b'')
              | (Ok true, b'') => Some (Ok [], b'')
              | (Ok false, b'') => read_chunked_loop fuel n b''
              end
          end
        else Some (read_chunk_data n remaining b)
    | _ => None
    end.
Proof. reflexivity. Qed.

(** What a successful read must establish. *)
Definition read_post (m : BodyMode) (n : nat) (p x : bytes) (r : option (io bytes)) : Prop :=
  exists s p' u' b', r = Some (Ok s, b') /\ p = s ++ p' /\ (length s <= n)%nat /\
    (s = [] -> p = [] /\ u' = x) /\ unread b' u' /\ framed (mode b') u' p' x /\
    (mode b' = Eof <-> m = Eof) /\ (s = [] -> m <> Eof -> is_complete b' = true).

(** From a chunk header on: end of body, or the first bytes of the chunk. *)
Lemma read_header_then_data fuel n b w p x :
  (0 < n)%nat -> chunked w p -> unread b (w ++ x) -> (0 < fuel)%nat ->
  read_post (Chunked 0 false false) n p x
    (h ← read_chunk_header b;
     match h with
     | (Err e, b'') => Some (Err e, b'')
     | (Ok true, b'') => Some (Ok [], b'')
     | (Ok false, b'') => read_chunked_loop fuel n b''
     end).
Proof.
  intros Hn Hc Hu Hfuel.
  destruct (read_chunk_header_unread b w p x Hc Hu) as (fin & u' & b' & -> & Hu' & Hf & Hfin).
  cbn -[read_chunked_loop]. destruct fin.
  - destruct Hfin as (-> & -> & Em). exists [], [], x, b'.
    split_and!; try done; [simpl; lia|by rewrite Em|].
    intros _ _. unfold is_complete. by rewrite Em.
  - destruct Hfin as (r & Em & Hr). destruct fuel as [|fuel]; [lia|].
    cbn [read_chunked_loop]. rewrite Em. destruct (r =? 0) eqn:Ez; bool_hyps; [done|].
    rewrite Em in Hf. inversion Hf as [| | | |d sd w' p' x' Hd Hc'| |]; subst; try done.
    destruct (read_chunk_data_unread n b' d false w' p' x)
      as (s & p'' & u'' & b'' & -> & ? & ? & ? & ? & ? & ?); try done.
    exists s, p'', u'', b''. split_and!; done.
Qed.

(** [read_post] only looks at whether the mode is close-delimited. *)
Lemma read_post_mode m m' n p x r :
  m <> Eof -> m' <> Eof -> read_post m n p x r -> read_post m' n p x r.
Proof.
  intros Hm Hm' (s & p' & u' & b' & ? & ? & ? & ? & ? & ? & Hi & Hc).
  exists s, p', u', b'. split_and!; auto. rewrite Hi. done.
Qed.

(** The chunked reader in each of its states. *)
Lemma read_chunked_unread n b u p x r sd c :
  (0 < n)%nat -> unread b u -> framed (mode b) u p x -> mode b = Chunked r sd c ->
  read_post (mode b) n p x (read_chunked n b).
Proof.
  intros Hn Hu Hf Hm. unfold read_chunked. rewrite read_chunked_loop_S, Hm in *.
  inversion Hf as [| | |w p0 x0 Hc|d sd0 w p0 x0 Hd Hc|w p0 x0 Hc|sd0 x0]; subst; cbn iota.
  - rewrite Z.eqb_refl, some_bind. eapply read_header_then_data; eauto.
  - destruct (zlen d =? 0) eqn:Ez; bool_hyps; [by apply zlen_zero in Ez|].
    destruct (read_chunk_data_unread n b d sd w p0 x)
      as (s & p' & u' & b' & -> & ? & ? & ? & ? & ? & ?); try done.
    exists s, p', u', b'. split_and!; done.
  - rewrite Z.eqb_refl. destruct (read_separator_unread b _ Hu) as (b' & E & Hu' & Hm').
    rewrite E, some_bind. eapply (read_post_mode (Chunked 0 false false)); [done|done|].
    eapply (read_header_then_data 1); eauto.
  - exists [], [], x, b. split_and!; try done; [simpl; lia|by rewrite Hm|by rewrite Hm|].
    intros _ _. unfold is_complete. by rewrite Hm.
Qed.

Lemma read_length_unread n b p x :
  (0 < n)%nat -> unread b (p ++ x) -> mode b = ContentLength (zlen p) ->
  read_post (mode b) n p x (read n b).
Proof.
  intros Hn Hu Hm. unfold read. destruct n as [|n]; [lia|]. rewrite Hm.
  destruct (zlen p =? 0) eqn:Ez; bool_hyps.
  { apply zlen_zero in Ez as ->. exists [], [], x, b.
    split_and!; try done; [simpl; lia| |by rewrite Hm|].
    - rewrite Hm. apply (framed_length []).
    - intros _ _. unfold is_complete. by rewrite Hm. }
  assert (0 < wanted (S n) (zlen p) /\ wanted (S n) (zlen p) <= S n
          /\ wanted (S n) (zlen p) <= length p)%nat as (Hw0 & Hwn & Hwd).
  { unfold wanted, USIZE_MAX, zlen in *. lia. }
  destruct (read_buffered_unread (wanted (S n) (zlen p)) b _ Hw0 Hu)
    as (s & u' & b' & -> & Es & Hs & Hnil & Hu' & Hm').
  destruct s as [|y s].
  { exfalso. specialize (Hnil eq_refl). destruct p; [done|]. simplify_list_eq. }
  apply app_split_le in Es as (r & -> & ->); [|lia].
  exists (y :: s), r. eexists _, _. split; [done|]. split_and!; try done; [lia|].
  cbn [mode set_mode].
  replace (zlen ((y :: s) ++ r) - zlen (y :: s)) with (zlen r) by zlen_lia.
  apply framed_length.
Qed.

(** One read of a body, whatever its framing. *)
Lemma read_unread n b u p x :
  (0 < n)%nat -> unread b u -> framed (mode b) u p x -> read_post (mode b) n p x (read n b).
Proof.
  intros Hn Hu Hf. destruct (mode b) as [|r|r sd c|] eqn:E.
  - inversion Hf; subst. unfold read. rewrite E. destruct n; [lia|]. exists [], [], x, b.
    split_and!; try done; [simpl; lia|by rewrite E|by rewrite E|].
    intros _ _. unfold is_complete. by rewrite E.
  - inversion Hf; subst. rewrite <- E. by eapply read_length_unread.
  - unfold read. rewrite E. destruct n; [lia|]. rewrite <- E. rewrite <- E in Hf.
    eapply read_chunked_unread; eauto.
  - inversion Hf; subst. unfold read. rewrite E. destruct n as [|n]; [lia|].
    destruct (read_buffered_unread (S n) b _ ltac:(lia) Hu)
      as (s & u' & b' & -> & -> & Hs & Hnil & Hu' & Hm').
    exists s, u', u', b'. split_and!; try done.
    + intros Hs0. specialize (Hnil Hs0). subst s. simpl in Hnil. by subst.
    + rewrite Hm', E. constructor.
    + split; congruence.
Qed.

(** ** Reading a whole body *)

Lemma read_seq_unread b u p x sizes :
  unread b u -> framed (mode b) u p x ->
  Forall (fun n => 0 < n)%nat sizes -> (length p < length sizes)%nat ->
  exists b', read_seq sizes b = Some (Ok p, b') /\ unread b' x /\
    (mode b <> Eof -> is_complete b' = true).
Proof.
  intros Hu Hf Hs. revert b u p Hu Hf. induction Hs as [|n sizes Hn _ IH]; intros b u p Hu Hf Hl;
    [simpl in Hl; lia|].
  destruct (read_unread n b u p x Hn Hu Hf)
    as (s & p' & u' & b' & E & -> & _ & Hnil & Hu' & Hf' & Hm & Hend).
  cbn [read_seq]. rewrite E, some_bind. destruct s as [|y s].
  - destruct (Hnil eq_refl) as [Hp ->]. simpl in Hp. subst p'.
    exists b'. split; [done|]. split; [done | auto].
  - destruct (IH b' u' p' Hu' Hf') as (b'' & -> & ? & ?).
    { rewrite length_app in Hl. simpl in *. lia. }
    exists b''. split; [done|]. split; [done|]. rewrite <- Hm. done.
Qed.

(** C3. The body reader is exact: whatever the framing (none, [Content-Length],
    chunked with extensions and trailers, or close-delimited), however the
    transport cuts the bytes, however many of them were already buffered with
    the response head, and whatever buffer sizes the caller reads with, the
    reads return the content of the body, all of it and nothing else, leave
    the bytes after the message unread, and report completion. *)
Theorem body_reads_content b u p x sizes :
  unread b u -> framed (mode b) u p x ->
  Forall (fun n => 0 < n)%nat sizes -> (length p < length sizes)%nat ->
  exists b', read_seq sizes b = Some (Ok p, b') /\ unread b' x /\
    (mode b <> Eof -> is_complete b' = true).
Proof. apply read_seq_unread. Qed.

(** A sender's chunk: its length in hexadecimal and its data. *)
Definition encode_chunk (d : bytes) : bytes := print_hex (zlen d) ++ CRLF ++ d ++ CRLF.
Definition encode_chunked (ds : list bytes) (trailers : list bytes) : bytes :=
  concat (map encode_chunk ds) ++ bs "0" ++ CRLF ++ trailers_wire trailers.

Lemma is_ows_false b : 33 <= bz b -> is_ows b = false.
Proof.
  intros Hb. unfold is_ows. apply orb_false_iff.
  split; apply eqb_byte_false; intros ->; vm_compute in Hb; by apply Hb.
Qed.

Lemma parse_chunk_size_print n :
  0 <= n <= U64_MAX -> parse_chunk_size (print_hex n) = Ok n.
Proof.
  intros Hn. pose proof (print_radix_chars 16 n ltac:(lia) ltac:(lia)) as HF.
  unfold parse_chunk_size. rewrite split_on_none.
  2: { intros Hin. rewrite Forall_forall in HF. destruct (HF _ Hin) as (d & Hd & E).
       apply (f_equal bz) in E. change (bz ";") with 59 in E. unfold digit_char in E.
       destruct (d <? 10) eqn:?; bool_hyps; rewrite bz_byte_of_Z in E by lia; lia. }
  cbn [head default]. rewrite Forall_forall in HF.
  assert (Hows : forall y, y ∈ print_hex n -> is_ows y = false).
  { intros y Hy. destruct (HF _ Hy) as (d & Hd & ->). pose proof (digit_char_range d ltac:(lia)).
    apply is_ows_false. lia. }
  unfold trim_ows. rewrite trim_while_id.
  - cbn [ok_or]. unfold from_utf8. rewrite utf8_ascii.
    + simpl and_then. unfold print_hex. rewrite parse_print_radix by lia. done.
    + rewrite Forall_forall. intros y Hy. destruct (HF _ Hy) as (d & Hd & ->).
      pose proof (digit_char_range d ltac:(lia)). lia.
  - intros y r E. apply Hows. change (id (print_hex n)) with (print_hex n) in E.
    rewrite E. left.
  - intros r y E. apply Hows. change (id (print_hex n)) with (print_hex n) in E.
    rewrite E. apply elem_of_app. right. left.
Qed.

Lemma encode_chunked_ok ds trailers :
  Forall (fun d => d <> [] /\ zlen d <= U64_MAX) ds ->
  Forall trailer_ok trailers -> zlen (trailers_wire trailers) <= MAX_TRAILER_BYTES ->
  chunked (encode_chunked ds trailers) (concat ds).
Proof.
  intros Hds Ht Hl. induction Hds as [|d ds [Hd Hz] _ IH]; unfold encode_chunked; simpl.
  - apply (chunked_last (bs "0")); [|done|done|done]. split; [|done].
    vm_compute. intros H. apply list_elem_of_singleton in H. done.
  - unfold encode_chunk at 1. rewrite <- !app_assoc.
    apply (chunked_chunk (print_hex (zlen d)) d).
    + split; [apply print_radix_not_elem; [lia | apply zlen_nonneg | done]|].
      pose proof (zlen_print_radix 16 (zlen d)). pose proof (zlen_nonneg d).
      unfold MAX_CHUNK_LINE_BYTES, print_hex. lia.
    + apply parse_chunk_size_print. pose proof (zlen_nonneg d). lia.
    + done.
    + exact IH.
Qed.

(** Encode/decode round trip: the chunks a server sends come out of the
    reader as their concatenation, for every segmentation and read size. *)
Theorem chunked_roundtrip ds trailers segs sizes tls :
  Forall (fun d => d <> [] /\ zlen d <= U64_MAX) ds ->
  Forall trailer_ok trailers -> zlen (trailers_wire trailers) <= MAX_TRAILER_BYTES ->
  Forall (fun s => s <> []) segs -> concat segs = encode_chunked ds trailers ->
  Forall (fun n => 0 < n)%nat sizes -> (length (concat ds) < length sizes)%nat ->
  let t := mkTransport (map RxData segs) [] None None None in
  let b := mkBody (if tls : bool then Tls t else Tcp t) [] (Chunked 0 false false) in
  exists b', read_seq sizes b = Some (Ok (concat ds), b') /\ is_complete b' = true.
Proof.
  intros Hds Ht Hl Hsegs Hc Hs Hlen t b.
  assert (unread b (encode_chunked ds trailers)) as Hu.
  { exists (concat segs). split; [|by rewrite Hc].
    destruct tls; simpl; by apply delivers_segments. }
  assert (framed (mode b) (encode_chunked ds trailers) (concat ds) []) as Hf.
  { rewrite <- (app_nil_r (encode_chunked ds trailers)). by apply framed_next, encode_chunked_ok. }
  destruct (read_seq_unread b _ (concat ds) [] sizes Hu Hf Hs Hlen) as (b' & E & _ & He).
  exists b'. split; [done|]. by apply He.
Qed.

(** ** Any transport: termination, bounds and the state invariant *)

(** The most a line read leaves in the buffer: one byte short of the limit
    plus one [read] of 4096 bytes. *)
Definition LINE_BUFFER : Z := MAX_CHUNK_LINE_BYTES - 1 + 4096.

(** A step that leaves the framing state alone and never grows the buffer
    past its previous size or [LINE_BUFFER]. *)
Definition keeps (b b' : ResponseBody) : Prop :=
  mode b' = mode b /\ zlen (buffered b') <= Z.max (zlen (buffered b)) LINE_BUFFER.

Lemma keeps_refl b : keeps b b.
Proof. split; [done | lia]. Qed.

Lemma keeps_trans b b' b'' : keeps b b' -> keeps b' b'' -> keeps b b''.
Proof. intros [? ?] [? ?]. split; [congruence | lia]. Qed.

#[local] Hint Resolve keeps_refl : h12.
#[local] Hint Extern 3 (keeps _ _) => (eapply keeps_trans; [eassumption|]) : h12.

Lemma conn_read_length n c s c' : conn_read n c = (Ok s, c') -> (length s <= n)%nat.
Proof.
  unfold conn_read. rewrite lift_transport. intros [= E _].
  destruct (transport_read n (transport c)) as [r t] eqn:F. simpl in E. subst.
  by eapply transport_read_length.
Qed.

Lemma read_buffered_keeps n b r b' :
  read_buffered n b = (r, b') -> keeps b b' /\ (forall s, r = Ok s -> (length s <= n)%nat).
Proof.
  unfold read_buffered. destruct (buffered b) as [|x l] eqn:E.
  - destruct (conn_read n (connection b)) as [r' c'] eqn:F. intros [= <- <-].
    split; [split; simpl; [done | lia]|]. intros s ->. by apply conn_read_length in F.
  - intros [= <- <-]. split; [split; [done|]|].
    + cbn [buffered set_buffered]. rewrite E. unfold zlen.
      rewrite length_drop. lia.
    + intros s [= <-]. rewrite length_take. lia.
Qed.

Lemma read_exact_loop_keeps fuel n out b r b' :
  read_exact_loop fuel n out b = Some (r, b') -> keeps b b'.
Proof.
  revert n out b. induction fuel as [|fuel IH]; intros n out b; cbn [read_exact_loop];
    (destruct n as [|n]; [intros [= <- <-]; auto with h12|]); [done|].
  destruct (read_buffered (S n) b) as [r1 b1] eqn:E. apply read_buffered_keeps in E as [Hk _].
  destruct r1 as [[|y s]|e]; [intros [= <- <-]; done | | intros [= <- <-]; done].
  intros H. apply IH in H. by eapply keeps_trans.
Qed.

Lemma read_exact_loop_total fuel n out b :
  (n <= fuel)%nat -> is_Some (read_exact_loop fuel n out b).
Proof.
  revert n out b. induction fuel as [|fuel IH]; intros n out b Hn; cbn [read_exact_loop];
    (destruct n as [|n]; [done|]); [lia|].
  destruct (read_buffered (S n) b) as [[[|y s]|e] b1]; try done. apply IH. simpl. lia.
Qed.

Lemma read_line_loop_keeps fuel b r b' :
  read_line_loop fuel MAX_CHUNK_LINE_BYTES b = Some (r, b') -> keeps b b'.
Proof.
  revert b. induction fuel as [|fuel IH]; intros b; cbn [read_line_loop];
    (destruct (find_crlf (buffered b)) as [e|] eqn:F;
     [intros [= <- <-]; split; [done|]; cbn [buffered set_buffered]; unfold zlen;
      rewrite !length_drop; lia|]);
    (destruct (MAX_CHUNK_LINE_BYTES <=? zlen (buffered b)) eqn:M; bool_hyps;
     [intros [= <- <-]; auto with h12|]); [done|].
  destruct (conn_read 4096 (connection b)) as [r1 c1] eqn:E.
  destruct r1 as [[|y s]|e]; [intros [= <- <-]; split; [done | simpl; lia] |
    | intros [= <- <-]; split; [done | simpl; lia]].
  apply conn_read_length in E. intros H. apply IH in H as [Hm Hb]. split; [done|].
  cbn [buffered set_buffered set_connection] in Hb. revert Hb. rewrite zlen_app.
  unfold LINE_BUFFER, zlen in *. lia.
Qed.

Lemma read_line_loop_total fuel max b :
  max <= zlen (buffered b) + Z.of_nat fuel -> is_Some (read_line_loop fuel max b).
Proof.
  revert b. induction fuel as [|fuel IH]; intros b Hf; cbn [read_line_loop];
    (destruct (find_crlf (buffered b)); [done|]);
    (destruct (max <=? zlen (buffered b)) eqn:M; bool_hyps; [done|]); [lia|].
  destruct (conn_read 4096 (connection b)) as [[[|y s]|e] c1]; try done.
  apply IH. simpl. zlen_lia.
Qed.

(** A line read stops after at most [max_len] reads of the transport. *)
Lemma read_line_total max b : is_Some (read_line max b).
Proof. apply read_line_loop_total. zlen_lia. Qed.

Lemma read_line_keeps b r b' :
  read_line MAX_CHUNK_LINE_BYTES b = Some (r, b') -> keeps b b'.
Proof. unfold read_line. apply read_line_loop_keeps. Qed.

#[local] Opaque read_line.

Lemma consume_trailers_loop_keeps fuel total b r b' :
  consume_trailers_loop fuel total b = Some (r, b') -> keeps b b'.
Proof.
  revert total b. induction fuel as [|fuel IH]; intros total b; cbn [consume_trailers_loop]; [done|].
  destruct (read_line MAX_CHUNK_LINE_BYTES b) as [[r1 b1]|] eqn:E; [|done].
  apply read_line_keeps in E. rewrite some_bind.
  destruct r1 as [line|e]; [|intros [= <- <-]; done].
  destruct (_ <? _); [intros [= <- <-]; done|].
  destruct line; [intros [= <- <-]; done|].
  destruct (negb _); [intros [= <- <-]; done|].
  intros H. apply IH in H. by eapply keeps_trans.
Qed.

Lemma consume_trailers_loop_total fuel total b :
  0 <= total <= MAX_TRAILER_BYTES -> MAX_TRAILER_BYTES - total < 2 * Z.of_nat fuel ->
  is_Some (consume_trailers_loop fuel total b).
Proof.
  revert total b. induction fuel as [|fuel IH]; intros total b Ht Hf; cbn [consume_trailers_loop];
    [lia|].
  destruct (read_line_total MAX_CHUNK_LINE_BYTES b) as [[r1 b1] ->]. rewrite some_bind.
  destruct r1 as [line|e]; [|done]. unfold MAX_TRAILER_BYTES in *.
  destruct (_ <? _) eqn:M; bool_hyps; [done|]. destruct line as [|y line]; [done|].
  destruct (negb _); [done|]. apply IH; zlen_lia.
Qed.

Lemma consume_trailers_keeps b r b' : consume_trailers b = Some (r, b') -> keeps b b'.
Proof. unfold consume_trailers. apply consume_trailers_loop_keeps. Qed.

Lemma consume_trailers_total b : is_Some (consume_trailers b).
Proof.
  unfold consume_trailers. apply consume_trailers_loop_total; unfold MAX_TRAILER_BYTES; lia.
Qed.

#[local] Opaque consume_trailers.

Lemma parse_chunk_size_range line n : parse_chunk_size line = Ok n -> 0 <= n <= U64_MAX.
Proof.
  unfold parse_chunk_size. intros H. invert_ok.
  destruct (from_str_radix 16 U64_MAX x) eqn:E; [|done].
  match goal with H : ok_or _ _ = Ok n |- _ => injection H as -> end.
  eapply from_str_radix_range; [| |exact E]; unfold U64_MAX; lia.
Qed.

(** The state invariant of the framing machine: counters are [u64] values and
    a separator is due only at the end of a chunk. *)
Definition mode_ok (m : BodyMode) : Prop :=
  match m with
  | ContentLength r => 0 <= r <= U64_MAX
  | Chunked r sd c => 0 <= r <= U64_MAX /\ (sd = true \/ c = true -> r = 0)
  | _ => True
  end.

Lemma read_chunk_header_any b :
  exists r b', read_chunk_header b = Some (r, b') /\
    zlen (buffered b') <= Z.max (zlen (buffered b)) LINE_BUFFER /\
    match r with
    | Err _ => mode b' = mode b
    | Ok true => mode b' = Chunked 0 false true
    | Ok false => exists n, mode b' = Chunked n false false /\ 0 < n <= U64_MAX
    end.
Proof.
  unfold read_chunk_header. destruct (read_line_total MAX_CHUNK_LINE_BYTES b) as [[r1 b1] E].
  rewrite E, some_bind. apply read_line_keeps in E as [Em Eb].
  destruct r1 as [line|e]; [|by eexists _, _].
  destruct (parse_chunk_size line) as [n|e] eqn:Ep; [|by eexists _, _].
  apply parse_chunk_size_range in Ep. destruct (n =? 0) eqn:Ez; bool_hyps.
  - destruct (consume_trailers_total b1) as [[r2 b2] E2]. rewrite E2, some_bind.
    apply consume_trailers_keeps in E2 as [Em2 Eb2].
    destruct r2 as [?|e]; eexists _, _; (split; [done|]); split; simpl; try lia; try done.
    congruence.
  - eexists _, _. split; [done|]. split; [simpl; lia|]. exists n. split; [done | lia].
Qed.

Lemma read_separator_any b :
  exists r b', read_separator b = Some (r, b') /\ keeps b b'.
Proof.
  unfold read_separator. destruct (read_exact_loop_total 2 2 [] b) as [[r1 b1] E]; [lia|].
  unfold read_exact_buffered. rewrite E, some_bind. apply read_exact_loop_keeps in E.
  destruct r1; [destruct (bytes_eqb _ _)|]; eauto.
Qed.

(** What any read of any body does, on any transport. *)
Definition read_any (n : nat) (b : ResponseBody) (o : option (io bytes)) : Prop :=
  exists r b', o = Some (r, b') /\ mode_ok (mode b') /\
    zlen (buffered b') <= Z.max (zlen (buffered b)) LINE_BUFFER /\
    (forall s, r = Ok s -> (length s <= n)%nat) /\
    (r = Ok [] -> n = O \/ mode b = Eof \/ is_complete b' = true).

Lemma read_buffered_any n b :
  exists r b', read_buffered n b = (r, b') /\ mode b' = mode b /\
    zlen (buffered b') <= Z.max (zlen (buffered b)) LINE_BUFFER /\
    (forall s, r = Ok s -> (length s <= n)%nat).
Proof.
  destruct (read_buffered n b) as [r b'] eqn:E. exists r, b'.
  apply read_buffered_keeps in E as [[? ?] ?]. done.
Qed.

Lemma wanted_range n r : 0 < r -> (0 < n)%nat ->
  (0 < wanted n r <= n)%nat /\ Z.of_nat (wanted n r) <= r.
Proof. unfold wanted, USIZE_MAX. lia. Qed.

Lemma read_chunk_data_any n r sd b :
  mode b = Chunked r sd false -> mode_ok (mode b) -> 0 < r -> (0 < n)%nat ->
  read_any n b (Some (read_chunk_data n r b)).
Proof.
  intros Hm Hok Hr Hn. destruct (wanted_range n r) as [Hw Hwr]; [done | done|].
  unfold read_chunk_data. destruct (read_buffered_any (wanted n r) b) as (r1 & b1 & E & Em & Eb & Hs).
  rewrite E. destruct r1 as [[|y s]|e]; eexists _, _; (split; [done|]);
    (split; [|split; [exact Eb|split; [|done]]]);
    try (by rewrite Em); try done.
  - rewrite Hm in Hok. destruct Hok as [Hr' _]. specialize (Hs _ eq_refl).
    cbn [mode set_mode mode_ok]. unfold zlen. split; [lia|].
    intros [Hd|?]; [bool_hyps; lia | done].
  - intros s0 [= <-]. specialize (Hs _ eq_refl). lia.
Qed.

Lemma read_any_step n b b' o :
  read_any n b' o -> mode b' <> Eof ->
  zlen (buffered b') <= Z.max (zlen (buffered b)) LINE_BUFFER -> read_any n b o.
Proof.
  intros (r & b'' & -> & ? & ? & ? & Hz) Hm Hb. exists r, b''.
  split_and!; try done; [lia|]. intros Hr. destruct (Hz Hr) as [?|[?|?]]; auto.
Qed.

Lemma read_any_fail n b b' e :
  keeps b b' -> mode_ok (mode b) -> read_any n b (Some (Err e, b')).
Proof. intros [Hm Hb] Hok. exists (Err e), b'. split_and!; try done. by rewrite Hm. Qed.

Lemma read_chunked_any n b r sd c :
  mode b = Chunked r sd c -> mode_ok (mode b) -> (0 < n)%nat -> read_any n b (read_chunked n b).
Proof.
  intros Hm Hok Hn. unfold read_chunked. rewrite read_chunked_loop_S, Hm.
  destruct c.
  { exists (Ok []), b. split_and!; try done; [lia | intros s [= <-]; simpl; lia|].
    intros _. right. right. unfold is_complete. by rewrite Hm. }
  destruct (r =? 0) eqn:Er; bool_hyps.
  2: { eapply read_chunk_data_any; eauto. rewrite Hm in Hok. destruct Hok. lia. }
  assert (exists s b1, (if sd then read_separator b else Some (Ok (), b)) = Some (s, b1) /\
            keeps b b1) as (s & b1 & -> & Hk1).
  { destruct sd; [apply read_separator_any | by eexists _, _; split; [|apply keeps_refl]]. }
  rewrite some_bind. destruct s as [?|e]; [|by apply read_any_fail].
  destruct (read_chunk_header_any b1) as (h & b2 & -> & Hb2 & Hm2). rewrite some_bind.
  destruct Hk1 as [Hm1 Hb1]. destruct h as [[]|e].
  - exists (Ok []), b2. rewrite Hm2. split_and!; try done; [lia | intros s [= <-]; simpl; lia|].
    intros _. right. right. unfold is_complete. by rewrite Hm2.
  - destruct Hm2 as (k & Hm2 & Hk). apply (read_any_step n b b2); [|by rewrite Hm2 | lia].
    rewrite read_chunked_loop_S, Hm2. destruct (k =? 0) eqn:Ek; bool_hyps; [lia|].
    eapply read_chunk_data_any; eauto; [|lia]. rewrite Hm2. simpl. split; [lia | by intros [?|?]].
  - apply read_any_fail; [split; [congruence | lia] | done].
Qed.

(** C11. On any transport, for any sequence of bytes and errors the peer and the
    network produce, [read] returns (it never loops), keeps the framing state
    well formed, never hands out more than the caller's buffer, never buffers
    more than one bounded line beyond what was there, and reports end of body
    only when the framing says the body is complete (or is close-delimited). *)
Theorem read_is_total n b : mode_ok (mode b) -> read_any n b (read n b).
Proof.
  intros Hok. unfold read. destruct n as [|n].
  { exists (Ok []), b. split_and!; try done; [lia | intros s [= <-]; simpl; lia | by left]. }
  destruct (mode b) as [|r|r sd c|] eqn:E.
  - exists (Ok []), b. split_and!; [done | by rewrite E | lia | intros s [= <-]; simpl; lia |].
    intros _. right. right. unfold is_complete. by rewrite E.
  - destruct (r =? 0) eqn:Er; bool_hyps.
    { exists (Ok []), b. split_and!; [done | by rewrite E | lia | intros s [= <-]; simpl; lia |].
      intros _. right. right. unfold is_complete. rewrite E. by subst. }
    simpl in Hok. destruct (wanted_range (S n) r) as [Hw Hwr]; [lia | lia|].
    destruct (read_buffered_any (wanted (S n) r) b) as (r1 & b1 & -> & Em & Eb & Hs).
    destruct r1 as [[|y s]|e]; [by apply read_any_fail; [split|rewrite E] |
      | by apply read_any_fail; [split|rewrite E]].
    specialize (Hs _ eq_refl). eexists _, _. split; [done|].
    split; [|split; [exact Eb|split; [|done]]].
    + cbn [mode set_mode mode_ok]. unfold zlen. lia.
    + intros s0 [= <-]. lia.
  - eapply read_chunked_any; [done | by rewrite E | lia].
  - destruct (read_buffered_any (S n) b) as (r1 & b1 & -> & Em & Eb & Hs).
    eexists _, _. split; [done|]. rewrite Em, E. split_and!; try done. auto.
Qed.

(** C30. Truncation is detected: when the peer closes before the announced
    [Content-Length], reading the body ends in the [UnexpectedEof] error, for
    every segmentation and every read size, and never as a complete body. *)
Theorem truncated_body_fails b r u sizes :
  mode b = ContentLength r -> r <= U64_MAX -> unread b u -> zlen u < r ->
  Forall (fun n => 0 < n)%nat sizes -> (length u < length sizes)%nat ->
  exists b', read_seq sizes b = Some (Err ended_before_length, b') /\ is_complete b' = false.
Proof.
  intros Hm Hr Hu Hlt Hs. revert b r u Hm Hr Hu Hlt.
  induction Hs as [|n sizes Hn _ IH]; intros b r u Hm Hr Hu Hlt Hl; [simpl in Hl; lia|].
  cbn [read_seq]. unfold read. destruct n as [|n]; [lia|]. rewrite Hm.
  pose proof (zlen_nonneg u). destruct (r =? 0) eqn:Er; bool_hyps; [lia|].
  destruct (wanted_range (S n) r) as [Hw Hwr]; [lia | lia|].
  destruct (read_buffered_unread (wanted (S n) r) b u) as (s & u' & b' & -> & -> & Hs & Hnil & Hu' & Hm');
    [lia | done |].
  destruct s as [|y s]; rewrite some_bind.
  - exists b'. split; [done|]. unfold is_complete. rewrite Hm', Hm. destruct r; done || lia.
  - rewrite zlen_app in Hlt. destruct (IH (set_mode (ContentLength (r - zlen (y :: s))) b')
      (r - zlen (y :: s)) u') as (b'' & -> & ?); try done.
    + pose proof (zlen_nonneg (y :: s)). lia.
    + lia.
    + rewrite length_app in Hl. simpl in *. lia.
    + exists b''. done.
Qed.

#[local] Transparent read_line consume_trailers.

(** C33. A read that times out between the separator of a chunk and the next size
    line is not resumable: the separator is consumed but still recorded as
    due, so the next read takes the size line for a broken separator. *)
Theorem interrupted_chunk_header n m b e x y d rest :
  (0 < n)%nat -> (0 < m)%nat -> mode b = Chunked 0 true false -> buffered b = CRLF ->
  incoming (transport (connection b)) = RxErr e :: RxData (x :: y :: d) :: rest ->
  [x; y] <> CRLF ->
  exists b1 b2, read n b = Some (Err e, b1) /\ read m b1 = Some (Err no_chunk_crlf, b2).
Proof.
  intros Hn Hm Emode Ebuf Ein Hxy. destruct n as [|n]; [lia|]. destruct m as [|m]; [lia|].
  set (b0 := set_buffered [] b).
  assert (read_separator b = Some (Ok (), b0)) as Es.
  { unfold read_separator, read_exact_buffered. cbn [read_exact_loop]. unfold read_buffered.
    rewrite Ebuf. done. }
  set (b1 := set_connection (with_transport (set_incoming (RxData (x :: y :: d) :: rest)
               (transport (connection b))) (connection b)) b0).
  assert (read_chunk_header b0 = Some (Err e, b1)) as Eh.
  { unfold read_chunk_header, read_line. destruct (Z.to_nat MAX_CHUNK_LINE_BYTES) as [|k] eqn:Ek; [unfold MAX_CHUNK_LINE_BYTES in Ek; lia|].
    cbn [read_line_loop]. change (find_crlf (buffered b0)) with (@None nat).
    change (MAX_CHUNK_LINE_BYTES <=? zlen (buffered b0)) with false. cbn iota.
    unfold conn_read. rewrite lift_transport. unfold transport_read.
    change (connection b0) with (connection b). rewrite Ein. done. }
  assert (exists b2, read_separator b1 = Some (Err no_chunk_crlf, b2)) as [b2 Es2].
  { unfold read_separator, read_exact_buffered. cbn [read_exact_loop]. unfold read_buffered.
    change (buffered b1) with (@nil byte). cbn iota. unfold conn_read. rewrite lift_transport.
    unfold b1. cbn [connection set_connection]. rewrite transport_with.
    unfold transport_read. cbn [incoming set_incoming take fst snd].
    cbn. assert (bytes_eqb [x; y] CRLF = false) as F by by apply bool_decide_eq_false_2.
    rewrite take_0. cbn -[bytes_eqb]. rewrite F. eauto. }
  exists b1, b2. unfold read. change (mode b1) with (mode b). rewrite Emode.
  unfold read_chunked. rewrite !read_chunked_loop_S. change (mode b1) with (mode b).
  rewrite Emode, Es, Es2, !some_bind. by rewrite Eh.
Qed.

(** ** Concrete instances *)

(** "Wiki" + "pedia" in two chunks, one with an extension, and a trailer. *)
Definition sample_chunks : list bytes := [bs "Wiki"; bs "pedia"].
Definition sample_trailers : list bytes := [bs "X-Sum: 1"].
Definition sample_wire : bytes :=
  bs "4;ext=1" ++ CRLF ++ bs "Wiki" ++ CRLF ++ bs "5" ++ CRLF ++ bs "pedia" ++ CRLF ++
  bs "0" ++ CRLF ++ trailers_wire sample_trailers.

Definition sample_body (m : BodyMode) (buf : bytes) (rest : list rx) : ResponseBody :=
  mkBody (Tcp (mkTransport rest [] None None None)) buf m.

Lemma not_elem_dec (x : byte) (l : bytes) : contains x l = false -> x ∉ l.
Proof. intros H Hin. apply contains_spec in Hin. congruence. Qed.

Lemma sample_trailers_ok : Forall trailer_ok sample_trailers.
Proof.
  constructor; [|constructor]. split; [split; [by apply not_elem_dec | done]|].
  split; [done|]. by apply contains_spec.
Qed.

Lemma sample_wire_chunked : chunked sample_wire (bs "Wikipedia").
Proof.
  apply (chunked_chunk (bs "4;ext=1") (bs "Wiki") _ (bs "pedia"));
    [split; [by apply not_elem_dec | done] | done | done |].
  apply (chunked_chunk (bs "5") (bs "pedia") _ []);
    [split; [by apply not_elem_dec | done] | done | done |].
  apply chunked_last; [split; [by apply not_elem_dec | done] | done | | done].
  apply sample_trailers_ok.
Qed.

Lemma body_reads_content_witness :
  exists b', read_seq (repeat 3%nat 10)
      (sample_body (Chunked 0 false false) (take 9 sample_wire)
         [RxData (drop 9 sample_wire); RxData (bs "HTTP/1.1 ")])
    = Some (Ok (bs "Wikipedia"), b') /\ unread b' (bs "HTTP/1.1 ") /\
    (Chunked 0 false false <> Eof -> is_complete b' = true).
Proof.
  apply (body_reads_content (sample_body (Chunked 0 false false) (take 9 sample_wire)
    [RxData (drop 9 sample_wire); RxData (bs "HTTP/1.1 ")])
    (sample_wire ++ bs "HTTP/1.1 ") (bs "Wikipedia") (bs "HTTP/1.1 ") (repeat 3%nat 10)).
  - exists (drop 9 sample_wire ++ bs "HTTP/1.1 "). split.
    + split; [done|]. eexists. split; [reflexivity|]. split; [done|].
      exists []. by rewrite app_nil_r.
    + reflexivity.
  - apply framed_next, sample_wire_chunked.
  - repeat constructor.
  - vm_compute. lia.
Defined.

Lemma chunked_roundtrip_witness :
  let t := mkTransport (map RxData [encode_chunked sample_chunks sample_trailers]) [] None None None in
  exists b', read_seq (repeat 4%nat 12) (mkBody (Tls t) [] (Chunked 0 false false)) =
    Some (Ok (concat sample_chunks), b') /\ is_complete b' = true.
Proof.
  apply (chunked_roundtrip sample_chunks sample_trailers
    [encode_chunked sample_chunks sample_trailers] (repeat 4%nat 12) true).
  - repeat constructor; done.
  - apply sample_trailers_ok.
  - done.
  - repeat constructor; done.
  - apply app_nil_r.
  - repeat constructor.
  - vm_compute. lia.
Defined.

Lemma read_is_total_witness :
  mode_ok (Chunked 5 false false) /\
  read_any 8 (sample_body (Chunked 5 false false) [] [RxErr ended_in_line])
    (read 8 (sample_body (Chunked 5 false false) [] [RxErr ended_in_line])).
Proof.
  assert (mode_ok (Chunked 5 false false)) as H by (vm_compute; intuition congruence).
  split; [exact H|].
  exact (read_is_total 8 (sample_body (Chunked 5 false false) [] [RxErr ended_in_line]) H).
Defined.

Lemma truncated_body_fails_witness :
  exists b', read_seq (repeat 2%nat 7) (sample_body (ContentLength 9) (bs "Wi") [RxData (bs "ki")])
    = Some (Err ended_before_length, b') /\ is_complete b' = false.
Proof.
  apply (truncated_body_fails (sample_body (ContentLength 9) (bs "Wi") [RxData (bs "ki")]) 9
    (bs "Wiki")); [done | done | | done | repeat constructor | vm_compute; lia].
  exists (bs "ki"). split; [|done]. split; [done|]. by exists [].
Defined.

Lemma interrupted_chunk_header_witness :
  exists b1 b2,
    read 8 (sample_body (Chunked 0 true false) CRLF
              [RxErr (mkIoError WouldBlock "timed out"); RxData (bs "5" ++ CRLF)])
      = Some (Err (mkIoError WouldBlock "timed out"), b1) /\
    read 8 b1 = Some (Err no_chunk_crlf, b2).
Proof.
  apply (interrupted_chunk_header 8 8 (sample_body (Chunked 0 true false) CRLF
    [RxErr (mkIoError WouldBlock "timed out"); RxData (bs "5" ++ CRLF)])
    (mkIoError WouldBlock "timed out") "5"%byte x0d [x0a] []); done || lia.
Defined.

End SyncBody.
