(* ===== verification/SyncClient.v ===== *)
(** * The blocking client ([h12tiny-client-sync])

    [crates/h12tiny-client-sync/src/lib.rs]: [Client], [Builder], [Error], the
    request writer, the response-head reader and parser, and the choice of the
    body framing.  The body itself is [SyncBody].  Name resolution, dialling
    and TLS are the parameters of [Net].  An outer [None] is a panic of an
    [expect] or exhausted fuel.  The fuel of a request is the number of response
    heads it reads: the loop over interim responses has no limit of its own, so
    a request that ran out of fuel is still reading.  [request_is_total] shows
    that there is no panic and that the fuel runs out only on that many interim
    responses, [interim_responses_hold_request] that it then does. *)

From Stdlib Require Import ZArith Lia String.
From Stdlib Require Import Strings.Byte.
From stdpp Require Import base option list.
From S2P Require Import Prelude Bytes HttpLib Normalize Stream SyncBody.

Open Scope Z_scope.

Module SyncClient.
Import Normalize.Normalize SyncBody.SyncBody.

(** ** Errors *)
Inductive ErrorKind :=
| AbsoluteUriRequired | UnsupportedScheme | TlsUnavailable | Connect | Tls | Alpn
| UnsupportedVersion | UnsupportedUpgrade | SendRequest | Response | Timeout.
#[export] Instance ErrorKind_eq_dec : EqDecision ErrorKind.
Proof. solve_decision. Defined.

(** The boxed sources the crate attaches. *)
Inductive source_error :=
| SrcIo (e : io_error)
| SrcNormalize (e : Normalize.Error)
| InvalidServerName (host : bytes)
| UnsupportedAlpn (protocol : bytes)
| SrcTls.

Record Error := mkError { kind : ErrorKind; source : option source_error }.

Definition Error_new (k : ErrorKind) : Error := mkError k None.
Definition with_source (k : ErrorKind) (s : source_error) : Error := mkError k (Some s).

Definition io_is_timeout (e : io_error) : bool :=
  match ioe_kind e with TimedOut | WouldBlock => true | _ => false end.

Definition from_io (k : ErrorKind) (e : io_error) : Error :=
  let k := if io_is_timeout e then Timeout else k in with_source k (SrcIo e).

Definition is_timeout (e : Error) : bool :=
  match kind e with Timeout => true | _ => false end.

Definition response_error (message : string) : Error :=
  with_source Response (SrcIo (mkIoError InvalidData message)).

(** ** What the crate uses of the operating system and of Rustls *)
Record Net := mkNet {
  SocketAddr : Type;
  to_socket_addrs : bytes -> Z -> result (list SocketAddr) io_error;
  tcp_connect : SocketAddr -> option Duration -> result Transport io_error;
  TlsConfig : Type;
  Session : Type;
  server_name_valid : bytes -> bool;
  session_new : TlsConfig -> bytes -> option Session;
  complete_io : Session -> Transport -> result Session io_error * Transport;
  alpn_protocol : Session -> option bytes;
  (* the plaintext side of [StreamOwned::new(session, stream)] *)
  tls_stream : Session -> Transport -> Transport
}.

Section Client.
Context {L : HttpLib} (net : Net).

(** [tls] is [None] in a build without the [tls] feature. *)
Record Client := mkClient {
  connect_timeout : option Duration;
  set_host : bool;
  tls : option (TlsConfig net)
}.

(** ** [Builder] *)
Definition Builder_new (default_tls : option (TlsConfig net)) : Client :=
  mkClient None true default_tls.
Definition builder_connect_timeout (d : Duration) (c : Client) : Client :=
  mkClient (Some d) (set_host c) (tls c).
Definition builder_set_host (b : bool) (c : Client) : Client :=
  mkClient (connect_timeout c) b (tls c).
Definition builder_tls_config (t : TlsConfig net) (c : Client) : Client :=
  mkClient (connect_timeout c) (set_host c) (Some t).

(** ** Connecting *)
Definition no_address :=
  mkIoError InvalidInput "could not resolve the direct-origin host to a socket address".

(** The [while let] over the resolved addresses, with the last error. *)
Fixpoint try_addresses (last : option io_error) (timeout : option Duration)
    (l : list (SocketAddr net)) : result Transport io_error :=
  match l with
  | [] => Err (default no_address last)
  | address :: rest =>
      match tcp_connect net address timeout with
      | Ok stream => Ok stream
      | Err error => try_addresses (Some error) timeout rest
      end
  end.

Definition connect_tcp (host : bytes) (port : Z) (timeout : option Duration)
    : result Transport io_error :=
  let? addresses := to_socket_addrs net host port in try_addresses None timeout addresses.

(** [set_read_timeout(..).and_then(set_write_timeout(..))] on a TCP stream. *)
Definition set_both (d : option Duration) (t : Transport) : result () io_error * Transport :=
  match transport_set_read_timeout d t with
  | (Ok _, t') => transport_set_write_timeout d t'
  | (Err e, t') => (Err e, t')
  end.

Definition connect_tls (c : Client) (host : bytes) (port : Z) : result Connection Error :=
  match tls c with
  | None => Err (Error_new TlsUnavailable)
  | Some config =>
      let? stream := map_err (from_io Connect) (connect_tcp host port (connect_timeout c)) in
      let '(r, stream) := set_both (connect_timeout c) stream in
      let? _ := map_err (from_io Tls) r in
      let? _ := if server_name_valid net host then Ok ()
                else Err (with_source Tls (InvalidServerName host)) in
      let? session := ok_or (session_new net config host) (with_source Tls SrcTls) in
      let '(r, stream) := complete_io net session stream in
      let? session := map_err (from_io Tls) r in
      let? _ := match alpn_protocol net session with
                | None => Ok ()
                | Some p => if bytes_eqb p (bs "http/1.1") then Ok ()
                            else Err (with_source Alpn (UnsupportedAlpn p))
                end in
      let '(r, stream) := set_both None stream in
      let? _ := map_err (from_io Tls) r in
      Ok (SyncBody.Tls (tls_stream net session stream))
  end.

(** [\[::1\]] names the host [::1]. *)
Definition unbracket (host : bytes) : bytes :=
  default host (strip_prefix (bs "[") host ≫= strip_suffix (bs "]")).

Definition connect (c : Client) (o : Origin) : option (result Connection Error) :=
  uri ← origin_uri o;
  Some match uri_host uri with
       | None => Err (Error_new Connect)
       | Some h =>
           let host := unbracket h in
           let s := default [] (uri_scheme_str uri) in
           if bytes_eqb s (bs "http") then
             map_err (from_io Connect)
               (map_ok Tcp (connect_tcp host (default 80 (uri_port_u16 uri)) (connect_timeout c)))
           else if bytes_eqb s (bs "https") then
             connect_tls c host (default 443 (uri_port_u16 uri))
           else Err (with_source UnsupportedScheme
                       (SrcIo (mkIoError InvalidInput
                          (string_of_list_byte (bs "unsupported URI scheme " ++ debug_str s)))))
       end.

(** ** Writing the request *)

(** [m.and_then(|()| k)] over the same connection. *)
Definition io_then (m k : Connection -> result () io_error * Connection) (c : Connection)
    : result () io_error * Connection :=
  match m c with (Ok _, c') => k c' | (Err e, c') => (Err e, c') end.

Definition write_field (nv : HeaderName * HeaderValue) : Connection -> result () io_error * Connection :=
  io_then (conn_write_all (fst nv))
    (io_then (conn_write_all (bs ": "))
       (io_then (conn_write_all (snd nv)) (conn_write_all CRLF))).

Fixpoint write_fields (l : list (HeaderName * HeaderValue)) : Connection -> result () io_error * Connection :=
  match l with
  | [] => fun c => (Ok (), c)
  | nv :: rest => io_then (write_field nv) (write_fields rest)
  end.

(** The headers [write_request] adds when the caller left them out. *)
Definition framing_headers (body : bytes) (m : HeaderMap) : option HeaderMap :=
  m ← (if negb (hm_contains CONTENT_LENGTH m) && negb (hm_contains TRANSFER_ENCODING m) then
         value ← header_value_from_bytes (print_dec (zlen body));
         Some (hm_insert CONTENT_LENGTH value m)
       else Some m);
  Some (if negb (hm_contains CONNECTION m) then hm_insert CONNECTION (bs "close") m else m).

Definition request_line (m : Method) (u : Uri) : bytes :=
  m ++ bs " " ++ uri_display u ++ bs " HTTP/1.1" ++ CRLF.

Definition write_request (c : Connection) (request : Request bytes)
    : option (result () Error * Connection) :=
  headers ← framing_headers (r_body request) (r_headers request);
  let '(r, c') :=
    io_then (conn_write_all (request_line (r_method request) (r_uri request)))
      (io_then (write_fields (hm_iter headers))
         (io_then (conn_write_all CRLF)
            (io_then (conn_write_all (r_body request)) conn_flush))) c in
  Some (map_err (from_io SendRequest) r, c').

(** ** Reading the response head *)
Definition find_head_end (l : bytes) : option nat := find_window (CRLF ++ CRLF) l.

Definition head_too_long := response_error "HTTP response headers exceed the configured limit".
Definition closed_in_head := response_error "connection closed before HTTP response headers".

(** The result, and the connection and buffer it leaves behind. *)
Fixpoint read_head_loop (fuel : nat) (c : Connection) (buffered : bytes)
    : option (result nat Error * Connection * bytes) :=
  match find_head_end buffered with
  | Some e => Some (Ok e, c, buffered)
  | None =>
      if MAX_RESPONSE_HEAD_BYTES <=? zlen buffered then Some (Err head_too_long, c, buffered)
      else match fuel with
      | O => None
      | S fuel' =>
          let '(r, c') := conn_read 4096 c in
          match r with
          | Err e => Some (Err (from_io Response e), c', buffered)
          | Ok [] => Some (Err closed_in_head, c', buffered)
          | Ok input => read_head_loop fuel' c' (buffered ++ input)
          end
      end
  end.

(** Every iteration buffers at least one byte and stops at the limit. *)
Definition read_response_head (c : Connection) (buffered : bytes)
    : option (result nat Error * Connection * bytes) :=
  read_head_loop (Z.to_nat MAX_RESPONSE_HEAD_BYTES) c buffered.

Definition strip_line_crlf (line : bytes) : result bytes Error :=
  let line := default line (strip_suffix [x0d] line) in
  if contains x0d line then Err (response_error "HTTP response header was not CRLF terminated")
  else Ok line.

(** The body of the header loop: one field line. *)
Definition parse_field (line : bytes) (headers : HeaderMap) : result HeaderMap Error :=
  let? line := strip_line_crlf line in
  if bytes_eqb line [] then Err (response_error "unexpected empty line in HTTP response headers")
  else
    let? separator := ok_or (position ":" line) (response_error "malformed HTTP response header") in
    let? name := ok_or (header_name_from_bytes (take separator line))
                   (response_error "HTTP response header name was invalid") in
    let? value := ok_or (header_value_from_bytes (trim_ows (drop (separator + 1) line)))
                    (response_error "HTTP response header value was invalid") in
    Ok (hm_append name value headers).

Fixpoint parse_fields (lines : list bytes) (headers : HeaderMap) : result HeaderMap Error :=
  match lines with
  | [] => Ok headers
  | line :: rest => let? headers := parse_field line headers in parse_fields rest headers
  end.

Definition parse_version (f : option bytes) : result Version Error :=
  match f with
  | Some v =>
      if bytes_eqb v (bs "HTTP/1.0") then Ok HTTP_10
      else if bytes_eqb v (bs "HTTP/1.1") then Ok HTTP_11
      else Err (response_error "response did not use HTTP/1.x")
  | None => Err (response_error "response did not use HTTP/1.x")
  end.

Definition parse_response_head (hd : bytes) : result (StatusCode * Version * HeaderMap) Error :=
  let lines := split_on x0a hd in
  let? status_line :=
    match head lines with
    | Some l => strip_line_crlf l
    | None => Err (response_error "malformed HTTP response status line")
    end in
  let? status_line :=
    ok_or (from_utf8 status_line) (response_error "HTTP response status line was not ASCII") in
  let fields := splitn 3 " " status_line in
  let? version := parse_version (head fields) in
  let? code := ok_or (fields !! 1%nat) (response_error "HTTP response omitted its status code") in
  let? status := ok_or (parse_u16 code ≫= status_from_u16)
                   (response_error "HTTP response supplied an invalid status code") in
  let? headers := parse_fields (tail lines) hm_new in
  Ok (status, version, headers).

(** ** Choosing the body framing *)
Definition no_body (status : StatusCode) (head_request : bool) : bool :=
  head_request || is_informational status || (status =? NO_CONTENT) || (status =? NOT_MODIFIED).

Definition transfer_codings (headers : HeaderMap) : list bytes :=
  List.filter (fun v => negb (bytes_eqb v []))
    (map trim_ows (concat (map (split_on ",") (hm_get_all TRANSFER_ENCODING headers)))).

Definition parse_length (value : HeaderValue) : result Z Error :=
  let? value := ok_or (from_utf8 (trim_ows value))
                  (response_error "HTTP Content-Length was not ASCII") in
  ok_or (parse_u64 value) (response_error "HTTP Content-Length was invalid").

Fixpoint content_length (acc : option Z) (values : list HeaderValue) : result (option Z) Error :=
  match values with
  | [] => Ok acc
  | value :: rest =>
      let? value := parse_length value in
      match acc with
      | Some previous =>
          if negb (previous =? value) then
            Err (response_error "HTTP response has conflicting Content-Length values")
          else content_length (Some value) rest
      | None => content_length (Some value) rest
      end
  end.

Definition response_body_mode (headers : HeaderMap) (status : StatusCode) (head_request : bool)
    : result BodyMode Error :=
  if no_body status head_request then Ok Empty
  else
    match transfer_codings headers with
    | coding :: more =>
        if hm_contains CONTENT_LENGTH headers
           || negb (match more with [] => true | _ => false end)
           || negb (eq_ignore_ascii_case coding (bs "chunked"))
        then Err (response_error "HTTP response has unsupported or ambiguous transfer framing")
        else Ok (Chunked 0 false false)
    | [] =>
        let? length := content_length None (hm_get_all CONTENT_LENGTH headers) in
        Ok match length with Some n => ContentLength n | None => Eof end
    end.

(** ** The response, after any interim ones *)

(** Each iteration of the [loop] reads one head. *)
Fixpoint read_response (fuel : nat) (c : Connection) (buffered : bytes) (head_request : bool)
    : option (result (HttpLib.Response ResponseBody) Error) :=
  match fuel with
  | O => None
  | S fuel' =>
      r ← read_response_head c buffered;
      match r with
      | (Err e, _, _) => Some (Err e)
      | (Ok e, c', buffered) =>
          let hd := take e buffered in
          let buffered := drop 4 (drop e buffered) in
          match parse_response_head hd with
          | Err err => Some (Err err)
          | Ok (status, version, headers) =>
              if is_informational status && negb (status =? SWITCHING_PROTOCOLS) then
                read_response fuel' c' buffered head_request
              else if status =? SWITCHING_PROTOCOLS then Some (Err (Error_new UnsupportedUpgrade))
              else Some (let? m := response_body_mode headers status head_request in
                         Ok (mkResponse status version headers (mkBody c' buffered m)))
          end
      end
  end.

(** ** The request, reading at most [fuel] response heads *)
Definition request_with_timeout (fuel : nat) (cl : Client) (request : Request bytes) (timeout : option Duration)
    : option (result (HttpLib.Response ResponseBody) Error) :=
  if bool_decide (timeout = Some 0) then Some (Err (Error_new Timeout))
  else
    let is_connect := bytes_eqb (r_method request) CONNECT in
    match r_version request with
    | HTTP_10 | HTTP_11 =>
        '(uri, r) ← extract_origin (r_uri request) is_connect;
        match r with
        | Err e => Some (Err (with_source AbsoluteUriRequired (SrcNormalize e)))
        | Ok origin =>
            request ← normalize_http1_request (with_uri uri request) (set_host cl);
            let head_request := bytes_eqb (r_method request) HEAD in
            conn ← connect cl origin;
            match conn with
            | Err e => Some (Err e)
            | Ok c =>
                match conn_set_timeouts timeout timeout c with
                | (Err e, _) => Some (Err (from_io SendRequest e))
                | (Ok _, c) =>
                    w ← write_request c request;
                    match w with
                    | (Err e, _) => Some (Err e)
                    | (Ok _, c) => read_response fuel c [] head_request
                    end
                end
            end
        end
    | _ => Some (Err (Error_new UnsupportedVersion))
    end.

Definition request (fuel : nat) (cl : Client) (r : Request bytes)
    : option (result (HttpLib.Response ResponseBody) Error) :=
  request_with_timeout fuel cl r None.

End Client.
(** ** Framing *)
Section Framing.
Context {L : HttpLib}.

Lemma content_length_some acc values n :
  content_length (Some acc) values = Ok n <->
  n = Some acc /\ Forall (fun v => parse_length v = Ok acc) values.
Proof.
  revert acc. induction values as [|v values IH]; intros acc; simpl.
  - split; [by intros [= <-] | by intros [-> _]].
  - destruct (parse_length v) as [k|e] eqn:E; simpl.
    + destruct (acc =? k) eqn:Ek; simpl; bool_hyps.
      * subst k. rewrite IH. rewrite Forall_cons. split; [intros [-> ?] | intros [-> [? ?]]]; auto.
      * split; [done|]. intros [_ HF]. apply Forall_cons in HF as [? _]. congruence.
    + split; [done|]. intros [_ HF]. apply Forall_cons in HF as [? _]. congruence.
Qed.

Lemma content_length_spec values n :
  content_length None values = Ok n <->
  match n with
  | Some n => values <> [] /\ Forall (fun v => parse_length v = Ok n) values
  | None => values = []
  end.
Proof.
  destruct values as [|v values]; simpl.
  - destruct n; split; try done. by intros [? _].
  - destruct (parse_length v) as [k|e] eqn:E; simpl.
    + rewrite content_length_some. destruct n as [n|]; [|split; [by intros [? _] | done]].
      rewrite Forall_cons. split; [intros [[= ->] ?]; done|].
      intros [_ [? ?]]. assert (n = k) by congruence. by subst.
    + destruct n; split; try done. intros [_ HF]. apply Forall_cons in HF as [? _]. congruence.
Qed.

(** *** What the fields of a response announce *)

(** Optional white space: spaces and tabs. *)
Definition blank (b : byte) : bool := (bz b =? 32) || (bz b =? 9).

Lemma blank_is_ows b : blank b = is_ows b.
Proof. destruct b; reflexivity. Qed.

Lemma trimmed_ows v e : trimmed blank v e <-> e = trim_ows v.
Proof.
  unfold trim_ows. rewrite <- trimmed_iff. unfold trimmed. by setoid_rewrite blank_is_ows.
Qed.

(** The elements of a comma-separated field value, without the white space
    around them. *)
Inductive elements : bytes -> list bytes -> Prop :=
| elements_last v e : ((","%byte) ∉ v) -> trimmed blank v e -> elements v [e]
| elements_more v rest e es :
    ((","%byte) ∉ v) -> trimmed blank v e -> elements rest es ->
    elements (v ++ ","%byte :: rest) (e :: es).

Lemma elements_iff v es : elements v es <-> es = map trim_ows (split_on "," v).
Proof.
  split.
  - induction 1 as [v e Hc He%trimmed_ows|v rest e es Hc He%trimmed_ows _ IH].
    + by rewrite split_on_none, He by done.
    + by rewrite split_on_app, IH, He by done.
  - intros ->. rewrite <- (join_split "," v) at 1.
    pose proof (split_on_pieces "," v) as HF. pose proof (split_on_nonempty "," v) as Hne.
    induction HF as [|p ps Hp HF IH]; [done|]. destruct ps as [|q ps].
    + constructor; [done | by apply trimmed_ows].
    + cbn [join_with map]. constructor; [done | by apply trimmed_ows | by apply IH].
Qed.

(** The transfer codings of a response: the elements of every
    [Transfer-Encoding] value, the empty ones left out. *)
Definition codings (headers : HeaderMap) (cs : list bytes) : Prop :=
  exists ess, Forall2 elements (hm_get_all TRANSFER_ENCODING headers) ess /\
    cs = filter (fun e => e <> []) (concat ess).

Lemma filter_nonempty (l : list bytes) :
  filter (fun e => e <> []) l = List.filter (fun v => negb (bytes_eqb v [])) l.
Proof.
  induction l as [|v l IH]; [done|]. rewrite filter_cons. cbn [List.filter].
  unfold bytes_eqb at 1. case_decide; case_bool_decide; try done; by rewrite IH.
Qed.

Lemma codings_iff headers cs : codings headers cs <-> cs = transfer_codings headers.
Proof.
  unfold codings, transfer_codings. setoid_rewrite filter_nonempty.
  assert (forall vs ess, Forall2 elements vs ess <->
    ess = map (fun v => map trim_ows (split_on "," v)) vs) as E.
  { induction vs as [|v vs IH]; intros ess; simpl.
    - split; [by inversion 1 | intros ->; constructor].
    - split.
      + inversion 1 as [|? ? ? ? H1 H2]; subst. apply elements_iff in H1. apply IH in H2. by subst.
      + intros ->. constructor; [by apply elements_iff | by apply IH]. }
  assert (forall vs, concat (map (fun v => map trim_ows (split_on "," v)) vs)
    = map trim_ows (concat (map (split_on ",") vs))) as Ec.
  { induction vs as [|v vs IH]; simpl; [done|]. by rewrite map_app, IH. }
  split; [intros (ess & H & ->); apply E in H as ->; by rewrite Ec|].
  intros ->. eexists. split; [by apply E|]. by rewrite Ec.
Qed.

(** A [Content-Length] value announces [n]: white space around a decimal text
    of [n], which fits 64 bits; as for every [parse] of an unsigned integer a
    plus sign may come before the digits. *)
Definition announces (v : HeaderValue) (n : Z) : Prop :=
  exists t, trimmed blank v t /\ dec_text U64_MAX t n.

Lemma parse_length_iff v n : parse_length v = Ok n <-> announces v n.
Proof.
  unfold announces, parse_length, from_utf8, parse_u64. setoid_rewrite trimmed_ows.
  assert (from_str_radix 10 U64_MAX (trim_ows v) = Some n <-> dec_text U64_MAX (trim_ows v) n) as E
    by (apply from_str_radix_dec; unfold U64_MAX; lia).
  split.
  - destruct (utf8_valid (trim_ows v)); [|done]. simpl.
    destruct (from_str_radix 10 U64_MAX (trim_ows v)) eqn:F; simpl; [|done]. intros [= ->].
    exists (trim_ows v). by rewrite <- E.
  - intros (t & -> & Ht). rewrite (dec_text_ascii _ _ _ Ht). simpl. apply E in Ht. by rewrite Ht.
Qed.

(** The responses without content: those to [HEAD], the interim ones, 204 and
    304. *)
Definition no_content (status : StatusCode) (head_request : bool) : Prop :=
  head_request = true \/ 100 <= status < 200 \/ status = 204 \/ status = 304.

Lemma no_body_iff status head_request : no_body status head_request = true <-> no_content status head_request.
Proof.
  unfold no_body, no_content, is_informational, NO_CONTENT, NOT_MODIFIED.
  rewrite !orb_true_iff, andb_true_iff. destruct head_request; lia.
Qed.

#[export] Instance no_content_dec status head_request : Decision (no_content status head_request).
Proof. unfold no_content. apply _. Defined.

Lemma no_body_decide status head_request :
  no_body status head_request = bool_decide (no_content status head_request).
Proof. apply eq_bool_prop_intro. by rewrite !Is_true_true, no_body_iff, bool_decide_eq_true. Qed.

(** The framing a response may have: never two at once. *)
Definition framing_of (headers : HeaderMap) (status : StatusCode) (head_request : bool)
    (m : BodyMode) : Prop :=
  match m with
  | Empty => no_content status head_request
  | Chunked r sd c =>
      ~ no_content status head_request /\ r = 0 /\ sd = false /\ c = false /\
      hm_get_all CONTENT_LENGTH headers = [] /\
      exists coding, codings headers [coding] /\ map to_lower coding = bs "chunked"
  | ContentLength n =>
      ~ no_content status head_request /\ codings headers [] /\
      hm_get_all CONTENT_LENGTH headers <> [] /\
      forall v, v ∈ hm_get_all CONTENT_LENGTH headers -> announces v n
  | Eof =>
      ~ no_content status head_request /\ codings headers [] /\
      hm_get_all CONTENT_LENGTH headers = []
  end.

(** The same in terms of the helpers of [response_body_mode]. *)
Definition framing_code (headers : HeaderMap) (status : StatusCode) (head_request : bool)
    (m : BodyMode) : Prop :=
  match m with
  | Empty => no_body status head_request = true
  | Chunked r sd c =>
      no_body status head_request = false /\ r = 0 /\ sd = false /\ c = false /\
      hm_get_all CONTENT_LENGTH headers = [] /\
      exists coding, transfer_codings headers = [coding] /\
        eq_ignore_ascii_case coding (bs "chunked") = true
  | ContentLength n =>
      no_body status head_request = false /\ transfer_codings headers = [] /\
      hm_get_all CONTENT_LENGTH headers <> [] /\
      Forall (fun v => parse_length v = Ok n) (hm_get_all CONTENT_LENGTH headers)
  | Eof =>
      no_body status head_request = false /\ transfer_codings headers = [] /\
      hm_get_all CONTENT_LENGTH headers = []
  end.

Lemma framing_code_iff headers status head_request m :
  framing_code headers status head_request m <-> framing_of headers status head_request m.
Proof.
  assert (no_body status head_request = false <-> ~ no_content status head_request) as Hn
    by (by rewrite <- not_true_iff_false, no_body_iff).
  assert (forall cs, transfer_codings headers = cs <-> codings headers cs) as Hc
    by (intros cs; rewrite codings_iff; naive_solver).
  destruct m as [|n|r sd c|]; simpl; rewrite ?Hn, ?Hc.
  - apply no_body_iff.
  - rewrite Forall_forall. by setoid_rewrite parse_length_iff.
  - setoid_rewrite Hc. unfold eq_ignore_ascii_case, bytes_eqb. by setoid_rewrite bool_decide_eq_true.
  - done.
Qed.

Lemma response_body_mode_code headers status head_request m :
  response_body_mode headers status head_request = Ok m <->
  framing_code headers status head_request m.
Proof.
  unfold response_body_mode, framing_code.
  destruct (no_body status head_request); [destruct m; naive_solver|].
  destruct (transfer_codings headers) as [|coding more] eqn:Et.
  - destruct (content_length None (hm_get_all CONTENT_LENGTH headers)) as [n|e] eqn:E; simpl.
    + apply content_length_spec in E. destruct n as [n|], m; split; try naive_solver.
      * intros (_ & _ & _ & HF). destruct E as [Hne HF']. destruct (hm_get_all _ _); [done|].
        apply Forall_cons in HF as [? _], HF' as [? _]. congruence.
    + split; [done|]. intros H. destruct m as [|n|? ? ?|]; try naive_solver.
      * destruct H as (_ & _ & H). apply (content_length_spec _ (Some n)) in H. congruence.
      * destruct H as (_ & _ & H). apply (content_length_spec _ None) in H. congruence.
  - destruct (hm_contains CONTENT_LENGTH headers) eqn:Ec; simpl.
    { apply hm_contains_spec in Ec. split; [done|]. destruct m; naive_solver. }
    apply hm_contains_false in Ec.
    destruct more; simpl; [|split; [done|]; destruct m; naive_solver].
    destruct (eq_ignore_ascii_case coding (bs "chunked")) eqn:Eq; simpl;
      (split; [|destruct m as [| |? ? ?|]]); try done;
      try (by intros (_ & ? & _)).
    + intros [= <-]. split_and!; eauto.
    + by intros (_ & -> & -> & -> & _).
    + intros (_ & _ & _ & _ & _ & coding' & [= <-] & ?). congruence.
Qed.

Lemma response_body_mode_iff headers status head_request m :
  response_body_mode headers status head_request = Ok m <->
  framing_of headers status head_request m.
Proof. by rewrite response_body_mode_code, framing_code_iff. Qed.

(** C5. The framing of a response is accepted only when it is unambiguous: a
    chunked body needs exactly one transfer coding among all the elements of
    all [Transfer-Encoding] fields, [chunked] in any case, and no
    [Content-Length]; a fixed length needs every [Content-Length] value to be
    a decimal text of that one 64-bit length and no transfer coding; a body
    delimited by the close of the connection has neither; [HEAD], 1xx, 204 and
    304 responses have no body, whatever the fields say.  In every other case
    the response is refused. *)
Theorem response_body_mode_spec headers status head_request m :
  response_body_mode headers status head_request = Ok m <->
  framing_of headers status head_request m.
Proof. apply response_body_mode_iff. Qed.
End Framing.

(** ** The wire form of a response head *)

(** No CR and no LF. *)
Definition plain (l : bytes) : Prop := (x0d ∉ l) /\ (x0a ∉ l).

Fixpoint crlf_join (lines : list bytes) : bytes :=
  match lines with
  | [] => []
  | [l] => l
  | l :: rest => l ++ CRLF ++ crlf_join rest
  end.

Lemma contains_false c l : c ∉ l -> contains c l = false.
Proof. intros H. destruct (contains c l) eqn:E; [by apply contains_spec in E | done]. Qed.

Lemma strip_suffix_app l suf : strip_suffix suf (l ++ suf) = Some l.
Proof.
  unfold strip_suffix. rewrite length_app, Nat.add_sub, drop_app_length, take_app_length.
  unfold bytes_eqb. by rewrite bool_decide_eq_true_2.
Qed.

Lemma strip_line_crlf_cr l : x0d ∉ l -> strip_line_crlf (l ++ [x0d]) = Ok l.
Proof.
  intros H. unfold strip_line_crlf. rewrite strip_suffix_app. simpl.
  by rewrite contains_false.
Qed.

Lemma strip_line_crlf_plain l : x0d ∉ l -> strip_line_crlf l = Ok l.
Proof.
  intros H. unfold strip_line_crlf. destruct (strip_suffix [x0d] l) as [k|] eqn:E; simpl.
  - exfalso. apply H. unfold strip_suffix in E. destruct (bytes_eqb _ _) eqn:F; [|done].
    apply bool_decide_eq_true in F. rewrite <- (take_drop (length l - length [x0d]) l), F.
    apply elem_of_app. right. left.
  - by rewrite contains_false.
Qed.

(** The pieces between line feeds are the lines of the head. *)
Lemma split_crlf_join lines :
  lines <> [] -> Forall plain lines ->
  Forall2 (fun piece line => strip_line_crlf piece = Ok line)
    (split_on x0a (crlf_join lines)) lines.
Proof.
  induction lines as [|l lines IH]; intros Hne HF; [done|].
  apply Forall_cons in HF as [[Hr Hn] HF]. destruct lines as [|l' lines].
  - simpl. rewrite split_on_none by done. constructor; [by apply strip_line_crlf_plain | done].
  - assert (crlf_join (l :: l' :: lines) = (l ++ [x0d]) ++ x0a :: crlf_join (l' :: lines)) as ->
      by (rewrite <- app_assoc; done).
    rewrite split_on_app.
    + constructor; [by apply strip_line_crlf_cr | by apply IH].
    + intros [?|Hx]%elem_of_app; [done|]. by apply list_elem_of_singleton in Hx.
Qed.

(** The blank line is found at the end of the head and not before. *)
Lemma find_head_end_plain l k :
  x0d ∉ l -> find_head_end (l ++ k) = (Nat.add (length l)) <$> find_head_end k.
Proof.
  unfold find_head_end. induction l as [|x l IH]; intros H.
  - simpl app. by destruct (find_window _ k).
  - apply not_elem_of_cons in H as [Hx H]. rewrite <- app_comm_cons. cbn [find_window].
    rewrite (IH H). simpl.
    destruct (Byte.eqb x0d x) eqn:E; [apply eqb_byte_true in E; congruence|]. simpl.
    by destruct (find_window _ k).
Qed.

Lemma find_head_end_crlf x k :
  x <> x0d -> find_head_end (CRLF ++ x :: k) = (Nat.add 2) <$> find_head_end (x :: k).
Proof.
  intros Hx. unfold find_head_end. set (w := find_window (CRLF ++ CRLF) (x :: k)).
  change (find_window (CRLF ++ CRLF) (CRLF ++ x :: k)) with
    (if Byte.eqb x0d x && starts_with [x0a] k then Some O else S <$> (S <$> w)).
  rewrite (proj2 (eqb_byte_false x0d x)) by congruence. by destruct w.
Qed.

Lemma find_head_end_join lines k :
  lines <> [] -> Forall plain lines -> Forall (fun l => l <> []) lines ->
  find_head_end (crlf_join lines ++ CRLF ++ CRLF ++ k) = Some (length (crlf_join lines)).
Proof.
  induction lines as [|l lines IH]; intros Hne HF HN; [done|].
  apply Forall_cons in HF as [[Hr Hn] HF]. apply Forall_cons in HN as [Hl HN].
  destruct lines as [|l' lines].
  - simpl crlf_join. rewrite find_head_end_plain by done.
    unfold find_head_end. simpl. f_equal. lia.
  - change (crlf_join (l :: l' :: lines)) with (l ++ CRLF ++ crlf_join (l' :: lines)).
    rewrite <- !app_assoc, find_head_end_plain by done.
    specialize (IH ltac:(done) HF HN). rewrite !length_app.
    apply Forall_cons in HF as [[Hr' _] _], HN as [Hl' _].
    assert (exists x r, crlf_join (l' :: lines) = x :: r /\ x <> x0d) as (x & r & Er & Hx).
    { destruct l' as [|x l']; [done|]. apply not_elem_of_cons in Hr' as [? _].
      destruct lines; eexists _, _; done. }
    rewrite Er in IH |- *. rewrite <- app_comm_cons, find_head_end_crlf by done.
    rewrite app_comm_cons, IH. simpl. f_equal.
Qed.

Lemma splitn_three c a b r :
  c ∉ a -> c ∉ b -> splitn 3 c (a ++ c :: b ++ c :: r) = [a; b; r].
Proof.
  intros Ha Hb. cbn [splitn]. by rewrite (split_once_app c a _ Ha), (split_once_app c b _ Hb).
Qed.

(** ** Parsing a head *)

(** A response head as a server sends it. *)
Record ResponseHead := mkHead {
  h_version : Version;
  h_status : Z;
  h_reason : bytes;
  h_fields : list (bytes * bytes)
}.

Definition version_text (v : Version) : bytes :=
  match v with HTTP_10 => bs "HTTP/1.0" | _ => bs "HTTP/1.1" end.
Definition status_line (h : ResponseHead) : bytes :=
  version_text (h_version h) ++ " "%byte :: print_dec (h_status h) ++ " "%byte :: h_reason h.
Definition field_line (f : bytes * bytes) : bytes := fst f ++ ":"%byte :: snd f.
Definition head_lines (h : ResponseHead) : list bytes := status_line h :: map field_line (h_fields h).
Definition encode_head (h : ResponseHead) : bytes := crlf_join (head_lines h).

Definition values_of (k : bytes) (fs : list (bytes * bytes)) : list bytes :=
  map snd (filter (fun '(n, _) => n = k) fs).

Section Head.
Context {L : HttpLib} {W : HttpLaws L}.

(** A field line the [http] crate accepts, with the name and value it keeps. *)
Definition field_ok (f nv : bytes * bytes) : Prop :=
  plain (fst f) /\ plain (snd f) /\ ((":"%byte) ∉ fst f) /\
  header_name_from_bytes (fst f) = Some (fst nv) /\
  header_value_from_bytes (trim_ows (snd f)) = Some (snd nv).

(** [head_ok h fs]: a well-formed head whose parsed fields are [fs]. *)
Definition head_ok (h : ResponseHead) (fs : list (bytes * bytes)) : Prop :=
  (h_version h = HTTP_10 \/ h_version h = HTTP_11) /\ 100 <= h_status h < 1000 /\
  plain (h_reason h) /\ Forall (fun b => bz b < 128) (h_reason h) /\
  Forall2 field_ok (h_fields h) fs.

Definition append_all (fs : list (bytes * bytes)) (m : HeaderMap) : HeaderMap :=
  fold_left (fun m f => hm_append (fst f) (snd f) m) fs m.

Lemma append_all_values k fs m :
  hm_get_all k (append_all fs m) = hm_get_all k m ++ values_of k fs.
Proof.
  revert m. induction fs as [|[n v] fs IH]; intros m; simpl; [by rewrite app_nil_r|].
  rewrite IH. unfold values_of. rewrite filter_cons. case_decide as Hn.
  - subst. rewrite get_all_append_eq, <- app_assoc. done.
  - by rewrite get_all_append_ne.
Qed.

Lemma parse_field_ok piece f nv m :
  strip_line_crlf piece = Ok (field_line f) -> field_ok f nv ->
  parse_field piece m = Ok (hm_append (fst nv) (snd nv) m).
Proof.
  intros Hp (_ & _ & Hc & Hn & Hv). unfold parse_field, field_line in *. rewrite Hp. simpl.
  unfold bytes_eqb. rewrite bool_decide_eq_false_2 by (by destruct (fst f)).
  rewrite (position_app _ _ _ Hc). simpl. rewrite take_app_length, Hn. simpl.
  rewrite Nat.add_1_r. change (drop (S (length f.1)) (f.1 ++ (":"%byte) :: f.2))
    with (drop (S (length f.1)) (f.1 ++ [":"%byte] ++ f.2)).
  rewrite app_assoc, drop_app_exact by (rewrite length_app; simpl; lia). by rewrite Hv.
Qed.

Lemma parse_fields_ok pieces fs nvs m :
  Forall2 (fun p l => strip_line_crlf p = Ok l) pieces (map field_line fs) ->
  Forall2 field_ok fs nvs -> parse_fields pieces m = Ok (append_all nvs m).
Proof.
  intros Hp Hf. revert pieces m Hp. induction Hf as [|f nv fs nvs Hf _ IH]; intros pieces m Hp.
  - by inversion Hp.
  - simpl in Hp. apply Forall2_cons_inv_r in Hp as (p & ps & Hp1 & Hp2 & ->).
    simpl. rewrite (parse_field_ok _ _ _ _ Hp1 Hf). simpl. by rewrite IH.
Qed.

Lemma print_dec_plain n : 0 <= n -> plain (print_dec n) /\ (" "%byte ∉ print_dec n).
Proof. intros. by split; [split|]; apply print_radix_not_elem. Qed.

Lemma plain_app a b : plain a -> plain b -> plain (a ++ b).
Proof. intros [? ?] [? ?]. split; rewrite elem_of_app; by intros [?|?]. Qed.

Lemma plain_cons x a : x <> x0d -> x <> x0a -> plain a -> plain (x :: a).
Proof. intros ? ? [? ?]. split; rewrite elem_of_cons; by intros [?|?]. Qed.

Lemma status_line_plain h fs : head_ok h fs -> plain (status_line h).
Proof.
  intros (Hv & Hs & Hr & _ & _). unfold status_line.
  destruct (print_dec_plain (h_status h)) as [? _]; [lia|].
  apply plain_app.
  - destruct Hv as [-> | ->]; (split; apply not_elem_dec; reflexivity).
  - apply plain_cons; [done | done|]. apply plain_app; [done|]. by apply plain_cons.
Qed.

Lemma head_lines_ok h fs :
  head_ok h fs -> Forall plain (head_lines h) /\ Forall (fun l => l <> []) (head_lines h).
Proof.
  intros H. pose proof (status_line_plain _ _ H) as Hl. destruct H as (Hv & _ & _ & _ & HF).
  split; (constructor; [|]).
  - done.
  - induction HF as [|f nv fs' nvs (Hn & Hp & _) _ IH]; constructor; [|done].
    apply plain_app; [done|]. by apply plain_cons.
  - unfold status_line. by destruct Hv as [-> | ->].
  - clear. induction (h_fields h) as [|[n v] l IH]; constructor; [|done]. by destruct n.
Qed.

Lemma status_line_ascii h fs : head_ok h fs -> utf8_valid (status_line h) = true.
Proof.
  intros (Hv & Hs & _ & Ha & _). apply utf8_ascii. unfold status_line.
  apply Forall_app. split; [destruct Hv as [-> | ->]; repeat constructor|].
  constructor; [done|]. apply Forall_app. split.
  - pose proof (print_radix_chars 10 (h_status h) ltac:(lia) ltac:(lia)) as HF.
    eapply Forall_impl; [exact HF|]. intros y (d & Hd & ->).
    pose proof (digit_char_range d ltac:(lia)). lia.
  - by constructor.
Qed.

(** A well-formed head parses to its status, version and fields in order. *)
Lemma parse_encode_head h fs :
  head_ok h fs ->
  parse_response_head (encode_head h) = Ok (h_status h, h_version h, append_all fs hm_new).
Proof.
  intros H. destruct (head_lines_ok _ _ H) as [Hp _].
  pose proof (split_crlf_join (head_lines h) ltac:(done) Hp) as HS.
  unfold parse_response_head, encode_head. unfold head_lines in HS at 2.
  apply Forall2_cons_inv_r in HS as (l & ls & Hl & Hls & ->). 
  change (head (l :: ls)) with (Some l). change (tail (l :: ls)) with ls.
  cbn iota. rewrite Hl. cbn [and_then]. unfold from_utf8.
  rewrite (status_line_ascii _ _ H). cbn [ok_or and_then].
  destruct H as (Hv & Hs & _ & _ & HF). unfold status_line.
  rewrite splitn_three;
    [|by destruct Hv as [-> | ->]; apply not_elem_dec|by apply print_dec_plain; lia].
  cbn [head lookup list_lookup].
  assert (parse_version (Some (version_text (h_version h))) = Ok (h_version h)) as ->
    by (by destruct Hv as [-> | ->]).
  cbn [and_then ok_or]. unfold parse_u16, print_dec. rewrite parse_print_radix
    by (unfold U16_MAX; lia). rewrite some_bind, status_from_u16_spec.
  destruct (100 <=? h_status h) eqn:E1, (h_status h <? 1000) eqn:E2; bool_hyps; try lia.
  cbn [andb ok_or and_then]. by rewrite (parse_fields_ok _ _ _ _ Hls HF).
Qed.

End Head.

(** ** Reading heads from a transport *)

(** The bytes still to come, buffered or from the peer, are exactly [u]. *)
Definition cunread (c : Connection) (buffered u : bytes) : Prop :=
  exists d, delivers (incoming (transport c)) d /\ u = buffered ++ d.

Lemma cunread_body c buffered m u : cunread c buffered u <-> unread (mkBody c buffered m) u.
Proof. done. Qed.

Definition BLANK : bytes := CRLF ++ CRLF.

(** The head and its blank line are already buffered. *)
Lemma read_head_loop_ready fuel c buf hd u d :
  delivers (incoming (transport c)) d -> hd ++ BLANK ++ u = buf ++ d ->
  find_head_end (hd ++ BLANK ++ u) = Some (length hd) -> (length hd + 4 <= length buf)%nat ->
  exists r, read_head_loop fuel c buf = Some (Ok (length hd), c, hd ++ BLANK ++ r) /\ cunread c r u.
Proof.
  intros Hd E Hf Hin. rewrite E in Hf. symmetry in E. rewrite app_assoc in E.
  apply app_split_le in E as (r & Eb & ->); [|rewrite length_app; simpl; lia].
  rewrite <- app_assoc in Eb. exists r.
  assert (find_head_end buf = Some (length hd)) as F.
  { unfold find_head_end in *. destruct (find_window _ buf) as [k|] eqn:Ek.
    - apply (find_window_app _ _ d) in Ek. congruence.
    - rewrite Eb in Ek. by apply find_window_occurs in Ek. }
  split; [|by exists d]. rewrite Eb in F |- *.
  destruct fuel; cbn [read_head_loop]; by rewrite F.
Qed.

Lemma read_head_loop_unread fuel c buf hd u :
  cunread c buf (hd ++ BLANK ++ u) -> find_head_end (hd ++ BLANK ++ u) = Some (length hd) ->
  zlen hd + 4 <= MAX_RESPONSE_HEAD_BYTES -> MAX_RESPONSE_HEAD_BYTES <= zlen buf + Z.of_nat fuel ->
  exists c' r, read_head_loop fuel c buf = Some (Ok (length hd), c', hd ++ BLANK ++ r)
    /\ cunread c' r u.
Proof.
  intros Hu Hw Hmax. revert c buf Hu. induction fuel as [|fuel IH]; intros c buf (d & Hd & E) Hf;
    (destruct (decide (length hd + 4 <= length buf)%nat) as [Hin|Hout];
     [by exists c; eapply read_head_loop_ready|]).
  - exfalso. unfold zlen in *. lia.
  - assert (find_head_end buf = None) as F.
    { rewrite E in Hw. eapply find_window_prefix_none; [exact Hw|]. simpl. lia. }
    cbn [read_head_loop]. rewrite F.
    destruct (MAX_RESPONSE_HEAD_BYTES <=? zlen buf) eqn:M; bool_hyps; [unfold zlen in *; lia|].
    destruct (conn_read_delivers 4096 _ d ltac:(lia) Hd) as (s & d' & c' & Er & -> & _ & Hnil & Hd').
    rewrite Er. destruct s as [|x s].
    { exfalso. specialize (Hnil eq_refl). simpl in Hnil. subst. rewrite app_nil_r in E.
      apply (f_equal (@length byte)) in E. rewrite !length_app in E. simpl in E. lia. }
    apply IH; [|zlen_lia]. exists d'. by rewrite <- app_assoc.
Qed.

Section Response.
Context {L : HttpLib} {W : HttpLaws L}.

(** A head within the size limit. *)
Definition wire_head_ok (h : ResponseHead) (fs : list (bytes * bytes)) : Prop :=
  head_ok h fs /\ zlen (encode_head h) + 4 <= MAX_RESPONSE_HEAD_BYTES.

Lemma read_response_head_ok c buf h fs u :
  wire_head_ok h fs -> cunread c buf (encode_head h ++ BLANK ++ u) ->
  exists c' r, read_response_head c buf
      = Some (Ok (length (encode_head h)), c', encode_head h ++ BLANK ++ r) /\ cunread c' r u.
Proof.
  intros [Hh Hz] Hu. destruct (head_lines_ok _ _ Hh) as [Hp Hn].
  unfold read_response_head. apply read_head_loop_unread; [done| |done|zlen_lia].
  unfold BLANK. rewrite <- app_assoc. by apply find_head_end_join.
Qed.

(** Unfolding one iteration on a head that is read whole. *)
Lemma read_response_head_step fuel c buf h fs u hreq :
  wire_head_ok h fs -> cunread c buf (encode_head h ++ BLANK ++ u) ->
  exists c' r, cunread c' r u /\
    read_response (S fuel) c buf hreq =
      if is_informational (h_status h) && negb (h_status h =? SWITCHING_PROTOCOLS) then
        read_response fuel c' r hreq
      else if h_status h =? SWITCHING_PROTOCOLS then Some (Err (Error_new UnsupportedUpgrade))
      else Some (let? m := response_body_mode (append_all fs hm_new) (h_status h) hreq in
                 Ok (mkResponse (h_status h) (h_version h) (append_all fs hm_new) (mkBody c' r m))).
Proof.
  intros Hw Hu. destruct (read_response_head_ok _ _ _ _ _ Hw Hu) as (c' & r & E & Hr).
  exists c', r. split; [done|]. cbn [read_response]. rewrite E, some_bind.
  rewrite take_app_length, drop_app_length. change (drop 4 (BLANK ++ r)) with (drop 0 r).
  rewrite drop_0. by rewrite (parse_encode_head _ _ (proj1 Hw)).
Qed.

(** An interim response: 1xx, but not 101. *)
Definition interim (h : ResponseHead) : Prop :=
  is_informational (h_status h) = true /\ h_status h <> SWITCHING_PROTOCOLS.

Definition interims_wire (hs : list ResponseHead) : bytes :=
  concat (map (fun h => encode_head h ++ BLANK) hs).

Lemma read_response_ok fuel c buf hs h fs m u hreq :
  Forall (fun h => interim h /\ exists fs, wire_head_ok h fs) hs ->
  wire_head_ok h fs -> is_informational (h_status h) = false ->
  response_body_mode (append_all fs hm_new) (h_status h) hreq = Ok m ->
  cunread c buf (interims_wire hs ++ encode_head h ++ BLANK ++ u) ->
  (length hs < fuel)%nat ->
  exists b, read_response fuel c buf hreq
      = Some (Ok (mkResponse (h_status h) (h_version h) (append_all fs hm_new) b)) /\
    unread b u /\ mode b = m.
Proof.
  intros Hhs Hw Hi Hm. revert fuel c buf. induction Hhs as [|h1 hs [[Hi1 Hn1] [fs1 Hw1]] _ IH];
    intros fuel c buf Hu Hf; (destruct fuel as [|fuel]; [simpl in Hf; lia|]).
  - destruct (read_response_head_step fuel c buf h fs u hreq Hw Hu) as (c' & r & Hr & ->).
    rewrite Hi. cbn [andb]. assert ((h_status h =? SWITCHING_PROTOCOLS) = false) as ->.
    { apply Z.eqb_neq. intros E. by rewrite E in Hi. }
    rewrite Hm. cbn [and_then]. eexists. split; [done|]. by split.
  - unfold interims_wire in Hu. simpl in Hu. rewrite <- !app_assoc in Hu.
    destruct (read_response_head_step fuel c buf h1 fs1 _ hreq Hw1 Hu) as (c' & r & Hr & ->).
    rewrite Hi1. assert ((h_status h1 =? SWITCHING_PROTOCOLS) = false) as -> by by apply Z.eqb_neq.
    cbn [andb negb]. apply IH; [done | simpl in Hf; lia].
Qed.

(** Reading a response that was sent whole: its head, then its content. *)
Lemma response_read fuel c hs h fs m w p x sizes hreq :
  Forall (fun h => interim h /\ exists fs, wire_head_ok h fs) hs ->
  wire_head_ok h fs -> is_informational (h_status h) = false ->
  framing_of (append_all fs hm_new) (h_status h) hreq m -> framed m w p x ->
  delivers (incoming (transport c)) (interims_wire hs ++ encode_head h ++ BLANK ++ w) ->
  (length hs < fuel)%nat ->
  Forall (fun n => 0 < n)%nat sizes -> (length p < length sizes)%nat ->
  exists res b', read_response fuel c [] hreq = Some (Ok res) /\
    rs_status res = h_status h /\ rs_version res = h_version h /\
    (forall k, hm_get_all k (rs_headers res) = values_of k fs) /\
    read_seq sizes (rs_body res) = Some (Ok p, b') /\ unread b' x.
Proof.
  intros Hhs Hw Hi Hm Hf Hd Hfuel Hs Hl.
  destruct (read_response_ok fuel c [] hs h fs m w hreq) as (b & E & Hu & Hb); try done.
  { by apply response_body_mode_iff. }
  { by eexists. }
  rewrite <- Hb in Hf. destruct (read_seq_unread b w p x sizes Hu Hf Hs Hl) as (b' & Es & Hx & _).
  eexists _, b'. split; [exact E|]. split_and!; try done.
  intros k. simpl. by rewrite append_all_values, get_all_new.
Qed.

(** C1. Responses round trip: when the peer sends any number of interim responses,
    a final head and a body framed as the head announces, then for every
    segmentation by the network the client returns the final status, version
    and, name by name, the field values in order, and reading the body returns
    exactly its content.  Interim responses are skipped. *)
Theorem response_roundtrip fuel c hs h fs m w p x sizes hreq :
  Forall (fun h => interim h /\ exists fs, wire_head_ok h fs) hs ->
  wire_head_ok h fs -> is_informational (h_status h) = false ->
  framing_of (append_all fs hm_new) (h_status h) hreq m -> framed m w p x ->
  delivers (incoming (transport c)) (interims_wire hs ++ encode_head h ++ BLANK ++ w) ->
  (length hs < fuel)%nat ->
  Forall (fun n => 0 < n)%nat sizes -> (length p < length sizes)%nat ->
  exists res b', read_response fuel c [] hreq = Some (Ok res) /\
    rs_status res = h_status h /\ rs_version res = h_version h /\
    (forall k, hm_get_all k (rs_headers res) = values_of k fs) /\
    read_seq sizes (rs_body res) = Some (Ok p, b') /\ unread b' x.
Proof. apply response_read. Qed.

End Response.

(** ** Any peer: termination, bounds and error classification *)

(** More fuel does not change a result. *)
Lemma read_response_more {L : HttpLib} n : forall m c buf hreq r,
  read_response n c buf hreq = Some r -> (n <= m)%nat -> read_response m c buf hreq = Some r.
Proof.
  induction n as [|n IH]; intros [|m] c buf hreq r; simpl; try done; [lia|].
  destruct (read_response_head c buf) as [[[[e|e] c'] buf']|]; simpl; try done.
  destruct (parse_response_head _) as [[[st v] hs]|]; [|done].
  destruct (_ && _); [|done]. intros H Hm. apply (IH m); [done | lia].
Qed.

(** The bytes a transport delivers before the first error. *)
Fixpoint rx_bytes (l : list rx) : bytes :=
  match l with
  | RxData b :: l' => b ++ rx_bytes l'
  | _ => []
  end.
Definition arriving (c : Connection) : bytes := rx_bytes (incoming (transport c)).

Lemma arriving_read n c s c' : conn_read n c = (Ok s, c') -> arriving c = s ++ arriving c'.
Proof.
  unfold conn_read, arriving. rewrite lift_transport. intros [= Es <-]. rewrite transport_with.
  unfold transport_read in *. destruct (incoming (transport c)) as [|[b|e] l] eqn:E; simpl in *; [|..|done].
  - injection Es as <-. by rewrite E.
  - injection Es as <-. rewrite <- (take_drop n b) at 1. rewrite <- app_assoc. f_equal. by destruct (drop n b).
Qed.

(** The most the head reader buffers: one byte short of the limit plus one
    [read] of 4096 bytes. *)
Definition HEAD_BUFFER : Z := MAX_RESPONSE_HEAD_BYTES - 1 + 4096.

(** An error classified by its source: an I/O error is reported as [Timeout]
    exactly when its kind says so. *)
Definition classified (e : Error) : Prop :=
  match source e with
  | Some (SrcIo io) => kind e = Timeout <-> io_is_timeout io = true
  | Some _ => kind e <> Timeout
  | None => True
  end.

Lemma from_io_classified k e : k <> Timeout -> classified (from_io k e).
Proof.
  intros Hk. unfold classified, from_io, with_source. simpl.
  destruct (io_is_timeout e); split; done.
Qed.

Lemma response_error_classified m : classified (response_error m).
Proof. split; done. Qed.

#[local] Hint Extern 1 (classified _) => apply response_error_classified : h12.
#[local] Hint Extern 2 (classified (from_io _ _)) => (apply from_io_classified; discriminate) : h12.

Definition fails_classified {A} (r : result A Error) : Prop :=
  forall e, r = Err e -> classified e.

Lemma and_then_classified {A B} (r : result A Error) (k : A -> result B Error) :
  fails_classified r -> (forall a, fails_classified (k a)) -> fails_classified (and_then r k).
Proof. intros Hr Hk e. destruct r as [a|e']; simpl; [apply Hk | intros [= <-]; by apply Hr]. Qed.

Lemma ok_classified {A} (a : A) : fails_classified (Ok a).
Proof. by intros e [=]. Qed.

Lemma err_classified {A} (e : Error) : classified e -> fails_classified (@Err A Error e).
Proof. by intros H e' [= <-]. Qed.

Lemma ok_or_classified {A} (o : option A) e : classified e -> fails_classified (ok_or o e).
Proof. intros H. destruct o; [apply ok_classified | by apply err_classified]. Qed.

Lemma map_err_classified {A} k (r : result A io_error) :
  k <> Timeout -> fails_classified (map_err (from_io k) r).
Proof. intros Hk e. destruct r; [done|]. intros [= <-]. by apply from_io_classified. Qed.

#[local] Hint Resolve ok_classified err_classified ok_or_classified map_err_classified : h12.

(** Discharges the classification of a routine written with [let?]. *)
Ltac classify :=
  repeat first
    [ apply and_then_classified; [|intros ?]
    | progress simpl
    | match goal with
      | |- fails_classified (if ?b then _ else _) => destruct b
      | |- fails_classified (match ?x with _ => _ end) => destruct x
      end ];
  auto with h12; try (apply map_err_classified; discriminate).

Section Any.
Context {L : HttpLib}.

Lemma find_head_end_split b e :
  find_head_end b = Some e -> b = take e b ++ BLANK ++ drop 4 (drop e b).
Proof. intros [H _]%find_window_some. by rewrite drop_drop. Qed.

Lemma read_head_loop_any fuel c buf :
  MAX_RESPONSE_HEAD_BYTES <= zlen buf + Z.of_nat fuel ->
  exists r c' buf', read_head_loop fuel c buf = Some (r, c', buf') /\
    zlen buf' <= Z.max (zlen buf) HEAD_BUFFER /\
    match r with
    | Ok e => buf' = take e buf' ++ BLANK ++ drop 4 (drop e buf') /\
              buf ++ arriving c = buf' ++ arriving c'
    | Err err => classified err
    end.
Proof.
  revert c buf. induction fuel as [|fuel IH]; intros c buf Hf; cbn [read_head_loop];
    (destruct (find_head_end buf) as [e|] eqn:F;
     [apply find_head_end_split in F; by exists (Ok e), c, buf; split_and!; try done; lia|]);
    (destruct (MAX_RESPONSE_HEAD_BYTES <=? zlen buf) eqn:M; bool_hyps;
     [by eexists _, _, _; split; [done|]; split; [lia | auto with h12]|]); [lia|].
  destruct (conn_read 4096 c) as [r c1] eqn:E.
  destruct r as [[|y s]|e].
  - eexists _, _, _. split; [done|]. split; [lia | auto with h12].
  - pose proof (arriving_read _ _ _ _ E) as Ha. apply conn_read_length in E.
    destruct (IH c1 (buf ++ y :: s)) as (r & c' & buf' & -> & Hb & Hr); [zlen_lia|].
    exists r, c', buf'. split; [done|]. rewrite zlen_app in Hb.
    split; [unfold HEAD_BUFFER, zlen in *; lia|]. rewrite Ha. by rewrite <- app_assoc in Hr.
  - eexists _, _, _. split; [done|]. split; [lia | auto with h12].
Qed.

Lemma strip_line_classified l : fails_classified (strip_line_crlf l).
Proof. unfold strip_line_crlf. classify. Qed.
#[local] Hint Resolve strip_line_classified : h12.

Lemma parse_fields_classified lines m : fails_classified (parse_fields lines m).
Proof.
  revert m. induction lines as [|l lines IH]; intros m; simpl; [auto with h12|].
  apply and_then_classified; [|done]. unfold parse_field. classify.
Qed.
#[local] Hint Resolve parse_fields_classified : h12.

Lemma parse_response_head_classified hd : fails_classified (parse_response_head hd).
Proof.
  unfold parse_response_head, parse_version.
  repeat (apply and_then_classified; [|intros ?]); auto with h12; classify.
Qed.

Lemma content_length_classified acc vs : fails_classified (content_length acc vs).
Proof.
  revert acc. induction vs as [|v vs IH]; intros acc; simpl; [auto with h12|].
  apply and_then_classified; [unfold parse_length; classify|]. intros n.
  destruct acc; [destruct (negb _)|]; auto with h12.
Qed.

Lemma response_body_mode_classified m s hreq : fails_classified (response_body_mode m s hreq).
Proof.
  unfold response_body_mode. destruct (no_body s hreq); [auto with h12|].
  destruct (transfer_codings m); [|destruct (_ || _); auto with h12].
  apply and_then_classified; [apply content_length_classified | auto with h12].
Qed.

Lemma content_length_range acc vs n :
  (forall a, acc = Some a -> 0 <= a <= U64_MAX) ->
  content_length acc vs = Ok (Some n) -> 0 <= n <= U64_MAX.
Proof.
  revert acc. induction vs as [|v vs IH]; intros acc Ha; simpl; [intros [= ->]; auto|].
  destruct (parse_length v) as [k|] eqn:E; [|done]. simpl.
  assert (0 <= k <= U64_MAX) as Hk.
  { unfold parse_length in E. invert_ok. destruct (parse_u64 x) eqn:F; [|done].
    match goal with H : ok_or (Some _) _ = _ |- _ => injection H as -> end.
    eapply from_str_radix_range; [| |exact F]; unfold U64_MAX; lia. }
  destruct acc; [destruct (negb _); [done|]|]; apply IH; intros a [= <-]; done.
Qed.

Lemma response_body_mode_ok m s hreq r : response_body_mode m s hreq = Ok r -> mode_ok r.
Proof.
  unfold response_body_mode. destruct (no_body s hreq); [by intros [= <-]|].
  destruct (transfer_codings m).
  - destruct (content_length None (hm_get_all CONTENT_LENGTH m)) as [[n|]|] eqn:E;
      intros [= <-]; [|done].
    by apply (content_length_range None (hm_get_all CONTENT_LENGTH m)).
  - destruct (_ || _); [done|]. intros [= <-]. simpl. unfold U64_MAX. lia.
Qed.

(** What a read of a response produces on any transport. *)
Definition response_any (o : option (result (HttpLib.Response ResponseBody) Error)) : Prop :=
  exists r, o = Some r /\
    match r with
    | Err e => classified e
    | Ok res => mode_ok (mode (rs_body res)) /\ zlen (buffered (rs_body res)) <= HEAD_BUFFER
    end.

(** The head of an interim response, and a stream that starts with [n] of them. *)
Definition interim_text (hd : bytes) : Prop :=
  exists status version headers, parse_response_head hd = Ok (status, version, headers) /\
    100 <= status < 200 /\ status <> 101.
Definition starts_with_interims (n : nat) (b : bytes) : Prop :=
  exists hds rest, length hds = n /\ Forall interim_text hds /\
    b = concat (map (fun hd => hd ++ BLANK) hds) ++ rest.

Lemma starts_with_interims_S n hd b :
  interim_text hd -> starts_with_interims n b -> starts_with_interims (S n) (hd ++ BLANK ++ b).
Proof.
  intros Hh (hds & rest & Hl & HF & ->). exists (hd :: hds), rest.
  split; [simpl; by rewrite Hl|]. split; [by constructor|]. simpl. by rewrite <- !app_assoc.
Qed.

Lemma interim_status st :
  is_informational st && negb (st =? SWITCHING_PROTOCOLS) = true <-> 100 <= st < 200 /\ st <> 101.
Proof.
  unfold is_informational, SWITCHING_PROTOCOLS.
  rewrite !andb_true_iff, negb_true_iff, Z.leb_le, Z.ltb_lt, Z.eqb_neq. lia.
Qed.

Lemma read_response_any fuel : forall c buf hreq,
  zlen buf <= HEAD_BUFFER ->
  response_any (read_response fuel c buf hreq) \/
  (read_response fuel c buf hreq = None /\ starts_with_interims fuel (buf ++ arriving c)).
Proof.
  induction fuel as [|fuel IH]; intros c buf hreq Hb; cbn [read_response].
  { right. split; [done|]. by exists [], (buf ++ arriving c). }
  destruct (read_head_loop_any (Z.to_nat MAX_RESPONSE_HEAD_BYTES) c buf)
    as (r & c' & buf' & E & Hz & Hr); [zlen_lia|].
  unfold read_response_head. rewrite E, some_bind.
  destruct r as [e|e]; [|left; by exists (Err e)]. destruct Hr as [Eb Ea].
  destruct (parse_response_head (take e buf')) as [[[st v] hs]|err] eqn:Eh.
  2: { left. exists (Err err). split; [done|]. by eapply parse_response_head_classified. }
  assert (zlen (drop 4 (drop e buf')) <= HEAD_BUFFER) as Hd
    by (unfold zlen in *; rewrite !length_drop; lia).
  destruct (is_informational st && _) eqn:Ei.
  - destruct (IH c' (drop 4 (drop e buf')) hreq Hd) as [H|[H Hs]]; [by left|]. right. split; [done|].
    rewrite Ea, Eb, <- !app_assoc. apply starts_with_interims_S; [|done].
    exists st, v, hs. by apply interim_status in Ei.
  - left. destruct (st =? SWITCHING_PROTOCOLS); [by eexists; split|].
    destruct (response_body_mode hs st hreq) as [m|err] eqn:Em.
    + eexists. split; [done|]. simpl. split; [by eapply response_body_mode_ok | done].
    + exists (Err err). split; [done|]. by eapply response_body_mode_classified.
Qed.
End Any.

(** ** Writing a request *)

(** [m] writes the bytes [w], or a prefix of them and fails; it reads nothing. *)
Definition writes (w : bytes) (m : Connection -> result () io_error * Connection) : Prop :=
  forall c, exists r c' p, m c = (r, c') /\ incoming (transport c') = incoming (transport c) /\
    sent (transport c') = sent (transport c) ++ p /\ p `prefix_of` w /\ (r = Ok () -> p = w) /\
    (write_fault (transport c) = None -> r = Ok () /\ write_fault (transport c') = None).

Lemma writes_all b : writes b (conn_write_all b).
Proof.
  intros c. unfold conn_write_all. rewrite lift_transport. unfold transport_write_all.
  destruct (write_fault (transport c)) as [[budget e]|] eqn:E;
    [destruct (budget <? length b)%nat; [destruct (bool_decide _)|]|]; simpl; eexists _, _, _;
    (split; [done|]); rewrite transport_with; simpl; split_and!; try done; try reflexivity.
  apply prefix_take.
Qed.

Lemma writes_nothing m : (forall c, m c = (Ok (), c)) -> writes [] m.
Proof.
  intros H c. rewrite H. exists (Ok ()), c, []. rewrite app_nil_r. by split_and!.
Qed.

Lemma conn_flush_id c : conn_flush c = (Ok (), c).
Proof. by destruct c. Qed.

Lemma writes_then a b m k : writes a m -> writes b k -> writes (a ++ b) (io_then m k).
Proof.
  intros Ha Hb c. unfold io_then.
  destruct (Ha c) as (r1 & c1 & p1 & -> & Hi1 & Hs1 & Hp1 & Ho1 & Hf1).
  destruct r1 as [[]|e].
  - destruct (Hb c1) as (r2 & c2 & p2 & -> & Hi2 & Hs2 & Hp2 & Ho2 & Hf2).
    rewrite (Ho1 eq_refl) in *. exists r2, c2, (a ++ p2). split; [done|].
    rewrite Hi2, Hs2, Hs1, app_assoc. split_and!; try done.
    + by apply prefix_app.
    + intros H. by rewrite (Ho2 H).
    + intros H. apply Hf2. by apply Hf1.
  - exists (Err e), c1, p1. split_and!; try done.
    + by apply prefix_app_r.
Qed.

Definition field_wire (nv : bytes * bytes) : bytes := fst nv ++ bs ": " ++ snd nv ++ CRLF.

Lemma writes_fields l : writes (concat (map field_wire l)) (write_fields l).
Proof.
  induction l as [|nv l IH]; simpl; [by apply writes_nothing|].
  apply writes_then; [|done]. repeat apply writes_then; apply writes_all.
Qed.

Section Writing.
Context {L : HttpLib} {W : HttpLaws L}.

(** The bytes of a request with the final header map [hs]. *)
Definition request_wire (r : Request bytes) (hs : HeaderMap) : bytes :=
  request_line (r_method r) (r_uri r) ++ concat (map field_wire (hm_iter hs)) ++ CRLF ++ r_body r.

(** What [write_request] adds to the caller's headers. *)
Definition completed (body : bytes) (m hs : HeaderMap) : Prop :=
  hm_get_all CONTENT_LENGTH hs =
    (if hm_contains CONTENT_LENGTH m || hm_contains TRANSFER_ENCODING m
     then hm_get_all CONTENT_LENGTH m else [print_dec (zlen body)]) /\
  hm_get_all CONNECTION hs =
    (if hm_contains CONNECTION m then hm_get_all CONNECTION m else [bs "close"]) /\
  forall n, n <> CONTENT_LENGTH -> n <> CONNECTION -> hm_get_all n hs = hm_get_all n m.

Lemma framing_headers_ok body m : exists hs, framing_headers body m = Some hs /\ completed body m hs.
Proof.
  unfold framing_headers, completed.
  set (m1 := if hm_contains CONTENT_LENGTH m || hm_contains TRANSFER_ENCODING m then m
             else hm_insert CONTENT_LENGTH (print_dec (zlen body)) m).
  assert ((if negb (hm_contains CONTENT_LENGTH m) && negb (hm_contains TRANSFER_ENCODING m) then
             value ← header_value_from_bytes (print_dec (zlen body));
             Some (hm_insert CONTENT_LENGTH value m) else Some m) = Some m1) as ->.
  { unfold m1. destruct (hm_contains CONTENT_LENGTH m), (hm_contains TRANSFER_ENCODING m);
      try done. simpl. by rewrite header_value_decimal by apply zlen_nonneg. }
  rewrite some_bind. eexists. split; [done|].
  assert (hm_contains CONNECTION m1 = hm_contains CONNECTION m) as Hc.
  { unfold m1. destruct (_ || _); [done|]. unfold hm_contains. by rewrite get_all_insert_ne. }
  rewrite Hc. split_and!; [| |intros n Hn1 Hn2]; destruct (hm_contains CONNECTION m); simpl;
    rewrite ?get_all_insert_eq, ?get_all_insert_ne by done; try done; unfold m1;
    destruct (_ || _); rewrite ?get_all_insert_eq, ?get_all_insert_ne by done; done.
Qed.

Lemma write_request_ok c r :
  exists res c' hs p, write_request c r = Some (res, c') /\ completed (r_body r) (r_headers r) hs /\
    incoming (transport c') = incoming (transport c) /\
    sent (transport c') = sent (transport c) ++ p /\ p `prefix_of` request_wire r hs /\
    (res = Ok () -> p = request_wire r hs) /\ fails_classified res /\
    (write_fault (transport c) = None -> res = Ok ()).
Proof.
  destruct (framing_headers_ok (r_body r) (r_headers r)) as (hs & E & Hh).
  unfold write_request. rewrite E, some_bind.
  assert (writes (request_wire r hs)
    (io_then (conn_write_all (request_line (r_method r) (r_uri r)))
      (io_then (write_fields (hm_iter hs))
         (io_then (conn_write_all CRLF)
            (io_then (conn_write_all (r_body r)) conn_flush))))) as Hw.
  { unfold request_wire. rewrite <- (app_nil_r (r_body r)) at 1.
    repeat apply writes_then; try apply writes_all; [apply writes_fields|].
    apply writes_nothing, conn_flush_id. }
  destruct (Hw c) as (res & c' & p & -> & Hi & Hs & Hp & Ho & Hf).
  eexists _, c', hs, p. split; [done|]. split_and!; try done.
  - intros H. apply Ho. destruct res as [[]|]; done.
  - apply map_err_classified. discriminate.
  - intros H. by destruct (Hf H) as [-> _].
Qed.

(** The request on the wire is the request line with the normalized target,
    every field of the header map, a blank line and the body, in this order.
    A [Content-Length] equal to the body's length is added unless the caller
    set the framing, and [Connection: close] unless the caller set it; no other
    field changes.  A failed write leaves a prefix of these bytes, and nothing
    is read meanwhile. *)
Theorem write_request_wire c r :
  exists res c' hs p, write_request c r = Some (res, c') /\ completed (r_body r) (r_headers r) hs /\
    incoming (transport c') = incoming (transport c) /\
    sent (transport c') = sent (transport c) ++ p /\ p `prefix_of` request_wire r hs /\
    (res = Ok () -> p = request_wire r hs) /\
    (write_fault (transport c) = None -> res = Ok ()).
Proof.
  destruct (write_request_ok c r) as (res & c' & hs & p & ? & ? & ? & ? & ? & ? & _ & ?).
  exists res, c', hs, p. done.
Qed.
End Writing.

(** ** Requests *)
Section Requests.
Context {L : HttpLib} {W : HttpLaws L} (net : Net).

Lemma try_addresses_classified k last d l :
  k <> Timeout -> fails_classified (map_err (from_io k) (try_addresses net last d l)).
Proof. intros. by apply map_err_classified. Qed.

Lemma connect_tls_classified cl host port : fails_classified (connect_tls net cl host port).
Proof.
  unfold connect_tls. destruct (tls net cl) as [config|]; [|by apply err_classified].
  apply and_then_classified; [by apply map_err_classified|]. intros t.
  destruct (set_both _ _) as [r1 t1]. apply and_then_classified; [by apply map_err_classified|].
  intros _. apply and_then_classified; [destruct (server_name_valid _ _); auto with h12|].
  { by apply err_classified. }
  intros _. apply and_then_classified; [by apply ok_or_classified|]. intros s.
  destruct (complete_io _ _ _) as [r2 t2]. apply and_then_classified; [by apply map_err_classified|].
  intros s'. apply and_then_classified.
  { destruct (alpn_protocol _ _); [|auto with h12]. destruct (bytes_eqb _ _); [auto with h12|].
    by apply err_classified. }
  intros _. destruct (set_both None t2) as [r3 t3].
  apply and_then_classified; [by apply map_err_classified | auto with h12].
Qed.

Lemma connect_any cl o : exists r, connect net cl o = Some r /\ fails_classified r.
Proof.
  unfold connect. destruct (origin_uri_parts o) as (u & -> & _). rewrite some_bind.
  eexists. split; [done|]. destruct (uri_host u); [|by apply err_classified].
  destruct (bytes_eqb _ _); [by apply map_err_classified|].
  destruct (bytes_eqb _ _); [apply connect_tls_classified | by apply err_classified].
Qed.

Lemma response_any_err e : classified e -> response_any (Some (Err e)).
Proof. intros. by eexists. Qed.

Lemma conn_set_timeouts_incoming d d' c :
  incoming (transport (snd (conn_set_timeouts d d' c))) = incoming (transport c).
Proof.
  unfold conn_set_timeouts, transport_set_read_timeout, transport_set_write_timeout.
  destruct c as [t|t]; simpl; repeat case_bool_decide; done.
Qed.

(** A request on a connection that was established. *)
Lemma exchange_any fuel timeout c (q : Request bytes) hreq :
  let out :=
    match conn_set_timeouts timeout timeout c with
    | (Err e, _) => Some (Err (from_io SendRequest e))
    | (Ok _, c) =>
        w ← write_request c q;
        match w with
        | (Err e, _) => Some (Err e)
        | (Ok _, c) => read_response fuel c [] hreq
        end
    end in
  response_any out \/ (out = None /\ starts_with_interims fuel (arriving c)).
Proof.
  intros out. unfold out. pose proof (conn_set_timeouts_incoming timeout timeout c) as Hi.
  destruct (conn_set_timeouts timeout timeout c) as [[?|e] c1];
    [|by left; apply response_any_err, from_io_classified].
  destruct (write_request_ok c1 q) as (res & c2 & hs & p & -> & _ & Hi' & _ & _ & _ & Hf & _).
  rewrite some_bind. destruct res as [?|e]; [|by left; apply response_any_err, Hf].
  assert (arriving c = [] ++ arriving c2) as -> by (unfold arriving; by rewrite Hi', <- Hi).
  apply read_response_any. by vm_compute.
Qed.

(** C12. A request always produces a result or is still reading interim responses:
    for any client, network, peer, request and number of heads read, it does not
    panic and every other loop in it ends; a response it returns has a
    well-formed framing state and a bounded buffer, and every failure whose
    source is an I/O error is reported as a timeout exactly when it is one.  The
    only way to go on after [fuel] heads is a connection to the request's origin
    whose bytes start with [fuel] complete interim responses. *)
Theorem request_is_total fuel cl r timeout :
  response_any (request_with_timeout net fuel cl r timeout) \/
  (request_with_timeout net fuel cl r timeout = None /\
   exists uri o c,
     extract_origin (r_uri r) (bytes_eqb (r_method r) CONNECT) = Some (uri, Ok o) /\
     connect net cl o = Some (Ok c) /\ starts_with_interims fuel (arriving c)).
Proof.
  unfold request_with_timeout. destruct (bool_decide _); [by left; apply response_any_err|].
  destruct (r_version r); try (by left; apply response_any_err);
  (destruct (extract_origin (r_uri r) (bytes_eqb (r_method r) CONNECT)) as [[uri o]|] eqn:E;
    [|destruct (extract_origin_total (r_uri r) (bytes_eqb (r_method r) CONNECT)); congruence]);
  rewrite some_bind; (destruct o as [o|e]; [|by left; apply response_any_err]);
  pose proof (proj2 (extract_origin_absolute _ _ _ _ E)) as Ha;
  destruct (normalize_ok (with_uri uri r) (set_host net cl) _ Ha) as (t & -> & _);
  rewrite some_bind; destruct (connect_any cl o) as (conn & Ec & Hc); rewrite Ec, some_bind;
  (destruct conn as [c|e]; [|by left; apply response_any_err, Hc]);
  match goal with |- context [write_request _ ?q] =>
    destruct (exchange_any fuel timeout c q (bytes_eqb (r_method q) HEAD)) as [H|[H Hs]] end;
  [by left | right; split; [exact H|]; by exists uri, o, c | by left |
   right; split; [exact H|]; by exists uri, o, c].
Qed.

Lemma request_exchange_ok cl r timeout uri o c0 :
  timeout <> Some 0 -> r_version r = HTTP_10 \/ r_version r = HTTP_11 ->
  extract_origin (r_uri r) (bytes_eqb (r_method r) CONNECT) = Some (uri, Ok o) ->
  connect net cl o = Some (Ok c0) -> write_fault (transport c0) = None ->
  exists r' hs c1, normalize_http1_request (with_uri uri r) (set_host net cl) = Some r' /\
    completed (r_body r') (r_headers r') hs /\
    sent (transport c1) = sent (transport c0) ++ request_wire r' hs /\
    incoming (transport c1) = incoming (transport c0) /\
    forall fuel, request_with_timeout net fuel cl r timeout
      = read_response fuel c1 [] (bytes_eqb (r_method r) HEAD).
Proof.
  intros Ht Hv E Hc Hw. unfold request_with_timeout.
  rewrite bool_decide_eq_false_2 by done. rewrite E.
  pose proof (proj2 (extract_origin_absolute _ _ _ _ E)) as Ha.
  destruct (normalize_ok (with_uri uri r) (set_host net cl) _ Ha) as (t & En & _).
  assert (exists c, conn_set_timeouts timeout timeout c0 = (Ok (), c) /\
            sent (transport c) = sent (transport c0) /\
            incoming (transport c) = incoming (transport c0) /\
            write_fault (transport c) = None) as (c & Ec & Hs & Hi & Hf).
  { unfold conn_set_timeouts, transport_set_read_timeout, transport_set_write_timeout.
    rewrite bool_decide_eq_false_2 by done.
    destruct c0 as [s|s]; simpl in *; eexists; (split; [done|]); done. }
  set (r' := with_uri t (with_headers (if set_host net cl
      then host_headers (r_uri (with_uri uri r)) (authority o) (r_headers (with_uri uri r))
      else r_headers (with_uri uri r)) (with_uri uri r))) in *.
  destruct (write_request_ok c r') as (res & c1 & hs & p & Er & Hh & Hi1 & Hs1 & _ & Hp & _ & Hok).
  specialize (Hok Hf). subst res. rewrite (Hp eq_refl) in Hs1.
  exists r', hs, c1. split; [done|]. split; [done|]. rewrite Hs1, Hs, Hi1, Hi.
  split; [done|]. split; [done|]. intros fuel.
  destruct Hv as [-> | ->]; rewrite some_bind; cbn iota beta;
    rewrite En, some_bind, Hc, some_bind, Ec, Er, some_bind; done.
Qed.

(** A supported request with a reachable origin: the bytes the peer receives
    are those of the normalized request, and the result is what the response
    reader makes of what the peer sends. *)
Theorem request_exchange cl r timeout uri o c0 :
  timeout <> Some 0 -> r_version r = HTTP_10 \/ r_version r = HTTP_11 ->
  extract_origin (r_uri r) (bytes_eqb (r_method r) CONNECT) = Some (uri, Ok o) ->
  connect net cl o = Some (Ok c0) -> write_fault (transport c0) = None ->
  exists r' hs c1, normalize_http1_request (with_uri uri r) (set_host net cl) = Some r' /\
    completed (r_body r') (r_headers r') hs /\
    sent (transport c1) = sent (transport c0) ++ request_wire r' hs /\
    incoming (transport c1) = incoming (transport c0) /\
    forall fuel, request_with_timeout net fuel cl r timeout
      = read_response fuel c1 [] (bytes_eqb (r_method r) HEAD).
Proof. apply request_exchange_ok. Qed.

Lemma read_interims fuel c buf hs w hreq :
  Forall (fun h => interim h /\ exists fs, wire_head_ok h fs) hs ->
  cunread c buf (interims_wire hs ++ w) -> (fuel <= length hs)%nat ->
  read_response fuel c buf hreq = None.
Proof.
  intros Hhs. revert fuel c buf. induction Hhs as [|h hs [[Hi Hn] [fs Hw]] _ IH];
    intros [|fuel] c buf Hu Hf; try done; [simpl in Hf; lia|].
  unfold interims_wire in Hu. simpl in Hu. rewrite <- !app_assoc in Hu.
  destruct (read_response_head_step fuel c buf h fs _ hreq Hw Hu) as (c' & r & Hr & ->).
  rewrite Hi. assert ((h_status h =? SWITCHING_PROTOCOLS) = false) as -> by by apply Z.eqb_neq.
  cbn [andb negb]. apply IH; [done | simpl in Hf; lia].
Qed.

(** C32. Nothing bounds the interim responses a request waits through: on a peer
    that sends [n] of them, a request has no result after reading that many
    heads, whatever its timeout, since that one bounds each read and write only.
    So a peer that keeps sending interim responses keeps the request from
    returning. *)
Theorem interim_responses_hold_request fuel cl r timeout uri o c0 hs w :
  timeout <> Some 0 -> r_version r = HTTP_10 \/ r_version r = HTTP_11 ->
  extract_origin (r_uri r) (bytes_eqb (r_method r) CONNECT) = Some (uri, Ok o) ->
  connect net cl o = Some (Ok c0) -> write_fault (transport c0) = None ->
  Forall (fun h => interim h /\ exists fs, wire_head_ok h fs) hs ->
  delivers (incoming (transport c0)) (interims_wire hs ++ w) -> (fuel <= length hs)%nat ->
  request_with_timeout net fuel cl r timeout = None.
Proof.
  intros Ht Hv E Hc Hw Hhs Hd Hf.
  destruct (request_exchange_ok cl r timeout uri o c0 Ht Hv E Hc Hw)
    as (r' & h & c1 & _ & _ & _ & Hi & ->).
  eapply read_interims; [done| |done]. eexists. split; [by rewrite Hi|done].
Qed.
End Requests.

(** ** Concrete instances *)
Import RefHttp.

(** A network whose only peer answers every connection with [wire]. *)
Definition sample_net (wire : list rx) : Net := {|
  SocketAddr := Z;
  to_socket_addrs := fun _ port => Ok [1; port];
  tcp_connect := fun a _ =>
    if a =? 1 then Err (mkIoError ConnectionRefused "refused")
    else Ok (mkTransport wire [] None None None);
  TlsConfig := unit;
  Session := unit;
  server_name_valid := fun _ => true;
  session_new := fun _ _ => Some ();
  complete_io := fun s t => (Ok s, t);
  alpn_protocol := fun _ => None;
  tls_stream := fun _ t => t
|}.

Definition sample_head : ResponseHead :=
  mkHead HTTP_11 200 (bs "OK") [(bs "Transfer-Encoding", bs " chunked"); (bs "X-A", bs " 1 ")].
Definition sample_fields : list (bytes * bytes) :=
  [(TRANSFER_ENCODING, bs "chunked"); (bs "x-a", bs "1")].
Definition early_hints : ResponseHead := mkHead HTTP_11 103 (bs "Early Hints") [].
Definition sample_response : list rx :=
  [RxData (encode_head early_hints ++ BLANK); RxData (encode_head sample_head);
   RxData (BLANK ++ sample_wire)].

Lemma plain_dec l : contains x0d l = false -> contains x0a l = false -> plain l.
Proof. intros. split; by apply not_elem_dec. Qed.

Lemma sample_head_ok : wire_head_ok sample_head sample_fields.
Proof.
  split; [|done]. split; [by right|]. split; [simpl; lia|].
  split; [by apply plain_dec|]. split; [repeat constructor|].
  constructor; [|constructor; [|constructor]];
    (split; [by apply plain_dec|split; [by apply plain_dec|split; [by apply not_elem_dec|done]]]).
Qed.

Lemma early_hints_ok : wire_head_ok early_hints [].
Proof.
  split; [|done]. split; [by right|]. split; [simpl; lia|].
  split; [by apply plain_dec|]. split; [repeat constructor | constructor].
Qed.

Lemma response_roundtrip_witness :
  exists res b', read_response 2 (Tcp (mkTransport sample_response [] None None None)) [] false
      = Some (Ok res) /\
    rs_status res = 200 /\ hm_get_all (bs "x-a") (rs_headers res) = [bs "1"] /\
    read_seq (repeat 4%nat 12) (rs_body res) = Some (Ok (bs "Wikipedia"), b').
Proof.
  edestruct (response_roundtrip 2 (Tcp (mkTransport sample_response [] None None None))
    [early_hints] sample_head sample_fields (Chunked 0 false false) sample_wire (bs "Wikipedia") []
    (repeat 4%nat 12) false) as (res & b' & E & Hs & _ & Hh & Hr & _).
  - constructor; [|constructor]. split; [done|]. exists []. apply early_hints_ok.
  - apply sample_head_ok.
  - done.
  - apply response_body_mode_iff. vm_compute. reflexivity.
  - rewrite <- (app_nil_r sample_wire). apply framed_next, sample_wire_chunked.
  - split; [done|]. eexists. split; [reflexivity|]. split; [done|]. eexists.
    split; [reflexivity|]. split; [done|]. exists []. by rewrite app_nil_r.
  - simpl; lia.
  - repeat constructor.
  - vm_compute. lia.
  - exists res, b'. rewrite Hh. done.
Defined.

Definition sample_client wire : Client (sample_net wire) :=
  builder_connect_timeout (sample_net wire) 5 (Builder_new (sample_net wire) (Some ())).

Lemma write_request_wire_witness :
  exists res c' hs, write_request (Tcp (mkTransport [] [] None None None)) sample_request
      = Some (res, c') /\ sent (transport c') = request_wire sample_request hs /\ res = Ok () /\
    hm_get_all CONTENT_LENGTH hs = [bs "0"] /\ hm_get_all CONNECTION hs = [bs "close"].
Proof.
  destruct (write_request_wire (Tcp (mkTransport [] [] None None None)) sample_request)
    as (res & c' & hs & p & E & (H1 & H2 & _) & _ & Hs & _ & Hp & Hok).
  exists res, c', hs. specialize (Hok eq_refl). split; [exact E|].
  split; [rewrite Hs, (Hp Hok); reflexivity|]. split; [exact Hok|].
  rewrite H1, H2. split; reflexivity.
Defined.

Lemma request_is_total_witness :
  response_any (request_with_timeout (sample_net sample_response) 2 (sample_client sample_response)
                  sample_request (Some 9)).
Proof.
  destruct (request_is_total _ 2 (sample_client sample_response) sample_request (Some 9)) as [H|[H _]];
    [exact H|]. vm_compute in H. discriminate H.
Defined.

(** A peer that sends early hints and nothing else. *)
Definition hints (n : nat) : list rx := repeat (RxData (encode_head early_hints ++ BLANK)) n.

Lemma hints_delivers n : delivers (hints n) (interims_wire (repeat early_hints n) ++ []).
Proof.
  unfold hints, interims_wire. induction n as [|n IH]; [done|]. simpl. split; [done|].
  eexists. split; [|exact IH]. by rewrite !app_nil_r.
Qed.

Lemma interim_responses_hold_request_witness :
  request_with_timeout (sample_net (hints 3)) 3 (sample_client (hints 3)) sample_request (Some 9) = None.
Proof.
  eapply (interim_responses_hold_request (sample_net (hints 3)) 3 (sample_client (hints 3))
    sample_request (Some 9)); [discriminate | by right | reflexivity | reflexivity | reflexivity | |
    exact (hints_delivers 3) | by rewrite repeat_length].
  apply Forall_forall. intros h Hh%list_elem_of_In%repeat_spec. subst h. split; [done|].
  exists []. apply early_hints_ok.
Defined.

Lemma request_exchange_witness :
  exists r' hs c1,
    sent (transport c1) = request_wire r' hs /\
    request_with_timeout (sample_net sample_response) 2 (sample_client sample_response)
      sample_request (Some 9)
    = read_response 2 c1 [] (bytes_eqb (r_method sample_request) HEAD).
Proof.
  edestruct (request_exchange (sample_net sample_response) (sample_client sample_response)
    sample_request (Some 9)) as (r' & hs & c1 & _ & _ & Hs & _ & E).
  - discriminate.
  - by right.
  - reflexivity.
  - reflexivity.
  - reflexivity.
  - exists r', hs, c1. split; [exact Hs | exact (E 2%nat)].
Defined.

End SyncClient.
