(* ===== verification/Pool.v ===== *)
(** * The per-origin connection pool ([h12tiny-client], [pool.rs])

    [crates/h12tiny-client/src/pool.rs].  The pool mutex makes every critical
    section atomic, so an operation is a function of the state of the pool and of the
    oneshot channels the pool hands connections through; the guards the callers
    hold ([Checkout], [Connecting], [Pooled]) are values, and their [Drop]s are
    operations.  What the environment decides is an argument: the time [now],
    the connections [is_open] reports open, and [late], the waiters whose
    receiver is dropped between [is_canceled] and [send].  An outer
    [None] is a panic, of a [debug_assert!] too.  The interleavings of all callers
    are the step relation of [PoolSystem], which takes the operations that lock
    twice ([alpn_h2]) or poll a receiver first ([checkout_poll]) in two steps. *)

From Stdlib Require Import ZArith Lia.
From stdpp Require Import base option list gmap sets.
From S2P Require Import Prelude Bytes Stream.

Open Scope Z_scope.

Module Pool.

(** A point in time, in nanoseconds. *)
Abbreviation Instant := Z (only parsing).

Inductive Protocol := Auto | Http1 | Http2.
#[export] Instance Protocol_eq_dec : EqDecision Protocol.
Proof. solve_decision. Defined.

Inductive Reservation (T : Type) :=
| Shared (a b : T)
| Unique (a : T).
Arguments Shared {T} _ _.
Arguments Unique {T} _.

(** The trait [Poolable]; [is_open] is an observation and is passed to the
    operations that make it. *)
Class Poolable (T : Type) := {
  reserve : T -> Reservation T;
  can_share : T -> bool
}.

(** What the pool relies on: HTTP/1 reservations are unique, HTTP/2 ones are
    shared. *)
Class PoolableLaws (T : Type) `{Poolable T} := {
  reserve_unique v : can_share v = false -> reserve v = Unique v;
  reserve_shared v : can_share v = true ->
    exists a b, reserve v = Shared a b /\ can_share a = true /\ can_share b = true
}.

(** The trait [Key]. *)
Class Key (K : Type) `{Countable K} := { origin : K -> bytes }.

Inductive ConnectionProtocol := ConnHttp1 | ConnHttp2.
#[export] Instance ConnectionProtocol_eq_dec : EqDecision ConnectionProtocol.
Proof. solve_decision. Defined.

(** [DebugEvent] of [lib.rs]. *)
Inductive DebugEvent :=
| PoolCheckout (o : bytes)
| ConnectionEstablished (o : bytes) (p : ConnectionProtocol)
| AlpnSelected (o : bytes) (p : ConnectionProtocol)
| ConnectionPooled (o : bytes)
| PoolEvicted (o : bytes)
| ConnectionClosed (o : bytes)
| StaleRetry (o : bytes).

(** [DebugEventLog]: [None] when no log was configured. *)
Definition DebugEventLog := option (list DebugEvent).
Definition record (e : DebugEvent) (l : DebugEventLog) : DebugEventLog :=
  match l with Some es => Some (es ++ [e]) | None => None end.
Definition drain (l : DebugEventLog) : list DebugEvent * DebugEventLog :=
  match l with Some es => (es, Some []) | None => ([], None) end.

Definition log_is_empty (l : list DebugEvent) : bool := match l with [] => true | _ => false end.

Record Config := mkConfig {
  idle_timeout : option Duration;
  max_idle_per_host : Z;
  max_h1_connections_per_host : Z
}.

Definition enabled (c : Config) : bool := 0 <? max_idle_per_host c.

Section Pool.
Context {T K : Type} `{Poolable T} `{Key K}.

Record Idle := mkIdle { value : T; idle_at : Instant }.

(** The state of a [oneshot] channel. *)
Inductive channel :=
| Waiting                (* both ends alive, nothing sent *)
| Delivered (v : T)      (* sent, not yet received *)
| SenderDropped
| ReceiverDropped.

(** [Inner]; [timer] says whether a timer was configured, and
    [idle_interval_ref] whether the idle task was started. *)
Record Inner := mkInner {
  connecting_set : gset K;
  h1_connections : gmap K Z;
  idle : gmap K (list Idle);
  cap_idle : Z;
  cap_h1 : Z;
  waiters : gmap K (list nat);
  idle_interval_ref : bool;
  timer : bool;
  timeout : option Duration
}.

(** The pool ([inner] is [None] for a disabled or dropped pool), the channels
    and the log. *)
Record World := mkWorld {
  inner : option Inner;
  channels : gmap nat channel;
  next_channel : nat;
  debug_events : DebugEventLog
}.

Definition with_inner (i : Inner) (w : World) : World :=
  mkWorld (Some i) (channels w) (next_channel w) (debug_events w).
Definition with_channels (c : gmap nat channel) (w : World) : World :=
  mkWorld (inner w) c (next_channel w) (debug_events w).
Definition log (e : DebugEvent) (w : World) : World :=
  mkWorld (inner w) (channels w) (next_channel w) (record e (debug_events w)).
Fixpoint log_n (n : nat) (e : DebugEvent) (w : World) : World :=
  match n with O => w | S n' => log_n n' e (log e w) end.

Definition set_connecting (s : gset K) (i : Inner) : Inner :=
  mkInner s (h1_connections i) (idle i) (cap_idle i) (cap_h1 i) (waiters i)
    (idle_interval_ref i) (timer i) (timeout i).
Definition set_h1 (m : gmap K Z) (i : Inner) : Inner :=
  mkInner (connecting_set i) m (idle i) (cap_idle i) (cap_h1 i) (waiters i)
    (idle_interval_ref i) (timer i) (timeout i).
Definition set_idle (m : gmap K (list Idle)) (i : Inner) : Inner :=
  mkInner (connecting_set i) (h1_connections i) m (cap_idle i) (cap_h1 i) (waiters i)
    (idle_interval_ref i) (timer i) (timeout i).
Definition set_waiters (m : gmap K (list nat)) (i : Inner) : Inner :=
  mkInner (connecting_set i) (h1_connections i) (idle i) (cap_idle i) (cap_h1 i) m
    (idle_interval_ref i) (timer i) (timeout i).
Definition set_interval (b : bool) (i : Inner) : Inner :=
  mkInner (connecting_set i) (h1_connections i) (idle i) (cap_idle i) (cap_h1 i) (waiters i)
    b (timer i) (timeout i).

(** [Pool::new]. *)
Definition new (c : Config) (tm : bool) (events : DebugEventLog) : World :=
  mkWorld
    (if enabled c then
       Some (mkInner ∅ ∅ ∅ (max_idle_per_host c) (max_h1_connections_per_host c) ∅ false tm
               (idle_timeout c))
     else None) ∅ O events.

Definition is_enabled (w : World) : bool :=
  match inner w with Some _ => true | None => false end.

(** ** Slots *)
Definition h1_count (i : Inner) (k : K) : Z := default 0 (h1_connections i !! k).

(** [entry(key).or_default()] leaves a zero entry behind when it refuses. *)
Definition reserve_h1_slot (k : K) (i : Inner) : bool * Inner :=
  let connections := h1_count i k in
  if cap_h1 i <=? connections then (false, set_h1 (<[k := connections]> (h1_connections i)) i)
  else (true, set_h1 (<[k := connections + 1]> (h1_connections i)) i).

(** [None]: the [debug_assert!] that the slot was taken failed. *)
Definition release_h1_slot (k : K) (i : Inner) : option Inner :=
  match h1_connections i !! k with
  | Some connections =>
      if 0 <? connections then
        let connections := saturating_sub connections 1 in
        Some (if connections =? 0 then set_h1 (delete k (h1_connections i)) i
              else set_h1 (<[k := connections]> (h1_connections i)) i)
      else None
  | None => Some i
  end.

(** ** Waiters *)

(** Dropping senders wakes the receivers that are still waiting. *)
Definition drop_sender (s : nat) (cs : gmap nat channel) : gmap nat channel :=
  match cs !! s with Some Waiting => <[s := SenderDropped]> cs | _ => cs end.
Definition drop_senders (l : list nat) (cs : gmap nat channel) : gmap nat channel :=
  fold_right drop_sender cs l.

Definition is_canceled (cs : gmap nat channel) (s : nat) : bool :=
  match cs !! s with Some ReceiverDropped => true | _ => false end.

(** The waiters of a key, and storing what is left of them: an empty queue is
    removed. *)
Definition queue (i : Inner) (k : K) : list nat := default [] (waiters i !! k).
Definition store_waiters (k : K) (ws : list nat) (i : Inner) : Inner :=
  match ws with
  | [] => set_waiters (delete k (waiters i)) i
  | _ => set_waiters (<[k := ws]> (waiters i)) i
  end.

(** [self.waiters.remove(key)]. *)
Definition remove_waiters (k : K) (i : Inner) (cs : gmap nat channel) : Inner * gmap nat channel :=
  (set_waiters (delete k (waiters i)) i, drop_senders (default [] (waiters i !! k)) cs).

Definition connected (k : K) (i : Inner) (cs : gmap nat channel) : Inner * gmap nat channel :=
  remove_waiters k (set_connecting (connecting_set i ∖ {[k]}) i) cs.

Definition connecting_cancelled (k : K) (h1_slot : bool) (i : Inner) (cs : gmap nat channel)
    : option (Inner * gmap nat channel) :=
  i ← (if h1_slot then release_h1_slot k i
       else Some (set_connecting (connecting_set i ∖ {[k]}) i));
  Some (remove_waiters k i cs).

Definition clean_waiters (k : K) (i : Inner) (cs : gmap nat channel) : Inner :=
  match waiters i !! k with
  | Some ws =>
      store_waiters k (List.filter (fun s => negb (is_canceled cs s)) ws) i
  | None => i
  end.

(** The loop of [put] over the waiters of a key: the value that is left, the
    waiters that are left, the channels.  [None]: the [expect] panicked. *)
Fixpoint deliver (late : nat -> bool) (v : option T) (ws : list nat) (cs : gmap nat channel)
    : option (option T * list nat * gmap nat channel) :=
  match ws with
  | [] => Some (v, [], cs)
  | s :: rest =>
      if is_canceled cs s then deliver late v rest cs
      else
        match v with
        | None => None
        | Some candidate =>
            let '(v', reserved) :=
              match reserve candidate with
              | Shared to_keep to_send => (Some to_keep, to_send)
              | Unique value => (None, value)
              end in
            if late s then deliver late (Some reserved) rest (<[s := ReceiverDropped]> cs)
            else
              let cs := <[s := Delivered reserved]> cs in
              match v' with
              | None => Some (None, rest, cs)
              | Some _ => deliver late v' rest cs
              end
        end
  end.

Definition spawn_idle_interval (i : Inner) : Inner :=
  if idle_interval_ref i then i
  else match timeout i with
       | Some t => if (0 <? t) && timer i then set_interval true i else i
       | None => i
       end.

(** [Inner::put]: whether the pool took the value. *)
Definition put (now : Instant) (late : nat -> bool) (k : K) (v : T) (i : Inner)
    (cs : gmap nat channel) : option (bool * Inner * gmap nat channel) :=
  if can_share v && bool_decide (is_Some (idle i !! k)) then Some (false, i, cs)
  else
    '(v', i, cs) ←
      match waiters i !! k with
      | Some ws =>
          '(v', ws', cs') ← deliver late (Some v) ws cs;
          Some (v', store_waiters k ws' i, cs')
      | None => Some (Some v, i, cs)
      end;
    Some match v' with
         | Some v =>
             let list := default [] (idle i !! k) in
             if cap_idle i <=? zlen list then (false, set_idle (<[k := list]> (idle i)) i, cs)
             else (true,
                   spawn_idle_interval (set_idle (<[k := list ++ [mkIdle v now]]> (idle i)) i), cs)
         | None => (true, i, cs)
         end.

(** ** Expiration *)
Definition expires (timeout : option Duration) (idle_at now : Instant) : bool :=
  match timeout with
  | Some t => t <? saturating_sub now idle_at
  | None => false
  end.

(** [IdlePopper::pop] on the list with its last entry first: the entry, the
    entries left and the number of evictions. *)
Fixpoint pop_last (is_open : T -> bool) (timeout : option Duration) (now : Instant) (l : list Idle)
    : option Idle * list Idle * nat :=
  match l with
  | [] => (None, [], O)
  | entry :: rest =>
      if negb (is_open (value entry)) || expires timeout (idle_at entry) now then
        let '(e, l', n) := pop_last is_open timeout now rest in (e, l', S n)
      else
        match reserve (value entry) with
        | Shared to_reinsert to_checkout =>
            (Some (mkIdle to_checkout (idle_at entry)), mkIdle to_reinsert now :: rest, O)
        | Unique v => (Some (mkIdle v (idle_at entry)), rest, O)
        end
  end.

Definition pop (is_open : T -> bool) (timeout : option Duration) (now : Instant) (l : list Idle)
    : option Idle * list Idle * nat :=
  let '(e, l', n) := pop_last is_open timeout now (rev l) in (e, rev l', n).

(** [Inner::clear_expired], run by the idle task; [None]: no timeout is set. *)
Definition keep_entry (is_open : T -> bool) (timeout : Duration) (now : Instant) (e : Idle) : bool :=
  is_open (value e) && (saturating_sub now (idle_at e) <=? timeout).

Definition clear_expired (is_open : T -> bool) (now : Instant) (i : Inner) : option Inner :=
  t ← timeout i;
  Some (set_idle
    (omap (fun l => match List.filter (keep_entry is_open t now) l with
                    | [] => None
                    | l' => Some l'
                    end) (idle i)) i).

(** ** [Connecting] *)
Record Connecting := mkConnecting {
  cn_key : K;
  cn_pool : bool;       (* the guard still refers to the pool *)
  cn_h1_slot : bool
}.

(** [Pool::connecting]. *)
Definition connecting (k : K) (p : Protocol) (w : World) : option Connecting * World :=
  match inner w with
  | Some i =>
      if bool_decide (p = Http2) then
        if bool_decide (k ∈ connecting_set i) then (None, w)
        else (Some (mkConnecting k true false),
              with_inner (set_connecting ({[k]} ∪ connecting_set i) i) w)
      else
        let '(ok, i) := reserve_h1_slot k i in
        (if ok then Some (mkConnecting k true true) else None, with_inner i w)
  | None => (Some (mkConnecting k false false), w)
  end.

(** [impl Drop for Connecting]. *)
Definition connecting_drop (c : Connecting) (w : World) : option World :=
  match (if cn_pool c then inner w else None) with
  | Some i =>
      '(i, cs) ← connecting_cancelled (cn_key c) (cn_h1_slot c) i (channels w);
      Some (with_channels cs (with_inner i w))
  | None => Some w
  end.

(** [Connecting::alpn_h2]: it takes the lock twice, to release the slot and to
    reserve the HTTP/2 establishment; the guard's own drop sees no pool any
    more. *)
Definition alpn_release (c : Connecting) (w : World) : option World :=
  match (if cn_h1_slot c && cn_pool c then inner w else None) with
  | Some i => i ← release_h1_slot (cn_key c) i; Some (with_inner i w)
  | None => Some w
  end.
Definition alpn_h2 (c : Connecting) (w : World) : option (option Connecting * World) :=
  w ← alpn_release c w; Some (connecting (cn_key c) Http2 w).

(** ** [Pooled] *)
Record Pooled := mkPooled {
  pl_value : T;
  pl_is_reused : bool;
  pl_key : K;
  pl_pool : bool;
  pl_h1_slot : bool
}.

(** [Pool::pooled]: consumes the guard, whose drop does nothing afterwards. *)
Definition pooled (now : Instant) (late : nat -> bool) (c : Connecting) (v : T) (w : World)
    : option (Pooled * World) :=
  match inner w with
  | Some i =>
      match reserve v with
      | Shared to_insert to_return =>
          '(ok, i, cs) ← put now late (cn_key c) to_insert i (channels w);
          let '(i, cs) := connected (cn_key c) i cs in
          let w := with_channels cs (with_inner i w) in
          let w := if (ok : bool) then log (ConnectionPooled (origin (cn_key c))) w else w in
          Some (mkPooled to_return false (cn_key c) false false, w)
      | Unique v => Some (mkPooled v false (cn_key c) true (cn_h1_slot c), w)
      end
  | None =>
      (* no pool: the guard is dropped as it is *)
      w ← connecting_drop c w; Some (mkPooled v false (cn_key c) false false, w)
  end.

(** [Pool::reuse]. *)
Definition reuse (k : K) (v : T) (w : World) : Pooled :=
  let h1_slot := negb (can_share v) in
  mkPooled v true k (if h1_slot then is_enabled w else false) h1_slot.

(** [Pooled::release_h1_slot]. *)
Definition pooled_release (p : Pooled) (w : World) : option World :=
  match (if pl_h1_slot p && pl_pool p then inner w else None) with
  | Some i => i ← release_h1_slot (pl_key p) i; Some (with_inner i w)
  | None => Some w
  end.

(** [impl Drop for Pooled]. *)
Definition pooled_drop (is_open : T -> bool) (now : Instant) (late : nat -> bool) (p : Pooled)
    (w : World) : option World :=
  if negb (is_open (pl_value p)) then
    w ← pooled_release p w; Some (log (ConnectionClosed (origin (pl_key p))) w)
  else
    match (if pl_pool p then inner w else None) with
    | Some i =>
        '(ok, i, cs) ← put now late (pl_key p) (pl_value p) i (channels w);
        let w := with_channels cs (with_inner i w) in
        if (ok : bool) then Some (log (ConnectionPooled (origin (pl_key p))) w)
        else if pl_h1_slot p then i ← release_h1_slot (pl_key p) i; Some (with_inner i w)
        else Some w
    | None => pooled_release p w
    end.

(** ** [Checkout] *)
Record Checkout := mkCheckout { co_key : K; co_waiter : option nat }.

Inductive CheckoutError := PoolDisabled | NoLongerWanted | ClosedValue.

Definition is_cancellation (e : CheckoutError) : bool :=
  match e with ClosedValue => true | _ => false end.

(** [Pool::checkout]. *)
Definition checkout (k : K) (w : World) : Checkout * World :=
  (mkCheckout k None, log (PoolCheckout (origin k)) w).

(** Polling the receiver of a channel: [Some] value, or [None] when the sender
    is gone. *)
Definition receiver_poll (c : nat) (cs : gmap nat channel) : poll (option T) :=
  match cs !! c with
  | Some Waiting => Pending
  | Some (Delivered v) => Ready (Some v)
  | _ => Ready None
  end.

(** [Checkout::poll_waiter]; the receiver is consumed unless it is pending. *)
Definition poll_waiter (is_open : T -> bool) (co : Checkout) (w : World)
    : poll (option (result Pooled CheckoutError)) * Checkout * World :=
  match co_waiter co with
  | None => (Ready None, co, w)
  | Some c =>
      let taken := mkCheckout (co_key co) None in
      let w' := with_channels (delete c (channels w)) w in
      match receiver_poll c (channels w) with
      | Ready (Some v) =>
          if is_open v then (Ready (Some (Ok (reuse (co_key co) v w))), taken, w')
          else (Ready (Some (Err ClosedValue)), taken, w')
      | Ready None => (Ready (Some (Err NoLongerWanted)), taken, w')
      | Pending => (Pending, co, w)
      end
  end.

(** [Checkout::checkout]: an idle connection, or a place in the queue; the outer
    [None] is the [assert!] that a new receiver is pending. *)
Definition checkout_idle (is_open : T -> bool) (now : Instant) (co : Checkout) (w : World)
    : option (option Pooled * Checkout * World) :=
  match inner w with
  | None => Some (None, co, w)
  | Some i =>
      let '(entry, kept, evicted) :=
        match idle i !! co_key co with
        | Some l => pop is_open (timeout i) now l
        | None => (None, [], O)
        end in
      let remove := match entry with
                    | Some _ => match kept with [] => true | _ => false end
                    | None => true
                    end in
      let i := set_idle (if remove then delete (co_key co) (idle i)
                         else <[co_key co := kept]> (idle i)) i in
      let w := log_n evicted (PoolEvicted (origin (co_key co))) (with_inner i w) in
      match entry, co_waiter co with
      | None, None =>
          let s := next_channel w in
          let i := set_waiters (<[co_key co := default [] (waiters i !! co_key co) ++ [s]]>
                                  (waiters i)) i in
          let cs := <[s := Waiting]> (channels w) in
          match receiver_poll s cs with
          | Pending =>
              Some (None, mkCheckout (co_key co) (Some s), mkWorld (Some i) cs (S s) (debug_events w))
          | Ready _ => None
          end
      | None, Some _ => Some (None, co, w)
      | Some e, _ => Some (Some (reuse (co_key co) (value e) w), co, w)
      end
  end.

(** [impl Future for Checkout]: the receiver is polled without the lock, the
    idle list searched under it: two steps of the pool, between which other
    callers may act. *)
Definition checkout_poll (is_open : T -> bool) (now : Instant) (co : Checkout) (w : World)
    : option (poll (result Pooled CheckoutError) * Checkout * World) :=
  match poll_waiter is_open co w with
  | (Ready (Some r), co, w) => Some (Ready r, co, w)
  | (_, co, w) =>
      '(p, co, w) ← checkout_idle is_open now co w;
      Some match p with
           | Some p => (Ready (Ok p), co, w)
           | None =>
               if negb (is_enabled w) then (Ready (Err PoolDisabled), co, w) else (Pending, co, w)
           end
  end.

(** [impl Drop for Checkout]: the receiver goes first. *)
Definition drop_receiver (c : nat) (cs : gmap nat channel) : gmap nat channel :=
  match cs !! c with Some Waiting => <[c := ReceiverDropped]> cs | _ => delete c cs end.

Definition checkout_drop (co : Checkout) (w : World) : World :=
  match co_waiter co with
  | None => w
  | Some c =>
      let cs := drop_receiver c (channels w) in
      match inner w with
      | Some i => with_channels cs (with_inner (clean_waiters (co_key co) i cs) w)
      | None => with_channels cs w
      end
  end.

(** One wake-up of the idle task.  The evictions are logged in the iteration
    order of the map. *)
Definition evictions (is_open : T -> bool) (t : Duration) (now : Instant) (i : Inner)
    : list DebugEvent :=
  concat (map (fun '(k, l) =>
                 map (fun _ => PoolEvicted (origin k))
                   (List.filter (fun e => negb (keep_entry is_open t now e)) l))
            (map_to_list (idle i))).

Definition idle_task_tick (is_open : T -> bool) (now : Instant) (w : World) : option World :=
  match inner w with
  | Some i =>
      i' ← clear_expired is_open now i;
      Some (fold_left (fun w e => log e w) (evictions is_open (default 0 (timeout i)) now i)
              (with_inner i' w))
  | None => Some w
  end.

End Pool.
(** ** Laws of the single operations *)
Section Laws.
Context {T K : Type} `{PT : Poolable T} `{KK : Key K} `{!PoolableLaws T}.
Implicit Types (k : K) (v : T).

(** Delivery never panics: a value is only missing after the loop has ended. *)
Lemma deliver_total late v ws cs : is_Some (deliver late (Some v) ws cs).
Proof.
  revert v cs. induction ws as [|s ws IH]; intros v cs; cbn [deliver]; [done|].
  destruct (is_canceled cs s); [apply IH|].
  destruct (reserve v); destruct (late s); auto.
Qed.

(** A unique value goes to the first waiter that is still there. *)
Lemma deliver_unique v ws cs :
  can_share v = false ->
  (exists pre s post, ws = pre ++ s :: post /\ Forall (fun c => is_canceled cs c = true) pre /\
     is_canceled cs s = false /\
     deliver (fun _ => false) (Some v) ws cs = Some (None, post, <[s := Delivered v]> cs)) \/
  (Forall (fun c => is_canceled cs c = true) ws /\
   deliver (fun _ => false) (Some v) ws cs = Some (Some v, [], cs)).
Proof.
  intros Hv. induction ws as [|s ws IH]; [by right|]. cbn [deliver].
  destruct (is_canceled cs s) eqn:E.
  - destruct IH as [(pre & s' & post & -> & Hp & Hs & ->) | [Ha ->]].
    + left. exists (s :: pre), s', post. by repeat constructor.
    + right. by repeat constructor.
  - left. exists [], s, ws. rewrite (reserve_unique _ Hv). by repeat constructor.
Qed.

(** A shared value goes to every waiter, and a copy is left. *)
Lemma deliver_shared v ws cs :
  can_share v = true ->
  exists v' cs', deliver (fun _ => false) (Some v) ws cs = Some (Some v', [], cs') /\
    can_share v' = true /\
    (forall s, s ∈ ws -> is_canceled cs s = false ->
       exists u, cs' !! s = Some (Delivered u) /\ can_share u = true) /\
    (forall s, s ∉ ws -> cs' !! s = cs !! s).
Proof.
  revert v cs. induction ws as [|s ws IH]; intros v cs Hv.
  { exists v, cs. split_and!; try done. intros s Hs. by apply not_elem_of_nil in Hs. }
  cbn [deliver]. destruct (is_canceled cs s) eqn:E.
  - destruct (IH v cs Hv) as (v' & cs' & -> & Hv' & Hin & Hout). exists v', cs'.
    split_and!; try done.
    + intros s' [->|Hs]%elem_of_cons Hc; [congruence | by apply Hin].
    + intros s' [? ?]%not_elem_of_cons. by apply Hout.
  - destruct (reserve_shared _ Hv) as (a & b & -> & Ha & Hb).
    destruct (IH a (<[s := Delivered b]> cs) Ha) as (v' & cs' & -> & Hv' & Hin & Hout).
    exists v', cs'. split_and!; try done.
    + intros s' Hs Hc. destruct (decide (s' ∈ ws)) as [Hw|Hw].
      * apply Hin; [done|]. unfold is_canceled in *. destruct (decide (s = s')) as [->|].
        -- by rewrite lookup_insert_eq.
        -- by rewrite lookup_insert_ne.
      * apply elem_of_cons in Hs as [->|?]; [|done]. rewrite (Hout _ Hw).
        exists b. by rewrite lookup_insert_eq.
    + intros s' [? Hw]%not_elem_of_cons. rewrite (Hout _ Hw). by rewrite lookup_insert_ne.
Qed.

Lemma put_total now late k v i cs : is_Some (put now late k v i cs).
Proof.
  unfold put. destruct (_ && _); [done|]. destruct (waiters i !! k) as [ws|]; simpl; [|done].
  destruct (deliver_total late v ws cs) as [[[v' ws'] cs'] ->]. done.
Qed.

(** Waiters are served in order: a returned HTTP/1 connection goes to the
    oldest checkout that still wants one, the waiters behind it keep their
    places and the idle list is not touched; only when no waiter is left is
    the connection kept idle, up to the bound. *)
Theorem put_serves_waiters_in_order now k v i cs ws :
  can_share v = false -> waiters i !! k = Some ws ->
  (exists pre s post i', ws = pre ++ s :: post /\
     Forall (fun c => is_canceled cs c = true) pre /\ is_canceled cs s = false /\
     put now (fun _ => false) k v i cs = Some (true, i', <[s := Delivered v]> cs) /\
     default [] (waiters i' !! k) = post /\ idle i' = idle i) \/
  (Forall (fun c => is_canceled cs c = true) ws /\
   exists ok i', put now (fun _ => false) k v i cs = Some (ok, i', cs) /\
     waiters i' !! k = None /\ ok = (zlen (default [] (idle i !! k)) <? cap_idle i) /\
     default [] (idle i' !! k) =
       default [] (idle i !! k) ++ (if ok then [mkIdle v now] else [])).
Proof.
  intros Hv Hw. unfold put. rewrite Hv, Hw. cbn [andb].
  destruct (deliver_unique v ws cs Hv) as [(pre & s & post & -> & Hp & Hs & ->) | [Ha ->]].
  - left. exists pre, s, post. rewrite !some_bind. destruct post as [|c post];
      eexists; split_and!; try done; simpl.
    + by rewrite lookup_delete_eq.
    + by rewrite lookup_insert_eq.
  - right. split; [done|]. rewrite !some_bind. cbn [store_waiters idle set_waiters cap_idle].
    destruct (cap_idle i <=? zlen (default [] (idle i !! k))) eqn:E; bool_hyps; eexists _, _;
      (split; [done|]); unfold spawn_idle_interval.
    + cbn. rewrite lookup_delete_eq, lookup_insert_eq, app_nil_r. split_and!; try done.
      symmetry. apply Z.ltb_ge. done.
    + assert ((zlen (default [] (idle i !! k)) <? cap_idle i) = true) as -> by by apply Z.ltb_lt.
      cbn. repeat (case_match; cbn); rewrite ?lookup_delete_eq, ?lookup_insert_eq; done.
Qed.

(** An entry that may be handed out. *)
Definition live (is_open : T -> bool) (t : option Duration) (now : Instant) (e : Idle) : bool :=
  is_open (value e) && negb (expires t (idle_at e) now).

(** What [pop] makes of a list of idle entries. *)
Definition popped (is_open : T -> bool) (t : option Duration) (now : Instant) (l : list Idle)
    (r : option Idle * list Idle * nat) : Prop :=
  match r with
  | (Some e, kept, n) =>
      exists pre x post, l = pre ++ x :: post /\ live is_open t now x = true /\
        Forall (fun y => live is_open t now y = false) post /\ n = length post /\
        idle_at e = idle_at x /\ can_share (value e) = can_share (value x) /\
        (if can_share (value x)
         then exists v, kept = pre ++ [mkIdle v now] /\ can_share v = true
         else value e = value x /\ kept = pre)
  | (None, kept, n) => Forall (fun y => live is_open t now y = false) l /\ kept = [] /\ n = length l
  end.

Lemma pop_app is_open t now l x :
  pop is_open t now (l ++ [x]) =
    if live is_open t now x then
      match reserve (value x) with
      | Shared a b => (Some (mkIdle b (idle_at x)), l ++ [mkIdle a now], O)
      | Unique v => (Some (mkIdle v (idle_at x)), l, O)
      end
    else let '(e, kept, n) := pop is_open t now l in (e, kept, S n).
Proof.
  unfold pop, live. rewrite rev_unit. cbn [pop_last].
  destruct (is_open (value x)), (expires t (idle_at x) now); cbn [negb orb andb];
    try (destruct (pop_last is_open t now (rev l)) as [[e l'] n]; done).
  destruct (reserve (value x)); cbn [rev]; by rewrite rev_involutive.
Qed.

Lemma pop_popped is_open t now l : popped is_open t now l (pop is_open t now l).
Proof.
  induction l as [|x l IH] using rev_ind; [done|]. rewrite pop_app.
  destruct (live is_open t now x) eqn:E.
  - destruct (can_share (value x)) eqn:Es.
    + destruct (reserve_shared _ Es) as (a & b & -> & Ha & Hb). exists l, x, [].
      rewrite Es. split_and!; try done. by exists a.
    + rewrite (reserve_unique _ Es). exists l, x, []. rewrite Es. by split_and!.
  - destruct (pop is_open t now l) as [[[e|] kept] n].
    + destruct IH as (pre & y & post & -> & Hy & Hp & -> & Hrest). exists pre, y, (post ++ [x]).
      rewrite <- app_assoc. split; [done|]. split; [done|].
      split; [apply Forall_app; by repeat constructor|].
      split; [rewrite length_app; simpl; lia | exact Hrest].
    + destruct IH as (Hl & -> & ->). split_and!; [|done|rewrite length_app; simpl; lia].
      apply Forall_app. by repeat constructor.
Qed.

(** A checkout takes the most recently used idle connection that is open and
    has not expired, and evicts exactly the entries behind it that are not; a
    unique connection leaves the list, a shared one stays in it, refreshed.  A
    closed or expired connection is never handed out. *)
Theorem pop_takes_latest_live is_open t now l :
  popped is_open t now l (pop is_open t now l).
Proof. apply pop_popped. Qed.
End Laws.

(** ** A concrete pool *)

(** Connections named by a number and whether they are shared. *)
Definition sample_conn : Type := nat * bool.
#[export] Instance sample_poolable : Poolable sample_conn := {|
  reserve := fun c : nat * bool => if c.2 then Shared c c else Unique c;
  can_share := fun c : nat * bool => c.2
|}.
#[export] Instance sample_poolable_laws : PoolableLaws sample_conn.
Proof.
  split; intros v Hv; simpl in *; rewrite Hv; [done|]. exists v, v. by rewrite Hv.
Qed.
#[export] Instance sample_key : Key nat := {| origin := fun _ => [] |}.

Definition sample_inner : @Inner sample_conn nat _ _ :=
  mkInner ∅ {[7%nat := 1]} ∅ 4 1 {[7%nat := [0; 1; 2]%nat]} false true (Some 90).

Lemma put_serves_waiters_in_order_witness :
  exists i', put 0 (fun _ => false) 7%nat (3%nat, false) sample_inner
      {[0%nat := ReceiverDropped; 1%nat := Waiting; 2%nat := Waiting]}
    = Some (true, i', <[1%nat := Delivered (3%nat, false)]>
        {[0%nat := ReceiverDropped; 1%nat := Waiting; 2%nat := Waiting]}).
Proof.
  destruct (put_serves_waiters_in_order 0 7%nat (3%nat, false) sample_inner
    {[0%nat := ReceiverDropped; 1%nat := Waiting; 2%nat := Waiting]} [0; 1; 2]%nat)
    as [(pre & s & post & i' & Ew & Hp & Hs & E & _) | [Hall _]].
  - reflexivity.
  - reflexivity.
  - destruct pre as [|p0 [|p1 pre]].
    + injection Ew as <- _. vm_compute in Hs. discriminate.
    + injection Ew as _ <- _. by exists i'.
    + injection Ew as _ <- _. apply Forall_cons in Hp as [_ [Hp _]%Forall_cons].
      vm_compute in Hp. discriminate.
  - apply Forall_cons in Hall as [_ [Hp _]%Forall_cons]. vm_compute in Hp. discriminate.
Defined.

Lemma pop_takes_latest_live_witness :
  popped (fun c : sample_conn => negb (Nat.eqb (fst c) 2)) (Some 90) 100
    [mkIdle (1%nat, false) 20; mkIdle (2%nat, false) 30]
    (Some (mkIdle (1%nat, false) 20), [], 1%nat).
Proof.
  exact (pop_takes_latest_live (fun c : sample_conn => negb (Nat.eqb (fst c) 2)) (Some 90) 100
    [mkIdle (1%nat, false) 20; mkIdle (2%nat, false) 30]).
Defined.

End Pool.
