(* ===== verification/PoolSystem.v ===== *)
(** * The pool under concurrent callers ([h12tiny-client], [pool.rs])

    The guards callers hold ([Connecting], [Pooled], [Checkout]) and the pool,
    as one transition system: a step is one critical section of the pool mutex
    by any caller, or one poll of a receiver, which takes no lock, in any
    order.  The invariant gives the bounds the builder
    documents (open HTTP/1 connections, idle connections, one HTTP/2
    establishment per origin) and that no parked checkout is forgotten. *)

From Stdlib Require Import ZArith Lia.
From stdpp Require Import base option list gmap sets.
From S2P Require Import Prelude Bytes Stream Pool.

Open Scope Z_scope.

Module PoolSystem.
Import Pool.Pool.

(** ** Counting *)
Definition countb {A} (f : A -> bool) (l : list A) : Z := zlen (List.filter f l).

Lemma countb_nil {A} (f : A -> bool) : countb f [] = 0.
Proof. done. Qed.

Lemma countb_cons {A} (f : A -> bool) x l : countb f (x :: l) = Z.b2z (f x) + countb f l.
Proof. unfold countb. simpl. destruct (f x); simpl; rewrite ?zlen_cons; lia. Qed.

Lemma countb_app {A} (f : A -> bool) l k : countb f (l ++ k) = countb f l + countb f k.
Proof. unfold countb. by rewrite List.filter_app, zlen_app. Qed.

Lemma countb_nonneg {A} (f : A -> bool) l : 0 <= countb f l.
Proof. apply zlen_nonneg. Qed.

Lemma countb_le {A} (f g : A -> bool) l :
  (forall x, x ∈ l -> f x = true -> g x = true) -> countb f l <= countb g l.
Proof.
  induction l as [|x l IH]; intros Hfg; [done|]. rewrite !countb_cons.
  assert (countb f l <= countb g l) by (apply IH; intros; apply Hfg; [by right | done]).
  specialize (Hfg x ltac:(left)). destruct (f x); [rewrite Hfg by done|]; destruct (g x);
    simpl; lia.
Qed.

Lemma countb_zero {A} (f : A -> bool) l : (forall x, x ∈ l -> f x = false) -> countb f l = 0.
Proof.
  induction l as [|x l IH]; intros Hf; [done|]. rewrite countb_cons, (Hf x) by left.
  rewrite IH; [done|]. intros. apply Hf. by right.
Qed.

#[local] Hint Rewrite @countb_nil @countb_cons @countb_app : h12.

Section System.
Context {T K : Type} `{PT : Poolable T} `{KK : Key K} `{!PoolableLaws T}.
Implicit Types (k : K) (v : T).

Abbreviation Inner' := (@Inner T K _ _).
Abbreviation World' := (@World T K _ _).
Abbreviation Chans := (gmap nat (@channel T)).

(** [dropping]: checkouts whose [Drop] has started but has not yet taken the
    lock. *)
Record System := mkSystem {
  world : World';
  guards : list (@Connecting K);
  handles : list (@Pooled T K);
  checkouts : list (@Checkout K);
  dropping : list (@Checkout K)
}.

Definition start (c : Config) (tm : bool) (events : DebugEventLog) : System :=
  mkSystem (new c tm events) [] [] [] [].

(** A receiver can only vanish between the check and the send when its
    checkout is being dropped. *)
Definition late_ok (late : nat -> bool) (cos : list (@Checkout K)) : Prop :=
  forall s co, late s = true -> co ∈ cos -> co_waiter co <> Some s.

Inductive step : System -> System -> Prop :=
| step_checkout k w gs hs cos dr co w' :
    checkout k w = (co, w') ->
    step (mkSystem w gs hs cos dr) (mkSystem w' gs hs (cos ++ [co]) dr)
| step_poll_waiter op w gs hs c1 co c2 dr r co' w' :
    poll_waiter op co w = (r, co', w') ->
    step (mkSystem w gs hs (c1 ++ co :: c2) dr)
      (mkSystem w' gs (match r with Ready (Some (Ok p)) => p :: hs | _ => hs end) (c1 ++ co' :: c2) dr)
| step_checkout_idle op now w gs hs c1 co c2 dr p co' w' :
    checkout_idle op now co w = Some (p, co', w') ->
    step (mkSystem w gs hs (c1 ++ co :: c2) dr)
      (mkSystem w' gs (option_list p ++ hs) (c1 ++ co' :: c2) dr)
| step_checkout_drop w gs hs c1 co c2 dr :
    step (mkSystem w gs hs (c1 ++ co :: c2) dr) (mkSystem w gs hs (c1 ++ c2) (co :: dr))
| step_checkout_clean w gs hs cos d1 co d2 :
    step (mkSystem w gs hs cos (d1 ++ co :: d2))
      (mkSystem (checkout_drop co w) gs hs cos (d1 ++ d2))
| step_connecting k p w gs hs cos dr g w' :
    connecting k p w = (g, w') ->
    step (mkSystem w gs hs cos dr) (mkSystem w' (option_list g ++ gs) hs cos dr)
| step_connecting_drop w g1 g g2 hs cos dr w' :
    connecting_drop g w = Some w' ->
    step (mkSystem w (g1 ++ g :: g2) hs cos dr) (mkSystem w' (g1 ++ g2) hs cos dr)
| step_alpn_release w g1 g g2 hs cos dr w' :
    (* the HTTP/2 reservation that follows is a [step_connecting] *)
    cn_h1_slot g = true -> alpn_release g w = Some w' ->
    step (mkSystem w (g1 ++ g :: g2) hs cos dr) (mkSystem w' (g1 ++ g2) hs cos dr)
| step_pooled now late w g1 g g2 v hs cos dr p w' :
    (* the client reserves for the protocol of the connection *)
    can_share v = negb (cn_h1_slot g) -> late_ok late cos ->
    pooled now late g v w = Some (p, w') ->
    step (mkSystem w (g1 ++ g :: g2) hs cos dr) (mkSystem w' (g1 ++ g2) (p :: hs) cos dr)
| step_pooled_drop op now late w gs h1 p h2 cos dr w' :
    late_ok late cos -> pooled_drop op now late p w = Some w' ->
    step (mkSystem w gs (h1 ++ p :: h2) cos dr) (mkSystem w' gs (h1 ++ h2) cos dr)
| step_idle_task op now w gs hs cos dr i w' :
    inner w = Some i -> idle_interval_ref i = true -> idle_task_tick op now w = Some w' ->
    step (mkSystem w gs hs cos dr) (mkSystem w' gs hs cos dr)
| step_log e w gs hs cos dr :
    step (mkSystem w gs hs cos dr) (mkSystem (log e w) gs hs cos dr).

Inductive reachable (s0 : System) : System -> Prop :=
| reach_start : reachable s0 s0
| reach_step s s' : reachable s0 s -> step s s' -> reachable s0 s'.

(** ** Who holds an HTTP/1 connection of an origin *)
Definition guard_h1 k (g : @Connecting K) : bool :=
  bool_decide (cn_key g = k) && cn_pool g && cn_h1_slot g.
Definition guard_h2 k (g : @Connecting K) : bool :=
  bool_decide (cn_key g = k) && cn_pool g && negb (cn_h1_slot g).
Definition handle_h1 k (p : @Pooled T K) : bool :=
  bool_decide (pl_key p = k) && pl_pool p && pl_h1_slot p.
Definition entry_h1 (e : @Idle T) : bool := negb (can_share (value e)).
Definition mail_h1 (cs : Chans) k (co : @Checkout K) : bool :=
  bool_decide (co_key co = k) &&
  match co_waiter co with
  | Some c => match cs !! c with Some (Delivered v) => negb (can_share v) | _ => false end
  | None => false
  end.

Definition idle_h1 (i : Inner') k : Z := countb entry_h1 (default [] (idle i !! k)).

(** Connections at rest: idle, or delivered and not yet received. *)
Definition resting (i : Inner') (cs : Chans) (cos : list Checkout) k : Z :=
  idle_h1 i k + countb (mail_h1 cs k) cos.

(** The HTTP/1 connections of [k]: being established, in use, idle, handed
    over. *)
Definition open_h1 (s : System) (i : Inner') k : Z :=
  countb (guard_h1 k) (guards s) + countb (handle_h1 k) (handles s)
  + resting i (channels (world s)) (checkouts s) k.

(** ** Invariants *)

(** The place of a waiter: queued under its key, or already answered. *)
Definition placed (i : Inner') (cs : Chans) k (c : nat) : Prop :=
  match cs !! c with
  | Some Waiting => c ∈ queue i k
  | Some (Delivered _) | Some SenderDropped => True
  | _ => False
  end.

Record queues_ok (i : Inner') (cs : Chans) (n : nat) (cos : list Checkout) : Prop := {
  q_nodup : NoDup (omap co_waiter cos);
  q_key k s co : s ∈ queue i k -> co ∈ cos -> co_waiter co = Some s -> co_key co = k;
  q_placed co c : co ∈ cos -> co_waiter co = Some c -> placed i cs (co_key co) c;
  q_fresh_co co c : co ∈ cos -> co_waiter co = Some c -> (c < n)%nat;
  q_fresh_w k s : s ∈ queue i k -> (s < n)%nat
}.

Definition idle_ok (i : Inner') : Prop :=
  0 < cap_idle i /\
  (idle_interval_ref i = true -> is_Some (timeout i)) /\
  forall k l, idle i !! k = Some l ->
    l <> [] /\ zlen l <= cap_idle i /\ countb (fun e => can_share (value e)) l <= 1.

(** ** Delivery *)

Lemma mail_insert_quiet (cs : Chans) s x k cos :
  (forall u, x = Delivered u -> can_share u = true) ->
  countb (mail_h1 (<[s := x]> cs) k) cos <= countb (mail_h1 cs k) cos.
Proof.
  intros Hx. apply countb_le. intros co _. unfold mail_h1.
  destruct (co_waiter co) as [c|]; [|done]. destruct (decide (s = c)) as [->|Hne].
  - rewrite lookup_insert_eq. destruct x as [|u| |]; try (by rewrite andb_false_r).
    rewrite (Hx u eq_refl), andb_false_r. done.
  - by rewrite lookup_insert_ne.
Qed.

Lemma mail_delete (cs : Chans) s k cos :
  countb (mail_h1 (delete s cs) k) cos <= countb (mail_h1 cs k) cos.
Proof.
  apply countb_le. intros co _. unfold mail_h1. destruct (co_waiter co) as [c|]; [|done].
  destruct (decide (s = c)) as [->|Hne].
  - by rewrite lookup_delete_eq, andb_false_r.
  - by rewrite lookup_delete_ne.
Qed.

(** A channel nobody of [cos] listens to does not matter. *)
Lemma mail_insert_ne (cs : Chans) s x k (cos : list Checkout) :
  (forall co, co ∈ cos -> co_waiter co <> Some s) ->
  countb (mail_h1 (<[s := x]> cs) k) cos <= countb (mail_h1 cs k) cos.
Proof.
  intros Hne. apply countb_le. intros co Hco. unfold mail_h1. specialize (Hne _ Hco).
  destruct (co_waiter co) as [c|]; [|done]. rewrite lookup_insert_ne by congruence. done.
Qed.

Lemma mail_insert_unique (cs : Chans) s x k k' (cos : list Checkout) :
  NoDup (omap co_waiter cos) ->
  (forall co, co ∈ cos -> co_waiter co = Some s -> co_key co = k) ->
  countb (mail_h1 (<[s := x]> cs) k') cos
    <= countb (mail_h1 cs k') cos + Z.b2z (bool_decide (k = k')).
Proof.
  induction cos as [|co cos IH]; intros Hnd Hk.
  { rewrite !countb_nil. destruct (bool_decide _); simpl; lia. }
  rewrite !countb_cons.
  assert (Hk' : forall c, c ∈ cos -> co_waiter c = Some s -> co_key c = k)
    by (intros; apply Hk; [by right | done]).
  assert (0 <= Z.b2z (bool_decide (k = k'))) by (destruct (bool_decide _); simpl; lia).
  destruct (decide (co_waiter co = Some s)) as [E|E].
  - simpl in Hnd. rewrite E in Hnd. apply NoDup_cons in Hnd as [Hs _].
    assert (countb (mail_h1 (<[s := x]> cs) k') cos <= countb (mail_h1 cs k') cos).
    { apply mail_insert_ne. intros co' Hco' E'. apply Hs.
      apply list_elem_of_omap. by exists co'. }
    assert (Z.b2z (mail_h1 (<[s := x]> cs) k' co) <= Z.b2z (bool_decide (k = k'))).
    { unfold mail_h1. rewrite (Hk co) by (done || left). destruct (bool_decide _); simpl; [|lia].
      destruct (match co_waiter co with Some _ => _ | None => _ end); simpl; lia. }
    destruct (mail_h1 cs k' co); simpl; lia.
  - assert (mail_h1 (<[s := x]> cs) k' co = mail_h1 cs k' co) as ->.
    { unfold mail_h1. destruct (co_waiter co) as [c|]; [|done].
      rewrite lookup_insert_ne by congruence. done. }
    assert (NoDup (omap co_waiter cos)) as Hnd'.
    { simpl in Hnd. destruct (co_waiter co); [by apply NoDup_cons in Hnd as [_ ?] | done]. }
    specialize (IH Hnd' Hk'). lia.
Qed.

(** What delivery does to the checkouts that listen: channel [c] is as it was
    (and, when it waits, still in the queue), or it received a connection. *)
Definition delivered_or_kept (cs cs' : Chans) (ws ws' : list nat) (c : nat) : Prop :=
  (cs' !! c = cs !! c /\ (cs !! c = Some Waiting -> c ∈ ws -> c ∈ ws')) \/
  (exists u, cs' !! c = Some (Delivered u)).

Lemma kept_insert (cs cs' : Chans) s x ws ws' c :
  s <> c -> delivered_or_kept (<[s := x]> cs) cs' ws ws' c ->
  delivered_or_kept cs cs' (s :: ws) ws' c.
Proof.
  intros Hne [[Hcs Hw]|?]; [left|by right]. rewrite lookup_insert_ne in Hcs, Hw by done.
  split; [done|]. intros ? [->|?]%elem_of_cons; [done | auto].
Qed.

Lemma kept_delivered (cs cs' : Chans) s u ws ws' c :
  delivered_or_kept (<[s := Delivered u]> cs) cs' ws ws' c ->
  delivered_or_kept cs cs' (s :: ws) ws' c.
Proof.
  intros Hd. destruct (decide (s = c)) as [->|Hne]; [|by eapply kept_insert].
  destruct Hd as [[Hcs _]|?]; right; [|done]. exists u. by rewrite Hcs, lookup_insert_eq.
Qed.

Lemma kept_refl (cs : Chans) ws c : delivered_or_kept cs cs ws ws c.
Proof. left. done. Qed.

Lemma deliver_effect late v ws (cs : Chans) (r : option T) ws' cs' k (cos : list Checkout) :
  deliver late (Some v) ws cs = Some (r, ws', cs') ->
  late_ok late cos -> NoDup (omap co_waiter cos) ->
  (forall s co, s ∈ ws -> co ∈ cos -> co_waiter co = Some s -> co_key co = k) ->
  (forall s, s ∈ ws' -> s ∈ ws) /\
  (forall u, r = Some u -> can_share u = can_share v) /\
  (r = None -> can_share v = false) /\
  (forall co c, co ∈ cos -> co_waiter co = Some c -> delivered_or_kept cs cs' ws ws' c) /\
  forall k', countb (mail_h1 cs' k') cos <= countb (mail_h1 cs k') cos +
    match r with Some _ => 0 | None => Z.b2z (bool_decide (k = k')) end.
Proof.
  intros E Hlate Hnd. revert v cs E. induction ws as [|s ws IH]; intros v cs E Hk; cbn [deliver] in E.
  { simplify_eq. split_and!; try done; [congruence | intros; apply kept_refl | intros; lia]. }
  assert (Hk' : forall s co, s ∈ ws -> co ∈ cos -> co_waiter co = Some s -> co_key co = k)
    by (intros; eapply Hk; [by right | done | done]).
  destruct (is_canceled cs s) eqn:Ec.
  { destruct (IH _ _ E Hk') as (Hs & Hu & Hn & Hd & Hm). split_and!; try done.
    - intros. right. by apply Hs.
    - intros co c Hco Hc. destruct (Hd _ _ Hco Hc) as [[Hcs Hw]|?]; [left|by right].
      split; [done|]. intros Hwait [->|?]%elem_of_cons; [|by apply Hw].
      unfold is_canceled in Ec. by rewrite Hwait in Ec. }
  assert (Hq := fun k' => mail_insert_quiet cs s ReceiverDropped k' cos ltac:(done)).
  destruct (can_share v) eqn:Ev.
  - destruct (reserve_shared v Ev) as (a & b & Er & Ha & Hb). rewrite Er in E.
    destruct (late s) eqn:El;
      destruct (IH _ _ E Hk') as (Hs & Hu & Hn & Hd & Hm); rewrite ?Hb, ?Ha in Hu, Hn;
      (split_and!; [intros; right; by apply Hs | done | done | |]).
    + intros co c Hco Hc. eapply kept_insert; [|eauto]. intros ->. by eapply Hlate.
    + intros k'. specialize (Hm k'). specialize (Hq k'). lia.
    + intros co c Hco Hc. eapply kept_delivered; eauto.
    + intros k'. specialize (Hm k').
      pose proof (mail_insert_quiet cs s (Delivered b) k' cos ltac:(intros ? [= <-]; done)). lia.
  - rewrite (reserve_unique v Ev) in E. destruct (late s) eqn:El.
    + destruct (IH _ _ E Hk') as (Hs & Hu & Hn & Hd & Hm). rewrite Ev in Hu.
      split_and!; [intros; right; by apply Hs | done | done | |].
      * intros co c Hco Hc. eapply kept_insert; [|eauto]. intros ->. by eapply Hlate.
      * intros k'. specialize (Hm k'). specialize (Hq k'). lia.
    + simplify_eq. split_and!; try done; [intros; by right | |].
      * intros co c Hco Hc. eapply kept_delivered, kept_refl.
      * intros k'. apply mail_insert_unique; [done|]. intros co Hco Hc. by apply (Hk s co); [left| |].
Qed.

(** ** [put] *)

Lemma queue_store i k ws k' :
  queue (store_waiters k ws i : Inner') k' = if decide (k = k') then ws else queue i k'.
Proof.
  unfold queue, store_waiters. destruct ws; simpl; (case_decide as Hk; [subst|]).
  - by rewrite lookup_delete_eq.
  - by rewrite lookup_delete_ne.
  - by rewrite lookup_insert_eq.
  - by rewrite lookup_insert_ne.
Qed.

(** Shrinking a queue while the listeners are served keeps the queues well
    formed. *)
Lemma queues_store i (cs cs' : Chans) n (cos : list Checkout) k ws :
  queues_ok i cs n cos -> (forall s, s ∈ ws -> s ∈ queue i k) ->
  (forall co c, co ∈ cos -> co_waiter co = Some c -> delivered_or_kept cs cs' (queue i k) ws c) ->
  queues_ok (store_waiters k ws i) cs' n cos.
Proof.
  intros [Hnd Hk Hp Hf1 Hf2] Hws Hd. split; try done.
  - intros k' s co Hs. apply (Hk k' s co). rewrite queue_store in Hs.
    case_decide; subst; auto.
  - intros co c Hco Hc. specialize (Hp _ _ Hco Hc). unfold placed in *.
    destruct (Hd _ _ Hco Hc) as [[-> Hw]|[u ->]]; [|done].
    destruct (cs !! c) as [[]|]; try done. rewrite queue_store.
    case_decide; subst; [auto | done].
  - intros k' s Hs. rewrite queue_store in Hs. case_decide; subst; eauto.
Qed.

(** The state of the pool apart from the queues and the idle lists. *)
Definition same_books (i i' : Inner') : Prop :=
  h1_connections i' = h1_connections i /\ connecting_set i' = connecting_set i /\
  cap_h1 i' = cap_h1 i /\ cap_idle i' = cap_idle i.

Lemma same_books_refl i : same_books i i.
Proof. done. Qed.

Lemma same_books_trans i i' i'' : same_books i i' -> same_books i' i'' -> same_books i i''.
Proof. unfold same_books. intuition congruence. Qed.

Lemma store_waiters_books k ws i :
  same_books i (store_waiters k ws i) /\ idle (store_waiters k ws i) = idle i /\
  timeout (store_waiters k ws i) = timeout i /\
  idle_interval_ref (store_waiters k ws i) = idle_interval_ref i.
Proof. by destruct ws. Qed.

Lemma idle_ok_store k ws i : idle_ok i -> idle_ok (store_waiters k ws i).
Proof. by destruct ws. Qed.

(** Appending an entry to the idle list of [k]. *)
Definition push_idle now k v (i : Inner') : Inner' :=
  spawn_idle_interval (set_idle (<[k := default [] (idle i !! k) ++ [mkIdle v now]]> (idle i)) i).

Lemma push_idle_books now k v i :
  same_books i (push_idle now k v i) /\ waiters (push_idle now k v i) = waiters i /\
  idle (push_idle now k v i) = <[k := default [] (idle i !! k) ++ [mkIdle v now]]> (idle i).
Proof. unfold push_idle, spawn_idle_interval. repeat case_match; done. Qed.

Lemma idle_ok_push now k v i :
  idle_ok i -> zlen (default [] (idle i !! k)) < cap_idle i ->
  (can_share v = true -> idle i !! k = None) -> idle_ok (push_idle now k v i).
Proof.
  intros (Hc & Ht & Hl) Hz Hs. destruct (push_idle_books now k v i) as ((_ & _ & _ & Ecap) & _ & Ei).
  split; [by rewrite Ecap|]. split.
  { unfold push_idle, spawn_idle_interval. cbn [idle_interval_ref set_idle timeout timer].
    destruct (idle_interval_ref i) eqn:Er; [by intros _; apply Ht|].
    destruct (timeout i) eqn:E; [destruct (_ && _)|]; cbn; rewrite ?Er, ?E; done. }
  intros k' l. rewrite Ecap, Ei. destruct (decide (k = k')) as [<-|Hne].
  2: { rewrite lookup_insert_ne by done. apply Hl. }
  rewrite lookup_insert_eq. intros [= <-]. split; [by destruct (default [] _)|].
  rewrite zlen_app. split; [change (zlen [_]) with 1; lia|].
  autorewrite with h12. simpl. destruct (can_share v) eqn:Ev; simpl.
  - rewrite (Hs eq_refl). simpl. rewrite countb_nil. lia.
  - destruct (idle i !! k) as [l|] eqn:E; simpl; [|rewrite countb_nil; lia].
    destruct (Hl _ _ E) as (_ & _ & ?). lia.
Qed.

Lemma resting_push now k v i (cs : Chans) cos k' :
  resting (push_idle now k v i) cs cos k'
    = resting i cs cos k' + Z.b2z (negb (can_share v) && bool_decide (k = k')).
Proof.
  unfold resting, idle_h1. destruct (push_idle_books now k v i) as (_ & _ & ->).
  destruct (decide (k = k')) as [<-|Hne].
  - rewrite lookup_insert_eq, bool_decide_eq_true_2, andb_true_r by done. simpl.
    autorewrite with h12. unfold entry_h1 at 2. simpl. lia.
  - rewrite lookup_insert_ne, bool_decide_eq_false_2, andb_false_r by done. simpl. lia.
Qed.

Lemma queues_idle i j (cs : Chans) n cos :
  waiters j = waiters i -> queues_ok i cs n cos -> queues_ok j cs n cos.
Proof.
  intros E [Hnd Hk Hp Hf1 Hf2]. unfold placed, queue in *.
  split; unfold placed, queue; rewrite ?E; done.
Qed.

(** What [put] leaves of a value no waiter took. *)
Lemma keep_effect now k v i ok i' :
  (if cap_idle i <=? zlen (default [] (idle i !! k))
   then (false, set_idle (<[k := default [] (idle i !! k)]> (idle i)) i)
   else (true, push_idle now k v i)) = (ok, i') ->
  idle_ok i -> (can_share v = true -> idle i !! k = None) ->
  idle_ok i' /\ same_books i i' /\ waiters i' = waiters i /\
  forall (cs : Chans) cos k', resting i' cs cos k'
    = resting i cs cos k' + Z.b2z (ok && negb (can_share v) && bool_decide (k = k')).
Proof.
  intros E Hi Hs. destruct (cap_idle i <=? _) eqn:Ec; bool_hyps; simplify_eq.
  - assert (<[k := default [] (idle i !! k)]> (idle i) = idle i) as Ei.
    { apply insert_id. destruct (idle i !! k); [done|]. destruct Hi as (? & _ & _).
      simpl in Ec. rewrite zlen_nil in Ec. lia. }
    rewrite Ei. split; [by destruct i|]. split; [done|]. split; [done|].
    intros. unfold resting, idle_h1. simpl. lia.
  - destruct (push_idle_books now k v i) as (? & ? & _).
    split; [by apply idle_ok_push|]. split; [done|]. split; [done|]. intros. apply resting_push.
Qed.

(** Whatever [put] does with a connection, the queues and idle lists stay well
    formed, the books do not change, and at most the one connection is added
    to those at rest. *)
Lemma put_effect now late k v i (cs : Chans) ok i' cs' n (cos : list Checkout) :
  put now late k v i cs = Some (ok, i', cs') ->
  late_ok late cos -> queues_ok i cs n cos -> idle_ok i ->
  queues_ok i' cs' n cos /\ idle_ok i' /\ same_books i i' /\
  forall k', resting i' cs' cos k' <=
    resting i cs cos k' + Z.b2z (ok && negb (can_share v) && bool_decide (k = k')).
Proof.
  intros E Hl Hq Hi. unfold put in E.
  destruct (can_share v && _) eqn:Eg.
  { simplify_eq. split_and!; try done. intros. simpl. lia. }
  assert (can_share v = true -> idle i !! k = None) as Hs.
  { intros Hv. rewrite Hv in Eg. simpl in Eg. apply bool_decide_eq_false in Eg.
    by apply eq_None_not_Some. }
  destruct (waiters i !! k) as [ws|] eqn:Ew.
  - destruct (deliver late (Some v) ws cs) as [[[r ws'] cs1]|] eqn:Ed; [|done].
    rewrite !some_bind in E.
    destruct (deliver_effect late v ws cs r ws' cs1 k cos Ed Hl (q_nodup _ _ _ _ Hq)) as (Hws & Hu & Hn & Hd & Hm).
    { intros s co Hs' Hco Hc. eapply (q_key _ _ _ _ Hq k s co); eauto. unfold queue. by rewrite Ew. }
    destruct (store_waiters_books k ws' i) as (Hb & Eidle & _).
    assert (queues_ok (store_waiters k ws' i) cs1 n cos) as Hq1.
    { eapply queues_store; [exact Hq| |]; unfold queue; rewrite Ew; done. }
    pose proof (idle_ok_store k ws' i Hi) as Hi1.
    assert (forall k', resting (store_waiters k ws' i) cs1 cos k' <= resting i cs cos k' +
              match r with Some _ => 0 | None => Z.b2z (bool_decide (k = k')) end) as Hr.
    { intros k'. unfold resting, idle_h1. rewrite Eidle. specialize (Hm k'). lia. }
    destruct r as [u|].
    + destruct (if cap_idle (store_waiters k ws' i) <=? _ then _ else _) as [[ok1 i1] cs2] eqn:Ek.
      assert (cs2 = cs1) as -> by (destruct (_ <=? _); congruence).
      injection E as <- <- <-.
      destruct (keep_effect now k u (store_waiters k ws' i) ok1 i1) as (? & Hb1 & Hw1 & Hr1).
      { unfold push_idle. destruct (_ <=? _); congruence. }
      { done. }
      { rewrite Eidle, (Hu u eq_refl). done. }
      split; [by eapply queues_idle|]. split; [done|]. split; [by eapply same_books_trans|].
      intros k'. rewrite Hr1, (Hu u eq_refl). specialize (Hr k'). lia.
    + simplify_eq. split_and!; try done. intros k'. rewrite (Hn eq_refl). simpl. apply Hr.
  - rewrite some_bind in E.
    destruct (if cap_idle i <=? _ then _ else _) as [[ok1 i1] cs2] eqn:Ek.
    assert (cs2 = cs) as -> by (destruct (_ <=? _); congruence).
    injection E as <- <- <-.
    destruct (keep_effect now k v i ok1 i1) as (? & Hb1 & Hw1 & Hr1); try done.
    { unfold push_idle. destruct (_ <=? _); congruence. }
    split; [by eapply queues_idle|]. split; [done|]. split; [done|].
    intros k'. rewrite Hr1. lia.
Qed.

(** ** Slots and queues removed *)

(** A slot that is counted can be released. *)
Lemma release_total k (i : Inner') : 0 < h1_count i k -> exists i', release_h1_slot k i = Some i'.
Proof.
  unfold h1_count, release_h1_slot. destruct (h1_connections i !! k) as [c|]; simpl; [|eauto].
  intros Hc. rewrite (proj2 (Z.ltb_lt 0 c)) by done. eauto.
Qed.

Lemma h1_count_release k (i i' : Inner') k' :
  release_h1_slot k i = Some i' -> 0 < h1_count i k ->
  h1_count i' k' = h1_count i k' - Z.b2z (bool_decide (k = k')).
Proof.
  unfold h1_count, release_h1_slot. intros E Hc. destruct (h1_connections i !! k) as [c|] eqn:Ek; simpl in Hc; [|lia].
  rewrite (proj2 (Z.ltb_lt 0 c)) in E by done. injection E as <-.
  assert (saturating_sub c 1 = c - 1) as -> by (unfold saturating_sub; lia).
  destruct (decide (k = k')) as [<-|Hne].
  - rewrite bool_decide_eq_true_2 by done. rewrite Ek. simpl.
    destruct (c - 1 =? 0) eqn:Ez; bool_hyps; cbn [h1_connections set_h1].
    + rewrite lookup_delete_eq. simpl. lia.
    + rewrite lookup_insert_eq. done.
  - rewrite bool_decide_eq_false_2 by done. simpl. rewrite Z.sub_0_r.
    destruct (c - 1 =? 0); cbn [h1_connections set_h1];
      [by rewrite lookup_delete_ne | by rewrite lookup_insert_ne].
Qed.

Lemma release_keeps k (i i' : Inner') :
  release_h1_slot k i = Some i' ->
  idle i' = idle i /\ waiters i' = waiters i /\ connecting_set i' = connecting_set i /\
  cap_h1 i' = cap_h1 i /\ cap_idle i' = cap_idle i /\ timeout i' = timeout i /\
  idle_interval_ref i' = idle_interval_ref i.
Proof. unfold release_h1_slot. intros E. repeat case_match; simplify_eq; done. Qed.

(** [idle_ok] and [resting] only look at the idle lists and their bounds. *)
Lemma idle_ok_eq (i j : Inner') :
  idle j = idle i -> cap_idle j = cap_idle i -> timeout j = timeout i ->
  idle_interval_ref j = idle_interval_ref i -> idle_ok i -> idle_ok j.
Proof. unfold idle_ok. intros -> -> -> ->. done. Qed.

Lemma idle_ok_release k (i i' : Inner') : release_h1_slot k i = Some i' -> idle_ok i -> idle_ok i'.
Proof. intros (? & ? & ? & ? & ? & ? & ?)%release_keeps. by apply idle_ok_eq. Qed.

Lemma drop_sender_lookup s (cs : Chans) c :
  drop_sender s cs !! c =
    if decide (s = c) then (match cs !! c with Some Waiting => Some SenderDropped | o => o end)
    else cs !! c.
Proof.
  unfold drop_sender. case_decide as Hs.
  - subst. destruct (cs !! c) as [[]|] eqn:E; rewrite ?lookup_insert_eq; done.
  - destruct (cs !! s) as [[]|]; rewrite ?lookup_insert_ne by done; done.
Qed.

Lemma drop_senders_lookup l (cs : Chans) c :
  drop_senders l cs !! c =
    if decide (c ∈ l) then (match cs !! c with Some Waiting => Some SenderDropped | o => o end)
    else cs !! c.
Proof.
  induction l as [|s l IH]; simpl.
  - destruct (decide (c ∈ [])) as [Hn|]; [by apply not_elem_of_nil in Hn | done].
  - rewrite drop_sender_lookup, IH. destruct (decide (s = c)) as [->|Hne].
    + destruct (decide (c ∈ c :: l)) as [_|Hn]; [|exfalso; apply Hn; left].
      case_decide; [|done]. by destruct (cs !! c) as [[]|].
    + destruct (decide (c ∈ l)) as [Hl|Hl], (decide (c ∈ s :: l)) as [Hc|Hc]; try done.
      * exfalso. apply Hc. by right.
      * by apply elem_of_cons in Hc as [?|?].
Qed.

Lemma mail_drop_senders l (cs : Chans) k cos :
  countb (mail_h1 (drop_senders l cs) k) cos <= countb (mail_h1 cs k) cos.
Proof.
  apply countb_le. intros co _. unfold mail_h1. destruct (co_waiter co) as [c|]; [|done].
  rewrite drop_senders_lookup. case_decide; [|done].
  destruct (cs !! c) as [[]|]; try done; by rewrite andb_false_r.
Qed.

(** Removing the waiters of a key answers every one of them. *)
Lemma remove_waiters_effect k i (cs : Chans) i' cs' n (cos : list Checkout) :
  remove_waiters k i cs = (i', cs') -> queues_ok i cs n cos ->
  queues_ok i' cs' n cos /\ idle i' = idle i /\ same_books i i' /\
  timeout i' = timeout i /\ idle_interval_ref i' = idle_interval_ref i /\
  forall k', countb (mail_h1 cs' k') cos <= countb (mail_h1 cs k') cos.
Proof.
  unfold remove_waiters. intros [= <- <-] [Hnd Hk Hp Hf1 Hf2].
  assert (Hq : forall k', queue (set_waiters (delete k (waiters i)) i) k'
                 = if decide (k = k') then [] else queue i k').
  { intros k'. unfold queue. cbn [waiters set_waiters]. case_decide as Hk'.
    - subst. by rewrite lookup_delete_eq.
    - by rewrite lookup_delete_ne. }
  split_and!; try done; [|intros; apply mail_drop_senders].
  split; try done.
  - intros k' s co. rewrite Hq. case_decide; [by intros ?%not_elem_of_nil | apply Hk].
  - intros co c Hco Hc. specialize (Hp _ _ Hco Hc). unfold placed in *.
    rewrite drop_senders_lookup. rewrite Hq. fold (queue i k).
    destruct (decide (c ∈ queue i k)) as [Hin|Hin].
    + destruct (cs !! c) as [[]|]; done.
    + destruct (cs !! c) as [[]|]; try done. case_decide; [by subst | done].
  - intros k' s. rewrite Hq. case_decide; [by intros ?%not_elem_of_nil | apply Hf2].
Qed.

(** ** The invariant of the system *)
Record inv (s : System) (i : Inner') : Prop := {
  v_queues : queues_ok i (channels (world s)) (next_channel (world s)) (checkouts s);
  v_ids : NoDup (omap co_waiter (checkouts s ++ dropping s));
  v_fresh co c : co ∈ dropping s -> co_waiter co = Some c -> (c < next_channel (world s))%nat;
  v_idle : idle_ok i;
  v_open k : open_h1 s i k <= h1_count i k;
  v_cap k : h1_count i k <= cap_h1 i;
  v_h2 k : countb (guard_h2 k) (guards s) = Z.b2z (bool_decide (k ∈ connecting_set i));
  v_guards g : g ∈ guards s -> cn_pool g = true;
  v_handles p : p ∈ handles s -> pl_pool p = pl_h1_slot p /\
    (pl_pool p = true -> can_share (pl_value p) = false)
}.

(** Slots that are counted but held by nobody. *)
Definition slack (s : System) (i : Inner') k : Z := h1_count i k - open_h1 s i k.

(** A step that keeps the invariant, the capacity, and every unheld slot. *)
Definition good (s s' : System) : Prop :=
  forall i, inner (world s) = Some i -> inv s i ->
  exists i', inner (world s') = Some i' /\ inv s' i' /\ cap_h1 i' = cap_h1 i /\
    cap_idle i' = cap_idle i /\ forall k, slack s i k <= slack s' i' k.

Lemma b2z_nonneg b : 0 <= Z.b2z b.
Proof. by destruct b. Qed.

Lemma same_books_count i i' k : same_books i i' -> h1_count i' k = h1_count i k.
Proof. intros (E & _). unfold h1_count. by rewrite E. Qed.

Lemma inner_log e (w : World') : inner (log e w) = inner w.
Proof. done. Qed.

Lemma log_n_fields n e (w : World') :
  inner (log_n n e w) = inner w /\ channels (log_n n e w) = channels w /\
  next_channel (log_n n e w) = next_channel w.
Proof. revert w. induction n as [|n IH]; intros w; simpl; [done|]. by destruct (IH (log e w)) as (-> & -> & ->). Qed.

Lemma queues_sub i (cs : Chans) n (cos cos' : list Checkout) :
  queues_ok i cs n cos -> NoDup (omap co_waiter cos') ->
  (forall co c, co ∈ cos' -> co_waiter co = Some c -> co ∈ cos) -> queues_ok i cs n cos'.
Proof. intros [Hnd Hk Hp Hf1 Hf2] Hnd' Hsub. split; eauto. Qed.

Lemma good_checkout k w gs hs cos dr co w' :
  checkout k w = (co, w') -> good (mkSystem w gs hs cos dr) (mkSystem w' gs hs (cos ++ [co]) dr).
Proof.
  intros [= <- <-] i Hi Hv. exists i. split; [done|].
  assert (E : forall l, omap co_waiter ((cos ++ [mkCheckout k None]) ++ l) = omap co_waiter (cos ++ l))
    by (intros; rewrite !omap_app; simpl; by rewrite app_nil_r).
  assert (Ho : forall k', open_h1 (mkSystem (log (PoolCheckout (origin k)) w) gs hs
                 (cos ++ [mkCheckout k None]) dr) i k' = open_h1 (mkSystem w gs hs cos dr) i k').
  { intros k'. unfold open_h1, resting. simpl. autorewrite with h12. unfold mail_h1 at 2. simpl.
    rewrite andb_false_r. simpl. lia. }
  destruct Hv as [Hq Hid Hfr Hidle Hopen Hcap Hh2 Hg Hh]. split_and!; try done.
  - split; try done; simpl in *.
    + eapply queues_sub; [exact Hq| |].
      * specialize (E []). rewrite !app_nil_r in E. rewrite E. apply (q_nodup _ _ _ _ Hq).
      * intros co c [?|Hc]%elem_of_app; [done|]. apply list_elem_of_singleton in Hc. by subst.
    + by rewrite E.
    + intros k'. rewrite Ho. apply Hopen.
  - intros k'. unfold slack. rewrite Ho. done.
Qed.

Lemma good_checkout_drop w gs hs c1 co c2 dr :
  good (mkSystem w gs hs (c1 ++ co :: c2) dr) (mkSystem w gs hs (c1 ++ c2) (co :: dr)).
Proof.
  intros i Hi [Hq Hid Hfr Hidle Hopen Hcap Hh2 Hg Hh]. exists i. split; [done|].
  assert (Hle : forall k, open_h1 (mkSystem w gs hs (c1 ++ c2) (co :: dr)) i k
                  <= open_h1 (mkSystem w gs hs (c1 ++ co :: c2) dr) i k).
  { intros k. unfold open_h1, resting. simpl. autorewrite with h12.
    pose proof (b2z_nonneg (mail_h1 (channels w) k co)). lia. }
  split_and!; try done.
  - split; try done; simpl in *.
    + eapply queues_sub; [exact Hq| |].
      * pose proof (q_nodup _ _ _ _ Hq) as Hnd. rewrite omap_app in Hnd |- *. simpl in Hnd.
        destruct (co_waiter co); [|done]. apply NoDup_app in Hnd as (? & Hd & [_ ?]%NoDup_cons).
        apply NoDup_app. split_and!; try done. intros x Hx Hx2. apply (Hd x Hx). by right.
      * intros co' c [?|?]%elem_of_app _; apply elem_of_app; [by left | by right; right].
    + assert ((c1 ++ c2) ++ co :: dr ≡ₚ (c1 ++ co :: c2) ++ dr) as -> by solve_Permutation. done.
    + intros co' c [->|?]%elem_of_cons; [|by apply Hfr].
      apply (q_fresh_co _ _ _ _ Hq). apply elem_of_app. right. left.
    + intros k. specialize (Hle k). specialize (Hopen k). simpl in *. lia.
  - intros k. unfold slack. specialize (Hle k). lia.
Qed.

(** A step of the pool that leaves the checkouts where they are. *)
Lemma good_books w gs hs (cos dr : list Checkout) w' gs' hs' :
  (forall i, inner w = Some i -> inv (mkSystem w gs hs cos dr) i ->
   exists i', inner w' = Some i' /\
     queues_ok i' (channels w') (next_channel w') cos /\ next_channel w' = next_channel w /\
     idle_ok i' /\ cap_h1 i' = cap_h1 i /\ cap_idle i' = cap_idle i /\
     (forall k, h1_count i' k <= cap_h1 i) /\
     (forall k, countb (guard_h2 k) gs' = Z.b2z (bool_decide (k ∈ connecting_set i'))) /\
     (forall g, g ∈ gs' -> cn_pool g = true) /\
     (forall p, p ∈ hs' -> pl_pool p = pl_h1_slot p /\
        (pl_pool p = true -> can_share (pl_value p) = false)) /\
     (forall k, countb (guard_h1 k) gs' + countb (handle_h1 k) hs'
        + resting i' (channels w') cos k - h1_count i' k
        <= countb (guard_h1 k) gs + countb (handle_h1 k) hs
        + resting i (channels w) cos k - h1_count i k)) ->
  good (mkSystem w gs hs cos dr) (mkSystem w' gs' hs' cos dr).
Proof.
  intros Hstep i Hi Hv.
  destruct (Hstep i Hi Hv) as (i' & Ei & Hq & Hn & Hidle & Hc1 & Hc2 & Hcap & Hh2 & Hg & Hh & Hs).
  destruct Hv as [_ Hid Hfr _ Hopen _ _ _ _]. unfold open_h1 in Hopen. simpl in *.
  exists i'. split; [done|]. split; [|split; [done|split; [done|]]].
  - split; try done; simpl in *.
    + intros co c. rewrite Hn. apply Hfr.
    + intros k. unfold open_h1. simpl. specialize (Hopen k). specialize (Hs k). lia.
    + intros k. rewrite Hc1. apply Hcap.
  - intros k. unfold slack, open_h1. simpl. specialize (Hs k). lia.
Qed.

Lemma countb_split {A} (f : A -> bool) l1 x l2 :
  countb f (l1 ++ x :: l2) = countb f (l1 ++ l2) + Z.b2z (f x).
Proof. autorewrite with h12. lia. Qed.

Lemma elem_split {A} (x y : A) l1 l2 : y ∈ l1 ++ l2 -> y ∈ l1 ++ x :: l2.
Proof. rewrite !elem_of_app, elem_of_cons. intuition. Qed.

Lemma elem_mid {A} (x : A) l1 l2 : x ∈ l1 ++ x :: l2.
Proof. rewrite elem_of_app, elem_of_cons. auto. Qed.

(** A held slot is counted. *)
Lemma held_counted w gs hs cos dr (i : Inner') k :
  inv (mkSystem w gs hs cos dr) i ->
  0 < countb (guard_h1 k) gs + countb (handle_h1 k) hs -> 0 < h1_count i k.
Proof.
  intros [_ _ _ _ Hopen _ _ _ _] Hp. specialize (Hopen k). unfold open_h1, resting, idle_h1 in Hopen.
  simpl in Hopen. pose proof (countb_nonneg (mail_h1 (channels w) k) cos).
  pose proof (countb_nonneg entry_h1 (default [] (idle i !! k))). lia.
Qed.

Lemma h1_count_insert (i : Inner') k c k' :
  h1_count (set_h1 (<[k := c]> (h1_connections i)) i) k' = if decide (k = k') then c else h1_count i k'.
Proof.
  unfold h1_count. simpl. case_decide as Hk; [subst; by rewrite lookup_insert_eq|].
  by rewrite lookup_insert_ne.
Qed.

Lemma good_connecting k p w gs hs cos dr g w' :
  connecting k p w = (g, w') ->
  good (mkSystem w gs hs cos dr) (mkSystem w' (option_list g ++ gs) hs cos dr).
Proof.
  intros E. apply good_books. intros i Hi [Hq Hid Hfr Hidle Hopen Hcap Hh2 Hg Hh]. simpl in *.
  unfold connecting in E. rewrite Hi in E. destruct (bool_decide (p = Http2)).
  - destruct (bool_decide (k ∈ connecting_set i)) eqn:Ek; simplify_eq; [by exists i|].
    apply bool_decide_eq_false in Ek.
    eexists. split; [done|]. split_and!; try done; simpl.
    + by apply (queues_idle i).
    + intros k'. rewrite countb_cons, Hh2. unfold guard_h2. simpl. rewrite andb_true_r.
      destruct (decide (k = k')) as [<-|Hne].
      * rewrite (bool_decide_eq_true_2 (k = k)), (bool_decide_eq_false_2 _ Ek) by done.
        by rewrite bool_decide_eq_true_2 by set_solver.
      * rewrite (bool_decide_eq_false_2 (k = k')) by done. simpl.
        by rewrite (bool_decide_ext (k' ∈ {[k]} ∪ connecting_set i) (k' ∈ connecting_set i)) by set_solver.
    + intros g [->|?]%elem_of_cons; [done | auto].
    + intros k'. rewrite countb_cons. unfold guard_h1 at 1. simpl. rewrite andb_false_r.
      simpl. unfold resting, idle_h1, h1_count. simpl. lia.
  - unfold reserve_h1_slot in E. destruct (cap_h1 i <=? h1_count i k) eqn:Ec; bool_hyps; simplify_eq;
      (eexists; split; [done|]); simpl;
      (split; [by apply (queues_idle i)|]); split_and!; try done.
    + intros k'. rewrite h1_count_insert. case_decide; subst; auto.
    + intros k'. rewrite h1_count_insert. unfold resting, idle_h1. simpl. case_decide; subst; lia.
    + intros k'. rewrite h1_count_insert. case_decide; [lia | auto].
    + intros k'. rewrite countb_cons, Hh2. unfold guard_h2. simpl. by rewrite andb_false_r.
    + intros g [->|?]%elem_of_cons; [done | auto].
    + intros k'. rewrite countb_cons, h1_count_insert. unfold guard_h1 at 1. simpl.
      rewrite andb_true_r. unfold resting, idle_h1. simpl.
      case_decide; subst; [rewrite bool_decide_eq_true_2 by done | rewrite bool_decide_eq_false_2 by done];
        simpl; lia.
Qed.

Lemma guard_kinds k g : cn_pool g = true ->
  Z.b2z (guard_h1 k g) = Z.b2z (bool_decide (cn_key g = k) && cn_h1_slot g) /\
  Z.b2z (guard_h2 k g) = Z.b2z (bool_decide (cn_key g = k) && negb (cn_h1_slot g)).
Proof. intros E. unfold guard_h1, guard_h2. by rewrite E, andb_true_r. Qed.

Lemma guard_h1_self g : cn_pool g = true -> cn_h1_slot g = true -> guard_h1 (cn_key g) g = true.
Proof. intros E E'. unfold guard_h1. rewrite E, E'. by rewrite bool_decide_eq_true_2. Qed.

(** The guard of an HTTP/2 establishment is the only one of its key, so
    removing its marker agrees with removing the guard. *)
Lemma unmark g gs1 gs2 (s : gset K) :
  (forall k, countb (guard_h2 k) (gs1 ++ g :: gs2) = Z.b2z (bool_decide (k ∈ s))) ->
  cn_pool g = true -> cn_h1_slot g = false ->
  forall k, countb (guard_h2 k) (gs1 ++ gs2) = Z.b2z (bool_decide (k ∈ s ∖ {[cn_key g]})).
Proof.
  intros Hh2 Hp Hs k. specialize (Hh2 k). rewrite countb_split in Hh2.
  destruct (guard_kinds k g Hp) as [_ E]. rewrite E, Hs in Hh2. simpl in Hh2. rewrite andb_true_r in Hh2.
  pose proof (countb_nonneg (guard_h2 k) (gs1 ++ gs2)).
  destruct (decide (cn_key g = k)) as [<-|Hne].
  - rewrite (bool_decide_eq_true_2 (cn_key g = cn_key g)) in Hh2 by done.
    rewrite (bool_decide_eq_false_2 (cn_key g ∈ s ∖ _)) by set_solver.
    destruct (bool_decide (cn_key g ∈ s)); simpl in *; lia.
  - rewrite (bool_decide_eq_false_2 (cn_key g = k)) in Hh2 by done. simpl in Hh2.
    rewrite (bool_decide_ext (k ∈ s ∖ {[cn_key g]}) (k ∈ s)) by set_solver. lia.
Qed.

(** The slot of a guard is counted. *)
Lemma guard_counted w g1 g g2 hs cos dr (i : Inner') :
  inv (mkSystem w (g1 ++ g :: g2) hs cos dr) i -> cn_h1_slot g = true -> 0 < h1_count i (cn_key g).
Proof.
  intros Hv Hs. assert (cn_pool g = true) as Hp by (apply (v_guards _ _ Hv), elem_mid).
  eapply held_counted; [exact Hv|]. rewrite countb_split, guard_h1_self by done.
  pose proof (countb_nonneg (guard_h1 (cn_key g)) (g1 ++ g2)).
  pose proof (countb_nonneg (handle_h1 (cn_key g)) hs). simpl. lia.
Qed.

Lemma good_connecting_drop w g1 g g2 hs cos dr w' :
  connecting_drop g w = Some w' ->
  good (mkSystem w (g1 ++ g :: g2) hs cos dr) (mkSystem w' (g1 ++ g2) hs cos dr).
Proof.
  intros E. apply good_books. intros i Hi Hv. pose proof Hv as [Hq Hid Hfr Hidle Hopen Hcap Hh2 Hg Hh].
  simpl in *. assert (cn_pool g = true) as Hp by (apply Hg, elem_mid).
  unfold connecting_drop, connecting_cancelled in E. rewrite Hp, Hi in E.
  destruct (if cn_h1_slot g then _ else _) as [i1|] eqn:E1; [|done]. rewrite !some_bind in E.
  destruct (remove_waiters (cn_key g) i1 (channels w)) as [i' cs'] eqn:Er. injection E as <-.
  assert (queues_ok i1 (channels w) (next_channel w) cos) as Hq1.
  { apply (queues_idle i); [|done]. destruct (cn_h1_slot g); [by apply release_keeps in E1 as (_ & ? & _)|].
    by injection E1 as <-. }
  destruct (remove_waiters_effect _ _ _ _ _ _ _ Er Hq1) as (Hq' & Eidle & (B1 & B2 & B3 & B4) & Et & Ei & Hm).
  assert (Hgs : forall g', g' ∈ g1 ++ g2 -> cn_pool g' = true) by (intros; by apply Hg, elem_split).
  exists i'. split; [done|]. split; [done|]. split; [done|].
  assert (Hc' : forall k, h1_count i' k = h1_count i1 k) by (intros; unfold h1_count; by rewrite B1).
  destruct (cn_h1_slot g) eqn:Es.
  - pose proof (guard_counted _ _ _ _ _ _ _ _ Hv Es) as Hpos.
    destruct (release_keeps _ _ _ E1) as (R1 & R2 & R3 & R4 & R5 & R6 & R7).
    assert (Hcnt : forall k, h1_count i1 k = h1_count i k - Z.b2z (bool_decide (cn_key g = k)))
      by (intros; by apply h1_count_release).
    split_and!; try done.
    + apply (idle_ok_eq i); try done; congruence.
    + congruence.
    + congruence.
    + intros k. rewrite Hc', Hcnt. specialize (Hcap k). pose proof (b2z_nonneg (bool_decide (cn_key g = k))). lia.
    + intros k. specialize (Hh2 k). rewrite countb_split in Hh2.
      destruct (guard_kinds k g Hp) as [_ E]. rewrite E, Es, andb_false_r in Hh2. simpl in Hh2.
      rewrite B2, R3. lia.
    + intros k. rewrite countb_split, Hc', Hcnt. destruct (guard_kinds k g Hp) as [-> _].
      rewrite Es, andb_true_r. unfold resting, idle_h1. rewrite Eidle, R1.
      specialize (Hm k). simpl. lia.
  - injection E1 as <-. split_and!; try done.
    + apply (idle_ok_eq i); done.
    + intros k. rewrite Hc'. apply Hcap.
    + intros k. rewrite B2. by apply unmark.
    + intros k. rewrite countb_split, Hc'. destruct (guard_kinds k g Hp) as [-> _].
      rewrite Es, andb_false_r. unfold resting, idle_h1. rewrite Eidle. specialize (Hm k). simpl.
      unfold h1_count. simpl. lia.
Qed.

Lemma good_trans s1 s2 s3 : good s1 s2 -> good s2 s3 -> good s1 s3.
Proof.
  intros H12 H23 i Hi Hv. destruct (H12 i Hi Hv) as (i2 & Hi2 & Hv2 & C2 & D2 & S2).
  destruct (H23 i2 Hi2 Hv2) as (i3 & Hi3 & Hv3 & C3 & D3 & S3). exists i3.
  split_and!; try done; [congruence | congruence|]. intros k. specialize (S2 k). specialize (S3 k). lia.
Qed.

(** Giving the slot of a guard back. *)
Lemma good_release_guard w i i1 g1 g g2 hs cos dr :
  inner w = Some i -> cn_h1_slot g = true -> release_h1_slot (cn_key g) i = Some i1 ->
  good (mkSystem w (g1 ++ g :: g2) hs cos dr) (mkSystem (with_inner i1 w) (g1 ++ g2) hs cos dr).
Proof.
  intros Hi Es E1. apply good_books. intros i0 Hi0 Hv. rewrite Hi in Hi0. injection Hi0 as <-.
  pose proof (guard_counted _ _ _ _ _ _ _ _ Hv Es) as Hpos.
  pose proof Hv as [Hq Hid Hfr Hidle Hopen Hcap Hh2 Hg Hh]. simpl in *.
  assert (cn_pool g = true) as Hp by (apply Hg, elem_mid).
  destruct (release_keeps _ _ _ E1) as (R1 & R2 & R3 & R4 & R5 & R6 & R7).
  assert (Hcnt : forall k, h1_count i1 k = h1_count i k - Z.b2z (bool_decide (cn_key g = k)))
    by (intros; by apply h1_count_release).
  eexists. split; [done|]. split_and!; try done.
  - by apply (queues_idle i).
  - by eapply idle_ok_release.
  - intros k. rewrite Hcnt. specialize (Hcap k).
    pose proof (b2z_nonneg (bool_decide (cn_key g = k))). lia.
  - intros k. specialize (Hh2 k). rewrite countb_split in Hh2.
    destruct (guard_kinds k g Hp) as [_ E]. rewrite E, Es, andb_false_r in Hh2. simpl in Hh2.
    rewrite R3. lia.
  - intros g' Hg'. by apply Hg, elem_split.
  - intros k. rewrite countb_split, Hcnt.
    destruct (guard_kinds k g Hp) as [-> _]. rewrite Es, andb_true_r. unfold resting, idle_h1.
    rewrite R1. simpl. lia.
Qed.

Lemma good_alpn_release w g1 g g2 hs cos dr w' :
  cn_h1_slot g = true -> alpn_release g w = Some w' ->
  good (mkSystem w (g1 ++ g :: g2) hs cos dr) (mkSystem w' (g1 ++ g2) hs cos dr).
Proof.
  intros Hs E i Hi Hv. assert (cn_pool g = true) as Hp by (apply (v_guards _ _ Hv), elem_mid).
  unfold alpn_release in E. simpl in Hi. rewrite Hs, Hp, Hi in E. simpl in E.
  destruct (release_h1_slot (cn_key g) i) as [i1|] eqn:E1; [|done]. injection E as <-.
  by apply (good_release_guard w i i1 g1 g g2 hs cos dr Hi Hs E1).
Qed.

Lemma handle_h1_self p : pl_pool p = true -> pl_h1_slot p = true -> handle_h1 (pl_key p) p = true.
Proof. intros E E'. unfold handle_h1. rewrite E, E'. by rewrite bool_decide_eq_true_2. Qed.

Lemma good_pooled now late w g1 g g2 v hs cos dr p w' :
  can_share v = negb (cn_h1_slot g) -> late_ok late cos ->
  pooled now late g v w = Some (p, w') ->
  good (mkSystem w (g1 ++ g :: g2) hs cos dr) (mkSystem w' (g1 ++ g2) (p :: hs) cos dr).
Proof.
  intros Hsh Hl E. apply good_books. intros i Hi Hv.
  pose proof Hv as [Hq Hid Hfr Hidle Hopen Hcap Hh2 Hg Hh]. simpl in *.
  assert (cn_pool g = true) as Hp by (apply Hg, elem_mid).
  assert (Hgs : forall g', g' ∈ g1 ++ g2 -> cn_pool g' = true) by (intros; by apply Hg, elem_split).
  unfold pooled in E. rewrite Hi in E. destruct (cn_h1_slot g) eqn:Es; simpl in Hsh.
  - rewrite (reserve_unique v Hsh) in E. simplify_eq. exists i. split_and!; try done.
    + intros k. specialize (Hh2 k). rewrite countb_split in Hh2.
      destruct (guard_kinds k g Hp) as [_ E]. rewrite E, Es, andb_false_r in Hh2. simpl in Hh2. lia.
    + intros p [->|?]%elem_of_cons; [|auto]. done.
    + intros k. rewrite countb_split, countb_cons. unfold handle_h1 at 1. simpl.
      destruct (guard_kinds k g Hp) as [-> _]. rewrite Es, !andb_true_r. lia.
  - destruct (reserve_shared v Hsh) as (a & b & Er & Ha & Hb). rewrite Er in E.
    destruct (put now late (cn_key g) a i (channels w)) as [[[ok i1] cs1]|] eqn:Ep; [|done].
    rewrite some_bind in E.
    destruct (put_effect _ _ _ _ _ _ _ _ _ _ _ Ep Hl Hq Hidle) as (Hq1 & Hi1 & (B1 & B2 & B3 & B4) & Hr1).
    unfold connected in E. set (i2 := set_connecting _ i1) in E.
    destruct (remove_waiters (cn_key g) i2 cs1) as [i3 cs3] eqn:Erm.
    destruct (remove_waiters_effect _ _ _ _ _ (next_channel w) cos Erm) as (Hq3 & Ei3 & (D1 & D2 & D3 & D4) & Dt & Dr & Hm).
    { apply (queues_idle i1); done. }
    injection E as <- <-. exists i3.
    split; [by destruct ok|]. split; [by destruct ok|]. split; [by destruct ok|].
    assert (Hcnt : forall k, h1_count i3 k = h1_count i k).
    { intros k. unfold h1_count. rewrite D1. unfold i2. simpl. by rewrite B1. }
    assert (channels (if ok then log (ConnectionPooled (origin (cn_key g)))
              (with_channels cs3 (with_inner i3 w)) else with_channels cs3 (with_inner i3 w)) = cs3)
      as -> by (by destruct ok).
    split_and!; try done.
    + apply (idle_ok_eq i1); try done.
    + unfold i2 in *. simpl in *. congruence.
    + unfold i2 in *. simpl in *. congruence.
    + intros k. rewrite Hcnt. apply Hcap.
    + intros k. rewrite D2. unfold i2. simpl. rewrite B2. by apply unmark.
    + intros p [->|?]%elem_of_cons; [done|auto].
    + intros k. rewrite countb_split, countb_cons, Hcnt. unfold handle_h1 at 1. simpl.
      rewrite andb_false_r. destruct (guard_kinds k g Hp) as [-> _]. rewrite Es, andb_false_r.
      specialize (Hr1 k). rewrite Ha, andb_false_r in Hr1. unfold resting, idle_h1 in *. rewrite Ei3.
      specialize (Hm k). unfold i2. simpl in *. lia.
Qed.

(** The slot of a handle is counted. *)
Lemma handle_counted w gs h1 p h2 cos dr (i : Inner') :
  inv (mkSystem w gs (h1 ++ p :: h2) cos dr) i -> pl_h1_slot p = true -> 0 < h1_count i (pl_key p).
Proof.
  intros Hv Hs. assert (pl_pool p = true) as Hp by (destruct (v_handles _ _ Hv p) as [-> _]; [apply elem_mid | done]).
  eapply held_counted; [exact Hv|]. rewrite countb_split, handle_h1_self by done.
  pose proof (countb_nonneg (guard_h1 (pl_key p)) gs).
  pose proof (countb_nonneg (handle_h1 (pl_key p)) (h1 ++ h2)). simpl. lia.
Qed.

(** Giving the slot of a handle back, without returning the connection. *)
Lemma good_release_handle w i i1 gs h1 p h2 cos dr :
  inner w = Some i -> pl_h1_slot p = true -> release_h1_slot (pl_key p) i = Some i1 ->
  good (mkSystem w gs (h1 ++ p :: h2) cos dr) (mkSystem (with_inner i1 w) gs (h1 ++ h2) cos dr).
Proof.
  intros Hi Es E1. apply good_books. intros i0 Hi0 Hv. rewrite Hi in Hi0. injection Hi0 as <-.
  pose proof (handle_counted _ _ _ _ _ _ _ _ Hv Es) as Hpos.
  pose proof Hv as [Hq Hid Hfr Hidle Hopen Hcap Hh2 Hg Hh]. simpl in *.
  assert (pl_pool p = true) as Hp by (destruct (Hh p) as [-> _]; [apply elem_mid | done]).
  destruct (release_keeps _ _ _ E1) as (R1 & R2 & R3 & R4 & R5 & R6 & R7).
  assert (Hcnt : forall k, h1_count i1 k = h1_count i k - Z.b2z (bool_decide (pl_key p = k)))
    by (intros; by apply h1_count_release).
  eexists. split; [done|]. split_and!; try done.
  - by apply (queues_idle i).
  - by eapply idle_ok_release.
  - intros k. rewrite Hcnt. specialize (Hcap k).
    pose proof (b2z_nonneg (bool_decide (pl_key p = k))). lia.
  - intros k. rewrite R3. apply Hh2.
  - intros p' Hp'. by apply Hh, elem_split.
  - intros k. rewrite countb_split, Hcnt. unfold handle_h1 at 3.
    rewrite Hp, Es, !andb_true_r. unfold resting, idle_h1. rewrite R1. simpl. lia.
Qed.

(** A handle without a pool reference counts nowhere. *)
Lemma good_forget_handle w w' gs h1 p h2 cos dr :
  inner w' = inner w -> channels w' = channels w -> next_channel w' = next_channel w ->
  good (mkSystem w gs (h1 ++ p :: h2) cos dr) (mkSystem w' gs (h1 ++ h2) cos dr).
Proof.
  intros E1 E2 E3. apply good_books. intros i Hi Hv.
  pose proof Hv as [Hq Hid Hfr Hidle Hopen Hcap Hh2 Hg Hh]. simpl in *. rewrite E1, E2, E3.
  exists i. split_and!; try done.
  - intros p' Hp'. by apply Hh, elem_split.
  - intros k. rewrite countb_split. pose proof (b2z_nonneg (handle_h1 k p)). lia.
Qed.

Lemma good_relabel w w' gs hs cos dr :
  inner w' = inner w -> channels w' = channels w -> next_channel w' = next_channel w ->
  good (mkSystem w gs hs cos dr) (mkSystem w' gs hs cos dr).
Proof.
  intros E1 E2 E3. apply good_books. intros i Hi [Hq Hid Hfr Hidle Hopen Hcap Hh2 Hg Hh].
  simpl in *. rewrite E1, E2, E3. exists i. by split_and!.
Qed.

(** Putting the connection of a handle back. *)
Lemma good_return now late w i gs h1 p h2 (cos dr : list Checkout) i1 cs1 :
  inner w = Some i -> pl_pool p = true -> late_ok late cos ->
  put now late (pl_key p) (pl_value p) i (channels w) = Some (true, i1, cs1) ->
  good (mkSystem w gs (h1 ++ p :: h2) cos dr)
    (mkSystem (with_channels cs1 (with_inner i1 w)) gs (h1 ++ h2) cos dr).
Proof.
  intros Hi Hp Hl Ep. apply good_books. intros i0 Hi0 Hv. rewrite Hi in Hi0. injection Hi0 as <-.
  pose proof Hv as [Hq Hid Hfr Hidle Hopen Hcap Hh2 Hg Hh]. simpl in *.
  destruct (Hh p (elem_mid _ _ _)) as [Hslot Hun]. specialize (Hun Hp).
  destruct (put_effect _ _ _ _ _ _ _ _ _ _ _ Ep Hl Hq Hidle) as (Hq1 & Hi1 & Hb & Hr1).
  pose proof Hb as (B1 & B2 & B3 & B4). exists i1. split_and!; try done.
  - intros k. rewrite (same_books_count _ _ _ Hb). apply Hcap.
  - intros k. rewrite B2. apply Hh2.
  - intros p' Hp'. by apply Hh, elem_split.
  - intros k. rewrite countb_split, (same_books_count _ _ _ Hb). specialize (Hr1 k).
    rewrite Hun in Hr1. unfold handle_h1 at 3. rewrite Hp, <- Hslot, Hp, !andb_true_r.
    simpl in *. lia.
Qed.

(** Offering the connection of a handle to a pool that refuses it. *)
Lemma good_refused now late w i gs hs (cos dr : list Checkout) k v i1 cs1 :
  inner w = Some i -> late_ok late cos ->
  put now late k v i (channels w) = Some (false, i1, cs1) ->
  good (mkSystem w gs hs cos dr) (mkSystem (with_channels cs1 (with_inner i1 w)) gs hs cos dr).
Proof.
  intros Hi Hl Ep. apply good_books. intros i0 Hi0 Hv. rewrite Hi in Hi0. injection Hi0 as <-.
  pose proof Hv as [Hq Hid Hfr Hidle Hopen Hcap Hh2 Hg Hh]. simpl in *.
  destruct (put_effect _ _ _ _ _ _ _ _ _ _ _ Ep Hl Hq Hidle) as (Hq1 & Hi1 & Hb & Hr1).
  pose proof Hb as (B1 & B2 & B3 & B4). exists i1. split_and!; try done.
  - intros k'. rewrite (same_books_count _ _ _ Hb). apply Hcap.
  - intros k'. rewrite B2. apply Hh2.
  - intros k'. rewrite (same_books_count _ _ _ Hb). specialize (Hr1 k'). simpl in *. lia.
Qed.

Lemma good_pooled_drop op now late w gs h1 p h2 cos dr w' :
  late_ok late cos -> pooled_drop op now late p w = Some w' ->
  good (mkSystem w gs (h1 ++ p :: h2) cos dr) (mkSystem w' gs (h1 ++ h2) cos dr).
Proof.
  intros Hl E i Hi Hv. destruct (v_handles _ _ Hv p (elem_mid _ _ _)) as [Hslot _]. simpl in Hi.
  cut (good (mkSystem w gs (h1 ++ p :: h2) cos dr) (mkSystem w' gs (h1 ++ h2) cos dr));
    [intros Hgood; by apply Hgood|]. clear Hv.
  unfold pooled_drop, pooled_release in E. rewrite <- Hslot, Hi in E.
  destruct (negb (op (pl_value p))).
  - destruct (pl_pool p) eqn:Hp; simpl in E.
    + destruct (release_h1_slot (pl_key p) i) as [i1|] eqn:E1; [|done]. rewrite !some_bind in E. injection E as <-.
      eapply good_trans; [by eapply (good_release_handle w i); [|rewrite <- Hslot|]|].
      by apply good_relabel.
    + injection E as <-. by apply good_forget_handle.
  - destruct (pl_pool p) eqn:Hp; simpl in E.
    + destruct (put now late (pl_key p) (pl_value p) i (channels w)) as [[[ok i1] cs1]|] eqn:Ep; [|done].
      rewrite some_bind in E. destruct ok.
      * injection E as <-. eapply good_trans; [by eapply (good_return now late w i)|]. by apply good_relabel.
      * destruct (release_h1_slot (pl_key p) i1) as [i2|] eqn:E2; [|done]. rewrite some_bind in E. injection E as <-.
        eapply good_trans; [by eapply good_refused|].
        by eapply (good_release_handle (with_channels cs1 (with_inner i1 w)) i1); [|rewrite <- Hslot|].
    + injection E as <-. by apply good_forget_handle.
Qed.

Lemma countb_filter {A} (f g : A -> bool) l : countb f (List.filter g l) <= countb f l.
Proof.
  induction l as [|x l IH]; simpl; [done|]. rewrite countb_cons. pose proof (b2z_nonneg (f x)).
  destruct (g x); rewrite ?countb_cons; lia.
Qed.

Lemma fold_log_fields (es : list DebugEvent) (w : World') :
  let w' := fold_left (fun w e => log e w) es w in
  inner w' = inner w /\ channels w' = channels w /\ next_channel w' = next_channel w.
Proof. revert w. induction es as [|e es IH]; intros w; simpl; [done|]. by destruct (IH (log e w)) as (-> & -> & ->). Qed.

(** Replacing idle lists by sublists of them. *)
Lemma good_trim w i m gs hs cos dr :
  inner w = Some i ->
  (forall k l', m !! k = Some l' -> l' <> [] /\ exists l, idle i !! k = Some l /\
     zlen l' <= zlen l /\ forall f : Idle -> bool, countb f l' <= countb f l) ->
  good (mkSystem w gs hs cos dr) (mkSystem (with_inner (set_idle m i) w) gs hs cos dr).
Proof.
  intros Hi Hm. apply good_books. intros i0 Hi0 Hv. rewrite Hi in Hi0. injection Hi0 as <-.
  destruct Hv as [Hq Hid Hfr Hidle Hopen Hcap Hh2 Hg Hh]. simpl in *.
  eexists. split; [done|]. split_and!; try done.
  - by apply (queues_idle i).
  - destruct Hidle as (H1 & H2 & H3). split_and!; try done. simpl. intros k l' El.
    destruct (Hm _ _ El) as (Hne & l & El' & Hz & Hc). destruct (H3 _ _ El') as (_ & Hz' & Hc').
    split; [done|]. split; [lia|]. specialize (Hc (fun e => can_share (value e))). lia.
  - intros k. enough (idle_h1 (set_idle m i) k <= idle_h1 i k) by (unfold resting, h1_count; simpl; lia).
    unfold idle_h1. simpl. destruct (m !! k) as [l'|] eqn:El; simpl; [|apply countb_nonneg].
    destruct (Hm _ _ El) as (_ & l & -> & _ & Hc). apply Hc.
Qed.

Lemma good_idle_task op now w gs hs cos dr i w' :
  inner w = Some i -> idle_task_tick op now w = Some w' ->
  good (mkSystem w gs hs cos dr) (mkSystem w' gs hs cos dr).
Proof.
  intros Hi E. unfold idle_task_tick, clear_expired in E. rewrite Hi in E.
  destruct (timeout i) as [t|]; [|done]. rewrite !some_bind in E.
  match type of E with Some (fold_left _ ?es ?w0) = _ =>
    destruct (fold_log_fields es w0) as (F1 & F2 & F3) end.
  injection E as <-. eapply good_trans; [eapply (good_trim w i); [done|]|by eapply good_relabel].
  intros k l'. rewrite lookup_omap. destruct (idle i !! k) as [l|]; [|done]. rewrite some_bind.
  destruct (List.filter (keep_entry op t now) l) as [|e l''] eqn:Ef; [done|]. intros [= <-].
  split; [done|]. exists l. split; [done|]. rewrite <- Ef. split; [|intros; apply countb_filter].
  pose proof (countb_filter (fun _ => true) (keep_entry op t now) l) as Hz. unfold countb in Hz.
  assert (forall l : list (@Idle T), List.filter (fun _ => true) l = l) as Hid
    by (intros l0; induction l0; simpl; congruence).
  by rewrite !Hid in Hz.
Qed.

(** ** Dropping a checkout *)

Lemma drop_receiver_ne c (cs : Chans) c' : c <> c' -> drop_receiver c cs !! c' = cs !! c'.
Proof.
  intros Hne. unfold drop_receiver.
  destruct (cs !! c) as [[]|]; rewrite ?lookup_insert_ne, ?lookup_delete_ne by done; done.
Qed.

Lemma clean_waiters_store k (i : Inner') (cs : Chans) :
  clean_waiters k i cs = i \/
  clean_waiters k i cs = store_waiters k (List.filter (fun s => negb (is_canceled cs s)) (queue i k)) i.
Proof. unfold clean_waiters, queue. destruct (waiters i !! k); auto. Qed.

(** What [clean_waiters] leaves: queues that still hold every waiting receiver,
    the same books and the same idle list. *)
Lemma clean_waiters_queues key i cs nc cos :
  queues_ok i cs nc cos -> idle_ok i ->
  queues_ok (clean_waiters key i cs) cs nc cos /\ same_books i (clean_waiters key i cs) /\
  idle_ok (clean_waiters key i cs) /\ idle (clean_waiters key i cs) = idle i.
Proof.
  intros Hq Hidle. destruct (clean_waiters_store key i cs) as [-> | ->]; [done|].
  destruct (store_waiters_books key
    (List.filter (fun s => negb (is_canceled cs s)) (queue i key)) i) as (B & E & _).
  split_and!; try done; [|by apply idle_ok_store]. eapply queues_store; [exact Hq| |].
  - intros s Hs. apply list_elem_of_In, filter_In in Hs as [Hs _]. by apply list_elem_of_In.
  - intros co' c' Hco' E'. left. split; [done|]. intros Hw Hin. apply list_elem_of_In, filter_In.
    split; [by apply list_elem_of_In|]. unfold is_canceled. by rewrite Hw.
Qed.

Lemma good_checkout_clean w gs hs cos d1 co d2 :
  good (mkSystem w gs hs cos (d1 ++ co :: d2)) (mkSystem (checkout_drop co w) gs hs cos (d1 ++ d2)).
Proof.
  intros i Hi [Hq Hid Hfr Hidle Hopen Hcap Hh2 Hg Hh]. simpl in *.
  assert (Hid' : NoDup (omap co_waiter (cos ++ d1 ++ d2))).
  { assert (cos ++ d1 ++ co :: d2 ≡ₚ co :: cos ++ d1 ++ d2) as Hperm by solve_Permutation.
    rewrite Hperm in Hid. simpl in Hid. destruct (co_waiter co); [|done].
    by apply NoDup_cons in Hid as [_ ?]. }
  unfold checkout_drop. rewrite Hi. destruct (co_waiter co) as [c|] eqn:Ec.
  2: { exists i. split; [done|]. split_and!; try done. split; try done.
       intros co' c' Hco'. apply Hfr. by apply elem_split. }
  assert (Hne : forall co', co' ∈ cos -> co_waiter co' <> Some c).
  { intros co' Hco' E. assert (cos ++ d1 ++ co :: d2 ≡ₚ co :: cos ++ d1 ++ d2) as Hperm by solve_Permutation.
    rewrite Hperm in Hid. simpl in Hid. rewrite Ec in Hid. apply NoDup_cons in Hid as [Hn _].
    apply Hn. apply list_elem_of_omap. exists co'. split; [|done]. apply elem_of_app. by left. }
  set (cs := drop_receiver c (channels w)). set (i' := clean_waiters (co_key co) i cs).
  assert (Hkeep : forall co' c', co' ∈ cos -> co_waiter co' = Some c' -> cs !! c' = channels w !! c').
  { intros co' c' Hco' E. apply drop_receiver_ne. intros ->. by eapply Hne. }
  assert (Hmail : forall k, countb (mail_h1 cs k) cos <= countb (mail_h1 (channels w) k) cos).
  { intros k. apply countb_le. intros co' Hco'. unfold mail_h1.
    destruct (co_waiter co') as [c'|] eqn:E; [|done]. by rewrite (Hkeep _ _ Hco' E). }
  assert (queues_ok i cs (next_channel w) cos) as Hq0.
  { destruct Hq as [Q1 Q2 Q3 Q4 Q5]. split; try done. intros co' c' Hco' E. unfold placed.
    rewrite (Hkeep _ _ Hco' E). by apply Q3. }
  destruct (clean_waiters_queues (co_key co) _ _ _ _ Hq0 Hidle)
    as (Hq' & Hb & Hidle' & Ei). fold i' in Hq', Hb, Hidle', Ei.
  pose proof Hb as (B1 & B2 & B3 & B4).
  assert (Hle : forall k, resting i' cs cos k <= resting i (channels w) cos k).
  { intros k. unfold resting, idle_h1. rewrite Ei. specialize (Hmail k). lia. }
  exists i'. split; [done|]. split; [|split; [done|split; [done|]]].
  - split; try done; simpl.
    + intros co' c' Hco'. apply Hfr. by apply elem_split.
    + intros k. rewrite (same_books_count _ _ _ Hb). specialize (Hopen k). specialize (Hle k).
      unfold open_h1 in *. simpl in *. lia.
    + intros k. rewrite (same_books_count _ _ _ Hb), B3. apply Hcap.
    + intros k. rewrite B2. apply Hh2.
  - intros k. unfold slack, open_h1. rewrite (same_books_count _ _ _ Hb). specialize (Hle k).
    simpl in *. lia.
Qed.

(** ** Polling a checkout *)

(** The handle of a received or reused connection. *)
Lemma reuse_handle k v w k' :
  is_enabled (w : World') = true ->
  Z.b2z (handle_h1 k' (reuse k v w)) = Z.b2z (bool_decide (k = k') && negb (can_share v)) /\
  pl_pool (reuse k v w) = pl_h1_slot (reuse k v w) /\
  (pl_pool (reuse k v w) = true -> can_share (pl_value (reuse k v w)) = false).
Proof.
  intros He. unfold reuse, handle_h1. simpl. rewrite He.
  destruct (can_share v); simpl; rewrite ?andb_true_r, ?andb_false_r; done.
Qed.

Lemma waiters_split (c1 c2 : list (@Checkout K)) k c :
  NoDup (omap co_waiter (c1 ++ mkCheckout k (Some c) :: c2)) ->
  NoDup (omap co_waiter (c1 ++ mkCheckout k None :: c2)) /\
  forall co, co ∈ c1 ++ mkCheckout k None :: c2 -> co_waiter co <> Some c.
Proof.
  assert (forall o, c1 ++ mkCheckout k o :: c2 ≡ₚ mkCheckout k o :: c1 ++ c2) as Hperm
    by (intros; solve_Permutation).
  rewrite !Hperm. simpl. intros [Hn Hnd]%NoDup_cons. split; [done|].
  intros co Hco E. rewrite Hperm in Hco. apply elem_of_cons in Hco as [->|Hco]; [done|].
  apply Hn. apply list_elem_of_omap. by exists co.
Qed.

(** Taking the answer out of a channel. *)
Lemma good_take_answer w gs hs c1 k c c2 dr (o : option T) :
  (forall v, o = Some v -> channels w !! c = Some (Delivered v)) ->
  good (mkSystem w gs hs (c1 ++ mkCheckout k (Some c) :: c2) dr)
    (mkSystem (with_channels (delete c (channels w)) w) gs
       (match o with Some v => reuse k v w :: hs | None => hs end)
       (c1 ++ mkCheckout k None :: c2) dr).
Proof.
  intros Ho i Hi [Hq Hid Hfr Hidle Hopen Hcap Hh2 Hg Hh]. simpl in *.
  assert (is_enabled w = true) as He by (unfold is_enabled; by rewrite Hi).
  destruct (waiters_split c1 c2 k c (q_nodup _ _ _ _ Hq)) as [Hnd Hne].
  assert (Hsub : forall co c', co ∈ c1 ++ mkCheckout k None :: c2 -> co_waiter co = Some c' ->
            co ∈ c1 ++ mkCheckout k (Some c) :: c2).
  { intros co c'. rewrite !elem_of_app, !elem_of_cons. intros [?|[->|?]]; auto. done. }
  assert (Hle : forall k', countb (handle_h1 k') (match o with Some v => reuse k v w :: hs | None => hs end)
      + countb (mail_h1 (delete c (channels w)) k') (c1 ++ mkCheckout k None :: c2)
      <= countb (handle_h1 k') hs + countb (mail_h1 (channels w) k') (c1 ++ mkCheckout k (Some c) :: c2)).
  { intros k'. pose proof (mail_delete (channels w) c k' (c1 ++ c2)) as Hm. rewrite !countb_split.
    unfold mail_h1 at 2 4. cbn [co_key co_waiter]. rewrite andb_false_r.
    pose proof (b2z_nonneg (bool_decide (k = k') && match channels w !! c with
      | Some (Delivered v) => negb (can_share v) | _ => false end)).
    destruct o as [v|]; [|simpl; lia]. rewrite countb_cons, (Ho v eq_refl).
    destruct (reuse_handle k v w k' He) as [-> _]. simpl. lia. }
  exists i. split; [done|]. split; [|split; [done|split; [done|]]].
  - split; try done; simpl.
    + destruct Hq as [Q1 Q2 Q3 Q4 Q5]. split; eauto. intros co c' Hco E.
      specialize (Q3 co c' (Hsub _ _ Hco E) E). unfold placed in *.
      rewrite lookup_delete_ne; [done|]. intros ->. by eapply Hne.
    + rewrite <- app_assoc in Hid |- *. simpl in *. by apply waiters_split in Hid as [? _].
    + intros k'. specialize (Hopen k'). specialize (Hle k'). unfold open_h1, resting in *. simpl in *. lia.
    + destruct o as [v|]; [|done]. intros p [->|?]%elem_of_cons; [|auto].
      by destruct (reuse_handle k v w k He) as [_ ?].
  - intros k'. specialize (Hle k'). unfold slack, open_h1, resting in *. simpl in *. lia.
Qed.

(** ** Queueing behind the others *)

(** The pool after a checkout of [k] joined the queue with channel [s]. *)
Definition enqueue k (s : nat) (i : Inner') : Inner' :=
  set_waiters (<[k := queue i k ++ [s]]> (waiters i)) i.

Lemma queue_enqueue k s i k' :
  queue (enqueue k s i) k' = queue i k' ++ (if decide (k = k') then [s] else []).
Proof.
  unfold enqueue, queue at 1. cbn [waiters set_waiters]. case_decide as Hk.
  - subst. by rewrite lookup_insert_eq.
  - rewrite lookup_insert_ne, app_nil_r by done. done.
Qed.

Lemma enqueue_cases k s i k' x : x ∈ queue (enqueue k s i) k' -> x ∈ queue i k' \/ (k = k' /\ x = s).
Proof.
  rewrite queue_enqueue. intros [?|Hx]%elem_of_app; [by left|].
  case_decide; [apply list_elem_of_singleton in Hx; by right | by apply not_elem_of_nil in Hx].
Qed.

(** A fresh channel gives a checkout list without repetitions. *)
Lemma fresh_nodup c1 c2 k s (dr : list (@Checkout K)) :
  (forall co c, co ∈ (c1 ++ c2) ++ dr -> co_waiter co = Some c -> (c < s)%nat) ->
  NoDup (omap co_waiter ((c1 ++ mkCheckout k None :: c2) ++ dr)) ->
  NoDup (omap co_waiter ((c1 ++ mkCheckout k (Some s) :: c2) ++ dr)).
Proof.
  intros Hlt.
  assert (forall o, (c1 ++ mkCheckout k o :: c2) ++ dr ≡ₚ mkCheckout k o :: (c1 ++ c2) ++ dr) as Hperm
    by (intros; solve_Permutation).
  rewrite !Hperm. simpl. intros Hnd. apply NoDup_cons. split; [|done].
  intros (co & Hco & E)%list_elem_of_omap. specialize (Hlt co s Hco E). lia.
Qed.

Lemma checkout_cases c1 c2 k s (co : @Checkout K) :
  co ∈ c1 ++ mkCheckout k (Some s) :: c2 -> co = mkCheckout k (Some s) \/ co ∈ c1 ++ c2.
Proof. rewrite !elem_of_app, elem_of_cons. intuition. Qed.

Lemma queues_enqueue i (cs : Chans) s c1 c2 k :
  queues_ok i cs s (c1 ++ mkCheckout k None :: c2) ->
  queues_ok (enqueue k s i) (<[s := Waiting]> cs) (S s) (c1 ++ mkCheckout k (Some s) :: c2).
Proof.
  intros [Q1 Q2 Q3 Q4 Q5].
  assert (Hold : forall co c, co ∈ c1 ++ c2 -> co_waiter co = Some c -> (c < s)%nat)
    by (intros co c Hco; apply Q4; by apply elem_split).
  split.
  - rewrite <- (app_nil_r (_ :: c2)), app_assoc in Q1.
    rewrite <- (app_nil_r (_ :: c2)), app_assoc. apply fresh_nodup; [|done].
    by rewrite app_nil_r.
  - intros k' x co Hx Hco E.
    destruct (enqueue_cases _ _ _ _ _ Hx) as [Hx'|[<- ->]], (checkout_cases _ _ _ _ _ Hco) as [->|Hco'].
    + simpl in E. injection E as <-. specialize (Q5 _ _ Hx'). lia.
    + eapply Q2; eauto using elem_split.
    + done.
    + specialize (Hold _ _ Hco' E). lia.
  - intros co c Hco E. destruct (checkout_cases _ _ _ _ _ Hco) as [->|Hco'].
    + simpl in E. injection E as <-. unfold placed. rewrite lookup_insert_eq, queue_enqueue. cbn [co_key].
      rewrite decide_True by done. apply elem_of_app. right. left.
    + specialize (Hold _ _ Hco' E). specialize (Q3 co c (elem_split _ _ _ _ Hco') E).
      unfold placed in *. rewrite lookup_insert_ne by lia.
      destruct (cs !! c) as [[]|]; try done. rewrite queue_enqueue. apply elem_of_app. by left.
  - intros co c Hco E. destruct (checkout_cases _ _ _ _ _ Hco) as [->|Hco'].
    + simpl in E. injection E as <-. lia.
    + specialize (Hold _ _ Hco' E). lia.
  - intros k' x Hx. destruct (enqueue_cases _ _ _ _ _ Hx) as [Hx'|[_ ->]]; [|lia].
    specialize (Q5 _ _ Hx'). lia.
Qed.

Lemma good_register w (i : Inner') gs hs c1 k c2 dr :
  inner w = Some i ->
  good (mkSystem w gs hs (c1 ++ mkCheckout k None :: c2) dr)
    (mkSystem (mkWorld (Some (enqueue k (next_channel w) i))
         (<[next_channel w := Waiting]> (channels w)) (S (next_channel w)) (debug_events w))
       gs hs (c1 ++ mkCheckout k (Some (next_channel w)) :: c2) dr).
Proof.
  intros Hi i0 Hi0. simpl in Hi0. rewrite Hi in Hi0. injection Hi0 as <-.
  intros [Hq Hid Hfr Hidle Hopen Hcap Hh2 Hg Hh]. simpl in *. set (s := next_channel w) in *.
  assert (Hmail : forall k', countb (mail_h1 (<[s := Waiting]> (channels w)) k')
             (c1 ++ mkCheckout k (Some s) :: c2)
           <= countb (mail_h1 (channels w) k') (c1 ++ mkCheckout k None :: c2)).
  { intros k'. pose proof (mail_insert_quiet (channels w) s Waiting k' (c1 ++ c2) ltac:(done)).
    rewrite !countb_split. unfold mail_h1 at 2 4. cbn [co_key co_waiter].
    rewrite lookup_insert_eq, !andb_false_r. simpl. lia. }
  exists (enqueue k s i). split; [done|]. split; [|split; [done|split; [done|]]].
  - split; try done; simpl; fold s.
    + by apply queues_enqueue.
    + apply fresh_nodup; [|done]. intros co c [Hco|Hco]%elem_of_app; [|by apply Hfr].
      apply (q_fresh_co _ _ _ _ Hq). by apply elem_split.
    + intros co c Hco E. specialize (Hfr co c Hco E). lia.
    + intros k'. specialize (Hopen k'). specialize (Hmail k').
      unfold open_h1, resting, idle_h1, h1_count in *. simpl in *. lia.
  - intros k'. specialize (Hmail k'). unfold slack, open_h1, resting, idle_h1, h1_count. simpl. lia.
Qed.

(** What [pop] leaves, counted. *)
Lemma popped_counts op t now l e kept n :
  popped op t now l (Some e, kept, n) ->
  countb entry_h1 kept + Z.b2z (negb (can_share (value e))) <= countb entry_h1 l /\
  countb (fun e => can_share (value e)) kept <= countb (fun e => can_share (value e)) l /\
  zlen kept <= zlen l.
Proof.
  intros (pre & x & post & -> & _ & _ & _ & _ & Hs & Hk). rewrite Hs. autorewrite with h12.
  change (entry_h1 x) with (negb (can_share (value x))).
  pose proof (countb_nonneg entry_h1 post). pose proof (countb_nonneg (fun e => can_share (value e)) post).
  pose proof (zlen_nonneg post). destruct (can_share (value x)) eqn:Ex; simpl.
  - destruct Hk as (v & -> & Hv). autorewrite with h12.
    change (entry_h1 (mkIdle v now)) with (negb (can_share v)). simpl. rewrite Hv. simpl. lia.
  - destruct Hk as [_ ->]. lia.
Qed.

Lemma good_take_idle w (i : Inner') op now gs hs cos dr k l e kept n :
  inner w = Some i -> idle i !! k = Some l -> pop op (timeout i) now l = (Some e, kept, n) ->
  good (mkSystem w gs hs cos dr)
    (mkSystem (with_inner (set_idle (match kept with [] => delete k (idle i) | _ => <[k := kept]> (idle i) end) i) w)
       gs (reuse k (value e) w :: hs) cos dr).
Proof.
  intros Hi El Ep. apply good_books. intros i0 Hi0 Hv. rewrite Hi in Hi0. injection Hi0 as <-.
  destruct Hv as [Hq Hid Hfr Hidle Hopen Hcap Hh2 Hg Hh]. simpl in *.
  assert (is_enabled w = true) as He by (unfold is_enabled; by rewrite Hi).
  pose proof (pop_popped op (timeout i) now l) as Hp. rewrite Ep in Hp.
  destruct (popped_counts _ _ _ _ _ _ _ Hp) as (C1 & C2 & C3).
  set (m := match kept with [] => _ | _ => _ end).
  assert (Hm : forall k', default [] (m !! k') = if decide (k = k') then kept else default [] (idle i !! k')).
  { intros k'. unfold m. destruct kept; case_decide as Hk; subst;
      rewrite ?lookup_delete_eq, ?lookup_insert_eq, ?lookup_delete_ne, ?lookup_insert_ne by done; done. }
  eexists. split; [done|]. split_and!; try done.
  - by apply (queues_idle i).
  - destruct Hidle as (H1 & H2 & H3). split_and!; try done. simpl. intros k' l' El'.
    destruct (decide (k = k')) as [<-|Hne].
    + specialize (Hm k). rewrite El', decide_True in Hm by done. simpl in Hm. subst l'.
      destruct (H3 _ _ El) as (_ & ? & ?). split; [|split; lia].
      intros ->. unfold m in El'. by rewrite lookup_delete_eq in El'.
    + apply (H3 k'). unfold m in El'.
      destruct kept; [rewrite lookup_delete_ne in El' | rewrite lookup_insert_ne in El']; done.
  - intros p [->|?]%elem_of_cons; [|auto]. by destruct (reuse_handle k (value e) w k He) as [_ ?].
  - intros k'. rewrite countb_cons. destruct (reuse_handle k (value e) w k' He) as [-> _].
    unfold resting, idle_h1, h1_count. simpl. rewrite Hm. case_decide as Hk.
    + subst k'. rewrite bool_decide_eq_true_2, El by done. simpl in *. lia.
    + rewrite bool_decide_eq_false_2 by done. simpl. lia.
Qed.

Lemma good_forget_idle w (i : Inner') gs hs cos dr k :
  inner w = Some i -> idle_ok i ->
  good (mkSystem w gs hs cos dr) (mkSystem (with_inner (set_idle (delete k (idle i)) i) w) gs hs cos dr).
Proof.
  intros Hi (_ & _ & Hok). apply good_trim; [done|]. intros k' l'.
  intros [? El]%lookup_delete_Some. split; [by apply (Hok _ _ El)|]. exists l'. by split_and!.
Qed.

Lemma checkout_idle_keeps_waiter op now co (w : World') p co' w' c :
  co_waiter co = Some c -> checkout_idle op now co w = Some (p, co', w') -> co' = co.
Proof.
  intros Ec. unfold checkout_idle. rewrite Ec. destruct (inner w) as [i|]; [|congruence].
  destruct (match idle i !! co_key co with Some _ => _ | None => _ end) as [[[e|] kept] n]; congruence.
Qed.

Lemma checkout_idle_total op now co (w : World') : is_Some (checkout_idle op now co w).
Proof.
  unfold checkout_idle. destruct (inner w) as [i|]; [|done].
  destruct (match idle i !! co_key co with Some _ => _ | None => _ end) as [[[e|] kept] n]; [done|].
  destruct (co_waiter co); [done|]. unfold receiver_poll. by rewrite lookup_insert_eq.
Qed.

Lemma good_checkout_idle op now w gs hs c1 co c2 dr p co' w' :
  checkout_idle op now co w = Some (p, co', w') ->
  good (mkSystem w gs hs (c1 ++ co :: c2) dr)
    (mkSystem w' gs (option_list p ++ hs) (c1 ++ co' :: c2) dr).
Proof.
  intros E i Hi Hv. pose proof (v_idle _ _ Hv) as Hidle. simpl in Hi.
  cut (good (mkSystem w gs hs (c1 ++ co :: c2) dr)
         (mkSystem w' gs (option_list p ++ hs) (c1 ++ co' :: c2) dr)); [intros Hgood; by apply Hgood|].
  clear Hv. unfold checkout_idle in E. rewrite Hi in E. destruct co as [k o]. cbn [co_key co_waiter] in E.
  destruct (match idle i !! k with Some _ => _ | None => _ end) as [[entry kept] n] eqn:Ep.
  match type of E with context [log_n ?m ?x ?w0] => destruct (log_n_fields m x w0) as (F1 & F2 & F3) end.
  destruct entry as [e|].
  - destruct (idle i !! k) as [l|] eqn:El; [|done].
    injection E as <- <- <-.
    match goal with |- context [option_list (Some (reuse _ _ ?w0))] =>
      assert (reuse k (value e) w0 = reuse k (value e) w) as -> end.
    { unfold reuse, is_enabled. rewrite F1. simpl. by rewrite Hi. }
    eapply good_trans; [by eapply (good_take_idle w i op now)|].
    apply good_relabel; [rewrite F1|done|done]. by destruct kept.
  - assert (good (mkSystem w gs hs (c1 ++ mkCheckout k o :: c2) dr)
      (mkSystem (log_n n (PoolEvicted (origin k)) (with_inner (set_idle (delete k (idle i)) i) w)) gs hs
         (c1 ++ mkCheckout k o :: c2) dr)) as Hgood.
    { eapply good_trans; [by apply (good_forget_idle w i)|]. by apply good_relabel. }
    destruct o as [c|]; [by injection E as <- <- <-|].
    unfold receiver_poll in E. rewrite lookup_insert_eq in E. injection E as <- <- <-.
    eapply good_trans; [exact Hgood|]. simpl option_list. simpl app.
    apply (good_register (log_n n (PoolEvicted (origin k)) (with_inner (set_idle (delete k (idle i)) i) w))
      (set_idle (delete k (idle i)) i)). done.
Qed.

Lemma good_poll_waiter op w gs hs c1 co c2 dr r co' w' :
  poll_waiter op co w = (r, co', w') ->
  good (mkSystem w gs hs (c1 ++ co :: c2) dr)
    (mkSystem w' gs (match r with Ready (Some (Ok p)) => p :: hs | _ => hs end) (c1 ++ co' :: c2) dr).
Proof.
  unfold poll_waiter, receiver_poll. destruct co as [k o]. cbn [co_waiter co_key].
  destruct o as [c|]; [|intros [= <- <- <-]; by apply good_relabel].
  destruct (channels w !! c) as [[|v| |]|] eqn:Ec; intros E.
  - injection E as <- <- <-. by apply good_relabel.
  - destruct (op v); injection E as <- <- <-.
    + by apply (good_take_answer w gs hs c1 k c c2 dr (Some v)); intros ? [= <-].
    + by apply (good_take_answer w gs hs c1 k c c2 dr None).
  - injection E as <- <- <-. by apply (good_take_answer w gs hs c1 k c c2 dr None).
  - injection E as <- <- <-. by apply (good_take_answer w gs hs c1 k c c2 dr None).
  - injection E as <- <- <-. by apply (good_take_answer w gs hs c1 k c c2 dr None).
Qed.

Lemma step_good s s' : step s s' -> good s s'.
Proof.
  destruct 1; eauto using good_checkout, good_poll_waiter, good_checkout_idle, good_checkout_drop, good_checkout_clean,
    good_connecting, good_connecting_drop, good_alpn_release, good_pooled, good_pooled_drop, good_idle_task,
    good_relabel.
Qed.

(** ** Properties of every reachable state *)

Lemma start_inv c tm ev :
  enabled c = true -> 0 <= max_h1_connections_per_host c ->
  exists i, inner (world (start c tm ev)) = Some i /\ inv (start c tm ev) i /\
    cap_h1 i = max_h1_connections_per_host c /\ cap_idle i = max_idle_per_host c.
Proof.
  intros He Hc. unfold start, new. rewrite He. simpl. eexists. split; [done|].
  split; [|done]. unfold enabled in He. bool_hyps. split; simpl; try done;
    try (intros g Hg; by apply not_elem_of_nil in Hg).
  - split; simpl; try (intros; by match goal with Hn : _ ∈ [] |- _ => apply not_elem_of_nil in Hn end).
    + constructor.
    + intros k s Hs. unfold queue in Hs. simpl in Hs. rewrite lookup_empty in Hs.
      by apply not_elem_of_nil in Hs.
  - constructor.
  - intros co c' Hco. by apply not_elem_of_nil in Hco.
Qed.

Lemma reachable_good s0 s : reachable s0 s -> good s0 s.
Proof.
  induction 1 as [|s s' _ IH Hs].
  - intros i Hi Hv. exists i. by split_and!.
  - eapply good_trans; [exact IH | by apply step_good].
Qed.

Lemma reachable_inv c tm ev s :
  enabled c = true -> 0 <= max_h1_connections_per_host c -> reachable (start c tm ev) s ->
  exists i, inner (world s) = Some i /\ inv s i /\
    cap_h1 i = max_h1_connections_per_host c /\ cap_idle i = max_idle_per_host c.
Proof.
  intros He Hc Hr. destruct (start_inv c tm ev He Hc) as (i & Hi & Hv & C1 & C2).
  destruct (reachable_good _ _ Hr i Hi Hv) as (i' & Hi' & Hv' & C1' & C2' & _).
  exists i'. split_and!; try done; congruence.
Qed.

(** C2. The documented bound: however requests are interleaved, cancelled or
    retried, the HTTP/1 connections of an origin that are being established,
    in use, idle or on their way to a waiter never exceed
    [max_h1_connections_per_host]; the pool's own count is never below their
    number, so no slot is released twice. *)
Theorem h1_connections_bounded c tm ev s :
  enabled c = true -> 0 <= max_h1_connections_per_host c -> reachable (start c tm ev) s ->
  exists i, inner (world s) = Some i /\
    forall k, open_h1 s i k <= h1_count i k <= max_h1_connections_per_host c.
Proof.
  intros He Hc Hr. destruct (reachable_inv c tm ev s He Hc Hr) as (i & Hi & Hv & C1 & _).
  exists i. split; [done|]. intros k. rewrite <- C1. split; [apply Hv | apply (v_cap _ _ Hv)].
Qed.

(** C28. The idle list of an origin is never empty, never longer than
    [max_idle_per_host], and holds at most one shared HTTP/2 connection. *)
Theorem idle_connections_bounded c tm ev s :
  enabled c = true -> 0 <= max_h1_connections_per_host c -> reachable (start c tm ev) s ->
  exists i, inner (world s) = Some i /\
    forall k l, idle i !! k = Some l ->
      l <> [] /\ zlen l <= max_idle_per_host c /\ countb (fun e => can_share (value e)) l <= 1.
Proof.
  intros He Hc Hr. destruct (reachable_inv c tm ev s He Hc Hr) as (i & Hi & Hv & _ & C2).
  exists i. split; [done|]. rewrite <- C2. apply (v_idle _ _ Hv).
Qed.

(** C16. One owner: an HTTP/2 establishment of an origin is reserved by at most one
    guard at a time, the marker in the pool is there exactly while that guard
    lives, and a second reservation is refused meanwhile. *)
Theorem single_h2_owner c tm ev s k :
  enabled c = true -> 0 <= max_h1_connections_per_host c -> reachable (start c tm ev) s ->
  0 <= countb (guard_h2 k) (guards s) <= 1 /\
  (fst (connecting k Http2 (world s)) = None <-> countb (guard_h2 k) (guards s) = 1).
Proof.
  intros He Hc Hr. destruct (reachable_inv c tm ev s He Hc Hr) as (i & Hi & Hv & _ & _).
  rewrite (v_h2 _ _ Hv). unfold connecting. rewrite Hi, (bool_decide_eq_true_2 (Http2 = Http2)) by done.
  destruct (bool_decide (k ∈ connecting_set i)); simpl; (split; [lia|]);
    split; intros; try done; exfalso; lia.
Qed.

(** *** No panics *)
Lemma guard_counted_in s i g :
  inv s i -> g ∈ guards s -> cn_h1_slot g = true -> exists i1, release_h1_slot (cn_key g) i = Some i1.
Proof.
  intros Hv (g1 & g2 & Eg)%list_elem_of_split Hs. apply release_total. destruct s as [w gs hs cos dr].
  simpl in Eg. subst gs. by eapply guard_counted.
Qed.

Lemma connecting_drop_total s i g :
  inner (world s) = Some i -> inv s i -> g ∈ guards s ->
  exists i1, waiters i1 = waiters i /\
    connecting_drop g (world s)
      = Some (with_channels (drop_senders (default [] (waiters i1 !! cn_key g)) (channels (world s)))
          (with_inner (set_waiters (delete (cn_key g) (waiters i1)) i1) (world s))).
Proof.
  intros Hi Hv Hg. unfold connecting_drop, connecting_cancelled. rewrite (v_guards _ _ Hv g Hg), Hi.
  destruct (cn_h1_slot g) eqn:Es.
  - destruct (guard_counted_in s i g Hv Hg Es) as [i1 E1]. rewrite E1, !some_bind. exists i1.
    apply release_keeps in E1 as (_ & R & _). done.
  - rewrite !some_bind. exists (set_connecting (connecting_set i ∖ {[cn_key g]}) i). by split.
Qed.

Lemma alpn_h2_total s i g :
  inner (world s) = Some i -> inv s i -> g ∈ guards s -> is_Some (alpn_h2 g (world s)).
Proof.
  intros Hi Hv Hg. unfold alpn_h2, alpn_release. rewrite (v_guards _ _ Hv g Hg), Hi, andb_true_r.
  destruct (cn_h1_slot g) eqn:Es; [|done].
  destruct (guard_counted_in s i g Hv Hg Es) as [i1 ->]. done.
Qed.

Lemma pooled_total s i now late g v :
  inner (world s) = Some i -> is_Some (pooled now late g v (world s)).
Proof.
  intros Hi. unfold pooled. rewrite Hi. destruct (reserve v) as [a b|a]; [|done].
  destruct (put_total now late (cn_key g) a i (channels (world s))) as [[[ok i'] cs] ->].
  rewrite some_bind. by destruct (connected _ _ _).
Qed.

Lemma put_counts now late k v (i : Inner') (cs : Chans) ok i' cs' :
  put now late k v i cs = Some (ok, i', cs') -> h1_connections i' = h1_connections i.
Proof.
  unfold put. intros E. destruct (_ && _); [by injection E as <- <- <-|].
  assert (forall (j : Inner') u, h1_connections (fst (if cap_idle j <=? zlen (default [] (idle j !! k))
      then (set_idle (<[k := default [] (idle j !! k)]> (idle j)) j, tt) else (push_idle now k u j, tt)))
      = h1_connections j) as Hk.
  { intros j u. destruct (_ <=? _); [done|]. simpl. by destruct (push_idle_books now k u j) as ((-> & _) & _). }
  destruct (waiters i !! k) as [ws|].
  - destruct (deliver late (Some v) ws cs) as [[[r ws'] cs1]|]; [|done]. rewrite !some_bind in E.
    destruct (store_waiters_books k ws' i) as ((<- & _) & _).
    destruct r as [u|]; [|by injection E as <- <- <-]. rewrite <- (Hk (store_waiters k ws' i) u).
    unfold push_idle. destruct (_ <=? _); by injection E as <- <- <-.
  - rewrite some_bind in E. rewrite <- (Hk i v). unfold push_idle. destruct (_ <=? _); by injection E as <- <- <-.
Qed.

Lemma pooled_drop_total s i op now late p :
  inner (world s) = Some i -> inv s i -> p ∈ handles s -> is_Some (pooled_drop op now late p (world s)).
Proof.
  intros Hi Hv Hp. assert (pl_h1_slot p = true -> 0 < h1_count i (pl_key p)) as Hpos.
  { intros Hs. destruct s as [w gs hs cos dr]. simpl in *.
    apply list_elem_of_split in Hp as (h1 & h2 & ->). by eapply handle_counted. }
  unfold pooled_drop, pooled_release. rewrite Hi.
  assert (forall w', is_Some (match (if pl_h1_slot p && pl_pool p then Some i else None) with
    | Some i => i0 ← release_h1_slot (pl_key p) i; Some (with_inner i0 w')
    | None => Some w' end)) as Hrel.
  { intros w'. destruct (pl_h1_slot p); [|done]. destruct (pl_pool p); [|done].
    destruct (release_total (pl_key p) i (Hpos eq_refl)) as [i1 E1]. simpl. by rewrite E1. }
  destruct (negb (op (pl_value p))).
  { destruct (Hrel (world s)) as [w1 ->]. done. }
  destruct (pl_pool p); [|by rewrite andb_false_r].
  destruct (put_total now late (pl_key p) (pl_value p) i (channels (world s))) as [[[ok i'] cs] E]. rewrite E, some_bind.
  destruct ok; [done|]. destruct (pl_h1_slot p); [|done].
  destruct (release_total (pl_key p) i') as [i2 ->]; [|done].
  unfold h1_count. rewrite (put_counts _ _ _ _ _ _ _ _ _ E). by apply Hpos.
Qed.

Lemma checkout_poll_total op now co (w : World') : is_Some (checkout_poll op now co w).
Proof.
  unfold checkout_poll. destruct (poll_waiter op co w) as [[[|[r|]] co1] w1]; [|done|];
    destruct (checkout_idle_total op now co1 w1) as [[[p co2] w2] ->]; done.
Qed.

(** C17. No waiter is forgotten: a checkout whose channel is still open is in the
    queue of its own origin, the one returned connections are offered to, and
    when an establishment for the origin is given up it is woken. *)
Theorem parked_checkout_is_reachable c tm ev s co ch :
  enabled c = true -> 0 <= max_h1_connections_per_host c -> reachable (start c tm ev) s ->
  co ∈ checkouts s -> co_waiter co = Some ch -> channels (world s) !! ch = Some Waiting ->
  exists i, inner (world s) = Some i /\ ch ∈ queue i (co_key co) /\
    forall g, g ∈ guards s -> cn_key g = co_key co ->
      exists w', connecting_drop g (world s) = Some w' /\ channels w' !! ch = Some SenderDropped.
Proof.
  intros He Hc Hr Hco Hch Hw. destruct (reachable_inv c tm ev s He Hc Hr) as (i & Hi & Hv & _ & _).
  exists i. split; [done|]. pose proof (q_placed _ _ _ _ (v_queues _ _ Hv) co ch Hco Hch) as Hp.
  unfold placed in Hp. rewrite Hw in Hp. split; [done|]. intros g Hg Hk.
  destruct (connecting_drop_total s i g Hi Hv Hg) as (i1 & Ew & E1). eexists. split; [exact E1|].
  simpl. rewrite Hk, drop_senders_lookup, Hw. unfold queue in Hp. rewrite <- Ew, Hk in *.
  by destruct (decide (ch ∈ default [] (waiters i1 !! co_key co))).
Qed.

(** C27. No operation of the pool panics in a reachable state: giving up an
    establishment, turning it into an HTTP/2 one, completing it and dropping a
    connection never release a slot that is not counted, returning a connection
    never consumes it twice, a new waiter is never answered before it is
    parked, and the idle task only runs when an idle timeout is configured. *)
Theorem pool_does_not_panic c tm ev s :
  enabled c = true -> 0 <= max_h1_connections_per_host c -> reachable (start c tm ev) s ->
  (forall g, g ∈ guards s ->
     is_Some (connecting_drop g (world s)) /\ is_Some (alpn_h2 g (world s)) /\
     forall now late v, is_Some (pooled now late g v (world s))) /\
  (forall p op now late, p ∈ handles s -> is_Some (pooled_drop op now late p (world s))) /\
  (forall co op now, co ∈ checkouts s -> is_Some (checkout_poll op now co (world s))) /\
  (forall op now i, inner (world s) = Some i -> idle_interval_ref i = true ->
     is_Some (idle_task_tick op now (world s))).
Proof.
  intros He Hc Hr. destruct (reachable_inv c tm ev s He Hc Hr) as (i & Hi & Hv & _ & _).
  split_and!.
  - intros g Hg. split; [|split].
    + destruct (connecting_drop_total s i g Hi Hv Hg) as (i1 & _ & ->). done.
    + by apply (alpn_h2_total s i).
    + intros now late v. by apply (pooled_total s i).
  - intros p op now late. by apply (pooled_drop_total s i).
  - intros co op now _. apply checkout_poll_total.
  - intros op now i0 Hi0 Href. unfold idle_task_tick, clear_expired. rewrite Hi0.
    destruct (v_idle _ _ Hv) as (_ & Ht & _). assert (i0 = i) as -> by congruence.
    destruct (Ht Href) as [t ->]. done.
Qed.

(** C39. Lost slots: a slot of an origin that is counted but held by nobody is never
    given back, whatever happens next, so the connections that can be open from
    then on are fewer by the slots that are lost; and once all are lost every
    later HTTP/1 reservation for the origin is refused. *)
Theorem lost_slots_block_origin c tm ev s s' i k :
  enabled c = true -> 0 <= max_h1_connections_per_host c -> reachable (start c tm ev) s ->
  inner (world s) = Some i -> reachable s s' ->
  exists i', inner (world s') = Some i' /\ slack s i k <= slack s' i' k /\
    open_h1 s' i' k <= max_h1_connections_per_host c - slack s i k /\
    (slack s i k = max_h1_connections_per_host c ->
     forall p, p <> Http2 -> fst (connecting k p (world s')) = None).
Proof.
  intros He Hc Hr Hi Hr'. destruct (reachable_inv c tm ev s He Hc Hr) as (i0 & Hi0 & Hv & C1 & _).
  assert (i0 = i) as -> by congruence.
  destruct (reachable_good _ _ Hr' i Hi Hv) as (i' & Hi' & Hv' & C1' & _ & Hmono).
  specialize (Hmono k). exists i'. split; [done|]. split; [done|].
  pose proof (v_cap _ _ Hv' k) as Hcap. rewrite C1', C1 in Hcap.
  split; [unfold slack in *; lia|]. intros Hs p Hp. unfold connecting. rewrite Hi', bool_decide_eq_false_2 by done.
  unfold reserve_h1_slot. assert (0 <= open_h1 s' i' k).
  { unfold open_h1, resting, idle_h1. repeat match goal with |- context [countb ?f ?l] =>
      lazymatch goal with _ : 0 <= countb f l |- _ => fail | _ => pose proof (countb_nonneg f l) end end. lia. }
  unfold slack in *. destruct (cap_h1 i' <=? h1_count i' k) eqn:E; bool_hyps; [done | lia].
Qed.

(** C40. Closing a connection wakes nobody: when the holder of an HTTP/1 connection
    drops it closed, its slot is free again, and the origin admits a new
    connection, but no channel and no queue changes: a checkout of the origin
    that was parked because of the bound stays parked, and polling it again
    leaves it parked while no connection is idle. *)
Theorem closed_connection_strands_waiter c tm ev w gs h1 p h2 cos dr op now co ch :
  enabled c = true -> 0 <= max_h1_connections_per_host c ->
  reachable (start c tm ev) (mkSystem w gs (h1 ++ p :: h2) cos dr) ->
  pl_h1_slot p = true -> op (pl_value p) = false ->
  co ∈ cos -> co_key co = pl_key p -> co_waiter co = Some ch -> channels w !! ch = Some Waiting ->
  exists w' i i', pooled_drop op now (fun _ => false) p w = Some w' /\
    step (mkSystem w gs (h1 ++ p :: h2) cos dr) (mkSystem w' gs (h1 ++ h2) cos dr) /\
    inner w = Some i /\ inner w' = Some i' /\
    h1_count i' (pl_key p) = h1_count i (pl_key p) - 1 /\
    is_Some (fst (connecting (pl_key p) Http1 w')) /\
    channels w' = channels w /\ waiters i' = waiters i /\ idle i' = idle i /\
    (idle i !! pl_key p = None -> forall op' now',
       exists w'', checkout_poll op' now' co w' = Some (Pending, co, w'')).
Proof.
  intros He Hc Hr Hs Ho Hco Hk Hch Hw. destruct (reachable_inv c tm ev _ He Hc Hr) as (i & Hi & Hv & C1 & _).
  simpl in Hi. assert (pl_pool p = true) as Hp by (destruct (v_handles _ _ Hv p) as [-> _]; [apply elem_mid | done]).
  pose proof (handle_counted _ _ _ _ _ _ _ _ Hv Hs) as Hpos.
  destruct (release_total (pl_key p) i Hpos) as [i1 E1].
  pose proof (h1_count_release _ _ _ (pl_key p) E1 Hpos) as Hcnt. rewrite bool_decide_eq_true_2 in Hcnt by done.
  destruct (release_keeps _ _ _ E1) as (R1 & R2 & R3 & R4 & R5 & R6 & R7).
  set (w1 := log (ConnectionClosed (origin (pl_key p))) (with_inner i1 w)).
  assert (pooled_drop op now (fun _ => false) p w = Some w1) as E.
  { unfold pooled_drop, pooled_release. by rewrite Ho, Hs, Hp, Hi; simpl; rewrite E1. }
  exists w1, i, i1. split; [done|]. split.
  { eapply step_pooled_drop; [|exact E]. by intros ? ? ?. }
  split_and!; try done.
  - unfold connecting. simpl. pose proof (v_cap _ _ Hv (pl_key p)) as Hcap. unfold reserve_h1_slot.
    rewrite R4, (proj2 (Z.leb_gt _ _)) by (simpl in Hcnt; lia). done.
  - intros Hidle op' now'. unfold checkout_poll, poll_waiter, receiver_poll. rewrite Hch.
    change (channels w1) with (channels w). rewrite Hw. unfold checkout_idle.
    change (inner w1) with (Some i1). rewrite Hk, R1, Hidle. cbn iota. rewrite Hch, some_bind. simpl. eauto.
Qed.

End System.
(** ** Concrete runs *)

Definition sample_config : Config := mkConfig (Some 90) 4 1.
Definition sample_start : @System sample_conn nat _ _ := start sample_config true None.

(** One caller parks, dials, and drops its checkout; it holds the only slot. *)
Definition one_handle : @System sample_conn nat _ _ :=
  let i : @Inner sample_conn nat _ _ :=
    mkInner ∅ {[7%nat := 1]} ∅ 4 1 ∅ false true (Some 90) in
  let w : @World sample_conn nat _ _ := mkWorld (Some i) {[0%nat := ReceiverDropped]} 1 None in
  mkSystem w [] [mkPooled (3%nat, false) false 7%nat true true] [] [].

(** Extends the run [H] by one step whose premises compute. *)
Tactic Notation "advance" hyp(H) uconstr(st) :=
  let H' := fresh in
  assert (H' := H); eapply reach_step in H';
  [|eapply st; first [by vm_compute | by intros ? ? ? | idtac]]; clear H; rename H' into H.

Lemma one_handle_reachable : reachable sample_start one_handle.
Proof.
  assert (H : reachable sample_start (mkSystem (world sample_start) [] [] [] [])) by apply reach_start.
  advance H (step_checkout 7%nat). simpl app in H.
  advance H (step_checkout_idle (fun _ => true) 0 _ _ _ [] _ []).
  advance H (step_connecting 7%nat Auto).
  advance H (step_pooled 0 (fun _ => false) _ [] _ [] (3%nat, false)).
  advance H (step_checkout_drop _ _ _ [] _ []).
  advance H (step_checkout_clean _ _ _ _ [] _ []).
  exact H.
Qed.

(** The slot is held and a second request for the origin is parked. *)
Definition held_and_parked : @System sample_conn nat _ _ :=
  let i : @Inner sample_conn nat _ _ :=
    mkInner ∅ {[7%nat := 1]} ∅ 4 1 {[7%nat := [1%nat]]} false true (Some 90) in
  let w : @World sample_conn nat _ _ :=
    mkWorld (Some i) {[0%nat := ReceiverDropped; 1%nat := Waiting]} 2 None in
  mkSystem w [] [mkPooled (3%nat, false) false 7%nat true true] [mkCheckout 7%nat (Some 1%nat)] [].

Lemma held_and_parked_reachable : reachable sample_start held_and_parked.
Proof.
  pose proof one_handle_reachable as H. unfold one_handle in H.
  advance H (step_checkout 7%nat). simpl app in H.
  advance H (step_checkout_idle (fun _ => true) 0 _ _ _ [] _ []).
  advance H (step_connecting 7%nat Auto).
  exact H.
Qed.

(** A checkout that waits while nobody is left to answer it. *)
Definition stranded {T K} `{Poolable T} `{Key K} (s : @System T K _ _) : Prop :=
  guards s = [] /\ handles s = [] /\ dropping s = [] /\
  exists co c i, checkouts s = [co] /\ co_waiter co = Some c /\
    channels (world s) !! c = Some Waiting /\ inner (world s) = Some i /\
    idle i !! co_key co = None /\ h1_count i (co_key co) = 0.

Lemma closed_connection_strands_waiter_witness :
  exists s, step held_and_parked s /\ stranded s.
Proof.
  destruct (closed_connection_strands_waiter sample_config true None (world held_and_parked) []
    [] (mkPooled (3%nat, false) false 7%nat true true) [] (checkouts held_and_parked) []
    (fun _ => false) 0 (mkCheckout 7%nat (Some 1%nat)) 1%nat)
    as (w' & i & i' & _ & Hs & Hi & Hi' & Hc & _ & Hch & _ & Hid & _);
    [reflexivity | vm_compute; discriminate | apply held_and_parked_reachable | reflexivity | reflexivity | left
    | reflexivity | reflexivity | reflexivity|].
  exists (mkSystem w' [] [] (checkouts held_and_parked) []). split; [exact Hs|].
  split_and!; try reflexivity. eexists _, _, i'.
  split; [reflexivity|]. split; [reflexivity|]. split; [simpl; rewrite Hch; reflexivity|]. split; [exact Hi'|].
  injection Hi as <-. rewrite Hid. split; [reflexivity | exact Hc].
Defined.

(** The same pool when the connection is returned, closes while idle, and is
    evicted by the next checkout: its slot is lost. *)
Lemma evicted_slot_is_lost :
  exists s i, reachable sample_start s /\ inner (world s) = Some i /\ slack s i 7%nat = 1.
Proof.
  pose proof one_handle_reachable as H. eexists _, _. split.
  - unfold one_handle in H.
    advance H (step_pooled_drop (fun _ => true) 0 (fun _ => false) _ _ [] _ []).
    advance H (step_checkout 7%nat). simpl app in H.
    advance H (step_checkout_idle (fun _ => false) 0 _ _ _ [] _ []).
    exact H.
  - split; vm_compute; reflexivity.
Qed.

Lemma h1_connections_bounded_witness :
  exists i, inner (world one_handle) = Some i /\
    forall k, open_h1 one_handle i k <= h1_count i k <= 1.
Proof.
  apply (h1_connections_bounded sample_config true None one_handle);
    [reflexivity | vm_compute; discriminate | apply one_handle_reachable].
Defined.

Lemma idle_connections_bounded_witness :
  exists i, inner (world one_handle) = Some i /\
    forall k l, idle i !! k = Some l ->
      l <> [] /\ zlen l <= 4 /\ countb (fun e => can_share (value e)) l <= 1.
Proof.
  apply (idle_connections_bounded sample_config true None one_handle);
    [reflexivity | vm_compute; discriminate | apply one_handle_reachable].
Defined.

Lemma single_h2_owner_witness :
  0 <= countb (guard_h2 7%nat) (guards one_handle) <= 1 /\
  (fst (connecting 7%nat Http2 (world one_handle)) = None
     <-> countb (guard_h2 7%nat) (guards one_handle) = 1).
Proof.
  apply (single_h2_owner sample_config true None one_handle 7%nat);
    [reflexivity | vm_compute; discriminate | apply one_handle_reachable].
Defined.

Lemma pool_does_not_panic_witness :
  is_Some (pooled_drop (fun _ => true) 5 (fun _ => false)
             (mkPooled (3%nat, false) false 7%nat true true) (world one_handle)).
Proof.
  destruct (pool_does_not_panic sample_config true None one_handle) as (_ & H & _);
    [reflexivity | vm_compute; discriminate | apply one_handle_reachable | apply H; left].
Defined.

(** A request parked while another one dials. *)
Definition two_callers : @System sample_conn nat _ _ :=
  let i : @Inner sample_conn nat _ _ :=
    mkInner ∅ {[7%nat := 1]} ∅ 4 1 {[7%nat := [0%nat]]} false true (Some 90) in
  mkSystem (mkWorld (Some i) {[0%nat := Waiting]} 1 None) [mkConnecting 7%nat true true] []
    [mkCheckout 7%nat (Some 0%nat)] [].

Lemma two_callers_reachable : reachable sample_start two_callers.
Proof.
  assert (H : reachable sample_start (mkSystem (world sample_start) [] [] [] [])) by apply reach_start.
  advance H (step_checkout 7%nat). simpl app in H.
  advance H (step_checkout_idle (fun _ => true) 0 _ _ _ [] _ []).
  advance H (step_connecting 7%nat Auto).
  exact H.
Qed.

Lemma parked_checkout_is_reachable_witness :
  exists i, inner (world two_callers) = Some i /\ 0%nat ∈ queue i 7%nat /\
    forall g, g ∈ guards two_callers -> cn_key g = 7%nat ->
      exists w', connecting_drop g (world two_callers) = Some w' /\ channels w' !! 0%nat = Some SenderDropped.
Proof.
  apply (parked_checkout_is_reachable sample_config true None two_callers (mkCheckout 7%nat (Some 0%nat)) 0%nat);
    [reflexivity | vm_compute; discriminate | apply two_callers_reachable | left | reflexivity | reflexivity].
Defined.

Lemma lost_slots_block_origin_witness :
  exists s, reachable sample_start s /\ fst (connecting 7%nat Http1 (world s)) = None.
Proof.
  destruct evicted_slot_is_lost as (s & i & Hr & Hi & Hs). exists s. split; [exact Hr|].
  destruct (lost_slots_block_origin sample_config true None s s i 7%nat) as (i' & _ & _ & _ & H);
    [reflexivity | vm_compute; discriminate | exact Hr | exact Hi | apply reach_start|].
  apply H; [exact Hs | discriminate].
Defined.

End PoolSystem.
