(* ===== verification/AsyncIo.v ===== *)
(** * Poll-based I/O ([h12tiny-core], [io.rs])

    [crates/h12tiny-core/src/io.rs]: the adapters [FuturesIo] and [HyperIo]
    between the traits [futures_io::AsyncRead] and [hyper::rt::Read], which are
    the classes [AsyncRead] and [HyperRead].  A futures-io reader gets a slice
    and reports a count; a Hyper reader gets a cursor into a buffer with a
    capacity.  [Script] is a reader that plays any sequence of segments, errors
    and not-ready answers. *)

From Stdlib Require Import ZArith Lia String.
From Stdlib Require Import Strings.Byte.
From stdpp Require Import base option list.
From S2P Require Import Prelude Bytes Stream.

Open Scope Z_scope.

Module AsyncIo.

(** [futures_io::AsyncRead]: the reported count and the bytes of the slice
    after the call.  A faulty reader may report more than the slice holds. *)
Class AsyncRead (S : Type) :=
  async_poll_read : nat -> S -> poll (result (nat * bytes) io_error) * S.

(** [hyper::rt::ReadBuf]: the filled part of a buffer of a fixed capacity. *)
Record ReadBuf := mkReadBuf { filled : bytes; capacity : nat }.
Definition remaining (b : ReadBuf) : nat := capacity b - length (filled b).
Definition put_slice (s : bytes) (b : ReadBuf) : ReadBuf := mkReadBuf (filled b ++ s) (capacity b).

(** [hyper::rt::Read]. *)
Class HyperRead (S : Type) :=
  hyper_poll_read : ReadBuf -> S -> poll (result () io_error) * ReadBuf * S.

Record FuturesIo (S : Type) := mkFuturesIo { fio_inner : S }.
Arguments mkFuturesIo {S} _.
Arguments fio_inner {S} _.
Record HyperIo (S : Type) := mkHyperIo { hio_inner : S }.
Arguments mkHyperIo {S} _.
Arguments hio_inner {S} _.

Definition too_many := mkIoError InvalidData "futures-io AsyncRead returned more bytes than requested".

(** [impl hyper::rt::Read for FuturesIo<T>]. *)
Definition futures_io_poll_read {S} `{AsyncRead S} (buf : ReadBuf) (io : FuturesIo S)
    : poll (result () io_error) * ReadBuf * FuturesIo S :=
  if (remaining buf =? 0)%nat then (Ready (Ok ()), buf, io)
  else
    let capacity := remaining buf in
    let '(r, inner) := async_poll_read capacity (fio_inner io) in
    let io := mkFuturesIo inner in
    match r with
    | Ready (Ok (n, dst)) =>
        if (capacity <? n)%nat then (Ready (Err too_many), buf, io)
        else (Ready (Ok ()), put_slice (take n dst) buf, io)
    | Ready (Err error) => (Ready (Err error), buf, io)
    | Pending => (Pending, buf, io)
    end.
#[export] Instance futures_io_read {S} `{AsyncRead S} : HyperRead (FuturesIo S) :=
  futures_io_poll_read.

(** [impl futures_io::AsyncRead for HyperIo<T>]; the bytes of the slice beyond
    the filled part are not touched. *)
Definition hyper_io_poll_read {S} `{HyperRead S} (len : nat) (io : HyperIo S)
    : poll (result (nat * bytes) io_error) * HyperIo S :=
  if (len =? 0)%nat then (Ready (Ok (O, [])), io)
  else
    let '(r, buf, inner) := hyper_poll_read (mkReadBuf [] len) (hio_inner io) in
    (match r with
     | Ready (Ok _) => Ready (Ok (length (filled buf), filled buf))
     | Ready (Err error) => Ready (Err error)
     | Pending => Pending
     end, mkHyperIo inner).
#[export] Instance hyper_io_read {S} `{HyperRead S} : AsyncRead (HyperIo S) := hyper_io_poll_read.

(** ** The write halves *)

(** [futures_io::AsyncWrite]. *)
Class AsyncWrite (S : Type) := {
  async_poll_write : bytes -> S -> poll (result nat io_error) * S;
  async_poll_write_vectored : list bytes -> S -> poll (result nat io_error) * S;
  async_poll_flush : S -> poll (result () io_error) * S;
  async_poll_close : S -> poll (result () io_error) * S
}.

(** [hyper::rt::Write]. *)
Class HyperWrite (S : Type) := {
  hyper_poll_write : bytes -> S -> poll (result nat io_error) * S;
  hyper_poll_write_vectored : list bytes -> S -> poll (result nat io_error) * S;
  hyper_poll_flush : S -> poll (result () io_error) * S;
  hyper_poll_shutdown : S -> poll (result () io_error) * S;
  hyper_is_write_vectored : S -> bool
}.

(** Running an operation on the wrapped stream. *)
Definition through {S W R} (unwrap : W -> S) (wrap : S -> W) (op : S -> R * S) (w : W) : R * W :=
  let '(r, s) := op (unwrap w) in (r, wrap s).

(** [impl hyper::rt::Write for FuturesIo<T>]: shutdown is [poll_close], and
    every stream is reported as vectored. *)
#[export] Instance futures_io_write {S} `{AsyncWrite S} : HyperWrite (FuturesIo S) := {|
  hyper_poll_write buf := through fio_inner mkFuturesIo (async_poll_write buf);
  hyper_poll_write_vectored bufs := through fio_inner mkFuturesIo (async_poll_write_vectored bufs);
  hyper_poll_flush := through fio_inner mkFuturesIo async_poll_flush;
  hyper_poll_shutdown := through fio_inner mkFuturesIo async_poll_close;
  hyper_is_write_vectored _ := true
|}.

(** [impl futures_io::AsyncWrite for HyperIo<T>]. *)
#[export] Instance hyper_io_write {S} `{HyperWrite S} : AsyncWrite (HyperIo S) := {|
  async_poll_write buf := through hio_inner mkHyperIo (hyper_poll_write buf);
  async_poll_write_vectored bufs := through hio_inner mkHyperIo (hyper_poll_write_vectored bufs);
  async_poll_flush := through hio_inner mkHyperIo hyper_poll_flush;
  async_poll_close := through hio_inner mkHyperIo hyper_poll_shutdown
|}.

(** ** Scripted readers *)
Inductive rx_async :=
| APending
| AData (b : bytes)
| AErr (e : io_error).

Definition Script : Type := list rx_async.

(** At most [n] bytes of the next segment; end of file after the last one. *)
Definition script_read (n : nat) (s : Script) : poll (result bytes io_error) * Script :=
  match s with
  | [] => (Ready (Ok []), [])
  | APending :: rest => (Pending, rest)
  | AErr e :: rest => (Ready (Err e), rest)
  | AData b :: rest =>
      (Ready (Ok (take n b)), match drop n b with [] => rest | b' => AData b' :: rest end)
  end.

#[export] Instance script_async : AsyncRead Script := fun n s =>
  let '(r, s') := script_read n s in
  (match r with
   | Ready (Ok b) => Ready (Ok (length b, b))
   | Ready (Err e) => Ready (Err e)
   | Pending => Pending
   end, s').

#[export] Instance script_hyper : HyperRead Script := fun buf s =>
  let '(r, s') := script_read (remaining buf) s in
  match r with
  | Ready (Ok b) => (Ready (Ok ()), put_slice b buf, s')
  | Ready (Err e) => (Ready (Err e), buf, s')
  | Pending => (Pending, buf, s')
  end.

(** A script without errors and without empty segments, and its bytes. *)
Definition event_ok (e : rx_async) : Prop :=
  match e with AErr _ | AData [] => False | _ => True end.
Definition script_ok (s : Script) : Prop := Forall event_ok s.
Definition event_bytes (e : rx_async) : bytes := match e with AData b => b | _ => [] end.
Definition script_bytes (s : Script) : bytes := concat (map event_bytes s).
Definition pendings (s : Script) : nat :=
  length (List.filter (fun e => match e with APending => true | _ => false end) s).

(** One read of a well-behaved script. *)
Lemma script_read_ok n s :
  (0 < n)%nat -> script_ok s ->
  exists r s', script_read n s = (r, s') /\ script_ok s' /\
    match r with
    | Pending => script_bytes s' = script_bytes s /\ S (pendings s') = pendings s
    | Ready (Ok b) => script_bytes s = b ++ script_bytes s' /\ (length b <= n)%nat /\
        pendings s' = pendings s /\ (b = [] -> script_bytes s = [])
    | Ready (Err _) => False
    end.
Proof.
  intros Hn Hs. destruct Hs as [|[|b|e] s He Hs]; simpl.
  - exists (Ready (Ok [])), []. split_and!; try done; [constructor | simpl; lia].
  - exists Pending, s. done.
  - eexists _, _. split; [done|]. split.
    + destruct (drop n b) eqn:E; [done|]. by constructor.
    + split_and!.
      * unfold script_bytes. simpl. destruct (drop n b) eqn:E; simpl;
          rewrite <- (take_drop n b) at 1; rewrite E, ?app_nil_r, <- ?app_assoc; done.
      * rewrite length_take. lia.
      * by destruct (drop n b).
      * intros E. destruct b; [done|]. by apply take_nonempty in E.
  - done.
Qed.

(** ** Properties *)

(** A reader that keeps its contract: it never reports more than it was given
    room for, and the slice holds what it reports. *)
Class AsyncReadLaws (S : Type) `{AsyncRead S} := {
  async_count n s r s' : async_poll_read n s = (Ready (Ok r), s') ->
    (fst r <= n)%nat /\ (fst r <= length (snd r))%nat
}.

#[export] Instance script_async_laws : AsyncReadLaws Script.
Proof.
  split. intros n s r s'. unfold async_poll_read, script_async, script_read.
  destruct s as [|[|b|e] s]; intros [= <- <-]; simpl; rewrite ?length_take; lia.
Qed.

(** Whatever the wrapped reader does, the adapter stays inside the buffer: a
    poll appends at most the free space to the filled part and keeps what was
    there; a not-ready answer or an error appends nothing; a reader that
    claims more bytes than it was offered is reported as [InvalidData]; and a
    full buffer does not reach the reader at all. *)
Theorem futures_io_stays_in_bounds {S} `{AsyncRead S} (buf : ReadBuf) (io : FuturesIo S) :
  (length (filled buf) <= capacity buf)%nat ->
  exists r s io', hyper_poll_read buf io = (r, put_slice s buf, io') /\
    (length (filled buf) + length s <= capacity buf)%nat /\
    (r <> Ready (Ok ()) -> s = []) /\
    (remaining buf = O -> io' = io) /\
    (forall n dst inner, remaining buf <> O ->
       async_poll_read (remaining buf) (fio_inner io) = (Ready (Ok (n, dst)), inner) ->
       if (remaining buf <? n)%nat then r = Ready (Err too_many)
       else r = Ready (Ok ()) /\ s = take n dst).
Proof.
  intros Hb. unfold hyper_poll_read, futures_io_read, futures_io_poll_read.
  assert (forall b, put_slice [] b = b) as Hnil by (intros [f c]; unfold put_slice; simpl; by rewrite app_nil_r).
  destruct (remaining buf =? 0)%nat eqn:E0.
  { apply Nat.eqb_eq in E0. exists (Ready (Ok ())), [], io. rewrite Hnil. split_and!; try done; try (simpl; lia);
      intros; exfalso; lia. }
  apply Nat.eqb_neq in E0.
  destruct (async_poll_read (remaining buf) (fio_inner io)) as [[|[[n dst]|e]] inner].
  - exists Pending, [], (mkFuturesIo inner). rewrite Hnil. split_and!; try done; try (simpl; lia).
  - destruct (remaining buf <? n)%nat eqn:En.
    + exists (Ready (Err too_many)), [], (mkFuturesIo inner). rewrite Hnil.
      split_and!; try done; try (simpl; lia); intros n' dst' inner' _ [= <- <- <-]; by rewrite En.
    + exists (Ready (Ok ())), (take n dst), (mkFuturesIo inner). split_and!; try done.
      * apply Nat.ltb_ge in En. rewrite length_take. unfold remaining in *. lia.
      * intros n' dst' inner' _ [= <- <- <-]. by rewrite En.
  - exists (Ready (Err e)), [], (mkFuturesIo inner). rewrite Hnil. split_and!; try done; try (simpl; lia).
Qed.

(** C38. Wrapping a well-behaved futures-io reader for Hyper and back again gives
    the reader one started with, reads of no bytes apart. *)
Theorem hyper_io_futures_io {S} `{AsyncReadLaws S} (n : nat) (s : S) :
  (0 < n)%nat ->
  match async_poll_read n s, async_poll_read n (mkHyperIo (mkFuturesIo s)) with
  | (Ready (Ok (k, dst)), s1), (Ready (Ok (k', dst')), s2) =>
      k' = k /\ dst' = take k dst /\ s2 = mkHyperIo (mkFuturesIo s1)
  | (Ready (Err e), s1), (Ready (Err e'), s2) => e' = e /\ s2 = mkHyperIo (mkFuturesIo s1)
  | (Pending, s1), (Pending, s2) => s2 = mkHyperIo (mkFuturesIo s1)
  | _, _ => False
  end.
Proof.
  intros Hn. change (async_poll_read n (mkHyperIo (mkFuturesIo s)))
    with (hyper_io_poll_read n (mkHyperIo (mkFuturesIo s))). unfold hyper_io_poll_read.
  destruct (n =? 0)%nat eqn:E; [apply Nat.eqb_eq in E; lia|].
  unfold hyper_poll_read, futures_io_read, futures_io_poll_read, remaining. simpl.
  rewrite Nat.sub_0_r, E.
  destruct (async_poll_read n s) as [[|[[k dst]|e]] s1] eqn:Er; try done.
  destruct (async_count _ _ _ _ Er) as [Hk Hd]. simpl in *.
  destruct (n <? k)%nat eqn:Ek; [apply Nat.ltb_lt in Ek; lia|].
  unfold put_slice. cbn [filled app]. rewrite length_take. split; [lia | done].
Qed.

Lemma futures_io_stays_in_bounds_witness :
  exists r s io', hyper_poll_read (mkReadBuf (bs "ab") 4) (mkFuturesIo [AData (bs "cdef")] : FuturesIo Script)
      = (r, put_slice s (mkReadBuf (bs "ab") 4), io') /\ (2 + length s <= 4)%nat.
Proof.
  destruct (futures_io_stays_in_bounds (mkReadBuf (bs "ab") 4) (mkFuturesIo [AData (bs "cdef")] : FuturesIo Script))
    as (r & s & io' & E & Hl & _); [simpl; lia|]. by exists r, s, io'.
Defined.

Lemma hyper_io_futures_io_witness :
  snd (async_poll_read 2 (mkHyperIo (mkFuturesIo ([AData (bs "cdef")] : Script))))
    = mkHyperIo (mkFuturesIo [AData (bs "ef")]).
Proof.
  pose proof (hyper_io_futures_io 2 ([AData (bs "cdef")] : Script) ltac:(lia)) as H.
  apply H.
Defined.

End AsyncIo.
