(* ===== verification/ServerAuto.v ===== *)
(** * Protocol selection of the server ([h12tiny-server], [conn/auto.rs])

    [crates/h12tiny-server/src/conn/auto.rs]: the detector [ReadVersion] reads
    until the bytes differ from the HTTP/2 preface or match all of it, [Rewind]
    replays what was read, and [Connection] starts the Hyper connection of the
    detected, configured or ALPN-negotiated protocol.  Hyper's connections are
    the parameters of [Hyper]; the crate features are the booleans of
    [Features].  An outer [None] is a panic. *)

From Stdlib Require Import ZArith Lia String.
From Stdlib Require Import Strings.Byte.
From stdpp Require Import base option list.
From S2P Require Import Prelude Bytes Stream AsyncIo.

Open Scope Z_scope.

Module ServerAuto.
Import AsyncIo.AsyncIo.

Definition H2_PREFACE : bytes :=
  bs "PRI * HTTP/2.0" ++ CRLF ++ CRLF ++ bs "SM" ++ CRLF ++ CRLF.

Inductive Version := H1 | H2.
#[export] Instance Version_eq_dec : EqDecision Version.
Proof. solve_decision. Defined.

(** ** [Rewind] *)
Record Rewind (S : Type) := mkRewind { pre : option bytes; rw_inner : S }.
Arguments mkRewind {S} _ _.
Arguments pre {S} _.
Arguments rw_inner {S} _.

Definition new_buffered {S} (inner : S) (p : bytes) : Rewind S := mkRewind (Some p) inner.

Definition rewind_poll_read {S} `{HyperRead S} (buf : ReadBuf) (r : Rewind S)
    : poll (result () io_error) * ReadBuf * Rewind S :=
  let through :=
    let '(res, buf', inner) := hyper_poll_read buf (rw_inner r) in
    (res, buf', mkRewind None inner) in
  match pre r with
  | Some (x :: p) =>
      let prefix := x :: p in
      let copy_len := Nat.min (length prefix) (remaining buf) in
      let left := drop copy_len prefix in
      (Ready (Ok ()), put_slice (take copy_len prefix) buf,
       mkRewind (match left with [] => None | _ => Some left end) (rw_inner r))
  | _ => through
  end.
#[export] Instance rewind_read {S} `{HyperRead S} : HyperRead (Rewind S) := rewind_poll_read.

(** [impl Write for Rewind<T>]: writes go to the transport; the replay buffer
    is left alone. *)
Definition rewind_through {S R} (op : S -> R * S) (r : Rewind S) : R * Rewind S :=
  through rw_inner (mkRewind (pre r)) op r.
#[export] Instance rewind_write {S} `{HyperWrite S} : HyperWrite (Rewind S) := {|
  hyper_poll_write buf := rewind_through (hyper_poll_write buf);
  hyper_poll_write_vectored bufs := rewind_through (hyper_poll_write_vectored bufs);
  hyper_poll_flush := rewind_through hyper_poll_flush;
  hyper_poll_shutdown := rewind_through hyper_poll_shutdown;
  hyper_is_write_vectored r := hyper_is_write_vectored (rw_inner r)
|}.

(** ** [ReadVersion] *)
Record ReadVersion (S : Type) := mkReadVersion {
  rv_io : option S;
  rv_filled : bytes;       (* the filled part of the 24-byte buffer *)
  rv_cancelled : bool
}.
Arguments mkReadVersion {S} _ _ _.
Arguments rv_io {S} _.
Arguments rv_filled {S} _.
Arguments rv_cancelled {S} _.

Definition read_version {S} (io : S) : ReadVersion S := mkReadVersion (Some io) [] false.

Definition cancel {S} (r : ReadVersion S) : ReadVersion S :=
  mkReadVersion (rv_io r) (rv_filled r) true.

Definition detection_cancelled := mkIoError Interrupted "HTTP protocol detection cancelled".

(** The [while] loop of [poll]: the decision (or not-ready, or the error), the
    reader and the filled part. *)
Fixpoint detect_loop {S} `{HyperRead S} (fuel : nat) (io : S) (buf : bytes)
    : option (poll (result Version io_error) * S * bytes) :=
  if (length buf <? length H2_PREFACE)%nat then
    match fuel with
    | O => None
    | Datatypes.S fuel' =>
        let before := length buf in
        match hyper_poll_read (mkReadBuf buf 24) io with
        | (Pending, _, io') => Some (Pending, io', buf)
        | (Ready (Err e), _, io') => Some (Ready (Err e), io', buf)
        | (Ready (Ok _), rb, io') =>
            let now := length (filled rb) in
            if (now =? before)%nat
               || negb (bytes_eqb (drop before (filled rb)) (take (now - before) (drop before H2_PREFACE)))
            then Some (Ready (Ok H1), io', filled rb)
            else detect_loop fuel' io' (filled rb)
        end
    end
  else Some (Ready (Ok H2), io, buf).

(** [impl Future for ReadVersion]: an iteration adds at least one byte. *)
Definition read_version_poll {S} `{HyperRead S} (r : ReadVersion S)
    : option (poll (result (Version * Rewind S) io_error) * ReadVersion S) :=
  if rv_cancelled r then Some (Ready (Err detection_cancelled), r)
  else
    io ← rv_io r;
    '(d, io, buf) ← detect_loop (length H2_PREFACE) io (rv_filled r);
    Some match d with
         | Pending => (Pending, mkReadVersion (Some io) buf (rv_cancelled r))
         | Ready (Err e) => (Ready (Err e), mkReadVersion (Some io) buf (rv_cancelled r))
         | Ready (Ok v) =>
             (Ready (Ok (v, new_buffered io buf)), mkReadVersion None buf (rv_cancelled r))
         end.

(** ** Connections *)
Record Features := mkFeatures { f_http1 : bool; f_http2 : bool }.

(** What the crate uses of Hyper's server connections. *)
Record Hyper (IO Service : Type) := mkHyper {
  h1_config : Type;
  h2_config : Type;
  h1_conn : Type;
  h2_conn : Type;
  h1_serve : h1_config -> Rewind IO -> Service -> h1_conn;
  h2_serve : h2_config -> Rewind IO -> Service -> h2_conn;
  h1_poll : h1_conn -> poll (result () io_error) * h1_conn;
  h2_poll : h2_conn -> poll (result () io_error) * h2_conn;
  h1_shutdown : h1_conn -> h1_conn;
  h2_shutdown : h2_conn -> h2_conn
}.

Definition unsupported (v : Version) : io_error :=
  mkIoError Unsupported
    match v with H1 => "HTTP/1 is not supported" | H2 => "HTTP/2 is not supported" end.

Section Connection.
Context {IO Service : Type} `{HyperRead IO} (ft : Features) (hy : Hyper IO Service).

Record Builder := mkBuilder {
  http1 : h1_config _ _ hy;
  http2 : h2_config _ _ hy;
  version : option Version
}.

(** The [assert!] of both restrictions. *)
Definition http1_only (b : Builder) : option Builder :=
  match version b with None => Some (mkBuilder (http1 b) (http2 b) (Some H1)) | Some _ => None end.
Definition http2_only (b : Builder) : option Builder :=
  match version b with None => Some (mkBuilder (http1 b) (http2 b) (Some H2)) | Some _ => None end.

Definition is_http1_available (b : Builder) : bool :=
  match version b with
  | Some H1 => f_http1 ft
  | Some H2 => false
  | None => f_http1 ft
  end.
Definition is_http2_available (b : Builder) : bool :=
  match version b with
  | Some H1 => false
  | Some H2 => f_http2 ft
  | None => f_http2 ft
  end.

(** [Builder::new]. *)
Definition builder_new (h1 : h1_config _ _ hy) (h2 : h2_config _ _ hy) : Builder :=
  mkBuilder h1 h2 None.

Inductive ConnState :=
| CReadVersion (rv : ReadVersion IO) (builder : Builder) (service : option Service)
| CH1 (conn : h1_conn _ _ hy)
| CH2 (conn : h2_conn _ _ hy)
| CUnsupported (error : option io_error).

(** Starting the connection of a protocol, or its [Unsupported] state. *)
Definition start (b : Builder) (v : Version) (io : Rewind IO) (s : Service) : ConnState :=
  match v with
  | H1 => if f_http1 ft then CH1 (h1_serve _ _ hy (http1 b) io s) else CUnsupported (Some (unsupported H1))
  | H2 => if f_http2 ft then CH2 (h2_serve _ _ hy (http2 b) io s) else CUnsupported (Some (unsupported H2))
  end.

Definition serve_connection (b : Builder) (io : IO) (s : Service) : ConnState :=
  match version b with
  | Some v => start b v (new_buffered io []) s
  | None => CReadVersion (read_version io) b (Some s)
  end.

Definition unexpected_alpn := mkIoError InvalidData "unexpected TLS ALPN protocol".

(** [serve_tls_connection], with the ALPN protocol of the handshaken stream. *)
Definition serve_tls_connection (b : Builder) (alpn : option bytes) (io : IO) (s : Service)
    : option (result ConnState io_error) :=
  let h1 := if f_http1 ft then b ← http1_only b; Some (Ok (serve_connection b io s))
            else Some (Err (unsupported H1)) in
  match alpn with
  | Some p =>
      if bytes_eqb p (bs "h2") then
        if f_http2 ft then b ← http2_only b; Some (Ok (serve_connection b io s))
        else Some (Err (unsupported H2))
      else if bytes_eqb p (bs "http/1.1") then h1
      else Some (Err unexpected_alpn)
  | None => h1
  end.

Definition graceful_shutdown (c : ConnState) : ConnState :=
  match c with
  | CReadVersion rv b s => CReadVersion (cancel rv) b s
  | CH1 conn => if f_http1 ft then CH1 (h1_shutdown _ _ hy conn) else c
  | CH2 conn => if f_http2 ft then CH2 (h2_shutdown _ _ hy conn) else c
  | CUnsupported _ => c
  end.

(** [Connection::into_owned]: the builder is cloned, nothing else changes. *)
Definition into_owned (c : ConnState) : ConnState :=
  match c with
  | CReadVersion rv builder service => CReadVersion rv builder service
  | CH1 conn => CH1 conn
  | CH2 conn => CH2 conn
  | CUnsupported error => CUnsupported error
  end.

(** The states after detection are polled as they are. *)
Definition poll_started (c : ConnState) : option (poll (result () io_error) * ConnState) :=
  match c with
  | CReadVersion _ _ _ => None
  | CH1 conn =>
      Some (if f_http1 ft then
              let '(r, conn) := h1_poll _ _ hy conn in (r, CH1 conn)
            else (Ready (Err (unsupported H1)), c))
  | CH2 conn =>
      Some (if f_http2 ft then
              let '(r, conn) := h2_poll _ _ hy conn in (r, CH2 conn)
            else (Ready (Err (unsupported H2)), c))
  | CUnsupported error => e ← error; Some (Ready (Err e), CUnsupported None)
  end.

(** [impl Future for Connection]: the loop runs once more after detection. *)
Definition connection_poll (c : ConnState) : option (poll (result () io_error) * ConnState) :=
  match c with
  | CReadVersion rv builder service =>
      '(r, rv) ← read_version_poll rv;
      match r with
      | Pending => Some (Pending, CReadVersion rv builder service)
      | Ready (Err e) => Some (Ready (Err e), CReadVersion rv builder service)
      | Ready (Ok (v, io)) =>
          s ← service;
          poll_started (start builder v io s)
      end
  | _ => poll_started c
  end.

(** ** Views of the configuration

    [Http1Builder] and [Http2Builder] forward each setting to Hyper's builder of
    that protocol. *)
Inductive Http1Setting :=
| KeepAlive (enabled : bool) | HalfClose (enabled : bool) | TitleCaseHeaders (enabled : bool)
| PreserveHeaderCase (enabled : bool) | MaxBufSize (max : Z) | AutoDateHeader1 (enabled : bool) | Timer1.
Inductive Http2Setting :=
| InitialStreamWindowSize (size : option Z) | InitialConnectionWindowSize (size : option Z)
| AdaptiveWindow (enabled : bool) | MaxConcurrentStreams (max : option Z)
| AutoDateHeader2 (enabled : bool) | Timer2.
Context (h1_set : Http1Setting -> h1_config _ _ hy -> h1_config _ _ hy).
Context (h2_set : Http2Setting -> h2_config _ _ hy -> h2_config _ _ hy).

Definition http1_view (s : Http1Setting) (b : Builder) : Builder := mkBuilder (h1_set s (http1 b)) (http2 b) (version b).
Definition http2_view (s : Http2Setting) (b : Builder) : Builder := mkBuilder (http1 b) (h2_set s (http2 b)) (version b).

(** Settings of one protocol do not touch the other or the restriction, so the
    two views commute. *)
Lemma views_commute s1 s2 b : http1_view s1 (http2_view s2 b) = http2_view s2 (http1_view s1 b).
Proof. done. Qed.

Lemma into_owned_poll c : connection_poll (into_owned c) = connection_poll c.
Proof. by destruct c. Qed.
End Connection.
(** ** Detection *)

(** Polling until an answer is ready. *)
Fixpoint drive {S} `{HyperRead S} (fuel : nat) (r : ReadVersion S)
    : option (result (Version * Rewind S) io_error) :=
  match fuel with
  | O => None
  | Datatypes.S fuel' =>
      '(p, r') ← read_version_poll r;
      match p with Pending => drive fuel' r' | Ready a => Some a end
  end.

Lemma preface_length : length H2_PREFACE = 24%nat.
Proof. reflexivity. Qed.

(** The bytes [buf] are the beginning of the preface. *)
Definition on_track (buf : bytes) : Prop := buf `prefix_of` H2_PREFACE.

Lemma prefix_same_length {A} (l k r : list A) : l `prefix_of` r -> k `prefix_of` r -> length l = length k -> l = k.
Proof.
  intros [x ->] [y E] Hl. apply app_inj_1 in E as [-> _]; done.
Qed.

Lemma on_track_extend buf s :
  on_track buf -> (length buf + length s <= 24)%nat ->
  on_track (buf ++ s) <-> s = take (length s) (drop (length buf) H2_PREFACE).
Proof.
  intros [r Hr] Hl. unfold on_track. pose proof preface_length as Hp.
  rewrite Hr in Hp |- *. rewrite length_app in Hp. rewrite drop_app_length. split.
  - intros [x E]. rewrite <- app_assoc in E. apply app_inv_head in E as ->. by rewrite take_app_length.
  - intros ->. exists (drop (length s) r). rewrite <- app_assoc. f_equal. by rewrite take_drop.
Qed.

Lemma off_track_stays buf s : ~ on_track buf -> (length buf <= 24)%nat -> ~ H2_PREFACE `prefix_of` (buf ++ s).
Proof.
  intros Hn Hl Hp. apply Hn. destruct Hp as [x E]. symmetry in E.
  apply app_split_le in E as (r & Er & _); [by exists r | by rewrite preface_length].
Qed.

(** The outcome of the detector's loop on a well-behaved reader. *)
Lemma detect_loop_ok fuel (sc : Script) buf :
  script_ok sc -> on_track buf -> (24 <= length buf + fuel)%nat ->
  exists d sc' buf', detect_loop fuel sc buf = Some (d, sc', buf') /\ script_ok sc' /\
    buf' ++ script_bytes sc' = buf ++ script_bytes sc /\ (length buf' <= 24)%nat /\
    match d with
    | Pending => on_track buf' /\ (pendings sc' < pendings sc)%nat
    | Ready (Ok H2) => buf' = H2_PREFACE
    | Ready (Ok H1) => ~ H2_PREFACE `prefix_of` (buf ++ script_bytes sc)
    | Ready (Err _) => False
    end.
Proof.
  revert sc buf. induction fuel as [|fuel IH]; intros sc buf Hok Ht Hf; cbn [detect_loop];
    pose proof (prefix_length _ _ Ht) as Hl; rewrite preface_length in *;
    (destruct (length buf <? 24)%nat eqn:E;
     [apply Nat.ltb_lt in E | apply Nat.ltb_ge in E;
      eexists _, _, _; split; [done|]; split; [done|]; split; [done|]; split; [lia|];
      apply (prefix_same_length _ _ H2_PREFACE); [done | done | rewrite preface_length; lia]]); [lia|].
  unfold hyper_poll_read, script_hyper, remaining. cbn [filled capacity].
  destruct (script_read_ok (24 - length buf) sc ltac:(lia) Hok) as (r & sc' & -> & Hok' & Hr).
  destruct r as [|[s|e]]; [| |done].
  - destruct Hr as [Eb Ep]. exists Pending, sc', buf. rewrite Eb. split_and!; try done. lia.
  - destruct Hr as (Eb & Hs & Ep & Hnil). cbn [put_slice filled]. rewrite length_app.
    rewrite drop_app_length, Nat.add_comm, Nat.add_sub.
    destruct ((length s + length buf =? length buf)%nat || _) eqn:Ec.
    + eexists _, sc', (buf ++ s). split; [done|]. split; [done|]. rewrite Eb, <- app_assoc.
      split; [done|]. split; [rewrite length_app; lia|].
      apply orb_true_iff in Ec as [Ec|Ec].
      * apply Nat.eqb_eq in Ec. destruct s; [|simpl in Ec; lia]. specialize (Hnil eq_refl).
        rewrite Hnil in Eb. simpl in Eb. rewrite <- Eb. simpl. rewrite app_nil_r.
        intros Hp%prefix_length. rewrite preface_length in Hp. lia.
      * rewrite app_assoc. apply off_track_stays; [|rewrite length_app; lia].
        rewrite on_track_extend by (done || lia). apply negb_true_iff, bool_decide_eq_false in Ec. done.
    + apply orb_false_iff in Ec as [Ec1 Ec2]. apply Nat.eqb_neq in Ec1.
      apply negb_false_iff, bool_decide_eq_true in Ec2.
      destruct (IH sc' (buf ++ s) Hok') as (d & sc2 & buf2 & E2 & Hok2 & Eq2 & Hl2 & Hd);
        [by apply on_track_extend; [|lia|]|rewrite length_app; lia|].
      exists d, sc2, buf2. split; [exact E2|]. rewrite Eq2, Eb, <- app_assoc. split_and!; try done.
      destruct d as [|[[]|]]; try done.
      * destruct Hd. split; [done | lia].
      * rewrite <- app_assoc in Hd. done.
Qed.

Lemma drive_ok fuel (sc : Script) buf :
  script_ok sc -> on_track buf -> (pendings sc < fuel)%nat ->
  exists v p sc', drive fuel (mkReadVersion (Some sc) buf false) = Some (Ok (v, new_buffered sc' p)) /\
    script_ok sc' /\ p ++ script_bytes sc' = buf ++ script_bytes sc /\ (length p <= 24)%nat /\
    (v = H2 <-> H2_PREFACE `prefix_of` (buf ++ script_bytes sc)).
Proof.
  revert sc buf. induction fuel as [|fuel IH]; intros sc buf Hok Ht Hf; [lia|]. cbn [drive].
  unfold read_version_poll. cbn [rv_cancelled rv_io rv_filled]. rewrite some_bind.
  destruct (detect_loop_ok (length H2_PREFACE) sc buf Hok Ht) as (d & sc' & buf' & -> & Hok' & Eq & Hl & Hd);
    [rewrite preface_length; lia|].
  rewrite some_bind. destruct d as [|[[]|]]; [| | |done].
  - destruct Hd as [Ht' Hp]. rewrite some_bind. rewrite <- Eq. apply IH; [done | done | lia].
  - exists H1, buf', sc'. split_and!; try done; by split.
  - exists H2, buf', sc'. split_and!; try done. subst buf'. split; [|done]. intros _.
    rewrite <- Eq. by apply prefix_app_r.
Qed.

(** C13. Protocol detection is exact: however the network cuts the bytes and
    whenever the reader is not ready, the detector chooses HTTP/2 exactly when
    the connection begins with the 24-byte preface, and the bytes it consumed
    plus the bytes still unread are the bytes received: the chosen parser sees
    the connection from its first byte. *)
Theorem detection_is_exact (sc : Script) fuel :
  script_ok sc -> (pendings sc < fuel)%nat ->
  exists v p sc', drive fuel (read_version sc) = Some (Ok (v, new_buffered sc' p)) /\
    p ++ script_bytes sc' = script_bytes sc /\ (length p <= 24)%nat /\
    (v = H2 <-> H2_PREFACE `prefix_of` script_bytes sc).
Proof.
  intros Hok Hf. destruct (drive_ok fuel sc [] Hok (prefix_nil _) Hf) as (v & p & sc' & E & _ & Eq & Hl & Hv).
  by exists v, p, sc'.
Qed.

(** ** Replay *)

(** Reading with buffers of the given sizes until end of file. *)
Fixpoint drain {S} `{HyperRead S} (caps : list nat) (s : S) : bytes :=
  match caps with
  | [] => []
  | n :: caps' =>
      match hyper_poll_read (mkReadBuf [] n) s with
      | (Pending, _, s') => drain caps' s'
      | (Ready (Err _), _, _) => []
      | (Ready (Ok _), rb, s') =>
          match filled rb with [] => [] | b => b ++ drain caps' s' end
      end
  end.

Lemma script_poll_read n (s : Script) :
  hyper_poll_read (mkReadBuf [] n) s =
    let '(r, s') := script_read n s in
    match r with
    | Ready (Ok b) => (Ready (Ok ()), mkReadBuf b n, s')
    | Ready (Err e) => (Ready (Err e), mkReadBuf [] n, s')
    | Pending => (Pending, mkReadBuf [] n, s')
    end.
Proof.
  unfold hyper_poll_read, script_hyper, remaining. cbn [filled capacity length].
  by rewrite Nat.sub_0_r.
Qed.

Lemma drain_script caps (o : option bytes) (sc : Script) :
  script_ok sc -> Forall (fun n => 0 < n)%nat caps ->
  (length (default [] o) + length (script_bytes sc) + pendings sc < length caps)%nat ->
  drain caps (mkRewind o sc) = default [] o ++ script_bytes sc.
Proof.
  intros Hok Hc. revert o sc Hok. induction Hc as [|n caps Hn _ IH]; intros o sc Hok Hl; [simpl in Hl; lia|].
  cbn [drain]. unfold hyper_poll_read, rewind_read, rewind_poll_read. cbn [pre rw_inner].
  assert (Hthrough : forall o', default [] o' = [] ->
    (length (script_bytes sc) + pendings sc < length (n :: caps))%nat ->
    match (let '(res, buf', inner) := hyper_poll_read (mkReadBuf [] n) sc in (res, buf', mkRewind None inner)) with
    | (Pending, _, s') => drain caps s'
    | (Ready (Err _), _, _) => []
    | (Ready (Ok _), rb, s') => match filled rb with [] => [] | b => b ++ drain caps s' end
    end = default [] o' ++ script_bytes sc).
  { intros o' -> Hl'. rewrite script_poll_read. destruct (script_read_ok n sc Hn Hok) as (r & sc' & -> & Hok' & Hr).
    destruct r as [|[s|e]]; [| |done]; cbv beta iota zeta.
    - destruct Hr as [Eb Ep]. rewrite (IH None sc' Hok'); [by rewrite Eb|]. simpl in *. rewrite Eb. lia.
    - destruct Hr as (Eb & _ & Ep & Hnil). cbn [put_slice filled app]. destruct s as [|x s].
      + by rewrite (Hnil eq_refl).
      + rewrite (IH None sc' Hok'); [by rewrite Eb|]. rewrite Eb in Hl'. simpl in *.
        rewrite length_app in Hl'. lia. }
  destruct o as [[|x p]|]; [by apply (Hthrough (Some [])) | | by apply (Hthrough None)].
  unfold remaining. cbn [filled capacity length put_slice app]. rewrite Nat.sub_0_r.
  destruct n as [|n]; [lia|]. cbn [Nat.min take drop app].
  set (k := Nat.min (length p) n).
  assert (default [] (match drop k p with [] => None | _ => Some (drop k p) end) = drop k p) as Ed
    by (by destruct (drop k p)).
  rewrite (IH _ sc Hok); rewrite Ed; [by rewrite app_comm_cons, app_assoc, <- app_comm_cons, take_drop|].
  simpl in Hl. rewrite length_drop. lia.
Qed.

(** The replayed connection reads as if nothing had been consumed, for every
    sequence of buffer sizes and every segmentation of the rest. *)
Theorem rewind_replays_exactly caps (p : bytes) (sc : Script) :
  script_ok sc -> Forall (fun n => 0 < n)%nat caps ->
  (length p + length (script_bytes sc) + pendings sc < length caps)%nat ->
  drain caps (new_buffered sc p) = p ++ script_bytes sc.
Proof. intros. by apply (drain_script caps (Some p)). Qed.

(** ** Dispatch *)
Section Dispatch.
Context {Service : Type} (ft : Features) (hy : Hyper Script Service).

(** Polling a connection until its protocol is decided. *)
Fixpoint poll_until (fuel : nat) (c : ConnState hy) : option (poll (result () io_error) * ConnState hy) :=
  match fuel with
  | O => None
  | Datatypes.S fuel' =>
      '(r, c') ← connection_poll ft hy c;
      match r, c' with
      | Pending, CReadVersion _ _ _ _ => poll_until fuel' c'
      | _, _ => Some (r, c')
      end
  end.

Lemma start_not_reading b v io (s : Service) rv b' s' : start ft hy b v io s <> CReadVersion hy rv b' s'.
Proof. destruct v; simpl; [destruct (f_http1 ft) | destruct (f_http2 ft)]; done. Qed.

Lemma poll_started_state c r c' rv b s :
  poll_started ft hy c = Some (r, c') -> c' <> CReadVersion hy rv b s.
Proof.
  destruct c; simpl; try done.
  - destruct (f_http1 ft); [destruct (h1_poll _ _ hy conn)|]; congruence.
  - destruct (f_http2 ft); [destruct (h2_poll _ _ hy conn)|]; congruence.
  - destruct error; simpl; congruence.
Qed.

Lemma poll_until_drive fuel rv b s v io :
  drive fuel rv = Some (Ok (v, io)) ->
  poll_until fuel (CReadVersion hy rv b (Some s)) = poll_started ft hy (start ft hy b v io s).
Proof.
  revert rv. induction fuel as [|fuel IH]; intros rv; [done|]. cbn [drive poll_until connection_poll].
  destruct (read_version_poll rv) as [[r rv']|]; [|done]. rewrite !some_bind.
  destruct r as [|[[v' io']|e]]; [| |done].
  - intros H. rewrite some_bind. by apply IH.
  - intros [= <- <-]. rewrite some_bind.
    destruct (poll_started ft hy (start ft hy b v' io' s)) as [[r c']|] eqn:E; [|done].
    rewrite some_bind. destruct r; [|done]. destruct c'; try done.
    exfalso. by eapply poll_started_state.
Qed.

Lemma dispatch_script b (sc : Script) s fuel :
  version hy b = None -> script_ok sc -> (pendings sc < fuel)%nat ->
  exists v p sc', poll_until fuel (serve_connection ft hy b sc s)
      = poll_started ft hy (start ft hy b v (new_buffered sc' p) s) /\
    p ++ script_bytes sc' = script_bytes sc /\ (v = H2 <-> H2_PREFACE `prefix_of` script_bytes sc).
Proof.
  intros Hb Hok Hf. destruct (drive_ok fuel sc [] Hok (prefix_nil _) Hf) as (v & p & sc' & E & _ & Eq & _ & Hv).
  exists v, p, sc'. split; [|done]. unfold serve_connection. rewrite Hb. by apply poll_until_drive.
Qed.

(** A cleartext connection of an unrestricted builder ends up with the parser
    of the protocol it speaks, on a stream that replays everything received;
    a protocol left out of the build is refused. *)
Theorem serve_connection_dispatches b (sc : Script) s fuel :
  version hy b = None -> script_ok sc -> (pendings sc < fuel)%nat ->
  exists v p sc', poll_until fuel (serve_connection ft hy b sc s)
      = poll_started ft hy (start ft hy b v (new_buffered sc' p) s) /\
    p ++ script_bytes sc' = script_bytes sc /\ (v = H2 <-> H2_PREFACE `prefix_of` script_bytes sc).
Proof. apply dispatch_script. Qed.

(** ALPN decides a TLS connection: [h2] and [http/1.1] start that protocol on
    the untouched stream, no ALPN means HTTP/1, anything else is refused, and
    the cleartext detector is never used.  On a builder that was restricted
    before, both supported choices panic in the [assert!] of the restriction. *)
Theorem serve_tls_connection_spec b alpn (io : Script) s :
  let both := f_http1 ft && f_http2 ft in
  both = true ->
  serve_tls_connection ft hy b alpn io s =
    match alpn with
    | Some p =>
        if bytes_eqb p (bs "h2") then
          (match version hy b with None => Some (Ok (start ft hy b H2 (new_buffered io []) s)) | Some _ => None end)
        else if bytes_eqb p (bs "http/1.1") then
          (match version hy b with None => Some (Ok (start ft hy b H1 (new_buffered io []) s)) | Some _ => None end)
        else Some (Err unexpected_alpn)
    | None =>
        match version hy b with None => Some (Ok (start ft hy b H1 (new_buffered io []) s)) | Some _ => None end
    end.
Proof.
  intros both Hboth. unfold both in Hboth. apply andb_true_iff in Hboth as [E1 E2].
  unfold serve_tls_connection, http1_only, http2_only, serve_connection. rewrite E1, E2.
  destruct alpn as [p|]; [destruct (bytes_eqb p (bs "h2")); [|destruct (bytes_eqb p (bs "http/1.1"))]|];
    destruct (version hy b); try done; rewrite some_bind; simpl; by rewrite ?E1, ?E2.
Qed.

(** Shutdown during detection ends the connection with [Interrupted]: no
    parser is started and no further byte is read. *)
Theorem shutdown_cancels_detection rv b (s : option Service) :
  connection_poll ft hy (graceful_shutdown ft hy (CReadVersion hy rv b s))
    = Some (Ready (Err detection_cancelled), CReadVersion hy (cancel rv) b s).
Proof. reflexivity. Qed.
End Dispatch.

(** ** Concrete connections *)
Definition sample_script : Script :=
  [AData (bs "PRI * HT"); APending; AData (bs "TP/2.0" ++ CRLF ++ CRLF); AData (bs "SM" ++ CRLF ++ CRLF ++ bs "xyz")].

(** A Hyper that records the stream it was started on. *)
Definition sample_hyper : Hyper Script unit := {|
  h1_config := unit; h2_config := unit; h1_conn := Rewind Script; h2_conn := Rewind Script;
  h1_serve := fun _ io _ => io; h2_serve := fun _ io _ => io;
  h1_poll := fun c => (Pending, c); h2_poll := fun c => (Pending, c);
  h1_shutdown := fun c => c; h2_shutdown := fun c => c
|}.
Definition sample_builder : Builder sample_hyper := mkBuilder sample_hyper () () None.

Lemma sample_script_ok : script_ok sample_script.
Proof. repeat constructor. Qed.

Lemma detection_is_exact_witness :
  exists v p sc', drive 2 (read_version sample_script) = Some (Ok (v, new_buffered sc' p)) /\
    p ++ script_bytes sc' = script_bytes sample_script /\ v = H2.
Proof.
  destruct (detection_is_exact sample_script 2) as (v & p & sc' & E & Eq & _ & Hv);
    [apply sample_script_ok | vm_compute; lia |].
  exists v, p, sc'. split; [exact E|]. split; [exact Eq|]. apply Hv. by exists (bs "xyz").
Defined.

Lemma rewind_replays_exactly_witness :
  drain (repeat 5%nat 40) (new_buffered sample_script (bs "GET ")) = bs "GET " ++ script_bytes sample_script.
Proof.
  apply (rewind_replays_exactly (repeat 5%nat 40) (bs "GET ") sample_script);
    [apply sample_script_ok | repeat constructor | vm_compute; lia].
Defined.

Lemma serve_connection_dispatches_witness :
  exists p sc', poll_until (mkFeatures true true) sample_hyper 2
      (serve_connection (mkFeatures true true) sample_hyper sample_builder sample_script ())
    = Some (Pending, CH2 sample_hyper (new_buffered sc' p)) /\
    p ++ script_bytes sc' = script_bytes sample_script.
Proof.
  destruct (serve_connection_dispatches (mkFeatures true true) sample_hyper sample_builder sample_script () 2)
    as (v & p & sc' & E & Eq & Hv); [reflexivity | apply sample_script_ok | vm_compute; lia |].
  exists p, sc'. split; [|exact Eq]. assert (v = H2) as Ev by (apply Hv; by exists (bs "xyz")).
  rewrite E, Ev. reflexivity.
Defined.

Lemma serve_tls_connection_spec_witness :
  serve_tls_connection (mkFeatures true true) sample_hyper
    (mkBuilder sample_hyper () () (Some H1)) (Some (bs "http/1.1")) sample_script () = None.
Proof.
  rewrite (serve_tls_connection_spec (mkFeatures true true) sample_hyper
    (mkBuilder sample_hyper () () (Some H1)) (Some (bs "http/1.1")) sample_script () eq_refl).
  reflexivity.
Defined.

End ServerAuto.
