(* ===== verification/Lifecycle.v ===== *)
(** * The accept loop and its connection tasks ([h12tiny-server], [lifecycle.rs])

    [crates/h12tiny-server/src/lifecycle.rs]: [run] and [run_tls] accept
    streams, start one tracked task per connection up to a limit, and on
    shutdown signal every task and wait for all of them.  The two loops are the
    same program but for the task they spawn, so one model serves both; the
    task is modelled separately.  What the outside world does at a poll is an
    [Env]: whether the shutdown future is ready, which tasks have finished, and
    what the listener answers. *)

From Stdlib Require Import ZArith Lia String.
From stdpp Require Import base option list.
From S2P Require Import Prelude Bytes Stream.

Open Scope Z_scope.

Module Lifecycle.

(** [Active]: the task it tracks, and whether its shutdown sender is still
    there. *)
Record Active := mkActive { task : nat; shutdown : bool }.

(** [Serve] and [TlsServe]: the fields the loop reads besides what it hands to
    the tasks. *)
Record Serve := mkServe {
  max_connections : option Z;
  on_connection_error : bool               (* a hook is installed *)
}.

Definition serve : Serve := mkServe None false.
Definition with_max_connections (limit : Z) (s : Serve) : Serve :=
  mkServe (Some limit) (on_connection_error s).
Definition with_connection_error_hook (s : Serve) : Serve := mkServe (max_connections s) true.

Record Env := mkEnv {
  shutdown_ready : bool;
  finished : nat -> bool;                  (* [done] is ready *)
  accepted : option (result () io_error)
}.

Inductive Event :=
| Shutdown
| Accepted (r : result () io_error)
| Done (index : nat).

(** The state of [run]: its locals, the number of tasks started, and the tasks
    that were asked to shut down. *)
Record State := mkState {
  accepting : bool;
  active : list Active;
  started : nat;
  signalled : list nat
}.

(** The loop, the drain after an accept error, or the return. *)
Inductive Run :=
| Running (s : State)
| Draining (e : io_error) (s : State)
| Returned (r : result () io_error) (s : State).

Definition init : Run := Running (mkState true [] O []).

(** The first connection whose [done] is ready. *)
Fixpoint find_done (f : nat -> bool) (l : list Active) : option nat :=
  match l with
  | [] => None
  | a :: l' => if f (task a) then Some O else S <$> find_done f l'
  end.

(** The [poll_fn] of the loop. *)
Definition next_event (env : Env) (s : State) : option Event :=
  if accepting s && shutdown_ready env then Some Shutdown
  else match find_done (finished env) (active s) with
       | Some index => Some (Done index)
       | None => if accepting s then Accepted <$> accepted env else None
       end.

(** [Vec::swap_remove]: the last element takes the place. *)
Definition swap_remove {A} (index : nat) (l : list A) : list A :=
  match last l with
  | Some x => if (S index =? length l)%nat then take index l
              else take (length l - 1) (<[index := x]> l)
  | None => l
  end.

Definition set_active (l : list Active) (s : State) : State :=
  mkState (accepting s) l (started s) (signalled s).

(** Sending on every shutdown sender that is left. *)
Definition signal_all (accepting' : bool) (s : State) : State :=
  mkState accepting' (map (fun a => mkActive (task a) false) (active s)) (started s)
    (signalled s ++ map task (List.filter shutdown (active s))).

Definition at_capacity (limit : option Z) (s : State) : bool :=
  match limit with Some l => l <=? zlen (active s) | None => false end.

Definition spawn (s : State) : State :=
  mkState (accepting s) (active s ++ [mkActive (started s) true]) (S (started s)) (signalled s).

Definition handle (limit : option Z) (e : Event) (s : State) : Run :=
  match e with
  | Shutdown => Running (signal_all false s)
  | Accepted (Err error) => Draining error (signal_all (accepting s) s)
  | Accepted (Ok _) => Running (if at_capacity limit s then s else spawn s)
  | Done index => Running (set_active (swap_remove index (active s)) s)
  end.

(** One wake-up of the future. *)
Definition run_step (limit : option Z) (env : Env) (r : Run) : Run :=
  match r with
  | Running s =>
      if negb (accepting s) && (match active s with [] => true | _ => false end)
      then Returned (Ok ()) s
      else match next_event env s with
           | Some e => handle limit e s
           | None => r
           end
  | Draining e s =>
      match active s with
      | [] => Returned (Err e) s
      | _ => match find_done (finished env) (active s) with
             | Some index => Draining e (set_active (swap_remove index (active s)) s)
             | None => r
             end
      end
  | Returned _ _ => r
  end.

Definition run (server : Serve) (envs : list Env) : Run :=
  fold_left (fun r env => run_step (max_connections server) env r) envs init.

(** [serve_tls] and [run_tls]: the same configuration and the same loop; the
    tasks they spawn start in [Handshake]. *)
Definition serve_tls : Serve := mkServe None false.
Definition run_tls (server : Serve) (envs : list Env) : Run := run server envs.

(** The setters of [TlsServe], and the futures both kinds of server are. *)
Definition tls_max_connections (limit : Z) (s : Serve) : Serve := with_max_connections limit s.
Definition tls_on_connection_error (s : Serve) : Serve := with_connection_error_hook s.
Definition shutdown_on (server : Serve) (envs : list Env) : Run := run server envs.
Definition tls_shutdown_on (server : Serve) (envs : list Env) : Run := run_tls server envs.
Definition state (r : Run) : State :=
  match r with Running s | Draining _ s | Returned _ s => s end.

(** ** The connection task *)

(** [Handshake] only exists under TLS; [Closing] is a connection that was asked
    to shut down. *)
Inductive Task := Handshake | Serving | Closing | Finished.
#[export] Instance Task_eq_dec : EqDecision Task.
Proof. solve_decision. Defined.

(** What a poll of the task sees: the handshake, what
    [serve_tls_connection] said, the connection, the connection again when it
    is polled right after [graceful_shutdown], and the shutdown receiver. *)
Record TaskEnv := mkTaskEnv {
  handshake : poll (result () io_error);
  dispatch : result () io_error;
  connection : poll (result () io_error);
  shut_down : poll (result () io_error);
  asked : bool
}.

Definition report (hook : bool) (e : io_error) : list io_error := if hook then [e] else [].
Definition hook_of (hook : bool) (r : result () io_error) : list io_error :=
  match r with Err e => report hook e | Ok _ => [] end.

(** [connection.await], at a poll that answers [r]. *)
Definition await_poll (hook : bool) (r : poll (result () io_error)) : Task * list io_error :=
  match r with
  | Ready r => (Finished, hook_of hook r)
  | Pending => (Closing, [])
  end.

(** The tail of the task: [select(connection, shutdown)], and when the shutdown
    wins, [graceful_shutdown] and [connection.await] in the same poll. *)
Definition serve_poll (hook : bool) (env : TaskEnv) : Task * list io_error :=
  match connection env with
  | Ready r => (Finished, hook_of hook r)
  | Pending => if asked env then await_poll hook (shut_down env) else (Serving, [])
  end.

(** One poll of the task: the state it reaches and the errors handed to the
    hook. *)
Definition task_poll (hook : bool) (env : TaskEnv) (t : Task) : Task * list io_error :=
  match t with
  | Handshake =>
      match handshake env with
      | Ready (Ok _) =>
          match dispatch env with
          | Ok _ => serve_poll hook env
          | Err e => (Finished, report hook e)
          end
      | Ready (Err e) => (Finished, report hook e)
      | Pending => if asked env then (Finished, []) else (Handshake, [])
      end
  | Serving => serve_poll hook env
  | Closing => await_poll hook (connection env)
  | Finished => (Finished, [])
  end.

Fixpoint task_run (hook : bool) (envs : list TaskEnv) (t : Task) : Task * list io_error :=
  match envs with
  | [] => (t, [])
  | env :: envs' =>
      let '(t', h) := task_poll hook env t in
      let '(t'', h') := task_run hook envs' t' in (t'', h ++ h')
  end.

(** ** [swap_remove] removes exactly the element at the index *)
Lemma swap_remove_perm {A} (index : nat) (l : list A) x :
  l !! index = Some x -> l ≡ₚ x :: swap_remove index l.
Proof.
  intros Hx. unfold swap_remove. destruct (last l) as [y|] eqn:El.
  2: { apply last_None in El. by subst. }
  apply last_Some in El as [k ->]. rewrite length_app. cbn [length].
  destruct (S index =? length k + 1)%nat eqn:E.
  - apply Nat.eqb_eq in E. assert (index = length k) as -> by lia.
    rewrite lookup_app_r in Hx by lia. rewrite Nat.sub_diag in Hx. simpl in Hx. injection Hx as <-.
    rewrite take_app_length. symmetry. apply Permutation_cons_append.
  - apply Nat.eqb_neq in E. pose proof (lookup_lt_Some _ _ _ Hx) as Hl. rewrite length_app in Hl. simpl in Hl.
    assert (index < length k)%nat as Hi by lia. rewrite lookup_app_l in Hx by done.
    rewrite insert_app_l by done. rewrite take_app_exact by (rewrite length_insert; lia).
    rewrite <- (take_drop_middle k index x Hx) at 1.
    rewrite insert_take_drop by done. solve_Permutation.
Qed.

Lemma find_done_some f l index :
  find_done f l = Some index -> exists a, l !! index = Some a /\ f (task a) = true.
Proof.
  revert index. induction l as [|a l IH]; intros index; [done|]. simpl.
  destruct (f (task a)) eqn:E; [intros [= <-]; by exists a|].
  destruct (find_done f l) as [n|]; [|done]. intros [= <-]. by apply IH.
Qed.

Lemma find_done_none f l : find_done f l = None -> forall a, a ∈ l -> f (task a) = false.
Proof.
  induction l as [|b l IH]; intros H a; [by intros ?%not_elem_of_nil|]. simpl in H.
  destruct (f (task b)) eqn:E; [done|]. destruct (find_done f l); [done|].
  intros [->|?]%elem_of_cons; [done | by apply IH].
Qed.

(** ** The invariant of the loop *)

(** Tasks are never forgotten: a task that was started is tracked or has
    finished; once the loop stops accepting or fails, every tracked task has
    been asked to shut down. *)
Record inv (limit : option Z) (done : nat -> bool) (r : Run) : Prop := {
  i_nodup : NoDup (map task (active (state r)));
  i_old a : a ∈ active (state r) -> (task a < started (state r))%nat;
  i_tracked t : (t < started (state r))%nat ->
    done t = true \/ t ∈ map task (active (state r));
  i_limit l : limit = Some l -> 0 <= l -> zlen (active (state r)) <= l;
  i_signalled a : a ∈ active (state r) -> shutdown a = false -> task a ∈ signalled (state r);
  i_stopping a : (match r with Running s => accepting s = false | _ => True end) ->
    a ∈ active (state r) -> shutdown a = false;
  i_returned : match r with Returned _ s => active s = [] | _ => True end
}.

Lemma inv_init limit done : inv limit done init.
Proof.
  split; simpl; try done; try (intros a Ha; by apply not_elem_of_nil in Ha).
  - constructor.
  - intros t Ht. lia.
Qed.

(** Finishing is permanent. *)
Definition later (done done' : nat -> bool) : Prop := forall t, done t = true -> done' t = true.

Lemma inv_later limit done done' r : later done done' -> inv limit done r -> inv limit done' r.
Proof.
  intros Hl [H1 H2 H3 H4 H5 H6 H7]. split; try done. intros t Ht. destruct (H3 t Ht); auto.
Qed.

(** Removing a finished task. *)
Lemma inv_reap limit done r s index (rebuild : State -> Run) :
  (forall s', state (rebuild s') = s') ->
  (forall s' (P : State -> Prop), (match rebuild s' with Running s => P s | _ => True end)
     <-> (match r with Running _ => P s' | _ => True end)) ->
  (forall s', match rebuild s' with Returned _ s => active s = [] | _ => True end) ->
  state r = s -> inv limit done r -> find_done done (active s) = Some index ->
  inv limit done (rebuild (set_active (swap_remove index (active s)) s)).
Proof.
  intros Hst Hph Hret <- [H1 H2 H3 H4 H5 H6 H7] Hf.
  apply find_done_some in Hf as (a & Ha & Hd).
  pose proof (swap_remove_perm _ _ _ Ha) as Hp. set (l := swap_remove index (active (state r))) in *.
  assert (Hin : forall b, b ∈ l -> b ∈ active (state r)) by (intros b Hb; rewrite Hp; by right).
  split; rewrite ?Hst; cbn [active set_active started signalled accepting].
  - rewrite Hp in H1. simpl in H1. by apply NoDup_cons in H1 as [_ ?].
  - intros b Hb. by apply H2, Hin.
  - intros t Ht. destruct (H3 t Ht) as [?|Ht']; [by left|]. rewrite Hp in Ht'. simpl in Ht'.
    apply elem_of_cons in Ht' as [->|?]; auto.
  - intros lim E H0. specialize (H4 lim E H0). unfold zlen in *.
    apply (f_equal length) in Hp || apply Permutation_length in Hp. simpl in Hp. lia.
  - intros b Hb. by apply H5, Hin.
  - intros b Hs Hb. apply H6; [|by apply Hin].
    apply (Hph _ (fun s => accepting s = false)) in Hs. destruct r; done.
  - apply Hret.
Qed.

Lemma signal_all_active b s a : a ∈ active (signal_all b s) ->
  shutdown a = false /\ exists a0, a0 ∈ active s /\ task a0 = task a.
Proof.
  simpl. intros (a0 & -> & Ha)%list_elem_of_fmap. split; [done|]. by exists a0.
Qed.

Lemma inv_signal limit done s b (rebuild : State -> Run) :
  (forall s', state (rebuild s') = s') ->
  (forall s', match rebuild s' with Returned _ s => active s = [] | _ => True end) ->
  inv limit done (Running s) -> inv limit done (rebuild (signal_all b s)).
Proof.
  intros Hst Hret [H1 H2 H3 H4 H5 H6 H7]. simpl in *.
  assert (map task (active (signal_all b s)) = map task (active s)) as Et
    by (simpl; rewrite map_map; done).
  split; rewrite ?Hst; rewrite ?Et; cbn [started signal_all]; try done.
  - intros a Ha. apply signal_all_active in Ha as (_ & a0 & Ha0 & <-). auto.
  - intros l E H0. specialize (H4 l E H0). unfold zlen in *. simpl. by rewrite length_map.
  - intros a Ha _. apply signal_all_active in Ha as (_ & a0 & Ha0 & <-). simpl. apply elem_of_app.
    destruct (shutdown a0) eqn:Es; [right|left; auto].
    apply list_elem_of_fmap. exists a0. split; [done|]. apply list_elem_of_In, filter_In.
    split; [by apply list_elem_of_In | done].
  - intros a _ Ha. by apply signal_all_active in Ha as [? _].
  - apply Hret.
Qed.

Lemma inv_spawn limit done s :
  at_capacity limit s = false -> accepting s = true ->
  inv limit done (Running s) -> inv limit done (Running (spawn s)).
Proof.
  intros Hc Ha [H1 H2 H3 H4 H5 H6 H7]. simpl in *. split; simpl; rewrite ?map_app; simpl.
  - apply NoDup_app. split_and!; [done | |by apply NoDup_singleton].
    intros t Ht ->%list_elem_of_singleton. apply list_elem_of_fmap in Ht as (a & E & Hin).
    specialize (H2 _ Hin). lia.
  - intros a [Hin| ->%list_elem_of_singleton]%elem_of_app; [|simpl; lia]. specialize (H2 _ Hin). lia.
  - intros t Ht. rewrite elem_of_app. destruct (decide (t = started s)) as [->|].
    + right. right. left.
    + destruct (H3 t ltac:(lia)); auto.
  - intros l E H0. unfold at_capacity in Hc. rewrite E in Hc. bool_hyps. rewrite zlen_app.
    change (zlen [_]) with 1. lia.
  - intros a [Hin| ->%list_elem_of_singleton]%elem_of_app; [auto | done].
  - congruence.
  - done.
Qed.

Lemma inv_step limit done env r :
  later done (finished env) -> inv limit done r -> inv limit (finished env) (run_step limit env r).
Proof.
  intros Hl Hv%(inv_later _ _ _ _ Hl). destruct r as [s|e s|res s]; simpl; [| |done].
  - destruct (negb (accepting s) && _) eqn:Ee.
    { apply andb_true_iff in Ee as [_ Ee]. destruct Hv as [H1 H2 H3 H4 H5 H6 H7]. simpl in *.
      destruct (active s) eqn:E; [|done]. split; simpl; rewrite ?E; try done.
      intros a _ Ha. by apply not_elem_of_nil in Ha. }
    unfold next_event. destruct (accepting s && shutdown_ready env); [by apply (inv_signal _ _ _ _ Running)|].
    destruct (find_done (finished env) (active s)) as [index|] eqn:Ef.
    { by apply (inv_reap _ _ (Running s) s index Running). }
    destruct (accepting s) eqn:Ea; [|done]. destruct (accepted env) as [[?|e]|]; simpl; [| |done].
    + destruct (at_capacity limit s) eqn:Ec; [done | by apply inv_spawn].
    + by apply (inv_signal _ _ _ _ (Draining e)).
  - destruct (active s) as [|a l] eqn:Ea.
    { destruct Hv as [H1 H2 H3 H4 H5 H6 H7]. by split. }
    rewrite <- Ea. destruct (find_done (finished env) (active s)) as [index|] eqn:Ef; [|done].
    by apply (inv_reap _ _ (Draining e s) s index (Draining e)).
Qed.

(** What the outside world does keeps finished tasks finished. *)
Fixpoint monotone (done : nat -> bool) (envs : list Env) : Prop :=
  match envs with
  | [] => True
  | env :: envs' => later done (finished env) /\ monotone (finished env) envs'
  end.

(** The tasks that have finished when the run stops. *)
Definition finally (done : nat -> bool) (envs : list Env) : nat -> bool :=
  fold_left (fun _ env => finished env) envs done.

Lemma inv_run limit envs : forall fin r,
  monotone fin envs -> inv limit fin r ->
  inv limit (finally fin envs) (fold_left (fun r env => run_step limit env r) envs r).
Proof.
  induction envs as [|env envs IH]; intros fin r Hm Hv; [done|].
  destruct Hm as [Hl Hm]. simpl. apply IH; [done|]. by apply (inv_step _ fin).
Qed.

Definition none : nat -> bool := fun _ => false.

Lemma run_inv server envs : monotone none envs ->
  inv (max_connections server) (finally none envs) (run server envs).
Proof. intros H. apply inv_run; [done | apply inv_init]. Qed.

(** ** The promises of [serve] and [serve_tls] *)

(** The number of tracked connections never exceeds [max_connections], and no
    task is ever lost: each task that was started is tracked exactly once or has
    finished. *)
Theorem connections_bounded (server : Serve) (envs : list Env) :
  monotone none envs ->
  (forall l, max_connections server = Some l -> 0 <= l -> zlen (active (state (run server envs))) <= l) /\
  NoDup (map task (active (state (run server envs)))) /\
  forall t, (t < started (state (run server envs)))%nat ->
    finally none envs t = true \/ t ∈ map task (active (state (run server envs))).
Proof.
  intros H. destruct (run_inv server envs H) as [H1 _ H3 H4 _ _ _]. by split_and!.
Qed.

(** The lifecycle future does not complete, with success or with the accept
    error, before every task it started has finished; and while it drains,
    every task it still tracks has been asked to shut down. *)
Theorem drain_is_complete (server : Serve) (envs : list Env) :
  monotone none envs ->
  match run server envs with
  | Returned _ s => forall t, (t < started s)%nat -> finally none envs t = true
  | Draining _ s => forall a, a ∈ active s -> task a ∈ signalled s
  | Running s => accepting s = false -> forall a, a ∈ active s -> task a ∈ signalled s
  end.
Proof.
  intros H. destruct (run_inv server envs H) as [_ _ H3 _ H5 H6 H7].
  destruct (run server envs) as [s|e s|r s]; simpl in *.
  - intros Hs a Ha. apply H5; auto.
  - intros a Ha. apply H5; auto.
  - intros t Ht. destruct (H3 t Ht) as [?|Hin]; [done|]. rewrite H7 in Hin.
    by apply not_elem_of_nil in Hin.
Qed.

Definition sample_envs : list Env :=
  [mkEnv false none (Some (Ok ())); mkEnv false none (Some (Ok ())); mkEnv false none (Some (Ok ()));
   mkEnv true none None; mkEnv false (fun t => (t =? 0)%nat) None;
   mkEnv false (fun t => (t <? 2)%nat) None; mkEnv false (fun t => (t <? 2)%nat) None].

Lemma sample_monotone : monotone none sample_envs.
Proof.
  unfold sample_envs. simpl. split_and!; try done; intros t E; simpl in *; try done.
  apply Nat.eqb_eq in E as ->. done.
Qed.

Lemma connections_bounded_witness :
  zlen (active (state (run (with_max_connections 2 serve) (take 3 sample_envs)))) = 2 /\
  forall l, max_connections (with_max_connections 2 serve) = Some l -> 0 <= l -> zlen (active (state (run (with_max_connections 2 serve) (take 3 sample_envs)))) <= l.
Proof. split; [reflexivity|]. apply (connections_bounded (with_max_connections 2 serve) (take 3 sample_envs)). simpl. split_and!; done. Defined.

Lemma drain_is_complete_witness :
  run (with_max_connections 2 serve) sample_envs = Returned (Ok ()) (mkState false [] 2 [0; 1]%nat) /\
  forall t, (t < 2)%nat -> finally none sample_envs t = true.
Proof.
  assert (run (with_max_connections 2 serve) sample_envs = Returned (Ok ()) (mkState false [] 2 [0; 1]%nat)) as E by reflexivity.
  split; [exact E|]. pose proof (drain_is_complete (with_max_connections 2 serve) sample_envs sample_monotone) as H.
  rewrite E in H. exact H.
Defined.

(** Each wake-up after the shutdown reaps a finished task. *)
Lemma reap_all limit envs : forall s,
  accepting s = false -> (forall env t, env ∈ envs -> finished env t = true) ->
  length envs = S (length (active s)) ->
  fold_left (fun r env => run_step limit env r) envs (Running s) =
    Returned (Ok ()) (set_active [] s).
Proof.
  induction envs as [|env envs IH]; intros s Hs Hf Hl; [done|]. simpl. rewrite Hs. simpl.
  destruct s as [acc act st sg]. simpl in *. subst acc. destruct act as [|a l]; simpl in *.
  - by destruct envs.
  - unfold next_event. simpl. rewrite (Hf env) by left. cbn [handle set_active active accepting started signalled].
    assert (E0 : (a :: l) !! O = Some a) by done.
    apply swap_remove_perm, Permutation_length in E0. simpl in E0.
    rewrite IH; simpl; [done | done | | lia].
    intros env' t He. apply Hf. by right.
Qed.

Lemma drain_all limit e envs : forall s,
  (forall env t, env ∈ envs -> finished env t = true) ->
  length envs = S (length (active s)) ->
  fold_left (fun r env => run_step limit env r) envs (Draining e s) =
    Returned (Err e) (set_active [] s).
Proof.
  induction envs as [|env envs IH]; intros s Hf Hl; [done|]. simpl.
  destruct s as [acc act st sg]. simpl in *. destruct act as [|a l]; simpl in *.
  - by destruct envs.
  - rewrite (Hf env) by left. simpl.
    assert (E0 : (a :: l) !! O = Some a) by done.
    apply swap_remove_perm, Permutation_length in E0. simpl in E0.
    rewrite IH; simpl; [done | | lia].
    intros env' t He. apply Hf. by right.
Qed.

(** Shutdown terminates: from any state that still accepts, a ready shutdown
    future followed by one wake-up per tracked connection, all of them
    finished, makes the lifecycle future return [Ok]; with an accept error in
    place of the shutdown it returns that error after the same drain.  Every
    connection that was tracked has been asked to shut down. *)
Theorem shutdown_completes (limit : option Z) (s : State) (first : Env) (envs : list Env) :
  accepting s = true ->
  (forall a, a ∈ active s -> shutdown a = true) ->
  length envs = S (length (active s)) ->
  (forall env t, env ∈ envs -> finished env t = true) ->
  (shutdown_ready first = true ->
   fold_left (fun r env => run_step limit env r) (first :: envs) (Running s) =
     Returned (Ok ()) (mkState false [] (started s) (signalled s ++ map task (active s)))) /\
  (forall e, shutdown_ready first = false -> (forall t, finished first t = false) ->
   accepted first = Some (Err e) ->
   fold_left (fun r env => run_step limit env r) (first :: envs) (Running s) =
     Returned (Err e) (mkState true [] (started s) (signalled s ++ map task (active s)))).
Proof.
  intros Ha Hs Hl Hf.
  assert (List.filter shutdown (active s) = active s) as Efil.
  { clear Hl. induction (active s) as [|a l IH]; [done|]. simpl. rewrite (Hs a) by left.
    rewrite IH; [done|]. intros b Hb. apply Hs. by right. }
  assert (forall f, (forall t, f t = false) -> find_done f (active s) = None) as Hnone.
  { intros f Hff. clear -Hff. induction (active s) as [|a l IH]; [done|]. simpl. by rewrite Hff, IH. }
  split; [intros Hr | intros e Hr Hn Hacc]; cbn [fold_left run_step]; rewrite Ha;
    cbn [negb andb]; unfold next_event; rewrite Ha, Hr; cbn [andb].
  - cbn [handle]. rewrite reap_all; [| done | done | simpl; by rewrite length_map].
    unfold set_active, signal_all. simpl. by rewrite Efil.
  - rewrite Hnone by done. rewrite Hacc. cbn [fmap option_fmap option_map handle].
    rewrite drain_all; [| done | simpl; by rewrite length_map].
    unfold set_active, signal_all. simpl. by rewrite Efil, Ha.
Qed.

Lemma shutdown_completes_witness :
  fold_left (fun r env => run_step None env r)
    [mkEnv true none None; mkEnv false (fun _ => true) None; mkEnv false (fun _ => true) None]
    (Running (mkState true [mkActive 0 true] 1 [])) =
  Returned (Ok ()) (mkState false [] 1 [0]%nat).
Proof.
  apply (shutdown_completes None (mkState true [mkActive 0 true] 1 []) (mkEnv true none None)
           [mkEnv false (fun _ => true) None; mkEnv false (fun _ => true) None]); try reflexivity.
  - intros a Ha. apply list_elem_of_singleton in Ha as ->. reflexivity.
  - intros env t He. apply list_elem_of_In in He. simpl in He. destruct He as [<-|[<-|[]]]; reflexivity.
Defined.

Lemma task_run_finished hook envs : task_run hook envs Finished = (Finished, []).
Proof. induction envs as [|env envs IH]; [done|]. simpl. by rewrite IH. Qed.

Lemma task_poll_hook hook env t t' h :
  task_poll hook env t = (t', h) -> (t' = Finished /\ (length h <= 1)%nat) \/ h = [].
Proof.
  destruct hook, t, env as [[|[]] [] [|[]] [|[]] []]; cbv; intros [= <- <-]; auto.
Qed.

(** The error hook runs at most once per connection, only when the task ends,
    and the task stays ended. *)
Theorem task_reports_once (hook : bool) (envs : list TaskEnv) (t : Task) :
  (length (snd (task_run hook envs t)) <= 1)%nat /\
  (snd (task_run hook envs t) <> [] -> fst (task_run hook envs t) = Finished /\
     forall more, task_run hook (envs ++ more) t = task_run hook envs t).
Proof.
  revert t. induction envs as [|env envs IH]; intros t; [simpl; split; [lia|done]|].
  simpl. destruct (task_poll hook env t) as [t1 h] eqn:E.
  destruct (task_poll_hook _ _ _ _ _ E) as [[-> Hh]| ->].
  - rewrite task_run_finished. simpl. rewrite app_nil_r. split; [done|]. intros _.
    split; [done|]. intros more. rewrite task_run_finished. by rewrite app_nil_r.
  - specialize (IH t1). destruct (task_run hook envs t1) as [t2 h2] eqn:E2. simpl in *.
    destruct IH as [H1 H2]. split; [done|]. intros Hne. destruct (H2 Hne) as [-> H3]. split; [done|].
    intros more. by rewrite H3.
Qed.

Definition broken : io_error := mkIoError ConnectionReset "closed".

Lemma task_reports_once_witness :
  snd (task_run true [mkTaskEnv Pending (Ok ()) Pending Pending false;
                 mkTaskEnv (Ready (Err broken)) (Ok ()) Pending Pending false] Handshake) = [broken] /\
  fst (task_run true [mkTaskEnv Pending (Ok ()) Pending Pending false;
                 mkTaskEnv (Ready (Err broken)) (Ok ()) Pending Pending false] Handshake) = Finished.
Proof.
  split; [reflexivity|].
  apply (task_reports_once true [mkTaskEnv Pending (Ok ()) Pending Pending false;
                 mkTaskEnv (Ready (Err broken)) (Ok ()) Pending Pending false] Handshake). discriminate.
Defined.

(** A connection that has not finished its TLS handshake is cancelled by the
    first poll that sees the shutdown, and no error is reported; an established
    connection is not: it lives until the connection itself ends. *)
Theorem shutdown_cancels_handshake (hook : bool) (before after : list TaskEnv) (env : TaskEnv) :
  (forall e, e ∈ before -> handshake e = Pending /\ asked e = false) ->
  handshake env = Pending -> asked env = true ->
  task_run hook (before ++ env :: after) Handshake = (Finished, []) /\
  forall t envs, (t = Serving \/ t = Closing) ->
    (forall e, e ∈ envs -> connection e = Pending /\ shut_down e = Pending) ->
    fst (task_run hook envs t) <> Finished /\ snd (task_run hook envs t) = [].
Proof.
  intros Hb Hp Hask. split.
  - induction before as [|e before IH]; simpl.
    + rewrite Hp, Hask, task_run_finished. done.
    + destruct (Hb e) as [-> ->]; [left|]. rewrite IH; [done|]. intros e' He. apply Hb. by right.
  - intros t envs Ht Hc. revert t Ht. induction envs as [|e envs IH]; intros t Ht; simpl.
    { by destruct Ht as [-> | ->]. }
    assert (exists t1, task_poll hook e t = (t1, []) /\ (t1 = Serving \/ t1 = Closing)) as (t1 & -> & Ht1).
    { destruct (Hc e) as [E1 E2]; [left|]. destruct Ht as [-> | ->]; simpl; unfold serve_poll; rewrite E1, ?E2;
        [destruct (asked e)|]; simpl; eauto. }
    destruct (IH (fun e' He => Hc e' (list_elem_of_further _ _ _ He)) t1 Ht1) as [H1 H2].
    destruct (task_run hook envs t1). done.
Qed.

Lemma shutdown_cancels_handshake_witness :
  task_run true [mkTaskEnv Pending (Ok ()) Pending Pending false; mkTaskEnv Pending (Ok ()) Pending Pending true] Handshake =
    (Finished, []).
Proof.
  apply (shutdown_cancels_handshake true [mkTaskEnv Pending (Ok ()) Pending Pending false] []
           (mkTaskEnv Pending (Ok ()) Pending Pending true)); try reflexivity.
  intros e He. apply list_elem_of_singleton in He as ->. split; reflexivity.
Defined.

End Lifecycle.
