(* ===== verification/ServerTask.v ===== *)
(** * The task of a connection ([lifecycle.rs] over [conn/auto.rs])

    The futures that [run] and [run_tls] spawn, with the connection of
    [ServerAuto] inside: [Lifecycle] abstracts the connection to what its polls
    answer, this file puts the real one there and shows that it refines the
    abstract task.  [None] is a panic. *)

From Stdlib Require Import ZArith Lia String.
From Stdlib Require Import Strings.Byte.
From stdpp Require Import base option list.
From S2P Require Import Prelude Bytes Stream AsyncIo ServerAuto Lifecycle.

Open Scope Z_scope.

Module ServerTask.
Import AsyncIo.AsyncIo ServerAuto.ServerAuto.

Section Task.
Context {IO Service : Type} `{HyperRead IO} (ft : Features) (hy : Hyper IO Service).

(** Where the task waits: for the TLS handshake, in [select(connection,
    shutdown)], or for the connection after [graceful_shutdown]. *)
Inductive ConnTask :=
| THandshake (builder : Builder hy) (service : Service)
| TServing (connection : ConnState hy)
| TClosing (connection : ConnState hy)
| TFinished.

(** What a poll sees besides the connection's own transport: the acceptor,
    with the ALPN protocol and the stream of a finished handshake, and the
    shutdown receiver. *)
Record TaskEnv := mkTaskEnv {
  acceptor : poll (result (option bytes * IO) io_error);
  asked : bool
}.

(** The task of [run] starts with the connection, that of [run_tls] with the
    handshake.  Both servers use the builder of [Builder::new]: [cfg1] and [cfg2]
    are the settings Hyper's own builders start with. *)
Context (cfg1 : h1_config _ _ hy) (cfg2 : h2_config _ _ hy).
Definition plain_start (stream : IO) (service : Service) : ConnTask :=
  TServing (into_owned hy (serve_connection ft hy (builder_new hy cfg1 cfg2) stream service)).
Definition tls_start (service : Service) : ConnTask := THandshake (builder_new hy cfg1 cfg2) service.

(** The tail of the task: [connection.await] after the shutdown, and
    [select(connection, shutdown)], which polls the connection before the
    receiver. *)
Definition poll_closing (hook : bool) (c : ConnState hy) : option (ConnTask * list io_error) :=
  '(r, c) ← connection_poll ft hy c;
  Some match r with
       | Ready r => (TFinished, Lifecycle.Lifecycle.hook_of hook r)
       | Pending => (TClosing c, [])
       end.
Definition poll_serving (hook : bool) (env : TaskEnv) (c : ConnState hy) : option (ConnTask * list io_error) :=
  '(r, c) ← connection_poll ft hy c;
  match r with
  | Ready r => Some (TFinished, Lifecycle.Lifecycle.hook_of hook r)
  | Pending =>
      if asked env then poll_closing hook (graceful_shutdown ft hy c) else Some (TServing c, [])
  end.

Definition poll_conn_task (hook : bool) (env : TaskEnv) (t : ConnTask) : option (ConnTask * list io_error) :=
  match t with
  | THandshake builder service =>
      match acceptor env with
      | Ready (Ok (alpn, stream)) =>
          r ← serve_tls_connection ft hy builder alpn stream service;
          match r with
          | Ok c => poll_serving hook env c
          | Err e => Some (TFinished, Lifecycle.Lifecycle.report hook e)
          end
      | Ready (Err e) => Some (TFinished, Lifecycle.Lifecycle.report hook e)
      | Pending => Some (if asked env then (TFinished, []) else (t, []))
      end
  | TServing c => poll_serving hook env c
  | TClosing c => poll_closing hook c
  | TFinished => Some (TFinished, [])
  end.

(** ** Refinement *)
Definition abs (t : ConnTask) : Lifecycle.Lifecycle.Task :=
  match t with
  | THandshake _ _ => Lifecycle.Lifecycle.Handshake
  | TServing _ => Lifecycle.Lifecycle.Serving
  | TClosing _ => Lifecycle.Lifecycle.Closing
  | TFinished => Lifecycle.Lifecycle.Finished
  end.

(** The answers the abstract task is given are those of the real parts: of the
    connection, and of the connection polled again after [graceful_shutdown]. *)
Definition poll_of (c : ConnState hy) : poll (result () io_error) :=
  match connection_poll ft hy c with Some (r, _) => r | None => Pending end.
Definition shut_down_of (c : ConnState hy) : poll (result () io_error) :=
  match connection_poll ft hy c with
  | Some (_, c) => poll_of (graceful_shutdown ft hy c)
  | None => Pending
  end.
Definition abs_env (env : TaskEnv) (t : ConnTask) : Lifecycle.Lifecycle.TaskEnv :=
  let unit_of {A E} (r : result A E) := map_ok (fun _ => ()) r in
  let '(dispatch, connection, shut_down) :=
    match t with
    | THandshake builder service =>
        match acceptor env with
        | Ready (Ok (alpn, stream)) =>
            match serve_tls_connection ft hy builder alpn stream service with
            | Some (Ok c) => (Ok (), poll_of c, shut_down_of c)
            | Some (Err e) => (Err e, Pending, Pending)
            | None => (Ok (), Pending, Pending)
            end
        | _ => (Ok (), Pending, Pending)
        end
    | TServing c | TClosing c => (Ok (), poll_of c, shut_down_of c)
    | TFinished => (Ok (), Pending, Pending)
    end in
  Lifecycle.Lifecycle.mkTaskEnv
    (match acceptor env with Pending => Pending | Ready r => Ready (unit_of r) end)
    dispatch connection shut_down (asked env).

Lemma abs_env_asked env t : Lifecycle.Lifecycle.asked (abs_env env t) = asked env.
Proof. unfold abs_env. by destruct (match t with THandshake _ _ => _ | _ => _ end) as [[]]. Qed.

Lemma poll_closing_refines hook c t' h :
  poll_closing hook c = Some (t', h) -> Lifecycle.Lifecycle.await_poll hook (poll_of c) = (abs t', h).
Proof.
  unfold poll_closing, poll_of. destruct (connection_poll ft hy c) as [[[|r] c']|]; [| |done];
    rewrite some_bind; intros E; by injection E as <- <-.
Qed.

Lemma poll_serving_refines hook env c t' h hs d :
  poll_serving hook env c = Some (t', h) ->
  Lifecycle.Lifecycle.serve_poll hook
    (Lifecycle.Lifecycle.mkTaskEnv hs d (poll_of c) (shut_down_of c) (asked env)) = (abs t', h).
Proof.
  unfold poll_serving, Lifecycle.Lifecycle.serve_poll.
  cbn [Lifecycle.Lifecycle.connection Lifecycle.Lifecycle.asked Lifecycle.Lifecycle.shut_down].
  unfold poll_of at 1, shut_down_of.
  destruct (connection_poll ft hy c) as [[[|r] c']|]; [| |done]; rewrite some_bind; intros E.
  - destruct (asked env); [by apply poll_closing_refines | by injection E as <- <-].
  - by injection E as <- <-.
Qed.

(** A poll of a spawned task is a poll of the abstract task of [Lifecycle]. *)
Lemma conn_task_refines hook env t t' h :
  poll_conn_task hook env t = Some (t', h) ->
  Lifecycle.Lifecycle.task_poll hook (abs_env env t) (abs t) = (abs t', h).
Proof.
  destruct t as [builder service|c|c|]; cbn [poll_conn_task abs Lifecycle.Lifecycle.task_poll]; intros E.
  - unfold abs_env. destruct (acceptor env) as [|[[alpn stream]|e]];
      cbn [Lifecycle.Lifecycle.handshake Lifecycle.Lifecycle.asked map_ok].
    + by destruct (asked env); injection E as <- <-.
    + destruct (serve_tls_connection ft hy builder alpn stream service) as [[c|e]|]; [| |done]; rewrite some_bind in E;
        cbn [Lifecycle.Lifecycle.dispatch].
      * by apply poll_serving_refines.
      * by injection E as <- <-.
    + by injection E as <- <-.
  - by apply poll_serving_refines.
  - by apply poll_closing_refines.
  - by injection E as <- <-.
Qed.

(** The polls of a task, with the errors its hook was given. *)
Fixpoint run_conn_task (hook : bool) (envs : list TaskEnv) (t : ConnTask) : option (ConnTask * list io_error) :=
  match envs with
  | [] => Some (t, [])
  | env :: envs' =>
      '(t, h) ← poll_conn_task hook env t;
      '(t, h') ← run_conn_task hook envs' t;
      Some (t, h ++ h')
  end.

(** What the abstract task observes along such a run. *)
Fixpoint observed (hook : bool) (envs : list TaskEnv) (t : ConnTask) : list Lifecycle.Lifecycle.TaskEnv :=
  match envs with
  | [] => []
  | env :: envs' =>
      abs_env env t ::
      match poll_conn_task hook env t with Some (t, _) => observed hook envs' t | None => [] end
  end.

Lemma run_finished hook envs : run_conn_task hook envs TFinished = Some (TFinished, []).
Proof. induction envs as [|env envs IH]; [done|]. simpl. by rewrite IH. Qed.

Lemma run_observed hook envs : forall t t' h,
  run_conn_task hook envs t = Some (t', h) ->
  map Lifecycle.Lifecycle.asked (observed hook envs t) = map asked envs /\
  Lifecycle.Lifecycle.task_run hook (observed hook envs t) (abs t) = (abs t', h).
Proof.
  induction envs as [|env envs IH]; intros t t' h; cbn [run_conn_task observed].
  - by intros [= <- <-].
  - destruct (poll_conn_task hook env t) as [[t1 h1]|] eqn:E1; [|done]. rewrite some_bind.
    destruct (run_conn_task hook envs t1) as [[t2 h2]|] eqn:E2; [|done]. rewrite some_bind. intros [= <- <-].
    destruct (IH _ _ _ E2) as [Ha Er]. cbn [map Lifecycle.Lifecycle.task_run].
    by rewrite (conn_task_refines _ _ _ _ _ E1), Er, Ha, abs_env_asked.
Qed.

(** ** The life of a connection *)

(** [c'] is [c] after polls that were all pending. *)
Inductive polled : ConnState hy -> ConnState hy -> Prop :=
| polled_refl c : polled c c
| polled_more c c1 c2 : connection_poll ft hy c = Some (Pending, c1) -> polled c1 c2 -> polled c c2.

(** Where the task of a connection [c] is: it serves [c] as polled so far while
    it was not asked to shut down; it was asked, told the connection to shut
    down gracefully and waits for it; or the connection itself has ended, before
    or after that, and its error went to the hook. *)
Definition lived (hook : bool) (c : ConnState hy) (was_asked : bool) (t : ConnTask) (h : list io_error) : Prop :=
  match t with
  | THandshake _ _ => False
  | TServing c' => was_asked = false /\ h = [] /\ polled c c'
  | TClosing c' => was_asked = true /\ h = [] /\
      exists c1, polled c c1 /\ polled (graceful_shutdown ft hy c1) c'
  | TFinished =>
      exists c1 r c2, connection_poll ft hy c1 = Some (Ready r, c2) /\
        h = Lifecycle.Lifecycle.hook_of hook r /\
        (polled c c1 \/
         was_asked = true /\ exists c0, polled c c0 /\ polled (graceful_shutdown ft hy c0) c1)
  end.

Lemma run_closing hook envs : forall c t' h,
  run_conn_task hook envs (TClosing c) = Some (t', h) ->
  (exists c', t' = TClosing c' /\ h = [] /\ polled c c') \/
  (t' = TFinished /\ exists c1 r c2, polled c c1 /\ connection_poll ft hy c1 = Some (Ready r, c2) /\
     h = Lifecycle.Lifecycle.hook_of hook r).
Proof.
  induction envs as [|env envs IH]; intros c t' h; cbn [run_conn_task].
  { intros [= <- <-]. left. eexists. by split_and!; [..|constructor]. }
  cbn [poll_conn_task]. unfold poll_closing. destruct (connection_poll ft hy c) as [[[|r] c1]|] eqn:E; [| |done];
    rewrite !some_bind.
  - destruct (run_conn_task hook envs (TClosing c1)) as [[t2 h2]|] eqn:E2; [|done]. rewrite some_bind.
    intros [= <- <-]. destruct (IH _ _ _ E2) as [(c' & -> & -> & Hp)|(-> & c2 & r & c3 & Hp & Hr & ->)].
    + left. exists c'. split_and!; [done..|]. by econstructor.
    + right. split; [done|]. exists c2, r, c3. split_and!; [by econstructor|done|done].
  - rewrite run_finished, some_bind. intros [= <- <-]. right. split; [done|].
    exists c, r, c1. rewrite app_nil_r. split_and!; [constructor|done|done].
Qed.

(** From the poll that passes the request to shut down on. *)
Lemma run_asked hook envs c c0 c1 t1 h1 t' h2 :
  polled c c0 -> c1 = graceful_shutdown ft hy c0 -> poll_closing hook c1 = Some (t1, h1) ->
  run_conn_task hook envs t1 = Some (t', h2) -> lived hook c true t' (h1 ++ h2).
Proof.
  intros Hc -> Hp Hr.
  assert (run_conn_task hook (mkTaskEnv Pending true :: envs) (TClosing (graceful_shutdown ft hy c0))
    = Some (t', h1 ++ h2)) as E.
  { cbn [run_conn_task poll_conn_task]. by rewrite Hp, some_bind, Hr. }
  destruct (run_closing _ _ _ _ _ E) as [(c' & -> & -> & H')|(-> & c2 & r & c3 & H' & Hr' & ->)].
  - split_and!; [done..|]. by exists c0.
  - exists c2, r, c3. split_and!; [done..|]. right. split; [done|]. by exists c0.
Qed.

Lemma lived_step hook c c1 b t h :
  connection_poll ft hy c = Some (Pending, c1) -> lived hook c1 b t h -> lived hook c b t h.
Proof.
  intros E. assert (forall c2, polled c1 c2 -> polled c c2) as Hp by (intros; by econstructor).
  destruct t; simpl; [done|naive_solver|naive_solver|].
  intros (c2 & r & c3 & H1 & H2 & H3). exists c2, r, c3. split_and!; [done..|]. naive_solver.
Qed.

Lemma run_serving hook envs : forall c t' h,
  run_conn_task hook envs (TServing c) = Some (t', h) -> lived hook c (existsb asked envs) t' h.
Proof.
  induction envs as [|env envs IH]; intros c t' h; cbn [run_conn_task existsb].
  { intros [= <- <-]. split_and!; [done..|constructor]. }
  cbn [poll_conn_task]. unfold poll_serving. destruct (connection_poll ft hy c) as [[[|r] c1]|] eqn:E; [| |done];
    rewrite some_bind.
  - destruct (asked env).
    + destruct (poll_closing hook (graceful_shutdown ft hy c1)) as [[t1 h1]|] eqn:E1; [|done]. rewrite some_bind.
      destruct (run_conn_task hook envs t1) as [[t2 h2]|] eqn:E2; [|done]. intros [= <- <-].
      eapply run_asked; [|reflexivity|exact E1|exact E2]. econstructor; [done|constructor].
    + rewrite some_bind. destruct (run_conn_task hook envs (TServing c1)) as [[t2 h2]|] eqn:E2; [|done].
      rewrite some_bind. intros [= <- <-]. eapply lived_step; [done|]. by apply IH.
  - rewrite some_bind, run_finished, some_bind. intros [= <- <-]. rewrite app_nil_r.
    exists c, r, c1. split_and!; [done..|]. left. constructor.
Qed.

(** ** No panics *)

(** A read only ever appends to the buffer it is given ([hyper::rt::Read]). *)
Definition reads_append : Prop := forall rb (io : IO) r rb' io',
  hyper_poll_read rb io = (r, rb', io') -> filled rb `prefix_of` filled rb'.

(** The connections that a poll does not panic on. *)
Definition live (c : ConnState hy) : Prop :=
  match c with
  | CReadVersion _ rv _ s => (rv_cancelled rv = true \/ is_Some (rv_io rv)) /\ is_Some s
  | CUnsupported _ e => is_Some e
  | _ => True
  end.
Definition live_task (t : ConnTask) : Prop :=
  match t with
  | THandshake b _ => version hy b = None
  | TServing c | TClosing c => live c
  | TFinished => True
  end.

Context (Happ : reads_append).

Lemma detect_loop_total fuel : forall (io : IO) buf,
  (24 <= length buf + fuel)%nat -> is_Some (detect_loop fuel io buf).
Proof.
  induction fuel as [|fuel IH]; intros io buf Hl; cbn [detect_loop];
    rewrite preface_length; (destruct (length buf <? 24)%nat eqn:E; [|done]); apply Nat.ltb_lt in E; [lia|].
  destruct (hyper_poll_read (mkReadBuf buf 24) io) as [[r rb] io'] eqn:Er.
  apply Happ in Er. simpl in Er. apply prefix_length in Er.
  destruct r as [|[u|e]]; [done| |done]. destruct (length (filled rb) =? length buf)%nat eqn:En; [done|].
  apply Nat.eqb_neq in En. destruct (negb _); [done|]. apply IH. lia.
Qed.

Lemma start_live b v io s : live (start ft hy b v io s).
Proof. destruct v; unfold start; [destruct (f_http1 ft) | destruct (f_http2 ft)]; by try eexists. Qed.

Lemma poll_started_live c :
  live c -> (forall rv b s, c <> CReadVersion hy rv b s) ->
  exists r c', poll_started ft hy c = Some (r, c') /\ (r = Pending -> live c').
Proof.
  intros Hl Hr. destruct c as [rv b s|conn|conn|e]; cbn [poll_started]; [by destruct (Hr rv b s)| | |].
  - destruct (f_http1 ft); [destruct (h1_poll _ _ hy conn)|]; eexists _, _; by split.
  - destruct (f_http2 ft); [destruct (h2_poll _ _ hy conn)|]; eexists _, _; by split.
  - destruct Hl as [x ->]. rewrite some_bind. eexists _, _. by split.
Qed.

Lemma connection_poll_live c :
  live c -> exists r c', connection_poll ft hy c = Some (r, c') /\ (r = Pending -> live c').
Proof.
  intros Hl. destruct c as [rv b s|conn|conn|e]; try (by apply poll_started_live).
  destruct Hl as [Hio [sv ->]]. cbn [connection_poll]. unfold read_version_poll.
  destruct (rv_cancelled rv) eqn:Ec; [rewrite some_bind; eexists _, _; by split|]. destruct Hio as [?|[io Eio]]; [done|].
  rewrite Eio, some_bind. destruct (detect_loop_total (length H2_PREFACE) io (rv_filled rv)) as [[[d io'] buf] ->].
  { rewrite preface_length. lia. }
  rewrite some_bind. destruct d as [|[v|e]]; cbn iota; rewrite ?some_bind.
  - eexists _, _. split; [done|]. intros _. split; [|done]. right. by eexists.
  - apply poll_started_live; [apply start_live|]. intros. destruct v; unfold start;
      [destruct (f_http1 ft) | destruct (f_http2 ft)]; done.
  - eexists _, _. by split.
Qed.

Lemma graceful_live c : live c -> live (graceful_shutdown ft hy c).
Proof.
  destruct c; simpl; [|destruct (f_http1 ft)|destruct (f_http2 ft)|]; try done. intros [_ ?]. by split; [left|].
Qed.

Lemma poll_closing_live hook c :
  live c -> exists t' h, poll_closing hook c = Some (t', h) /\ live_task t'.
Proof.
  intros Hl. unfold poll_closing. destruct (connection_poll_live c Hl) as (r & c' & -> & Hp). rewrite some_bind.
  destruct r; eexists _, _; (split; [done|]); simpl; auto.
Qed.

Lemma poll_serving_live hook env c :
  live c -> exists t' h, poll_serving hook env c = Some (t', h) /\ live_task t'.
Proof.
  intros Hl. unfold poll_serving. destruct (connection_poll_live c Hl) as (r & c' & -> & Hp). rewrite some_bind.
  destruct r as [|r]; [|by eexists _, _]. specialize (Hp eq_refl).
  destruct (asked env); [by apply poll_closing_live, graceful_live | by eexists _, _].
Qed.

Lemma serve_connection_live b io s : live (serve_connection ft hy b io s).
Proof.
  unfold serve_connection. destruct (version hy b); [apply start_live|]. split; [right|]; by eexists.
Qed.

Lemma serve_tls_live b alpn io s :
  version hy b = None -> exists r, serve_tls_connection ft hy b alpn io s = Some r /\
    match r with Ok c => live c | Err _ => True end.
Proof.
  intros Hv. unfold serve_tls_connection, http1_only, http2_only. rewrite Hv.
  destruct alpn as [p|]; [destruct (bytes_eqb p (bs "h2")); [|destruct (bytes_eqb p (bs "http/1.1"))]|];
    repeat match goal with |- context [if ?f then _ else _] => destruct f end; rewrite ?some_bind;
    eexists; (split; [reflexivity|]); try done; apply serve_connection_live.
Qed.

Lemma poll_conn_task_live hook env t :
  live_task t -> exists t' h, poll_conn_task hook env t = Some (t', h) /\ live_task t'.
Proof.
  destruct t as [b s|c|c|]; simpl; intros Hl; [|by apply poll_serving_live|by apply poll_closing_live|by eexists _, _].
  destruct (acceptor env) as [|[[alpn io]|e]].
  - destruct (asked env); by eexists _, _.
  - destruct (serve_tls_live b alpn io s Hl) as ([c|e] & -> & Hc); rewrite some_bind;
      [by apply poll_serving_live | by eexists _, _].
  - by eexists _, _.
Qed.

Lemma run_conn_task_live hook envs : forall t, live_task t -> is_Some (run_conn_task hook envs t).
Proof.
  induction envs as [|env envs IH]; intros t Hl; [done|]. cbn [run_conn_task].
  destruct (poll_conn_task_live hook env t Hl) as (t' & h & -> & Hl'). rewrite some_bind.
  destruct (IH t' Hl') as [[t2 h2] ->]. done.
Qed.

(** C18. The spawned tasks refine the abstract task: whatever the transport, the
    acceptor and the shutdown receiver do, no poll of a task panics, and its
    polls are the polls of the abstract task on what the task observes: the
    acceptor's answers, the connection's, and those of the connection after
    [graceful_shutdown].  A task serving a connection was not asked to shut
    down; once asked it has told the connection to shut down gracefully, in the
    same poll, and waits for it; it ends only when the connection itself does,
    and reports its error. *)
Theorem conn_task_run_refines hook envs t :
  (exists stream service, t = plain_start stream service) \/ (exists service, t = tls_start service) ->
  exists t' h, run_conn_task hook envs t = Some (t', h) /\
    map Lifecycle.Lifecycle.asked (observed hook envs t) = map asked envs /\
    Lifecycle.Lifecycle.task_run hook (observed hook envs t) (abs t) = (abs t', h) /\
    forall c, t = TServing c -> lived hook c (existsb asked envs) t' h.
Proof.
  intros Ht. assert (live_task t) as Hl.
  { destruct Ht as [(stream & service & ->)|(service & ->)]; [|done].
    apply (serve_connection_live (builder_new hy cfg1 cfg2) stream service). }
  destruct (run_conn_task_live hook envs t Hl) as [[t' h] E]. exists t', h. split; [done|].
  destruct (run_observed _ _ _ _ _ E). split_and!; [done..|]. intros c ->. by apply run_serving in E.
Qed.

(** C29. A task asked to shut down while its client has not sent enough to tell
    the protocol ends at that poll, whatever the client does, and the hook
    hears of the interrupted detection: silent clients do not hold up a
    shutdown. *)
Theorem silent_client_is_released hook env envs rv rv' b s :
  asked env = true ->
  connection_poll ft hy (CReadVersion hy rv b s) = Some (Pending, CReadVersion hy rv' b s) ->
  run_conn_task hook (env :: envs) (TServing (CReadVersion hy rv b s))
    = Some (TFinished, Lifecycle.Lifecycle.report hook detection_cancelled).
Proof.
  intros Ha E. cbn [run_conn_task poll_conn_task]. unfold poll_serving. rewrite E, some_bind, Ha. cbn iota.
  unfold poll_closing. cbn [graceful_shutdown connection_poll].
  unfold read_version_poll. cbn [cancel rv_cancelled]. rewrite !some_bind, run_finished, some_bind. by destruct hook.
Qed.
End Task.

(** ** Concrete tasks *)
Definition quiet : TaskEnv (IO := Script) := mkTaskEnv Pending false.
Definition asked_now : TaskEnv (IO := Script) := mkTaskEnv Pending true.
(** The first bytes of the preface, then silence. *)
Definition silent : Script := [AData (bs "PRI * HT"); APending; APending; APending].
Definition sample_features : Features := mkFeatures true true.

Lemma script_reads_append : reads_append (IO := Script).
Proof.
  intros rb io r rb' io'. unfold hyper_poll_read, script_hyper.
  destruct (script_read (remaining rb) io) as [[|[b|e]] s]; intros [= _ <- _]; [done|by exists b|done].
Qed.

(** The adapter around every accepted stream only appends. *)
Lemma futures_io_reads_append {S} `{AsyncRead S} : reads_append (IO := FuturesIo S).
Proof.
  intros rb io r rb' io'. unfold hyper_poll_read, futures_io_read, futures_io_poll_read.
  destruct (remaining rb =? 0)%nat; [by intros [= _ <- _]|].
  destruct (async_poll_read _ _) as [[|[[n dst]|e]] s]; [by intros [= _ <- _]| |by intros [= _ <- _]].
  destruct (_ <? n)%nat; intros [= _ <- _]; [done|]. by eexists.
Qed.

Lemma conn_task_run_refines_witness :
  exists t' h, run_conn_task sample_features sample_hyper true [quiet; quiet; asked_now; quiet]
      (plain_start sample_features sample_hyper () () silent ()) = Some (t', h) /\
    h = [detection_cancelled] /\ t' = TFinished _.
Proof.
  destruct (conn_task_run_refines sample_features sample_hyper () () script_reads_append true
    [quiet; quiet; asked_now; quiet] (plain_start sample_features sample_hyper () () silent ()))
    as (t' & h & E & _ & Er & _); [left; by exists silent, ()|].
  exists t', h. split; [exact E|]. vm_compute in E. injection E as <- <-. split; reflexivity.
Defined.

Lemma silent_client_is_released_witness :
  exists rv, run_conn_task sample_features sample_hyper true [asked_now; quiet] (TServing _ (CReadVersion _ rv sample_builder (Some ())))
    = Some (TFinished _, [detection_cancelled]).
Proof.
  exists (read_version silent). refine (silent_client_is_released _ _ true asked_now [quiet] _ _ _ _ _ _); reflexivity.
Defined.
End ServerTask.
