(* ===== verification/Connect.v ===== *)
(** * Connection establishment of the asynchronous client ([h12tiny-client], [connect.rs])

    [crates/h12tiny-client/src/connect.rs]: resolving, racing the resolved
    addresses, TLS and ALPN, and the establishment timeout.  A future is a
    [timed] value: when it is ready, counted from its start, and with what; a
    future that is never ready is [None].  Resolvers, dialers, timers, TCP and
    Rustls are parameters.  Attempts that finish at the same instant are
    reported in the order in which they were started. *)

From Stdlib Require Import ZArith Lia String.
From Stdlib Require Import Strings.Byte.
From stdpp Require Import base option list.
From S2P Require Import Prelude Bytes HttpLib Stream Pool.

Open Scope Z_scope.

Module Connect.
Import Pool.Pool.

(** ** Data *)
Inductive SocketAddr := V4 (ip port : Z) | V6 (ip port : Z).
Definition is_ipv6 (a : SocketAddr) : bool := match a with V6 _ _ => true | V4 _ _ => false end.
Definition is_ipv4 (a : SocketAddr) : bool := negb (is_ipv6 a).

(** [ErrorKind] of [lib.rs]. *)
Inductive ErrorKind :=
| Canceled | UnsupportedSchemeKind | ConnectKind | TlsKind | AlpnKind | Handshake | SendRequest
| UnsupportedMethod | UnsupportedVersion | AbsoluteUriRequired | ProtocolUnavailable.
#[export] Instance ErrorKind_eq_dec : EqDecision ErrorKind.
Proof. solve_decision. Defined.

(** [ConnectionInfo] of [lib.rs]. *)
Record ConnectionInfo := mkInfo {
  ci_protocol : ConnectionProtocol;
  local_addr : option SocketAddr;
  peer_addr : option SocketAddr;
  connect_duration : option Duration;
  handshake_duration : option Duration
}.
Definition info_new (p : ConnectionProtocol) : ConnectionInfo := mkInfo p None None None None.

Section Connect.
Context {L : HttpLib}.
(** Erased errors, the streams of custom dialers, and TLS sessions. *)
Context {DialError CustomTcp CustomIo TcpStream TlsConfig TlsStream : Type}.

Inductive Error :=
| MissingHost
| UnsupportedScheme (s : bytes)
| TlsDisabled
| InvalidServerName (host : bytes)
| UnexpectedAlpn (p : bytes)
| RequiredHttp2NotNegotiated
| EConnect (e : io_error)
| EResolve (e : DialError)
| ECustom (e : DialError)
| ETimeout
| ETls (e : io_error).

Definition client_error_kind (e : Error) : ErrorKind :=
  match e with
  | UnsupportedScheme _ => UnsupportedSchemeKind
  | UnexpectedAlpn _ | RequiredHttp2NotNegotiated => AlpnKind
  | InvalidServerName _ | ETls _ => TlsKind
  | TlsDisabled => TlsKind
  | MissingHost | EConnect _ | EResolve _ | ECustom _ | ETimeout => ConnectKind
  end.

(** [BoxedTcpIo] and [BoxedIo]: where the stream came from. *)
Inductive TcpIo := Dialed (s : TcpStream) | Supplied (c : CustomTcp).
Inductive Io := Plain (t : TcpIo) | Secured (s : TlsStream) | Opaque (c : CustomIo).

Record TcpConnected := mkTcpConnected {
  tc_io : TcpIo;
  tc_local : option SocketAddr;
  tc_peer : option SocketAddr
}.
Definition tcp_connected_new (io : TcpIo) : TcpConnected := mkTcpConnected io None None.
Definition tcp_with_addresses (l p : option SocketAddr) (t : TcpConnected) : TcpConnected :=
  mkTcpConnected (tc_io t) l p.

Record Connected := mkConnected {
  c_io : Io;
  c_protocol : ConnectionProtocol;
  c_info : ConnectionInfo
}.
Definition connected_new (io : Io) (p : ConnectionProtocol) : Connected :=
  mkConnected io p (info_new p).
Definition with_addresses (l p : option SocketAddr) (c : Connected) : Connected :=
  let i := c_info c in
  mkConnected (c_io c) (c_protocol c)
    (mkInfo (ci_protocol i) l p (connect_duration i) (handshake_duration i)).

(** The traits [Dialer], [TcpDialer], [Resolver] and [Timer]. *)
Definition Dialer := Uri -> bool -> timed (result Connected DialError).
Definition TcpDialer := Uri -> timed (result TcpConnected DialError).
Definition Resolver := bytes -> Z -> timed (result (list SocketAddr) DialError).
Definition Timer := Duration -> timed ().

(** [SystemResolver], over [async_net::resolve]; the error is boxed. *)
Definition system_resolve (async_net_resolve : bytes -> Z -> timed (result (list SocketAddr) io_error))
    (boxed : io_error -> DialError) : Resolver :=
  fun host port => timed_map (map_err boxed) (async_net_resolve host port).

Inductive ConnectorKind := Default | Custom (d : Dialer) | Tcp (d : TcpDialer).

Record Connector := mkConnector {
  kind : ConnectorKind;
  resolver : Resolver;
  happy_eyeballs_timeout : option Duration;
  connect_timeout : option Duration;
  conn_timer : Timer;
  tls : TlsConfig
}.

(** What the crate uses of async-io and Rustls; [tls_feature] is the crate
    feature. *)
Record Net := mkNet {
  tls_feature : bool;
  tcp_connect : SocketAddr -> timed (result TcpStream io_error);
  stream_local : TcpStream -> option SocketAddr;
  stream_peer : TcpStream -> option SocketAddr;
  server_name_valid : bytes -> bool;
  with_alpn : list bytes -> TlsConfig -> TlsConfig;
  tls_connect : TlsConfig -> bytes -> TcpIo -> timed (result TlsStream io_error);
  alpn_protocol : TlsStream -> option bytes;
  default_tls_config : TlsConfig;
  system_resolver : Resolver;
  async_io_timer : Timer
}.
Context (net : Net).

(** ** Builders *)
Definition with_tls_config (config : TlsConfig) : Connector :=
  mkConnector Default (system_resolver net) (Some 250000000) None (async_io_timer net) config.
Definition connector_default : Connector := with_tls_config (default_tls_config net).

Definition builder_resolver (r : Resolver) (c : Connector) : Connector :=
  mkConnector (kind c) r (happy_eyeballs_timeout c) (connect_timeout c) (conn_timer c) (tls c).
Definition builder_happy_eyeballs_timeout (t : option Duration) (c : Connector) : Connector :=
  mkConnector (kind c) (resolver c) t (connect_timeout c) (conn_timer c) (tls c).
Definition builder_dialer (d : Dialer) (c : Connector) : Connector :=
  mkConnector (Custom d) (resolver c) (happy_eyeballs_timeout c) (connect_timeout c) (conn_timer c) (tls c).
Definition builder_tcp_dialer (d : TcpDialer) (c : Connector) : Connector :=
  mkConnector (Tcp d) (resolver c) (happy_eyeballs_timeout c) (connect_timeout c) (conn_timer c) (tls c).
Definition builder_connect_timeout (t : Duration) (c : Connector) : Connector :=
  mkConnector (kind c) (resolver c) (happy_eyeballs_timeout c) (Some t) (conn_timer c) (tls c).
Definition builder_timer (t : Timer) (c : Connector) : Connector :=
  mkConnector (kind c) (resolver c) (happy_eyeballs_timeout c) (connect_timeout c) t (tls c).
Definition builder_tls_config (t : TlsConfig) (c : Connector) : Connector :=
  mkConnector (kind c) (resolver c) (happy_eyeballs_timeout c) (connect_timeout c) (conn_timer c) t.

(** [ConnectorBuilder] holds the connector it ends in: [builder] and [build]. *)
Definition connector_builder : Connector := connector_default.
Definition connector_build (c : Connector) : Connector := c.
Definition with_dialer (d : Dialer) : Connector := connector_build (builder_dialer d connector_builder).
Definition with_tcp_dialer (d : TcpDialer) : Connector := connector_build (builder_tcp_dialer d connector_builder).
Definition with_resolver (r : Resolver) : Connector := connector_build (builder_resolver r connector_builder).

(** With another provider; [provider_config] is the configuration
    [ClientTlsConfigBuilder] builds over it, or its error. *)
Definition with_tls_provider {P E} (provider_config : P -> result TlsConfig E) (p : P) : result Connector E :=
  map_ok with_tls_config (provider_config p).
Definition builder_tls_provider {P E} (provider_config : P -> result TlsConfig E) (p : P) (c : Connector)
    : result Connector E :=
  map_ok (fun config => builder_tls_config config c) (provider_config p).

Definition force_http1 (c : Connector) : Connector :=
  if tls_feature net then builder_tls_config (with_alpn net [bs "http/1.1"] (tls c)) c else c.

(** ** Racing the resolved addresses *)
Definition no_connected_address (last_error : option io_error) : io_error :=
  default (mkIoError InvalidInput "could not connect to any of the resolved addresses") last_error.

(** The [while let] of [interleave_address_families]: [extend(ipv4)] at its
    end. *)
Fixpoint interleave (ipv6 ipv4 : list SocketAddr) : list SocketAddr :=
  match ipv6 with
  | [] => ipv4
  | a :: ipv6' =>
      match ipv4 with
      | [] => a :: interleave ipv6' []
      | b :: ipv4' => a :: b :: interleave ipv6' ipv4'
      end
  end.

Definition interleave_address_families (addresses : list SocketAddr) : list SocketAddr :=
  interleave (List.filter is_ipv6 addresses) (List.filter is_ipv4 addresses).

Definition has_both_address_families (addresses : list SocketAddr) : bool :=
  existsb is_ipv6 addresses && existsb is_ipv4 addresses.

(** An attempt in flight: when it is ready, on the clock of the race. *)
Abbreviation Attempt := (option (Z * result TcpStream io_error)).
Definition start_attempt (now : Z) (address : SocketAddr) : Attempt :=
  '(d, r) ← tcp_connect net address; Some (now + d, r).

(** [FuturesUnordered::next] on attempts in flight: the first to be ready, and
    the others. *)
Fixpoint next_attempt (l : list Attempt)
    : option (Z * result TcpStream io_error * list Attempt) :=
  match l with
  | [] => None
  | a :: l' =>
      match a, next_attempt l' with
      | Some (t, r), Some (t', r', rest) =>
          if t <=? t' then Some (t, r, l') else Some (t', r', a :: rest)
      | Some (t, r), None => Some (t, r, l')
      | None, Some (t', r', rest) => Some (t', r', a :: rest)
      | None, None => None
      end
  end.

(** The serial loop, for one address family or without a delay. *)
Fixpoint connect_serial (last_error : option io_error) (addresses : list SocketAddr)
    : timed (result TcpStream io_error) :=
  match addresses with
  | [] => now_ready (Err (no_connected_address last_error))
  | address :: rest =>
      await (tcp_connect net address) (fun r =>
        match r with
        | Ok stream => now_ready (Ok stream)
        | Err error => connect_serial (Some error) rest
        end)
  end.

(** The last loop: all attempts have started. *)
Fixpoint drain_attempts (fuel : nat) (now : Z) (last_error : option io_error) (attempts : list Attempt)
    : timed (result TcpStream io_error) :=
  match attempts, fuel with
  | [], _ => Some (now, Err (no_connected_address last_error))
  | _, O => None
  | _, S fuel' =>
      '(t, r, rest) ← next_attempt attempts;
      match r with
      | Ok stream => Some (Z.max now t, Ok stream)
      | Err error => drain_attempts fuel' (Z.max now t) (Some error) rest
      end
  end.

(** The loop over the addresses that have not started: an attempt that is
    ready when the sleep is wins. *)
Fixpoint race (timer : Timer) (delay : Duration) (now : Z) (last_error : option io_error)
    (attempts : list Attempt) (addresses : list SocketAddr) : timed (result TcpStream io_error) :=
  match addresses with
  | [] => drain_attempts (length attempts) now last_error attempts
  | next :: rest =>
      let go t last_error attempts := race timer delay t last_error (attempts ++ [start_attempt t next]) rest in
      match attempts with
      | [] => go now last_error attempts
      | _ =>
          match next_attempt attempts, timer delay with
          | Some (t, r, others), sleep =>
              let in_time := match sleep with Some (d, _) => t <=? now + d | None => true end in
              if in_time then
                match r with
                | Ok stream => Some (Z.max now t, Ok stream)
                | Err error => go (Z.max now t) (Some error) others
                end
              else match sleep with
                   | Some (d, _) => go (now + d) last_error attempts
                   | None => None
                   end
          | None, Some (d, _) => go (now + d) last_error attempts
          | None, None => None
          end
      end
  end.

Definition connect_resolved_addresses (addresses : list SocketAddr) (delay : option Duration)
    (timer : Timer) : timed (result TcpStream io_error) :=
  let addresses := interleave_address_families addresses in
  match delay with
  | Some delay =>
      if has_both_address_families addresses then
        match addresses with
        | [] => now_ready (Err (no_connected_address None))
        | first :: rest => race timer delay 0 None [start_attempt 0 first] rest
        end
      else connect_serial None addresses
  | None => connect_serial None addresses
  end.

(** ** Establishing a connection *)
Definition connect_tcp (c : Connector) (host : bytes) (port : Z) : timed (result TcpStream Error) :=
  await? addresses := timed_map (map_err EResolve) (resolver c host port) in
  timed_map (map_err EConnect)
    (connect_resolved_addresses addresses (happy_eyeballs_timeout c) (conn_timer c)).

Definition dialed (s : TcpStream) : TcpConnected :=
  tcp_with_addresses (stream_local net s) (stream_peer net s) (tcp_connected_new (Dialed s)).

(** The ALPN match of [connect_tls]. *)
Definition alpn_select (alpn : option bytes) (require_h2 : bool) : result ConnectionProtocol Error :=
  match alpn with
  | Some p =>
      if bytes_eqb p (bs "h2") then Ok ConnHttp2
      else if bytes_eqb p (bs "http/1.1") && negb require_h2 then Ok ConnHttp1
      else Err (UnexpectedAlpn p)
  | None => if negb require_h2 then Ok ConnHttp1 else Err RequiredHttp2NotNegotiated
  end.

Definition connect_tls (c : Connector) (host : bytes) (port : Z) (require_h2 : bool)
    (custom_tcp : option TcpConnected) : timed (result Connected Error) :=
  if negb (tls_feature net) then now_ready (Err TlsDisabled)
  else
    await? tcp := match custom_tcp with
                  | Some tcp => now_ready (Ok tcp)
                  | None => timed_map (map_ok dialed) (connect_tcp c host port)
                  end in
    if negb (server_name_valid net host) then now_ready (Err (InvalidServerName host))
    else
      await? stream := timed_map (map_err ETls) (tls_connect net (tls c) host (tc_io tcp)) in
      now_ready
        (map_ok (fun p => with_addresses (tc_local tcp) (tc_peer tcp) (connected_new (Secured stream) p))
           (alpn_select (alpn_protocol net stream) require_h2)).

Definition unbracket (host : bytes) : bytes :=
  default host (strip_prefix (bs "[") host ≫= strip_suffix (bs "]")).

Definition connect_without_timeout (c : Connector) (uri : Uri) (require_h2 : bool)
    : timed (result Connected Error) :=
  match kind c with
  | Custom dialer => timed_map (map_err ECustom) (dialer uri require_h2)
  | k =>
      match uri_host uri with
      | None => now_ready (Err MissingHost)
      | Some h =>
          let host := unbracket h in
          match uri_scheme_str uri with
          | None => now_ready (Err (UnsupportedScheme []))
          | Some scheme =>
              if negb (bytes_eqb scheme (bs "http") || bytes_eqb scheme (bs "https"))
              then now_ready (Err (UnsupportedScheme scheme))
              else if negb (tls_feature net) && bytes_eqb scheme (bs "https")
              then now_ready (Err TlsDisabled)
              else
                await? tcp := match k with
                              | Tcp dialer => timed_map (map_ok Some) (timed_map (map_err ECustom) (dialer uri))
                              | _ => now_ready (Ok None)
                              end in
                if bytes_eqb scheme (bs "http") then
                  await? tcp := match tcp with
                                | Some tcp => now_ready (Ok tcp)
                                | None => timed_map (map_ok dialed)
                                            (connect_tcp c host (default 80 (uri_port_u16 uri)))
                                end in
                  now_ready (Ok (with_addresses (tc_local tcp) (tc_peer tcp)
                    (connected_new (Plain (tc_io tcp)) (if require_h2 then ConnHttp2 else ConnHttp1))))
                else connect_tls c host (default 443 (uri_port_u16 uri)) require_h2 tcp
          end
      end
  end.

Definition connect (c : Connector) (uri : Uri) (require_h2 : bool) : timed (result Connected Error) :=
  match connect_timeout c with
  | None => connect_without_timeout c uri require_h2
  | Some timeout =>
      timed_map (fun r => match r with inl r => r | inr _ => Err ETimeout end)
        (select (connect_without_timeout c uri require_h2) (conn_timer c timeout))
  end.

(** ** The order of the candidates *)
Lemma interleave_perm l6 : forall l4, interleave l6 l4 ≡ₚ l6 ++ l4.
Proof.
  induction l6 as [|a l6 IH]; intros [|b l4]; simpl; try done.
  - by rewrite IH.
  - rewrite IH. solve_Permutation.
Qed.

Lemma filter_none {A} (f : A -> bool) l : Forall (fun x => f x = false) l -> List.filter f l = [].
Proof. induction 1 as [|x l Hx _ IH]; [done|]. simpl. by rewrite Hx. Qed.

Lemma filter_all {A} (f : A -> bool) l : Forall (fun x => f x = true) l -> List.filter f l = l.
Proof. induction 1 as [|x l Hx _ IH]; [done|]. simpl. by rewrite Hx, IH. Qed.

Lemma filter_forall {A} (f : A -> bool) l : Forall (fun x => f x = true) (List.filter f l).
Proof. induction l as [|x l IH]; [constructor|]. simpl. destruct (f x) eqn:E; [by constructor | done]. Qed.

Lemma interleave_filter (f : SocketAddr -> bool) l6 : forall l4,
  Forall (fun a => f a = true) l6 -> Forall (fun a => f a = false) l4 ->
  List.filter f (interleave l6 l4) = l6 /\
  List.filter (fun a => negb (f a)) (interleave l6 l4) = l4.
Proof.
  induction l6 as [|a l6 IH]; intros l4 H6 H4.
  { split; [by apply filter_none|]. apply filter_all. eapply Forall_impl; [done|]. by intros ? ->. }
  apply Forall_cons in H6 as [Ha H6]. destruct l4 as [|b l4]; simpl; rewrite Ha; simpl.
  - destruct (IH [] H6 ltac:(constructor)) as [-> ->]. done.
  - apply Forall_cons in H4 as [Hb H4]. rewrite Hb. simpl. destruct (IH l4 H6 H4) as [-> ->]. done.
Qed.

Lemma interleave_alternates i : forall l6 l4,
  (i < length l6)%nat -> (i < length l4)%nat ->
  interleave l6 l4 !! (2 * i)%nat = l6 !! i /\ interleave l6 l4 !! (2 * i + 1)%nat = l4 !! i.
Proof.
  induction i as [|i IH]; intros [|a l6] [|b l4] H6 H4; simpl in *; try lia; [done|].
  replace (i + S (i + 0))%nat with (S (2 * i)) by lia. apply IH; lia.
Qed.

Lemma is_ipv4_not : (fun a => negb (is_ipv6 a)) = is_ipv4.
Proof. done. Qed.

Lemma interleave_address_families_perm l : interleave_address_families l ≡ₚ l.
Proof.
  unfold interleave_address_families. rewrite interleave_perm. unfold is_ipv4.
  induction l as [|a l IH]; [done|]. simpl.
  destruct (is_ipv6 a); simpl; rewrite <- IH at 3; solve_Permutation.
Qed.

(** The order in which addresses are tried is the resolver's, with the
    families interleaved: nothing is lost or added, each family keeps its
    order, and as long as both families last the candidates alternate,
    starting with IPv6. *)
Theorem interleave_address_families_spec (l : list SocketAddr) :
  interleave_address_families l ≡ₚ l /\
  List.filter is_ipv6 (interleave_address_families l) = List.filter is_ipv6 l /\
  List.filter is_ipv4 (interleave_address_families l) = List.filter is_ipv4 l /\
  forall i, (i < length (List.filter is_ipv6 l))%nat -> (i < length (List.filter is_ipv4 l))%nat ->
    interleave_address_families l !! (2 * i)%nat = List.filter is_ipv6 l !! i /\
    interleave_address_families l !! (2 * i + 1)%nat = List.filter is_ipv4 l !! i.
Proof.
  split; [apply interleave_address_families_perm|]. unfold interleave_address_families.
  split; [|split].
  - apply (interleave_filter is_ipv6); [apply filter_forall|].
    eapply Forall_impl; [apply filter_forall|]. intros x. apply negb_true_iff.
  - apply (interleave_filter is_ipv6); [apply filter_forall|].
    eapply Forall_impl; [apply filter_forall|]. intros x. apply negb_true_iff.
  - intros i. apply interleave_alternates.
Qed.

(** ** The race *)
Context (durations : forall a d r, tcp_connect net a = Some (d, r) -> 0 <= d).

(** The attempt that is reported is the earliest one. *)
Lemma next_attempt_some l t r rest :
  next_attempt l = Some (t, r, rest) ->
  l ≡ₚ Some (t, r) :: rest /\ forall t' r', Some (t', r') ∈ l -> t <= t'.
Proof.
  revert t r rest. induction l as [|a l IH]; intros t r rest E; [done|]. simpl in E.
  assert (next_attempt l = None -> forall t' r', Some (t', r') ∉ l) as Hnone.
  { clear. induction l as [|b l IH]; intros E t' r'; [apply not_elem_of_nil|]. simpl in E.
    destruct b as [[]|], (next_attempt l) as [[[]]|]; try done; try (case_match; done).
    rewrite elem_of_cons. intros [?|?]; [done|]. by eapply IH. }
  destruct a as [[ta ra]|], (next_attempt l) as [[[t1 r1] rest1]|] eqn:E1; simplify_eq.
  - destruct (IH _ _ _ eq_refl) as [Hp Hm]. destruct (ta <=? t1) eqn:El; simplify_eq; bool_hyps.
    + split; [done|]. intros t' r' [[= -> ->]|Hin]%elem_of_cons; [lia|]. specialize (Hm _ _ Hin). lia.
    + split; [rewrite Hp; solve_Permutation|].
      intros t' r' [[= -> ->]|Hin]%elem_of_cons; [lia | eauto].
  - split; [done|]. intros t' r' [[= -> ->]|Hin]%elem_of_cons; [lia|]. by apply (Hnone eq_refl) in Hin.
  - destruct (IH _ _ _ eq_refl) as [Hp Hm]. split; [rewrite Hp; solve_Permutation|].
    intros t' r' [?|Hin]%elem_of_cons; [done | eauto].
Qed.

Lemma next_attempt_none l t r : Some (t, r) ∈ l -> next_attempt l <> None.
Proof.
  induction l as [|b l IH]; [by intros ?%not_elem_of_nil|]. intros [<-|Hin]%elem_of_cons; simpl.
  - destruct (next_attempt l) as [[[]]|]; [case_match|]; done.
  - specialize (IH Hin). destruct b as [[]|], (next_attempt l) as [[[]]|]; try case_match; done.
Qed.

Lemma next_attempt_length l t r rest : next_attempt l = Some (t, r, rest) -> length l = S (length rest).
Proof. intros [Hp _]%next_attempt_some. by rewrite Hp. Qed.

(** A successful attempt in flight wins no later than its own time. *)
Lemma drain_in_time fuel : forall now last attempts T s,
  (length attempts <= fuel)%nat -> Some (T, Ok s) ∈ attempts ->
  exists t s', drain_attempts fuel now last attempts = Some (t, Ok s') /\ t <= Z.max now T.
Proof.
  induction fuel as [|fuel IH]; intros now last attempts T s Hl Hin.
  { destruct attempts; [by apply not_elem_of_nil in Hin | simpl in Hl; lia]. }
  destruct attempts as [|a l]; [by apply not_elem_of_nil in Hin|].
  cbn [drain_attempts]. set (k := a :: l) in *.
  destruct (next_attempt k) as [[[t r] rest]|] eqn:E; [|by apply next_attempt_none in Hin].
  rewrite some_bind. pose proof (next_attempt_length _ _ _ _ E) as Hlen.
  apply next_attempt_some in E as [Hp Hm]. specialize (Hm _ _ Hin). destruct r as [s'|e].
  - exists (Z.max now t), s'. split; [done | lia].
  - rewrite Hp in Hin. apply elem_of_cons in Hin as [?|Hin]; [done|].
    destruct (IH (Z.max now t) (Some e) rest T s) as (t' & s' & -> & Ht); [lia | done|].
    exists t', s'. split; [done | lia].
Qed.

(** The timer sleeps for the time it is given. *)
Definition punctual (timer : Timer) : Prop := forall d, timer d = Some (d, ()).

Lemma race_in_time timer delay addresses :
  punctual timer -> 0 <= delay ->
  (forall now last attempts T s, Some (T, Ok s) ∈ attempts ->
     exists t s', race timer delay now last attempts addresses = Some (t, Ok s') /\ t <= Z.max now T) /\
  (forall now last attempts k a d s, attempts <> [] ->
     addresses !! k = Some a -> tcp_connect net a = Some (d, Ok s) ->
     exists t s', race timer delay now last attempts addresses = Some (t, Ok s') /\
       t <= now + (Z.of_nat k + 1) * delay + d).
Proof.
  intros Htm Hd. induction addresses as [|next rest [IHA IHB]].
  { split; [|done]. intros now last attempts T s Hin. simpl. by apply (drain_in_time _ _ _ _ _ s). }
  split.
  - intros now last attempts T s Hin. cbn [race]. destruct attempts as [|a0 l0]; [by apply not_elem_of_nil in Hin|].
    set (l := a0 :: l0) in *. rewrite Htm.
    destruct (next_attempt l) as [[[t r] others]|] eqn:E; [|by apply next_attempt_none in Hin].
    apply next_attempt_some in E as [Hp Hm]. pose proof (Hm _ _ Hin) as HtT.
    destruct (t <=? now + delay) eqn:El; bool_hyps.
    + destruct r as [s'|e]; [exists (Z.max now t), s'; split; [done|lia]|].
      rewrite Hp in Hin. apply elem_of_cons in Hin as [?|Hin]; [done|].
      destruct (IHA (Z.max now t) (Some e) (others ++ [start_attempt (Z.max now t) next]) T s)
        as (t' & s' & -> & Ht); [apply elem_of_app; by left|]. exists t', s'. split; [done|lia].
    + destruct (IHA (now + delay) last (l ++ [start_attempt (now + delay) next]) T s)
        as (t' & s' & -> & Ht); [apply elem_of_app; by left|]. exists t', s'. split; [done|lia].
  - intros now last attempts k a d s Hne Hk Ha. cbn [race]. destruct attempts as [|a0 l0]; [done|].
    set (l := a0 :: l0) in *. rewrite Htm. pose proof (durations _ _ _ Ha) as Hd0.
    assert (Hgo : forall now' last' l', now' <= now + delay ->
      exists t s', race timer delay now' last' (l' ++ [start_attempt now' next]) rest = Some (t, Ok s') /\
        t <= now + (Z.of_nat k + 1) * delay + d).
    { intros now' last' l' Hn. destruct k as [|k]; simpl in Hk.
      - injection Hk as ->.
        destruct (IHA now' last' (l' ++ [start_attempt now' a]) (now' + d) s) as (t & s' & -> & Ht).
        { apply elem_of_app. right. unfold start_attempt. rewrite Ha. left. }
        exists t, s'. split; [done|]. lia.
      - destruct (IHB now' last' (l' ++ [start_attempt now' next]) k a d s) as (t & s' & -> & Ht); [by destruct l'|done|done|].
        exists t, s'. split; [done|]. lia. }
    destruct (next_attempt l) as [[[t r] others]|] eqn:E; [|apply Hgo; lia].
    destruct (t <=? now + delay) eqn:El; bool_hyps; [|apply Hgo; lia].
    destruct r as [s'|e]; [|apply Hgo; lia].
    exists (Z.max now t), s'. split; [done|]. assert (0 <= Z.of_nat k * delay) by lia. lia.
Qed.

(** C25. Happy Eyeballs: when both families resolved, a candidate that answers is
    connected to no later than the candidates before it delay its start, by at
    most the configured delay each, whatever those candidates do (fail, or
    never answer). *)
Theorem happy_eyeballs_in_time (l : list SocketAddr) (delay : Duration) (timer : Timer) k a d s :
  punctual timer -> 0 <= delay ->
  has_both_address_families (interleave_address_families l) = true ->
  interleave_address_families l !! k = Some a -> tcp_connect net a = Some (d, Ok s) ->
  exists t s', connect_resolved_addresses l (Some delay) timer = Some (t, Ok s') /\
    t <= Z.of_nat k * delay + d.
Proof.
  intros Htm Hd Hb Hk Ha. unfold connect_resolved_addresses. rewrite Hb. pose proof (durations _ _ _ Ha).
  destruct (interleave_address_families l) as [|first rest]; [done|].
  destruct (race_in_time timer delay rest Htm Hd) as [HA HB]. destruct k as [|k]; simpl in Hk.
  - injection Hk as ->. destruct (HA 0 None [start_attempt 0 a] d s) as (t & s' & -> & Ht).
    { unfold start_attempt. rewrite Ha. left. }
    exists t, s'. split; [done | lia].
  - destruct (HB 0 None [start_attempt 0 first] k a d s) as (t & s' & -> & Ht); try done.
    exists t, s'. split; [done | lia].
Qed.

(** Which addresses an answer is about. *)
Definition from_address (A : list SocketAddr) (r : result TcpStream io_error) : Prop :=
  exists a d, a ∈ A /\ tcp_connect net a = Some (d, r).
Definition all_failed (A : list SocketAddr) : Prop :=
  forall a, a ∈ A -> exists d e, tcp_connect net a = Some (d, Err e).
Definition attempts_of (A : list SocketAddr) (l : list Attempt) : Prop :=
  forall x, x ∈ l -> exists a now, a ∈ A /\ x = start_attempt now a.
Definition attempts_failed (l : list Attempt) : Prop :=
  forall x, x ∈ l -> exists t e, x = Some (t, Err e).

(** The error a race over [A] ends with: the last one seen. *)
Definition error_of (A : list SocketAddr) (last : option io_error) (none : bool) (e : io_error) : Prop :=
  (none = true /\ e = no_connected_address last) \/ from_address A (Err e) \/ last = Some e.

Definition is_nil {A} (l : list A) : bool := match l with [] => true | _ => false end.

Lemma attempts_of_next A l t r rest :
  attempts_of A l -> next_attempt l = Some (t, r, rest) ->
  from_address A r /\ attempts_of A rest /\
  (attempts_failed rest -> (exists e, r = Err e) -> attempts_failed l).
Proof.
  intros Hof [Hp _]%next_attempt_some. split; [|split].
  - destruct (Hof (Some (t, r))) as (a & now & Ha & E); [rewrite Hp; left|].
    unfold start_attempt in E. destruct (tcp_connect net a) as [[d r']|] eqn:Et; [|done].
    simpl in E. injection E as _ ->. by exists a, d.
  - intros x Hx. apply Hof. rewrite Hp. by right.
  - intros Hf [e ->] x Hx. rewrite Hp in Hx. apply elem_of_cons in Hx as [->|Hx]; [by exists t, e | auto].
Qed.

Lemma drain_sound A fuel : forall now last attempts t r,
  attempts_of A attempts ->
  drain_attempts fuel now last attempts = Some (t, r) ->
  match r with
  | Ok s => from_address A (Ok s)
  | Err e => attempts_failed attempts /\ error_of A last (is_nil attempts) e
  end.
Proof.
  induction fuel as [|fuel IH]; intros now last attempts t r Hof E; destruct attempts as [|a0 l0];
    cbn [drain_attempts] in E; try done.
  1, 2: simplify_eq; split; [by intros x ?%not_elem_of_nil | by left].
  set (l := a0 :: l0) in *. destruct (next_attempt l) as [[[t1 r1] rest]|] eqn:En; [|done].
  rewrite some_bind in E. destruct (attempts_of_next _ _ _ _ _ Hof En) as (Hr & Hof' & Hf).
  destruct r1 as [s|e1]; [by simplify_eq|]. apply IH in E; [|done]. destruct r as [s|e]; [done|].
  destruct E as [Hrest He]. split; [apply Hf; eauto|]. right. left.
  destruct He as [[_ ->]|[?|[= <-]]]; done.
Qed.

Lemma race_sound A timer delay addresses : forall now last attempts t r,
  (forall a, a ∈ addresses -> a ∈ A) -> attempts_of A attempts -> attempts <> [] ->
  race timer delay now last attempts addresses = Some (t, r) ->
  match r with
  | Ok s => from_address A (Ok s)
  | Err e => attempts_failed attempts /\ all_failed addresses /\ error_of A last false e
  end.
Proof.
  induction addresses as [|next rest IH]; intros now last attempts t r Hin Hof Hne E; cbn [race] in E.
  { apply (drain_sound A) in E; [|done]. destruct r; [done|]. destruct E as [? [[? ?]|?]]; [by destruct attempts|].
    split_and!; [done | by intros x ?%not_elem_of_nil | by right]. }
  assert (Hgo : forall now' last' l', attempts_of A l' ->
    race timer delay now' last' (l' ++ [start_attempt now' next]) rest = Some (t, r) ->
    match r with
    | Ok s => from_address A (Ok s)
    | Err e => attempts_failed l' /\ all_failed (next :: rest) /\ error_of A last' false e
    end).
  { intros now' last' l' Hof' E'. apply IH in E'.
    - destruct r as [s|e]; [done|]. destruct E' as (Hf & Hall & He). split_and!; [| |done].
      + intros x Hx. apply Hf, elem_of_app. by left.
      + intros a [->|?]%elem_of_cons; [|by apply Hall].
        destruct (Hf (start_attempt now' next)) as (t' & e' & E2); [apply elem_of_app; right; left|].
        unfold start_attempt in E2. destruct (tcp_connect net next) as [[d' r']|]; [|done].
        simpl in E2. injection E2 as _ ->. eauto.
    - intros a Ha. apply Hin. by right.
    - intros x [?| ->%list_elem_of_singleton]%elem_of_app; [auto|]. exists next, now'.
      split; [apply Hin; left | done].
    - by destruct l'. }
  destruct attempts as [|a0 l0]; [done|]. set (l := a0 :: l0) in *.
  destruct (next_attempt l) as [[[t1 r1] others]|] eqn:En.
  - destruct (attempts_of_next _ _ _ _ _ Hof En) as (Hr & Hof' & Hf).
    destruct (match timer delay with Some (d, _) => _ | None => _ end).
    + destruct r1 as [s|e1]; [by simplify_eq|]. apply Hgo in E; [|done]. destruct r as [s|e]; [done|].
      destruct E as (Hf1 & Hf2 & He). split_and!; [apply Hf; eauto | done|]. right. left.
      destruct He as [[? _]|[?|[= <-]]]; done.
    + destruct (timer delay) as [[d' []]|]; [|done]. by apply Hgo in E.
  - destruct (timer delay) as [[d' []]|]; [|done]. by apply Hgo in E.
Qed.

Lemma serial_sound addresses : forall last t r,
  connect_serial last addresses = Some (t, r) ->
  match r with
  | Ok s => from_address addresses (Ok s)
  | Err e => all_failed addresses /\ error_of addresses last (is_nil addresses) e
  end.
Proof.
  induction addresses as [|a l IH]; intros last t r E; cbn [connect_serial] in E.
  { unfold now_ready in E. simplify_eq. split; [by intros x ?%not_elem_of_nil | by left]. }
  unfold await in E. destruct (tcp_connect net a) as [[d [s|e1]]|] eqn:Ea; [| |done]; rewrite some_bind in E.
  - simpl in E. simplify_eq. exists a, d. split; [left|done].
  - destruct (connect_serial (Some e1) l) as [[d' r']|] eqn:E'; [|done]. simpl in E. simplify_eq.
    apply IH in E'. destruct r as [s|e].
    + destruct E' as (b & db & Hb & Eb). exists b, db. split; [by right|done].
    + destruct E' as [Hf He]. split.
      * intros b [->|Hb]%elem_of_cons; eauto.
      * right. left. destruct He as [[_ ->]|[(b & db & Hb & Eb)|[= <-]]]; simpl.
        -- exists a, d. split; [left|done].
        -- exists b, db. split; [by right|done].
        -- exists a, d. split; [left|done].
Qed.

(** Attempts that all end: the race and the serial loop end. *)
Definition attempts_end (l : list Attempt) : Prop := forall x, x ∈ l -> is_Some x.

Lemma next_attempt_ends l : attempts_end l -> l <> [] ->
  exists t r rest, next_attempt l = Some (t, r, rest) /\ attempts_end rest.
Proof.
  intros He Hl. destruct (next_attempt l) as [[[t r] rest]|] eqn:E.
  - exists t, r, rest. split; [done|]. apply next_attempt_some in E as [Hp _]. intros x Hx. apply He.
    rewrite Hp. by right.
  - destruct l as [|a l]; [done|]. destruct (He a ltac:(left)) as [[t r] ->].
    destruct (next_attempt_none (Some (t, r) :: l) t r); [left | done].
Qed.

Lemma drain_total fuel : forall now last attempts,
  attempts_end attempts -> (length attempts <= fuel)%nat -> is_Some (drain_attempts fuel now last attempts).
Proof.
  induction fuel as [|fuel IH]; intros now last [|a l] He Hf; cbn [drain_attempts]; try by eexists.
  - simpl in Hf. lia.
  - destruct (next_attempt_ends (a :: l) He) as (t & r & rest & En & Hr); [done|]. rewrite En, some_bind.
    destruct r as [st|e]; [by eexists|]. apply IH; [done|].
    apply next_attempt_length in En. simpl in *. lia.
Qed.

Lemma start_attempt_ends now a : is_Some (tcp_connect net a) -> is_Some (start_attempt now a).
Proof. intros [[d r] E]. unfold start_attempt. rewrite E. by eexists. Qed.

Lemma race_total timer delay addresses : forall now last attempts,
  (forall a, a ∈ addresses -> is_Some (tcp_connect net a)) -> attempts_end attempts ->
  is_Some (race timer delay now last attempts addresses).
Proof.
  induction addresses as [|next rest IH]; intros now last attempts Ha He; cbn [race]; [by apply drain_total|].
  assert (Hgo : forall t last l, attempts_end l -> is_Some (race timer delay t last (l ++ [start_attempt t next]) rest)).
  { intros t last' l Hl. apply IH; [intros a Hin; apply Ha; by right|].
    intros x [Hx|Hx]%elem_of_app; [by apply Hl|]. apply list_elem_of_singleton in Hx as ->.
    apply start_attempt_ends, Ha. left. }
  destruct attempts as [|a l]; [by apply Hgo|].
  destruct (next_attempt_ends (a :: l) He) as (t & r & others & En & Ho); [done|]. rewrite En.
  destruct (timer delay) as [[d u]|]; [destruct (t <=? now + d)|]; try (destruct r; [by eexists|]); by apply Hgo.
Qed.

Lemma serial_total addresses : forall last,
  (forall a, a ∈ addresses -> is_Some (tcp_connect net a)) -> is_Some (connect_serial last addresses).
Proof.
  induction addresses as [|a l IH]; intros last Ha; cbn [connect_serial]; [by eexists|].
  destruct (Ha a ltac:(left)) as [[d r] E]. rewrite E, await_some. destruct r as [st|e]; [by eexists|].
  destruct (IH (Some e)) as [[d' x] ->]; [intros b Hb; apply Ha; by right | by eexists].
Qed.

Lemma resolved_total (l : list SocketAddr) (delay : option Duration) (timer : Timer) :
  (forall a, a ∈ l -> is_Some (tcp_connect net a)) -> is_Some (connect_resolved_addresses l delay timer).
Proof.
  intros Ha. assert (Ha' : forall a, a ∈ interleave_address_families l -> is_Some (tcp_connect net a)).
  { intros a. rewrite interleave_address_families_perm. apply Ha. }
  unfold connect_resolved_addresses. destruct delay as [delay|]; [|by apply serial_total].
  destruct (has_both_address_families _); [|by apply serial_total].
  destruct (interleave_address_families l) as [|first rest]; [by eexists|]. apply race_total.
  - intros a Hin. apply Ha'. by right.
  - intros x ->%list_elem_of_singleton. apply start_attempt_ends, Ha'. left.
Qed.

Lemma resolved_sound (l : list SocketAddr) (delay : option Duration)
    (timer : Timer) (t : Z) (r : result TcpStream io_error) :
  connect_resolved_addresses l delay timer = Some (t, r) ->
  match r with
  | Ok s => exists a d, a ∈ l /\ tcp_connect net a = Some (d, Ok s)
  | Err e =>
      (forall a, a ∈ l -> exists d e', tcp_connect net a = Some (d, Err e')) /\
      ((l = [] /\ ioe_kind e = InvalidInput) \/
       exists a d, a ∈ l /\ tcp_connect net a = Some (d, Err e))
  end.
Proof.
  intros E.
  assert (Hp : interleave_address_families l ≡ₚ l) by apply interleave_address_families_perm.
  assert (Hgoal : match r with
    | Ok s => from_address (interleave_address_families l) (Ok s)
    | Err e => all_failed (interleave_address_families l) /\
        error_of (interleave_address_families l) None (is_nil (interleave_address_families l)) e
    end).
  { unfold connect_resolved_addresses in E. destruct delay as [delay|]; [|by apply serial_sound in E].
    destruct (has_both_address_families _) eqn:Eb; [|by apply serial_sound in E].
    destruct (interleave_address_families l) as [|first rest] eqn:Ei; [done|].
    apply (race_sound (first :: rest)) in E.
    - destruct r as [s|e]; [done|]. destruct E as (Hf & Hall & He). split; [|done].
      intros a [->|?]%elem_of_cons; [|by apply Hall].
      destruct (Hf (start_attempt 0 first)) as (t' & e' & E2); [left|].
      unfold start_attempt in E2. destruct (tcp_connect net first) as [[d' r']|]; [|done].
      simpl in E2. injection E2 as _ ->. eauto.
    - intros a Ha. by right.
    - intros x ->%list_elem_of_singleton. exists first, 0. split; [left|done].
    - done. }
  destruct r as [s|e].
  - destruct Hgoal as (a & d & Ha & Ed). exists a, d. by rewrite <- Hp.
  - destruct Hgoal as [Hf He]. split; [intros a Ha; apply Hf; by rewrite Hp|].
    destruct He as [[Hn ->]|[(a & d & Ha & Ed)|?]]; [left|right|done].
    + split; [|done]. destruct (interleave_address_families l); [|done]. by apply Permutation_nil_l in Hp.
    + exists a, d. by rewrite <- Hp.
Qed.

(** C31. Racing (or trying in turn) the resolved addresses ends when the attempts
    do, whatever the timer does, and returns a stream only from an attempt that
    succeeded, and an error only after every address has failed, namely the
    error of one of them, or [InvalidInput] when there was no address at
    all. *)
Theorem connect_resolved_addresses_spec (l : list SocketAddr) (delay : option Duration) (timer : Timer) :
  ((forall a, a ∈ l -> is_Some (tcp_connect net a)) -> is_Some (connect_resolved_addresses l delay timer)) /\
  forall t r, connect_resolved_addresses l delay timer = Some (t, r) ->
    match r with
    | Ok s => exists a d, a ∈ l /\ tcp_connect net a = Some (d, Ok s)
    | Err e =>
        (forall a, a ∈ l -> exists d e', tcp_connect net a = Some (d, Err e')) /\
        ((l = [] /\ ioe_kind e = InvalidInput) \/
         exists a d, a ∈ l /\ tcp_connect net a = Some (d, Err e))
    end.
Proof. split; [apply resolved_total | intros t r; apply resolved_sound]. Qed.

(** ** What is established *)

Lemma with_addresses_protocol l p c :
  c_protocol (with_addresses l p c) = c_protocol c /\
  ci_protocol (c_info (with_addresses l p c)) = ci_protocol (c_info c) /\
  c_io (with_addresses l p c) = c_io c.
Proof. done. Qed.

Lemma alpn_select_ok alpn req p :
  alpn_select alpn req = Ok p ->
  (p = ConnHttp2 /\ alpn = Some (bs "h2")) \/
  (p = ConnHttp1 /\ req = false /\ (alpn = None \/ alpn = Some (bs "http/1.1"))).
Proof.
  unfold alpn_select. destruct alpn as [q|].
  - destruct (bytes_eqb q (bs "h2")) eqn:E1; [intros [= <-]; apply bool_decide_eq_true in E1 as ->; by left|].
    destruct (bytes_eqb q (bs "http/1.1") && negb req) eqn:E2; [|done]. intros [= <-].
    bool_hyps. apply bool_decide_eq_true in H as ->. right. auto.
  - destruct req; simpl; [done|]. intros [= <-]. right. auto.
Qed.

(** A connection of the connector's own transport: plain with the required
    protocol, or TLS with the negotiated one. *)
Lemma connect_tls_ok c host port req tcp d conn :
  connect_tls c host port req tcp = Some (d, Ok conn) ->
  exists d' io stream, c_io conn = Secured stream /\
    tls_connect net (tls c) host io = Some (d', Ok stream) /\
    alpn_select (alpn_protocol net stream) req = Ok (c_protocol conn) /\
    ci_protocol (c_info conn) = c_protocol conn.
Proof.
  unfold connect_tls. destruct (negb (tls_feature net)); [done|].
  intros (d1 & t & d2 & _ & E)%await_ok_inv. destruct (negb (server_name_valid net host)); [done|].
  apply await_ok_inv in E as (d3 & stream & d4 & E1 & E2).
  apply timed_map_inv in E1 as (r & E1 & Er). destruct r as [s|]; simplify_eq/=.
  unfold now_ready in E2. injection E2 as _ E2.
  destruct (alpn_select (alpn_protocol net stream) req) as [p|] eqn:Ea; [|done].
  simpl in E2. injection E2 as <-. eexists _, _, stream. split; [done|]. split; [exact E1|].
  split; [exact Ea | done].
Qed.

Lemma connect_without_timeout_ok c uri req d conn :
  (forall dialer, kind c <> Custom dialer) ->
  connect_without_timeout c uri req = Some (d, Ok conn) ->
  ci_protocol (c_info conn) = c_protocol conn /\
  ((exists io, c_io conn = Plain io /\ c_protocol conn = if req then ConnHttp2 else ConnHttp1) \/
   exists d' host io stream, c_io conn = Secured stream /\
     tls_connect net (tls c) host io = Some (d', Ok stream) /\
     alpn_select (alpn_protocol net stream) req = Ok (c_protocol conn)).
Proof.
  intros Hk. unfold connect_without_timeout. destruct (kind c) as [|dl|tdl] eqn:Ek; [|by destruct (Hk dl)|];
    destruct (uri_host uri) as [h|]; try done; destruct (uri_scheme_str uri) as [s|]; try done;
    destruct (negb _); try done; destruct (negb _ && _); try done;
    intros (d1 & tcp & d2 & _ & E)%await_ok_inv; destruct (bytes_eqb s (bs "http")).
  1, 3: apply await_ok_inv in E as (d3 & t & d4 & _ & E); unfold now_ready in E; simplify_eq/=;
    split; [done|]; left; eauto.
  all: apply connect_tls_ok in E as (d' & io & stream & ? & ? & ? & ?); split; [done|]; right;
    eexists d', _, io, stream; split_and!; done.
Qed.

(** Rustls only selects a protocol that was offered. *)
Context (alpn_offered : forall protocols config host io d s p,
  tls_connect net (with_alpn net protocols config) host io = Some (d, Ok s) ->
  alpn_protocol net s = Some p -> p ∈ protocols).

Lemma connect_ok c uri req d conn :
  connect c uri req = Some (d, Ok conn) ->
  exists d', connect_without_timeout c uri req = Some (d', Ok conn).
Proof.
  unfold connect. destruct (connect_timeout c) as [t|]; [|eauto].
  intros (r & E & Er)%timed_map_inv. destruct r as [r|]; [|done]. subst r.
  unfold select in E. destruct (connect_without_timeout c uri req) as [[d' r]|], (conn_timer c t) as [[]|];
    try done; try (destruct (_ <=? _); simplify_eq; eauto); simplify_eq; eauto.
Qed.

(** C26. Unless a custom dialer replaces the whole establishment, a connection's
    declared protocol is the one that was negotiated: HTTP/2 when it was
    required; without that, HTTP/2 exactly when TLS selected [h2].  A connector
    that was restricted to HTTP/1 establishes TLS connections only when HTTP/2
    is not required, and only HTTP/1 ones; over plaintext, where nothing is
    negotiated, it still yields HTTP/2 exactly when that is required. *)
Theorem connect_negotiates (c : Connector) (uri : Uri) (require_h2 : bool) d conn :
  (forall dialer, kind c <> Custom dialer) ->
  (connect c uri require_h2 = Some (d, Ok conn) ->
   ci_protocol (c_info conn) = c_protocol conn /\
   (require_h2 = true -> c_protocol conn = ConnHttp2) /\
   (require_h2 = false ->
    (c_protocol conn = ConnHttp2 <->
     exists stream, c_io conn = Secured stream /\ alpn_protocol net stream = Some (bs "h2")))) /\
  (tls_feature net = true -> connect (force_http1 c) uri require_h2 = Some (d, Ok conn) ->
   (c_protocol conn = ConnHttp2 <-> require_h2 = true) /\
   forall stream, c_io conn = Secured stream -> require_h2 = false /\ c_protocol conn = ConnHttp1).
Proof.
  intros Hk. split.
  - intros (d' & E)%connect_ok. apply connect_without_timeout_ok in E as [Hi Hc]; [|done].
    split; [done|]. destruct Hc as [(io & Eio & Ep)|(d2 & host & io & stream & Eio & _ & Ea)]; rewrite Eio.
    + split; intros ->; rewrite Ep; [done|]. split; [done|]. by intros (s & ? & _).
    + apply alpn_select_ok in Ea as [[Ep Eh]|(Ep & -> & Eh)]; rewrite Ep.
      * split; [done|]. intros _. split; [eauto | done].
      * split; [done|]. intros _. split; [done|]. intros (s & [= <-] & Es). rewrite Es in Eh.
        by destruct Eh.
  - intros Ht (d' & E)%connect_ok.
    unfold force_http1 in E. rewrite Ht in E. apply connect_without_timeout_ok in E as [_ Hc]; [|done].
    destruct Hc as [(io & Eio & ->)|(d2 & host & io & stream & _ & Et & Ea)].
    { rewrite Eio. split; [by destruct require_h2 | done]. }
    apply alpn_select_ok in Ea as [[Ep Eh]|(-> & -> & _)]; [|done].
    simpl in Et. pose proof (alpn_offered _ _ _ _ _ _ _ Et Eh) as Hin.
    by apply list_elem_of_singleton in Hin.
Qed.

(** With an establishment timeout and a punctual timer, connecting always
    ends, within the timeout, and with the timeout error only when nothing was
    established by then. *)
Theorem connect_timeout_bounds (c : Connector) (uri : Uri) (require_h2 : bool) timeout :
  connect_timeout c = Some timeout -> punctual (conn_timer c) ->
  exists t r, connect c uri require_h2 = Some (t, r) /\ t <= timeout /\
    (r = Err ETimeout -> connect_without_timeout c uri require_h2 = Some (t, r) \/
       forall t' r', connect_without_timeout c uri require_h2 = Some (t', r') -> timeout < t').
Proof.
  intros Et Ht. unfold connect. rewrite Et, (Ht timeout). unfold select.
  destruct (connect_without_timeout c uri require_h2) as [[d r]|].
  - destruct (d <=? timeout) eqn:E; simpl; bool_hyps; eexists _, _; (split; [done|]); (split; [lia|]); intros ?.
    + by left.
    + right. intros t' r' [= <- <-]. done.
  - simpl. eexists _, _. split; [done|]. split; [lia|]. intros _. right. done.
Qed.

(** A dialer owns name resolution: with one, neither the resolver nor the
    delay between addresses has any effect, in whatever order they were set. *)
Lemma dialer_ignores_resolution r delay c uri require_h2 :
  kind c <> Default ->
  connect (builder_happy_eyeballs_timeout delay (builder_resolver r c)) uri require_h2 =
  connect c uri require_h2.
Proof.
  intros Hk. unfold connect. cbn [builder_happy_eyeballs_timeout builder_resolver connect_timeout conn_timer].
  assert (connect_without_timeout (builder_happy_eyeballs_timeout delay (builder_resolver r c)) uri require_h2 =
          connect_without_timeout c uri require_h2) as ->; [|done].
  unfold connect_without_timeout. cbn [builder_happy_eyeballs_timeout builder_resolver kind].
  destruct (kind c) as [|d|d]; [done..|].
  destruct (uri_host uri); [|done]. destruct (uri_scheme_str uri); [|done].
  repeat case_match; try done;
  destruct (d uri) as [[? [tcp|e]]|]; done.
Qed.
End Connect.
(** ** Concrete runs *)
Section Samples.
Import RefHttp.

(** IPv4 addresses refuse after 5 ns, the IPv6 address 1 never answers, and
    the other ones connect after 10 ns; TLS selects the first offer. *)
Definition sample_net : @Net unit unit Z (list bytes) (option bytes) := {|
  tls_feature := true;
  tcp_connect a :=
    match a with
    | V4 ip _ => Some (5, Err (mkIoError ConnectionRefused "refused"))
    | V6 1 _ => None
    | V6 ip _ => Some (10, Ok ip)
    end;
  stream_local _ := None;
  stream_peer ip := Some (V6 ip 80);
  server_name_valid _ := true;
  with_alpn l _ := l;
  tls_connect cfg _ _ := Some (3, Ok (head cfg));
  alpn_protocol s := s;
  default_tls_config := [bs "h2"; bs "http/1.1"];
  system_resolver _ port := Some (2, Ok [V6 1 port; V6 2 port; V4 7 port]);
  async_io_timer d := Some (d, ())
|}.
Definition sample_uri : Uri := mkParts (Some (bs "https")) (Some (mkAuth (bs "[::1]") None)) (Some (bs "/")).

Lemma sample_durations a d r : tcp_connect sample_net a = Some (d, r) -> 0 <= d.
Proof. destruct a as [|[|[]|] ?]; simpl; intros [= <- _] || discriminate; lia. Qed.

Lemma sample_alpn protocols config host io d s p :
  tls_connect sample_net (with_alpn sample_net protocols config) host io = Some (d, Ok s) ->
  alpn_protocol sample_net s = Some p -> p ∈ protocols.
Proof. simpl. intros [= _ <-]. destruct protocols; simpl; intros [= ->]. left. Qed.

Lemma happy_eyeballs_in_time_witness :
  exists t s', connect_resolved_addresses sample_net [V6 1 80; V4 7 80; V6 2 80] (Some 250)
                 (fun d => Some (d, ())) = Some (t, Ok s') /\ t <= 2 * 250 + 10.
Proof.
  apply (happy_eyeballs_in_time sample_net sample_durations [V6 1 80; V4 7 80; V6 2 80] 250
           (fun d => Some (d, ())) 2 (V6 2 80) 10 2); try reflexivity.
  - intros d. reflexivity.
  - lia.
Defined.

Lemma connect_resolved_addresses_spec_witness :
  connect_resolved_addresses sample_net [V4 7 80; V4 8 80] (Some 250) (fun d => Some (d, ())) =
    Some (10, Err (mkIoError ConnectionRefused "refused")) /\
  forall a, a ∈ [V4 7 80; V4 8 80] -> exists d e', tcp_connect sample_net a = Some (d, Err e').
Proof.
  split; [reflexivity|].
  apply (proj2 (connect_resolved_addresses_spec sample_net [V4 7 80; V4 8 80] (Some 250)
           (fun d => Some (d, ()))) 10 (Err (mkIoError ConnectionRefused "refused"))). reflexivity.
Defined.

Definition sample_connector : Connector := @connector_default lib unit unit unit Z (list bytes) (option bytes) sample_net.

Lemma connect_negotiates_witness :
  exists d conn, connect sample_net sample_connector sample_uri false = Some (d, Ok conn) /\
    c_protocol conn = ConnHttp2 /\
    exists stream, c_io conn = Secured stream /\ alpn_protocol sample_net stream = Some (bs "h2").
Proof.
  eexists _, _. split; [reflexivity|]. split; [reflexivity|].
  refine (proj1 (proj2 (proj2 (proj1 (connect_negotiates sample_net sample_alpn sample_connector
            sample_uri false _ _ _) _)) _) _); try reflexivity.
  intros dialer. discriminate.
Defined.

Lemma connect_timeout_bounds_witness :
  exists t r, connect sample_net (builder_connect_timeout 100 sample_connector) sample_uri true = Some (t, r) /\
    t <= 100.
Proof.
  destruct (connect_timeout_bounds sample_net (builder_connect_timeout 100 sample_connector) sample_uri true 100)
    as (t & r & E & Ht & _); [reflexivity | intros d; reflexivity|]. exists t, r. split; assumption.
Defined.
End Samples.

End Connect.
