(* ===== verification/Agreement.v ===== *)
(** * Clients and server agree on the protocol of a connection

    Composition of the blocking client ([SyncClient]), the asynchronous
    connector ([Connect]) and the protocol selection of the server
    ([ServerAuto]).  Both ends decide on their own which protocol a connection
    speaks: the clients by configuration and ALPN, the server by ALPN or by the
    first bytes.  The theorems say that the two decisions are the same one. *)

From Stdlib Require Import ZArith Lia String.
From Stdlib Require Import Strings.Byte.
From stdpp Require Import base option list.
From S2P Require Import Prelude Bytes HttpLib Normalize Stream SyncBody SyncClient AsyncIo ServerAuto Pool Connect.

Open Scope Z_scope.

Module Agreement.
Import Normalize.Normalize SyncBody.SyncBody Pool.Pool AsyncIo.AsyncIo ServerAuto.ServerAuto.

(** ** First bytes *)

(** Two texts with the same first delimiter are equal before and after it. *)
Lemma delimiter_inj (c : byte) a b k k' : c ∉ a -> c ∉ b -> a ++ c :: k = b ++ c :: k' -> a = b /\ k = k'.
Proof.
  intros Ha Hb E. pose proof (split_once_app c a k Ha) as H1. rewrite E, (split_once_app c b k' Hb) in H1.
  by injection H1 as -> ->.
Qed.

(** No HTTP/1 request line begins the HTTP/2 preface: not even that of a [PRI]
    request for [*]. *)
Lemma request_line_not_preface (m u rest : bytes) :
  " "%byte ∉ m -> " "%byte ∉ u ->
  ~ H2_PREFACE `prefix_of` (m ++ bs " " ++ u ++ bs " HTTP/1." ++ rest).
Proof.
  intros Hm Hu [k E].
  change (H2_PREFACE ++ k) with (bs "PRI" ++ " "%byte :: (bs "*" ++ " "%byte :: (bs "HTTP/2.0" ++ drop 14 H2_PREFACE ++ k))) in E.
  apply delimiter_inj in E as [_ E]; [|done|by apply (bool_decide_unpack _)].
  apply delimiter_inj in E as [_ E]; [done|done|by apply (bool_decide_unpack _)].
Qed.

Section Plaintext.
Context {L : HttpLib} {W : HttpLaws L} (net : SyncClient.SyncClient.Net).
Context {Service : Type} (ft : Features) (hy : Hyper Script Service).
Import SyncClient.SyncClient.

(** C15. The blocking client against the server on a plaintext connection: the
    bytes of its request, cut and delayed in any way, are detected as HTTP/1 by
    a server that accepts both protocols, and the HTTP/1 connection that is
    started reads exactly those bytes. *)
Theorem blocking_client_is_served_http1 cl r timeout uri o c0 b s :
  timeout <> Some 0 -> HttpLib.r_version r = HTTP_10 \/ HttpLib.r_version r = HTTP_11 ->
  extract_origin (r_uri r) (bytes_eqb (r_method r) CONNECT) = Some (uri, Ok o) ->
  connect net cl o = Some (Ok c0) -> write_fault (transport c0) = None -> sent (transport c0) = [] ->
  ServerAuto.ServerAuto.version hy b = None ->
  exists r' c1, normalize_http1_request (with_uri uri r) (set_host net cl) = Some r' /\
    (forall n, request_with_timeout net n cl r timeout = read_response n c1 [] (bytes_eqb (r_method r) HEAD)) /\
    forall sc fuel, " "%byte ∉ r_method r' -> " "%byte ∉ uri_display (r_uri r') ->
      script_ok sc -> script_bytes sc = sent (transport c1) -> (pendings sc < fuel)%nat ->
      exists p sc', poll_until ft hy fuel (serve_connection ft hy b sc s)
          = poll_started ft hy (start ft hy b H1 (new_buffered sc' p) s) /\
        p ++ script_bytes sc' = sent (transport c1).
Proof.
  intros Ht Hv E Hc Hw Hs Hb.
  destruct (request_exchange_ok net cl r timeout uri o c0 Ht Hv E Hc Hw) as (r' & hs & c1 & En & _ & Hsent & _ & Er).
  exists r', c1. split; [done|]. split; [done|]. intros sc fuel Hm Hu Hok Hsc Hf.
  rewrite Hs in Hsent. simpl in Hsent.
  destruct (dispatch_script ft hy b sc s fuel Hb Hok Hf) as (v & p & sc' & Ep & Eq & Hv2).
  exists p, sc'. rewrite <- Hsc. split; [|done]. rewrite Ep. destruct v; [done|].
  exfalso. rewrite Hsc, Hsent in Hv2. apply proj1 in Hv2. specialize (Hv2 eq_refl).
  unfold request_wire, request_line in Hv2. rewrite <- !app_assoc in Hv2.
  change (bs " HTTP/1.1") with (bs " HTTP/1." ++ bs "1") in Hv2. rewrite <- !app_assoc in Hv2.
  exact (request_line_not_preface _ _ _ Hm Hu Hv2).
Qed.
End Plaintext.

(** ** ALPN *)
Section Alpn.
Context {Service : Type} (ft : Features) (hy : Hyper Script Service).

(** The server's protocol for a client's. *)
Definition served_as (p : ConnectionProtocol) : ServerAuto.ServerAuto.Version :=
  match p with ConnHttp1 => H1 | ConnHttp2 => H2 end.

Lemma tls_served b alpn v (io : Script) s :
  f_http1 ft = true -> f_http2 ft = true -> version hy b = None ->
  v = (match alpn with Some p => if bytes_eqb p (bs "h2") then H2 else H1 | None => H1 end) ->
  match alpn with Some p => p = bs "h2" \/ p = bs "http/1.1" | None => True end ->
  serve_tls_connection ft hy b alpn io s = Some (Ok (start ft hy b v (new_buffered io []) s)).
Proof.
  intros H1' H2' Hb -> Ha. unfold serve_tls_connection, http1_only, http2_only, serve_connection.
  rewrite H1', H2', Hb. destruct alpn as [p|]; [|done]. by destruct Ha as [-> | ->].
Qed.

(** How a client of the protocol begins: Hyper's HTTP/2 client with the
    preface, an HTTP/1 client with a request line. *)
Definition opens (p : ConnectionProtocol) (w : bytes) : Prop :=
  match p with
  | ConnHttp2 => H2_PREFACE `prefix_of` w
  | ConnHttp1 => exists m u rest, (" "%byte ∉ m) /\ (" "%byte ∉ u) /\ w = m ++ bs " " ++ u ++ bs " HTTP/1." ++ rest
  end.

Lemma opens_detected p b (sc : Script) s fuel :
  version hy b = None -> opens p (script_bytes sc) -> script_ok sc -> (pendings sc < fuel)%nat ->
  exists q sc', poll_until ft hy fuel (serve_connection ft hy b sc s)
      = poll_started ft hy (start ft hy b (served_as p) (new_buffered sc' q) s) /\
    q ++ script_bytes sc' = script_bytes sc.
Proof.
  intros Hb Ho Hok Hf. destruct (dispatch_script ft hy b sc s fuel Hb Hok Hf) as (v & q & sc' & -> & Eq & Hv).
  exists q, sc'. split; [|done]. destruct p; cbn [served_as].
  - destruct Ho as (m & u & rest & Hm & Hu & E). destruct v; [done|]. rewrite E in Hv.
    destruct (request_line_not_preface m u rest Hm Hu). by apply Hv.
  - destruct v; [|done]. by apply Hv in Ho.
Qed.

Section Connector.
Context {L : HttpLib} {DialError CustomTcp CustomIo TcpStream TlsConfig TlsStream : Type}.
Context (net : @Connect.Connect.Net DialError CustomTcp TcpStream TlsConfig TlsStream).
Import Connect.Connect.

Lemma alpn_accepted alpn req p :
  alpn_select (DialError := DialError) alpn req = Ok p ->
  served_as p = (match alpn with Some p => if bytes_eqb p (bs "h2") then H2 else H1 | None => H1 end) /\
  match alpn with Some p => p = bs "h2" \/ p = bs "http/1.1" | None => True end.
Proof.
  intros [[-> Eh]|(-> & _ & Eh)]%alpn_select_ok; rewrite ?Eh; [eauto|]. 
  destruct Eh as [-> | ->]; eauto.
Qed.

(** C14. A connection of the asynchronous client and the server at its other end
    speak the same protocol: over TLS, where both ends see the ALPN the
    handshake selected, and over plaintext, however the first bytes of the
    client are cut and delayed; there the connection the server starts reads
    all of them. *)
Theorem connections_agree (c : Connector) (uri : Uri) (req : bool) d (conn : @Connected CustomTcp CustomIo TcpStream TlsStream) b s :
  (forall dialer, kind c <> Custom dialer) ->
  connect net c uri req = Some (d, Ok conn) ->
  f_http1 ft = true -> f_http2 ft = true -> version hy b = None ->
  match c_io conn with
  | Secured stream => forall io,
      serve_tls_connection ft hy b (alpn_protocol net stream) io s
        = Some (Ok (start ft hy b (served_as (c_protocol conn)) (new_buffered io []) s))
  | Plain _ => forall sc fuel, script_ok sc -> opens (c_protocol conn) (script_bytes sc) -> (pendings sc < fuel)%nat ->
      exists q sc', poll_until ft hy fuel (serve_connection ft hy b sc s)
          = poll_started ft hy (start ft hy b (served_as (c_protocol conn)) (new_buffered sc' q) s) /\
        q ++ script_bytes sc' = script_bytes sc
  | Opaque _ => False
  end.
Proof.
  intros Hk (d' & E)%connect_ok H1' H2' Hb. apply connect_without_timeout_ok in E as [_ Hc]; [|done].
  destruct Hc as [(io & -> & _)|(d2 & host & io & stream & -> & _ & Ea)].
  - intros sc fuel Hok Ho Hf. by apply opens_detected.
  - intros io'. apply alpn_accepted in Ea as [Ev Ha]. by apply tls_served.
Qed.
End Connector.

(** The blocking client over TLS: when it accepts the handshake, the server
    serves HTTP/1. *)
Lemma blocking_tls_is_served_http1 {L : HttpLib} (net : SyncClient.SyncClient.Net) cl host port c b s :
  SyncClient.SyncClient.connect_tls net cl host port = Ok c ->
  f_http1 ft = true -> f_http2 ft = true -> version hy b = None ->
  exists session stream, c = SyncBody.SyncBody.Tls (SyncClient.SyncClient.tls_stream net session stream) /\
    forall io, serve_tls_connection ft hy b (SyncClient.SyncClient.alpn_protocol net session) io s
      = Some (Ok (start ft hy b H1 (new_buffered io []) s)).
Proof.
  unfold SyncClient.SyncClient.connect_tls. intros E H1' H2' Hb.
  destruct (SyncClient.SyncClient.tls net cl) as [config|]; [|done].
  apply and_then_ok in E as (stream & _ & E). destruct (SyncClient.SyncClient.set_both _ stream) as [r1 stream1].
  apply and_then_ok in E as (? & _ & E). apply and_then_ok in E as (? & _ & E).
  apply and_then_ok in E as (session & _ & E).
  destruct (SyncClient.SyncClient.complete_io net session stream1) as [r2 stream2].
  apply and_then_ok in E as (session' & _ & E). apply and_then_ok in E as (? & Ha & E).
  destruct (SyncClient.SyncClient.set_both None stream2) as [r3 stream3].
  apply and_then_ok in E as (? & _ & E). injection E as <-.
  exists session', stream3. split; [done|]. intros io.
  destruct (SyncClient.SyncClient.alpn_protocol net session') as [p|] eqn:Ep; [|by apply tls_served].
  destruct (bytes_eqb p (bs "http/1.1")) eqn:Eq; [|done]. apply bool_decide_eq_true in Eq as ->.
  apply tls_served; auto.
Qed.
End Alpn.

(** ** Concrete runs *)
Section Samples.
Import RefHttp.

Definition both : Features := mkFeatures true true.
Definition one_segment (w : bytes) : Script := match w with [] => [] | _ => [AData w] end.

Lemma one_segment_ok w : script_ok (one_segment w) /\ script_bytes (one_segment w) = w /\ pendings (one_segment w) = O.
Proof. destruct w; [by repeat constructor|]. split; [by repeat constructor|]. split; [|done]. unfold script_bytes. simpl. by rewrite app_nil_r. Qed.

Lemma blocking_client_is_served_http1_witness :
  exists c1 p sc', poll_until both sample_hyper 1
        (serve_connection both sample_hyper sample_builder (one_segment (sent (transport c1))) ())
      = poll_started both sample_hyper (start both sample_hyper sample_builder H1 (new_buffered sc' p) ()) /\
      p ++ script_bytes sc' = sent (transport c1).
Proof.
  pose proof (fun uri o c0 => blocking_client_is_served_http1 (SyncClient.SyncClient.sample_net SyncClient.SyncClient.sample_response)
    both sample_hyper (SyncClient.SyncClient.sample_client SyncClient.SyncClient.sample_response)
    sample_request (Some 9) uri o c0 sample_builder ()) as T.
  edestruct T as (r' & c1 & En & _ & H); clear T.
  - discriminate.
  - by right.
  - reflexivity.
  - reflexivity.
  - reflexivity.
  - reflexivity.
  - reflexivity.
  - exists c1. destruct (one_segment_ok (sent (transport c1))) as (Hok & Hb & Hp).
    apply (H (one_segment (sent (transport c1))) 1%nat); try done.
    + apply (f_equal (fmap (fun q => bool_decide (" "%byte ∉ r_method q)))) in En.
      change (Some true = Some (bool_decide (" "%byte ∉ r_method r'))) in En.
      injection En as En. exact (bool_decide_eq_true_1 _ (eq_sym En)).
    + apply (f_equal (fmap (fun q => bool_decide (" "%byte ∉ uri_display (r_uri q))))) in En.
      change (Some true = Some (bool_decide (" "%byte ∉ uri_display (r_uri r')))) in En.
      injection En as En. exact (bool_decide_eq_true_1 _ (eq_sym En)).
    + rewrite Hp. lia.
Defined.

Lemma connections_agree_witness :
  exists d conn, Connect.Connect.connect Connect.Connect.sample_net
      (Connect.Connect.sample_connector) Connect.Connect.sample_uri false = Some (d, Ok conn) /\
    match Connect.Connect.c_io conn with
    | Connect.Connect.Secured stream =>
        serve_tls_connection both sample_hyper sample_builder (Connect.Connect.alpn_protocol Connect.Connect.sample_net stream) sample_script ()
        = Some (Ok (start both sample_hyper sample_builder H2 (new_buffered sample_script []) ()))
    | _ => False
    end.
Proof.
  eexists _, _. split; [reflexivity|].
  refine (connections_agree both sample_hyper Connect.Connect.sample_net Connect.Connect.sample_connector
    Connect.Connect.sample_uri false _ _ sample_builder () _ eq_refl eq_refl eq_refl eq_refl sample_script).
  intros dialer. discriminate.
Defined.
End Samples.
End Agreement.
