(* ===== verification/Client.v ===== *)
(** * The asynchronous client ([h12tiny-client], [lib.rs])

    [crates/h12tiny-client/src/lib.rs]: [Client], its [Builder], the future
    that obtains a connection by racing the pool against a new establishment,
    and the retry of requests that a stale connection returned unsent.  A
    future is a state with a poll function; what the outside world answers at a
    poll is an [Env] (the connector, Hyper's handshake and dispatch, the clock,
    which connections are open).  [None] is a panic; [connection_poll], which
    loops within a poll, takes one [Env] for each iteration, and
    [client_refines_pool], which ties the polls to the transition system of
    [PoolSystem], shows that it needs at most two. *)

From Stdlib Require Import ZArith Lia String.
From Stdlib Require Import Strings.Byte.
From stdpp Require Import base option list gmap sets.
From S2P Require Import Prelude Bytes HttpLib Normalize Stream Pool PoolSystem Connect.

Open Scope Z_scope.

Module Client.
Import Normalize.Normalize Pool.Pool PoolSystem.PoolSystem Connect.Connect.

(** ** The pool key *)
Section Key.
Context {L : HttpLib}.
Context {sd : EqDecision Scheme} {sc : Countable Scheme}.
Context {ad : EqDecision Authority} {ac : Countable Authority}.

#[export] Instance Origin_eq_dec : EqDecision Origin.
Proof. solve_decision. Defined.
#[export] Instance Origin_countable : Countable Origin.
Proof.
  apply (inj_countable' (fun o => (scheme o, authority o)) (fun '(s, a) => mkOrigin s a)).
  by intros [].
Defined.
#[export] Instance Origin_key : Key Origin := {| origin := origin_display |}.
End Key.

(** ** Connections *)
Section Sender.
(** Hyper's request senders. *)
Context {H1Sender H2Sender : Type}.

Inductive Sender := SHttp1 (s : H1Sender) | SHttp2 (s : H2Sender).

Record PoolClient := mkPoolClient { sender : Sender; connection_info : ConnectionInfo }.

Definition is_http2 (c : PoolClient) : bool :=
  match sender c with SHttp1 _ => false | SHttp2 _ => true end.
Definition is_http1 (c : PoolClient) : bool := negb (is_http2 c).

(** A cloned HTTP/2 sender is another handle on the same session. *)
#[export] Instance PoolClient_poolable : Poolable PoolClient := {|
  reserve c :=
    match sender c with
    | SHttp1 s => Unique (mkPoolClient (SHttp1 s) (connection_info c))
    | SHttp2 s => Shared (mkPoolClient (SHttp2 s) (connection_info c))
                         (mkPoolClient (SHttp2 s) (connection_info c))
    end;
  can_share := is_http2
|}.

(** The laws the pool relies on. *)
#[export] Instance PoolClient_laws : PoolableLaws PoolClient.
Proof.
  split.
  - intros [[s|s] i]; done.
  - intros [[s|s] i]; [done|]. intros _. by eexists _, _.
Qed.

(** [is_ready] and [poll_ready], given what Hyper answers. *)
Definition is_ready (h1 : H1Sender -> bool) (h2 : H2Sender -> bool) (c : PoolClient) : bool :=
  match sender c with SHttp1 s => h1 s | SHttp2 s => h2 s end.
Definition poll_ready {E} (h1 : H1Sender -> poll (result () E)) (c : PoolClient) : poll (result () E) :=
  match sender c with SHttp1 s => h1 s | SHttp2 _ => Ready (Ok ()) end.
End Sender.
Arguments Sender : clear implicits.
Arguments PoolClient : clear implicits.

(** ** Configuration *)
Record ClientConfig := mkClientConfig {
  retry_canceled_requests : bool;
  set_host : bool;
  protocol : Protocol
}.

Section Builder.
Context {Connector : Type} (force_http1 : Connector -> Connector).

(** [Builder]: the fields that carry policy. *)
Record Builder := mkBuilder {
  config : ClientConfig;
  connector : Connector;
  pool_config : Config;
  pool_timer : bool;
  events : DebugEventLog
}.

Definition Builder_new (connector_new : Connector) : Builder :=
  mkBuilder (mkClientConfig true true Auto) connector_new
    (mkConfig (Some 90000000000) USIZE_MAX USIZE_MAX) true None.

Definition builder_connector (c : Connector) (b : Builder) : Builder :=
  mkBuilder (config b) (if bool_decide (protocol (config b) = Http1) then force_http1 c else c)
    (pool_config b) (pool_timer b) (events b).
Definition with_pool (f : Config -> Config) (b : Builder) : Builder :=
  mkBuilder (config b) (connector b) (f (pool_config b)) (pool_timer b) (events b).
Definition pool_idle_timeout (t : option Duration) : Builder -> Builder :=
  with_pool (fun c => mkConfig t (max_idle_per_host c) (max_h1_connections_per_host c)).
Definition pool_max_idle_per_host (n : Z) : Builder -> Builder :=
  with_pool (fun c => mkConfig (idle_timeout c) n (max_h1_connections_per_host c)).
Definition pool_max_connections_per_host (n : Z) : Builder -> Builder :=
  with_pool (fun c => mkConfig (idle_timeout c) (max_idle_per_host c)
                        (if n =? 0 then USIZE_MAX else n)).
Definition debug_event_log (l : list DebugEvent) (b : Builder) : Builder :=
  mkBuilder (config b) (connector b) (pool_config b) (pool_timer b) (Some l).
Definition with_config (f : ClientConfig -> ClientConfig) (b : Builder) : Builder :=
  mkBuilder (f (config b)) (connector b) (pool_config b) (pool_timer b) (events b).
Definition builder_set_host (enabled : bool) : Builder -> Builder :=
  with_config (fun c => mkClientConfig (retry_canceled_requests c) enabled (protocol c)).
Definition builder_retry_canceled_requests (enabled : bool) : Builder -> Builder :=
  with_config (fun c => mkClientConfig enabled (set_host c) (protocol c)).
Definition http1_only (b : Builder) : Builder :=
  mkBuilder (mkClientConfig (retry_canceled_requests (config b)) (set_host (config b)) Http1)
    (force_http1 (connector b)) (pool_config b) (pool_timer b) (events b).
Definition http2_only (enabled : bool) : Builder -> Builder :=
  with_config (fun c => mkClientConfig (retry_canceled_requests c) (set_host c)
                          (if enabled then Http2 else Auto)).
Definition builder_pool_timer (b : Builder) : Builder :=
  mkBuilder (config b) (connector b) (pool_config b) true (events b).

(** [Builder::build]: the configuration and the connector of the client, and
    what [Pool::new] is called with. *)
Definition builder_build (b : Builder) : ClientConfig * Connector * (Config * bool * DebugEventLog) :=
  (config b,
   if bool_decide (protocol (config b) = Http1) then force_http1 (connector b) else connector b,
   (pool_config b, pool_timer b, events b)).

(** A client restricted to HTTP/1 uses a connector that offers nothing else,
    whatever connector was set before or after the restriction. *)
Lemma http1_only_connector b c :
  (forall c, force_http1 (force_http1 c) = force_http1 c) ->
  snd (fst (builder_build (http1_only b))) = force_http1 (connector b) /\
  snd (fst (builder_build (builder_connector c (http1_only b)))) = force_http1 c.
Proof. intros Hf. unfold builder_build. simpl. by rewrite !Hf. Qed.
End Builder.
Arguments Builder : clear implicits.

(** ** HTTP/2 settings *)
Section Http2.
(** The setters of Hyper's HTTP/2 client builder. *)
Record Http2Ops (HB : Type) := mkHttp2Ops {
  hb_initial_stream_window_size : Z -> HB -> HB;
  hb_initial_connection_window_size : Z -> HB -> HB;
  hb_max_frame_size : Z -> HB -> HB;
  hb_max_header_list_size : Z -> HB -> HB;
  hb_header_table_size : Z -> HB -> HB;
  hb_keep_alive_interval : Duration -> HB -> HB;
  hb_keep_alive_timeout : Duration -> HB -> HB;
  hb_keep_alive_while_idle : bool -> HB -> HB;
  hb_adaptive_window : bool -> HB -> HB
}.
Context {HB : Type} (ops : Http2Ops HB).

Record Http2Settings := mkHttp2Settings {
  initial_stream_window_size : option Z;
  initial_connection_window_size : option Z;
  adaptive_window : option bool;
  max_frame_size : option Z;
  max_header_list_size : option Z;
  header_table_size : option Z;
  keep_alive_interval : option Duration;
  keep_alive_timeout : option Duration;
  keep_alive_while_idle : option bool
}.

Definition Http2Settings_new : Http2Settings :=
  mkHttp2Settings None None None None None None None None None.

(** The setters of [Http2Settings]. *)
Definition set_initial_stream_window_size (v : Z) (s : Http2Settings) : Http2Settings :=
  mkHttp2Settings (Some v) (initial_connection_window_size s) (adaptive_window s) (max_frame_size s)
    (max_header_list_size s) (header_table_size s) (keep_alive_interval s)
    (keep_alive_timeout s) (keep_alive_while_idle s).
Definition set_initial_connection_window_size (v : Z) (s : Http2Settings) : Http2Settings :=
  mkHttp2Settings (initial_stream_window_size s) (Some v) (adaptive_window s) (max_frame_size s)
    (max_header_list_size s) (header_table_size s) (keep_alive_interval s)
    (keep_alive_timeout s) (keep_alive_while_idle s).
Definition set_adaptive_window (v : bool) (s : Http2Settings) : Http2Settings :=
  mkHttp2Settings (initial_stream_window_size s) (initial_connection_window_size s) (Some v) (max_frame_size s)
    (max_header_list_size s) (header_table_size s) (keep_alive_interval s)
    (keep_alive_timeout s) (keep_alive_while_idle s).
Definition set_max_frame_size (v : Z) (s : Http2Settings) : Http2Settings :=
  mkHttp2Settings (initial_stream_window_size s) (initial_connection_window_size s) (adaptive_window s) (Some v)
    (max_header_list_size s) (header_table_size s) (keep_alive_interval s)
    (keep_alive_timeout s) (keep_alive_while_idle s).
Definition set_max_header_list_size (v : Z) (s : Http2Settings) : Http2Settings :=
  mkHttp2Settings (initial_stream_window_size s) (initial_connection_window_size s) (adaptive_window s) (max_frame_size s)
    (Some v) (header_table_size s) (keep_alive_interval s)
    (keep_alive_timeout s) (keep_alive_while_idle s).
Definition set_header_table_size (v : Z) (s : Http2Settings) : Http2Settings :=
  mkHttp2Settings (initial_stream_window_size s) (initial_connection_window_size s) (adaptive_window s) (max_frame_size s)
    (max_header_list_size s) (Some v) (keep_alive_interval s)
    (keep_alive_timeout s) (keep_alive_while_idle s).
Definition set_keep_alive_interval (v : Duration) (s : Http2Settings) : Http2Settings :=
  mkHttp2Settings (initial_stream_window_size s) (initial_connection_window_size s) (adaptive_window s) (max_frame_size s)
    (max_header_list_size s) (header_table_size s) (Some v)
    (keep_alive_timeout s) (keep_alive_while_idle s).
Definition set_keep_alive_timeout (v : Duration) (s : Http2Settings) : Http2Settings :=
  mkHttp2Settings (initial_stream_window_size s) (initial_connection_window_size s) (adaptive_window s) (max_frame_size s)
    (max_header_list_size s) (header_table_size s) (keep_alive_interval s)
    (Some v) (keep_alive_while_idle s).
Definition set_keep_alive_while_idle (v : bool) (s : Http2Settings) : Http2Settings :=
  mkHttp2Settings (initial_stream_window_size s) (initial_connection_window_size s) (adaptive_window s) (max_frame_size s)
    (max_header_list_size s) (header_table_size s) (keep_alive_interval s)
    (keep_alive_timeout s) (Some v).

Definition set_opt {A} (o : option A) (f : A -> HB -> HB) (b : HB) : HB :=
  match o with Some a => f a b | None => b end.

(** [Http2Settings::apply], in the order of the source. *)
Definition apply (s : Http2Settings) (b : HB) : HB :=
  let b := set_opt (initial_stream_window_size s) (hb_initial_stream_window_size _ ops) b in
  let b := set_opt (initial_connection_window_size s) (hb_initial_connection_window_size _ ops) b in
  let b := set_opt (max_frame_size s) (hb_max_frame_size _ ops) b in
  let b := set_opt (max_header_list_size s) (hb_max_header_list_size _ ops) b in
  let b := set_opt (header_table_size s) (hb_header_table_size _ ops) b in
  let b := set_opt (keep_alive_interval s) (hb_keep_alive_interval _ ops) b in
  let b := set_opt (keep_alive_timeout s) (hb_keep_alive_timeout _ ops) b in
  let b := set_opt (keep_alive_while_idle s) (hb_keep_alive_while_idle _ ops) b in
  set_opt (adaptive_window s) (hb_adaptive_window _ ops) b.

Lemma set_opt_keeps {A X} (get : HB -> X) (o : option A) f b :
  (forall a b, get (f a b) = get b) -> get (set_opt o f b) = get b.
Proof. destruct o; simpl; auto. Qed.

(** An explicit adaptive setting wins over the window sizes, which otherwise
    switch the adaptive window off; without any of the three Hyper's default
    stays. *)
Lemma apply_adaptive (adaptive : HB -> bool) (s : Http2Settings) (b : HB) :
  (forall n b, adaptive (hb_initial_stream_window_size _ ops n b) = false) ->
  (forall n b, adaptive (hb_initial_connection_window_size _ ops n b) = false) ->
  (forall n b, adaptive (hb_max_frame_size _ ops n b) = adaptive b) ->
  (forall n b, adaptive (hb_max_header_list_size _ ops n b) = adaptive b) ->
  (forall n b, adaptive (hb_header_table_size _ ops n b) = adaptive b) ->
  (forall n b, adaptive (hb_keep_alive_interval _ ops n b) = adaptive b) ->
  (forall n b, adaptive (hb_keep_alive_timeout _ ops n b) = adaptive b) ->
  (forall n b, adaptive (hb_keep_alive_while_idle _ ops n b) = adaptive b) ->
  (forall a b, adaptive (hb_adaptive_window _ ops a b) = a) ->
  adaptive (apply s b) =
    match adaptive_window s, initial_stream_window_size s, initial_connection_window_size s with
    | Some a, _, _ => a
    | None, None, None => adaptive b
    | None, _, _ => false
    end.
Proof.
  intros H1 H2 H3 H4 H5 H6 H7 H8 H9. unfold apply. destruct (adaptive_window s); [apply H9|].
  cbn [set_opt]. rewrite !set_opt_keeps by done.
  destruct (initial_connection_window_size s); simpl; [by rewrite H2; destruct (initial_stream_window_size s)|].
  destruct (initial_stream_window_size s); simpl; auto.
Qed.
End Http2.

(** ** Obtaining a connection *)
Section Client.
Context {L : HttpLib}.
Context {sd : EqDecision Scheme} {sc : Countable Scheme}.
Context {ad : EqDecision Authority} {ac : Countable Authority}.
Context {H1Sender H2Sender HyperError ConnectError Io : Type}.

Abbreviation PC := (PoolClient H1Sender H2Sender).
Abbreviation Pooled' := (@Pooled PC Origin).
Abbreviation World' := (@World PC Origin Origin_eq_dec Origin_countable).

(** The crate features. *)
Context (http1_feature http2_feature : bool).

Inductive source_error :=
| SrcConnect (e : ConnectError)
| SrcHyper (e : HyperError)
| SrcCheckout (e : CheckoutError)
| SrcNormalize (e : Normalize.Error).

Record Error := mkError { err_kind : ErrorKind; source : option source_error }.
Definition error_new (k : ErrorKind) : Error := mkError k None.
Definition with_source (k : ErrorKind) (s : source_error) : Error := mkError k (Some s).





(** The future [connect_to], by where it waits. *)
Inductive ConnectTo :=
| CtStart
| CtConnecting (g : @Connecting Origin)
| CtHandshake (g : @Connecting Origin) (io : Io) (p : ConnectionProtocol) (info : ConnectionInfo)
| CtDone.





(** Dropping the future drops the guard it holds. *)
Definition connect_to_drop (st : ConnectTo) (w : World') : option World' :=
  match st with
  | CtConnecting g | CtHandshake g _ _ _ => connecting_drop g w
  | CtStart | CtDone => Some w
  end.


(** The future [one_connection_for]. *)
Inductive OneConnection :=
| OStart
| OSelect (co : @Checkout Origin) (ct : ConnectTo)
| OConnect (ct : ConnectTo)
| OCheckout (co : @Checkout Origin)
| ODone.





Definition one_drop (st : OneConnection) (w : World') : option World' :=
  match st with
  | OSelect co ct => connect_to_drop ct (checkout_drop co w)
  | OConnect ct => connect_to_drop ct w
  | OCheckout co => Some (checkout_drop co w)
  | OStart | ODone => Some w
  end.


(** ** Sending a request *)
Section Send.
Context {B Body : Type}.

(** [Client::request]: the checks before anything is sent; [Ok] is the request
    with its absolute URI and the key of its pool. *)
Definition request (r : Request B) : option (result (Request B * Origin) Error) :=
  let is_connect := bytes_eqb (r_method r) CONNECT in
  let continue :=
    '(uri, k) ← extract_origin (r_uri r) is_connect;
    Some match k with
         | Ok key => Ok (with_uri uri r, key)
         | Err e => Err (with_source AbsoluteUriRequired (SrcNormalize e))
         end in
  match r_version r with
  | HTTP_11 | HTTP_2 => continue
  | HTTP_10 => if is_connect then Some (Err (error_new UnsupportedMethod)) else continue
  | _ => Some (Err (error_new UnsupportedVersion))
  end.

(** [Client::get], with the default body. *)
Definition get (default_body : B) (uri : Uri) : option (result (Request B * Origin) Error) :=
  request (with_uri uri (mkRequest GET uri_default HTTP_11 hm_new default_body)).

Record ResponseInfo := mkResponseInfo { ri_connection : ConnectionInfo; ri_reused : bool }.

(** [ResponseFuture::error]: ready at once. *)
Definition response_future_error (e : Error) : timed (result (Response Body) Error) := now_ready (Err e).
(** [PoolClient::try_send_request]: Hyper's send of the protocol spoken. *)
Definition client_send {A} (h1_send : H1Sender -> Request B -> A) (h2_send : H2Sender -> Request B -> A)
    (c : PC) (r : Request B) : A :=
  match sender c with SHttp1 s => h1_send s r | SHttp2 s => h2_send s r end.
Inductive TrySendError :=
| Retryable (request : Request B) (error : Error) (reused : bool)
| FinalSend (error : Error).

(** What happens to one attempt: the connection it gets, and Hyper's answer,
    which returns the request when it was not sent. *)
Record Attempt := mkAttempt {
  at_connection : result Pooled' Error;
  at_send : Request B -> result (Response Body) (option (Request B) * HyperError)
}.

(** [Client::try_send_request]: what was handed to the connection, and the
    result. *)
Definition try_send_request (cfg : ClientConfig) (r : Request B) (a : Attempt)
    : option (list (Pooled' * Request B) * result (Response Body * ResponseInfo) TrySendError) :=
  match at_connection a with
  | Err e => Some ([], Err (FinalSend e))
  | Ok p =>
      let h1 := is_http1 (pl_value p) in
      if h1 && bool_decide (r_version r = HTTP_2) then
        Some ([], Err (FinalSend (error_new UnsupportedVersion)))
      else
        r ← (if h1 then normalize_http1_request r (set_host cfg) else Some r);
        let info := mkResponseInfo (connection_info (pl_value p)) (pl_is_reused p) in
        Some ([(p, r)],
          match at_send a r with
          | Ok response => Ok (response, info)
          | Err (Some returned, e) =>
              Err (Retryable returned (with_source Canceled (SrcHyper e)) (pl_is_reused p))
          | Err (None, e) => Err (FinalSend (with_source SendRequest (SrcHyper e)))
          end)
  end.

(** Whether the connection goes back to the pool at once, or a task keeps it
    until Hyper says it is ready. *)
Definition released_at_once (ready : PC -> bool) (p : Pooled') : bool :=
  is_http2 (pl_value p) || negb (pl_pool p) || ready (pl_value p).

(** [Client::send_request]: the loop over the attempts the outside world
    answers, with what was handed to connections, the log, and the result,
    [Pending] when more answers are needed. *)
Fixpoint send_request (cfg : ClientConfig) (key : Origin) (absolute_uri : Uri) (r : Request B)
    (attempts : list Attempt) (events : DebugEventLog)
    : option (list (Pooled' * Request B) * DebugEventLog * poll (result (Response Body * ResponseInfo) Error)) :=
  match attempts with
  | [] => Some ([], events, Pending)
  | a :: rest =>
      '(handed, res) ← try_send_request cfg r a;
      match res with
      | Ok response => Some (handed, events, Ready (Ok response))
      | Err (FinalSend e) => Some (handed, events, Ready (Err e))
      | Err (Retryable returned error reused) =>
          if negb (retry_canceled_requests cfg) || negb reused then
            Some (handed, events, Ready (Err error))
          else
            let events := record (StaleRetry (origin_display key)) events in
            '(more, events, res) ←
              send_request cfg key absolute_uri (with_uri absolute_uri returned) rest events;
            Some (handed ++ more, events, res)
      end
  end.

(** Hyper returns the very request it was given. *)
Definition returns_request (a : Attempt) : Prop :=
  forall r r' e, at_send a r = Err (Some r', e) -> r' = r.

(** The request on an HTTP/1 connection, and the two forms it has on an HTTP/2
    one: untouched, or after an HTTP/1 attempt. *)
Definition on_wire (cfg : ClientConfig) (r n : Request B) (p : Pooled') (q : Request B) : Prop :=
  if is_http1 (pl_value p) then q = n else q = r \/ q = with_uri (r_uri r) n.

Context {W : HttpLaws L}.

Lemma with_uri_id (r : Request B) : with_uri (r_uri r) r = r.
Proof. by destruct r. Qed.

Lemma with_uri_twice u v (r : Request B) : with_uri u (with_uri v r) = with_uri u r.
Proof. done. Qed.

(** The loop of [send_request] from any request it can hold: the caller's, or the
    normalized one with the caller's URI put back. *)
Lemma send_request_resends (cfg : ClientConfig) (key : Origin) (r n : Request B)
    (attempts : list Attempt) (events : DebugEventLog) (cur : Request B) :
  absolute (r_uri r) -> normalize_http1_request r (set_host cfg) = Some n ->
  (cur = r \/ cur = with_uri (r_uri r) n) -> Forall returns_request attempts ->
  exists handed events' res,
    send_request cfg key (r_uri r) cur attempts events = Some (handed, events', res) /\
    Forall (fun '(p, q) => on_wire cfg r n p q) handed /\
    (length handed <= length attempts)%nat /\
    (forall i p q, handed !! i = Some (p, q) -> (S i < length handed)%nat ->
       pl_is_reused p = true /\ retry_canceled_requests cfg = true /\
       exists a e, attempts !! i = Some a /\ at_send a q = Err (Some q, e)) /\
    (forall x, res = Ready (Ok x) -> handed <> []).
Proof.
  intros Habs Hn. pose proof (normalize_again r n (set_host cfg) Habs Hn) as Hn2. revert events cur.
  induction attempts as [|a rest IH]; intros events cur Hcur Hret.
  { eexists _, _, _. split; [done|]. split_and!; [constructor | done | done | done]. }
  apply Forall_cons in Hret as [Ha Hrest]. cbn [send_request]. unfold try_send_request.
  destruct (at_connection a) as [p|e]; simpl.
  2: { eexists _, _, _. split; [done|]. split_and!; [constructor | simpl; lia | done | done]. }
  assert (Hnc : normalize_http1_request cur (set_host cfg) = Some n) by (destruct Hcur as [->| ->]; done).
  destruct (is_http1 (pl_value p) && bool_decide (r_version cur = HTTP_2)).
  { eexists _, _, _. split; [done|]. split_and!; [constructor | simpl; lia | done | done]. }
  set (q := if is_http1 (pl_value p) then n else cur).
  assert ((if is_http1 (pl_value p) then normalize_http1_request cur (set_host cfg) else Some cur) = Some q) as ->
    by (unfold q; destruct (is_http1 (pl_value p)); done).
  assert (Hw : on_wire cfg r n p q) by (unfold on_wire, q; destruct (is_http1 (pl_value p)); auto).
  assert (Hq : with_uri (r_uri r) q = r \/ with_uri (r_uri r) q = with_uri (r_uri r) n).
  { unfold q. destruct (is_http1 (pl_value p)); [by right|].
    destruct Hcur as [->| ->]; [left; apply with_uri_id | by right]. }
  assert (Hone : Forall (fun '(p, q) => on_wire cfg r n p q) [(p, q)]) by (repeat constructor; done).
  simpl. destruct (at_send a q) as [resp|[[q'|] e]] eqn:Es; simpl.
  - eexists _, _, _. split; [done|]. split_and!; [done | simpl; lia | | done].
    intros i p' q' Hi Hlt. simpl in Hlt. lia.
  - pose proof Es as Es'. apply Ha in Es. subst q'. destruct (negb (retry_canceled_requests cfg) || negb (pl_is_reused p)) eqn:Er.
    + eexists _, _, _. split; [done|]. split_and!; [done | simpl; lia | | done].
      intros i p' q' Hi Hlt. simpl in Hlt. lia.
    + apply orb_false_iff in Er as [Er1%negb_false_iff Er2%negb_false_iff].
      destruct (IH (record (StaleRetry (origin_display key)) events) (with_uri (r_uri r) q) Hq Hrest)
        as (more & events' & res & -> & Hf & Hl & Hi & Hx). simpl.
      eexists _, _, _. split; [done|]. split_and!; [by constructor | simpl; lia | |].
      * intros [|i] p' q' E Hlt; simpl in E, Hlt; [injection E as <- <-; eauto 6|]. apply (Hi i p' q' E). lia.
      * done.
  - eexists _, _, _. split; [done|]. split_and!; [done | simpl; lia | | done].
    intros i p' q' Hi Hlt. simpl in Hlt. lia.
Qed.

(** C19. Retries are safe: only a request that Hyper handed back unsent, from a
    connection that was reused, is sent again, and only when retrying is
    enabled; every HTTP/1 connection is given the same normalized request, and
    an HTTP/2 connection the request with its absolute URI.  Each attempt hands
    the request to at most one connection, all but the last of them hand it back
    unsent, so it is sent at most once, and nothing panics. *)
Theorem retries_resend_same_request (cfg : ClientConfig) (key : Origin) (r n : Request B)
    (attempts : list Attempt) (events : DebugEventLog) :
  absolute (r_uri r) -> normalize_http1_request r (set_host cfg) = Some n ->
  Forall returns_request attempts ->
  exists handed events' res,
    send_request cfg key (r_uri r) r attempts events = Some (handed, events', res) /\
    Forall (fun '(p, q) => on_wire cfg r n p q) handed /\
    (length handed <= length attempts)%nat /\
    (forall i p q, handed !! i = Some (p, q) -> (S i < length handed)%nat ->
       pl_is_reused p = true /\ retry_canceled_requests cfg = true /\
       exists a e, attempts !! i = Some a /\ at_send a q = Err (Some q, e)) /\
    (forall x, res = Ready (Ok x) -> handed <> []).
Proof. intros Habs Hn Hret. apply send_request_resends; auto. Qed.

(** [request] never panics, refuses exactly the versions and targets it
    documents, and otherwise hands on an absolute URI with its origin as the
    pool key. *)
Theorem request_checks (r : Request B) :
  exists res, request r = Some res /\
    match res with
    | Ok (r', key) =>
        (r_version r = HTTP_11 \/ r_version r = HTTP_2 \/
         (r_version r = HTTP_10 /\ r_method r <> CONNECT)) /\
        uri_scheme (r_uri r') = Some (scheme key) /\ uri_authority (r_uri r') = Some (authority key) /\
        is_Some (normalize_http1_request r' true)
    | Err e =>
        match err_kind e with
        | UnsupportedMethod => r_version r = HTTP_10 /\ r_method r = CONNECT
        | UnsupportedVersion => r_version r = HTTP_09 \/ r_version r = HTTP_3
        | AbsoluteUriRequired =>
            uri_authority (r_uri r) = None \/
            (uri_scheme (r_uri r) = None /\ r_method r <> CONNECT)
        | _ => False
        end
    end.
Proof.
  unfold request. destruct (extract_origin_total (r_uri r) (bytes_eqb (r_method r) CONNECT)) as [[uri k] E].
  rewrite E. simpl.
  assert (Hm : bytes_eqb (r_method r) CONNECT = false -> r_method r <> CONNECT)
    by (intros H; by apply bool_decide_eq_false in H).
  assert (Hok : forall key, k = Ok key ->
    uri_scheme uri = Some (scheme key) /\ uri_authority uri = Some (authority key) /\
    is_Some (normalize_http1_request (with_uri uri r) true)).
  { intros key ->. destruct (extract_origin_absolute _ _ _ _ E) as [Hs Ha]. split_and!; try done.
    destruct (normalize_ok (with_uri uri r) true _ Ha) as (t & Et & _). eauto. }
  assert (Herr : forall e, k = Err e ->
    uri_authority (r_uri r) = None \/ (uri_scheme (r_uri r) = None /\ r_method r <> CONNECT)).
  { intros e ->. unfold extract_origin in E. destruct (uri_scheme (r_uri r)), (uri_authority (r_uri r)); auto; try done.
    destruct (bytes_eqb (r_method r) CONNECT) eqn:Em; [|auto].
    simpl in E. destruct (set_connect_scheme _ _); simpl in E; done. }
  destruct (r_version r) eqn:Ev; simpl.
  - eexists. split; [done|]. by left.
  - destruct (bytes_eqb (r_method r) CONNECT) eqn:Em.
    + apply bool_decide_eq_true in Em. eexists. split; [done|]. done.
    + eexists. split; [done|]. destruct k as [key|e]; simpl; [|eauto]. split; [|by apply Hok]. auto.
  - eexists. split; [done|]. destruct k as [key|e]; simpl; [|eauto]. split; [|by apply Hok]. auto.
  - eexists. split; [done|]. destruct k as [key|e]; simpl; [|eauto]. split; [|by apply Hok]. auto.
  - eexists. split; [done|]. by right.
Qed.

End Send.

(** ** The client's polls are steps of the pool's transition system *)
Abbreviation Sys := (@System PC Origin Origin_eq_dec Origin_countable).

(** A system seen up to the order of its guards, handles and checkouts. *)
Record view (sys : Sys) (w : World') (gs : list (@Connecting Origin)) (hs : list Pooled')
    (cos dr : list (@Checkout Origin)) : Prop := {
  v_world : world sys = w;
  v_guards : guards sys ≡ₚ gs;
  v_handles : handles sys ≡ₚ hs;
  v_checkouts : checkouts sys ≡ₚ cos;
  v_dropping : dropping sys ≡ₚ dr
}.


(** The pool is enabled and its invariant holds, as in every reachable state. *)
Definition sound (sys : Sys) : Prop := exists i, inner (world sys) = Some i /\ inv sys i.

Lemma reachable_sound (s1 s2 : Sys) : reachable s1 s2 -> sound s1 -> sound s2.
Proof. intros Hr (i & Hi & Hv). destruct (reachable_good _ _ Hr i Hi Hv) as (i' & Hi' & Hv' & _). by exists i'. Qed.


(** Some steps lead from [sys] to a system seen as given. *)
Definition leads (sys : Sys) (w : World') gs hs cos dr : Prop :=
  exists sys', reachable sys sys' /\ view sys' w gs hs cos dr.

Lemma leads_refl sys w gs hs cos dr : view sys w gs hs cos dr -> leads sys w gs hs cos dr.
Proof. intros H. exists sys. split; [constructor | done]. Qed.

Lemma reachable_trans (s1 s2 s3 : Sys) : reachable s1 s2 -> reachable s2 s3 -> reachable s1 s3.
Proof. intros H12 H23. induction H23; [done|]. econstructor; eauto. Qed.


Lemma one_step (s s' : Sys) : step s s' -> reachable s s'.
Proof. intros H. eapply reach_step; [constructor | exact H]. Qed.

Lemma perm_cons_split {A} (l : list A) x k : l ≡ₚ x :: k -> exists l1 l2, l = l1 ++ x :: l2 /\ l1 ++ l2 ≡ₚ k.
Proof.
  intros H. assert (x ∈ l) as (l1 & l2 & ->)%list_elem_of_split by (rewrite H; left).
  exists l1, l2. split; [done|]. rewrite <- Permutation_middle in H. by apply Permutation_cons_inv in H.
Qed.

(** Opening a view: the world and the splits are named. *)
Ltac open_view H :=
  let w := fresh "w" in
  destruct H as [Hvw Hvg Hvh Hvc Hvd];
  match type of Hvw with world ?s = _ => destruct s as [w ?gs ?hs ?cos ?dr] end;
  simpl in Hvw, Hvg, Hvh, Hvc, Hvd; subst w.






Lemma leads_checkout_drop co sys w gs hs cos dr :
  view sys w gs hs (co :: cos) dr -> leads sys (checkout_drop co w) gs hs cos dr.
Proof.
  intros H. open_view H. apply perm_cons_split in Hvc as (c1 & c2 & -> & Hc).
  eexists. split.
  - eapply reach_step; [apply one_step, step_checkout_drop|].
    apply (step_checkout_clean _ _ _ _ [] co dr0).
  - by split.
Qed.


Lemma leads_connecting_drop g sys w gs hs cos dr :
  sound sys -> view sys w (g :: gs) hs cos dr ->
  exists w', connecting_drop g w = Some w' /\ leads sys w' gs hs cos dr.
Proof.
  intros (i & Hi & Hv) H. destruct (connecting_drop_total sys i g Hi Hv) as (i1 & _ & E);
    [rewrite (v_guards _ _ _ _ _ _ H); left|].
  rewrite (v_world _ _ _ _ _ _ H) in E. eexists. split; [exact E|]. open_view H.
  apply perm_cons_split in Hvg as (g1 & g2 & -> & Hg).
  eexists. split; [apply one_step; eapply step_connecting_drop; exact E | by split].
Qed.



(** What a connection future holds. *)
Definition ct_guards (ct : ConnectTo) : list (@Connecting Origin) :=
  match ct with CtConnecting g | CtHandshake g _ _ _ => [g] | CtStart | CtDone => [] end.
Definition one_guards (st : OneConnection) : list (@Connecting Origin) :=
  match st with OSelect _ ct | OConnect ct => ct_guards ct | _ => [] end.
Definition one_checkouts (st : OneConnection) : list (@Checkout Origin) :=
  match st with OSelect co _ | OCheckout co => [co] | _ => [] end.

(** The guard a future waits with is the one for its protocol. *)
Definition ct_ok (cfg : ClientConfig) (ct : ConnectTo) : Prop :=
  match ct with
  | CtStart => True
  | CtConnecting g => cn_h1_slot g = negb (bool_decide (protocol cfg = Http2))
  | CtHandshake g _ p _ => cn_h1_slot g = bool_decide (p = ConnHttp1)
  | CtDone => False
  end.
Definition one_ok (cfg : ClientConfig) (st : OneConnection) : Prop :=
  match st with
  | OStart | OCheckout _ => True
  | OSelect _ ct | OConnect ct => ct_ok cfg ct
  | ODone => False
  end.


Lemma client_error_kind_not_canceled {D} (e : @Connect.Error D) : client_error_kind e <> Canceled.
Proof. by destruct e. Qed.













Lemma leads_connect_drop cfg ct sys w gs hs cos dr :
  ct_ok cfg ct -> sound sys -> view sys w (ct_guards ct ++ gs) hs cos dr ->
  exists w', connect_to_drop ct w = Some w' /\ leads sys w' gs hs cos dr.
Proof.
  intros Hok H0 Hv. destruct ct; try done; [|by apply leads_connecting_drop..].
  eexists. split; [done|]. by apply leads_refl.
Qed.







(** *** The loop of [connection_for] *)














(** Dropping the future of a request at any point of a reachable state does not
    panic and returns what it owns. *)
Theorem cancellation_refines_pool (cfg : ClientConfig) (st : OneConnection) (c : Config) tm ev (sys : Sys)
    (w : World') gs hs cos dr :
  enabled c = true -> 0 <= max_h1_connections_per_host c -> reachable (start c tm ev) sys ->
  one_ok cfg st -> view sys w (one_guards st ++ gs) hs (one_checkouts st ++ cos) dr ->
  exists w' sys', one_drop st w = Some w' /\ reachable sys sys' /\ view sys' w' gs hs cos dr.
Proof.
  intros He Hm Hr Hok Hv.
  assert (H0 : sound sys) by (destruct (reachable_inv c tm ev sys He Hm Hr) as (i & Hi & Hinv & _); by exists i).
  destruct st as [|co ct|ct|co|]; [| | | |done]; simpl in *.
  - exists w. destruct (leads_refl _ _ _ _ _ _ Hv) as (s & ? & ?). by exists s.
  - destruct (leads_checkout_drop co sys w _ _ _ _ Hv) as (s1 & R1 & V1).
    destruct (leads_connect_drop cfg ct s1 _ _ _ _ _ Hok (reachable_sound _ _ R1 H0) V1) as (w2 & E & s2 & R2 & V2).
    exists w2, s2. split; [exact E|]. split; [by eapply reachable_trans | done].
  - destruct (leads_connect_drop cfg ct sys w _ _ _ _ Hok H0 Hv) as (w2 & E & s2 & R2 & V2). by exists w2, s2.
  - destruct (leads_checkout_drop co sys w _ _ _ _ Hv) as (s1 & R1 & V1). by exists (checkout_drop co w), s1.
Qed.

End Client.
(** ** Concrete runs *)
Section Samples.
Import RefHttp.

#[local] Instance RefAuthority_eq_dec : EqDecision RefAuthority.
Proof. solve_decision. Defined.
#[local] Instance RefAuthority_countable : Countable RefAuthority.
Proof. apply (inj_countable' (fun a => (a_host a, a_port a)) (fun '(h, p) => mkAuth h p)). by intros []. Defined.
#[local] Instance sample_scheme_dec : EqDecision (@Scheme lib) := _ : EqDecision bytes.
#[local] Instance sample_scheme_countable : Countable (@Scheme lib) := _ : Countable bytes.
#[local] Instance sample_authority_dec : EqDecision (@Authority lib) := RefAuthority_eq_dec.
#[local] Instance sample_authority_countable : Countable (@Authority lib) := RefAuthority_countable.

Abbreviation SPC := (PoolClient nat nat).
Definition sample_key : Origin := mkOrigin (L := lib) (bs "http") sample_auth.
Definition sample_cfg : ClientConfig := mkClientConfig true true Auto.
Definition sample_sys : @System SPC Origin Origin_eq_dec Origin_countable :=
  start (mkConfig (Some 90) 4 2) true None.


Lemma cancellation_refines_pool_witness :
  exists (st : @OneConnection lib unit) w' sys', one_ok sample_cfg st /\
    one_drop st (world sample_sys) = Some w' /\ reachable sample_sys sys' /\ view sys' w' [] [] [] [].
Proof.
  exists OStart.
  destruct (cancellation_refines_pool (Io := unit) sample_cfg OStart (mkConfig (Some 90) 4 2) true None
              sample_sys (world sample_sys) [] [] [] [])
    as (w' & sys' & E & Hr & Hv); [reflexivity | discriminate | constructor | exact I | split; reflexivity|].
  exists w', sys'. split; [exact I|]. split; [exact E|]. split; assumption.
Defined.

Definition sample_handle (reused : bool) : @Pooled SPC Origin :=
  mkPooled (mkPoolClient (SHttp1 7%nat) (info_new ConnHttp1)) reused sample_key true true.

(** A stale connection hands the request back, a fresh one answers. *)
Definition sample_attempts : list (@Attempt lib nat nat unit unit bytes bytes) :=
  [mkAttempt (Ok (sample_handle true)) (fun r => Err (Some r, ()));
   mkAttempt (Ok (sample_handle false)) (fun r => Ok (mkResponse 200 HTTP_11 [] []))].

Lemma retries_resend_same_request_witness :
  exists n handed events' res,
    normalize_http1_request sample_request true = Some n /\
    send_request sample_cfg sample_key (r_uri sample_request) sample_request sample_attempts (Some [])
      = Some (handed, events', res) /\
    Forall (fun '(p, q) => on_wire sample_cfg sample_request n p q) handed.
Proof.
  assert (exists n, normalize_http1_request sample_request true = Some n) as [n Hn] by (eexists; reflexivity).
  destruct (retries_resend_same_request sample_cfg sample_key sample_request n sample_attempts (Some []))
    as (handed & events' & res & E & Hf & _).
  - split; eexists; reflexivity.
  - exact Hn.
  - repeat constructor; intros r r' e; simpl; congruence.
  - exists n, handed, events', res. split; [exact Hn|]. split; [exact E | exact Hf].
Defined.

Lemma request_checks_witness :
  exists r' key, request (HyperError := unit) (ConnectError := unit) sample_request = Some (Ok (r', key)) /\
    uri_scheme (r_uri r') = Some (scheme key).
Proof.
  destruct (request_checks (HyperError := unit) (ConnectError := unit) sample_request) as (res & E & H).
  assert (exists r' key, request (HyperError := unit) (ConnectError := unit) sample_request
            = Some (Ok (r', key))) as (r' & key & E') by (eexists _, _; reflexivity).
  exists r', key. split; [exact E'|]. rewrite E' in E. injection E as <-. exact (proj1 (proj2 H)).
Defined.
End Samples.

End Client.
