(* ===== verification/Errors.v ===== *)
(** * What the errors of the clients say

    The texts ([Display]) and causes ([Error::source]) of the error types of
    [h12tiny-client-normalize], [h12tiny-client-sync], [pool.rs],
    [connect.rs] and the asynchronous client.  Texts of errors of other crates
    are parameters. *)

From Stdlib Require Import ZArith Lia String.
From Stdlib Require Import Strings.Byte.
From stdpp Require Import base option list gmap.
From S2P Require Import Prelude Bytes HttpLib Normalize Stream SyncClient Pool Connect Client.

Open Scope Z_scope.

Module Errors.

(** [Display]. *)
Class Display (E : Type) := display : E -> bytes.

(** [{:?}] of a byte vector: its elements in decimal. *)
Fixpoint debug_elems (l : bytes) : bytes :=
  match l with
  | [] => []
  | [b] => print_dec (bz b)
  | b :: l' => print_dec (bz b) ++ bs ", " ++ debug_elems l'
  end.
Definition debug_vec (l : bytes) : bytes := bs "[" ++ debug_elems l ++ bs "]".

#[export] Instance normalize_display : Display Normalize.Normalize.Error := fun _ =>
  bs "client requests require an absolute URI".

(** ** The blocking client *)
Section Blocking.
Import SyncClient.SyncClient.

#[export] Instance sync_kind_display : Display ErrorKind := fun k =>
  match k with
  | AbsoluteUriRequired => bs "client requests require an absolute URI"
  | UnsupportedScheme => bs "request URI scheme is unsupported"
  | TlsUnavailable => bs "HTTPS requires the `tls` feature"
  | Connect => bs "connection establishment failed"
  | Tls => bs "TLS negotiation or certificate validation failed"
  | Alpn => bs "TLS ALPN did not select HTTP/1.1"
  | UnsupportedVersion => bs "request HTTP version is unsupported"
  | UnsupportedUpgrade => bs "HTTP/1 protocol upgrades are unsupported"
  | SendRequest => bs "HTTP request dispatch failed"
  | Response => bs "HTTP response framing failed"
  | Timeout => bs "blocking HTTP operation timed out"
  end.
#[export] Instance sync_error_display : Display Error := fun e => display (kind e).
Definition sync_error_source (e : Error) : option source_error := source e.

(** The crate's own causes. *)
Definition invalid_server_name_display (host : bytes) : bytes := bs "invalid TLS server name " ++ debug_str host.
Definition unsupported_alpn_display (p : bytes) : bytes := bs "server selected unsupported ALPN " ++ debug_vec p.

Lemma sync_texts_distinct (k k' : ErrorKind) : display k = display k' -> k = k'.
Proof. destruct k, k'; (done || discriminate). Qed.

(** The kind an I/O error is reported with is its caller's, unless it is a
    timeout; the error itself is the cause. *)
Lemma from_io_text k e :
  display (from_io k e) = display (if io_is_timeout e then Timeout else k) /\
  sync_error_source (from_io k e) = Some (SrcIo e).
Proof. done. Qed.
End Blocking.

(** ** The pool *)
Section Pool.
Import Pool.Pool.
#[export] Instance checkout_error_display : Display CheckoutError := fun e =>
  match e with
  | PoolDisabled => bs "connection pool is disabled"
  | NoLongerWanted => bs "pool checkout was cancelled"
  | ClosedValue => bs "checked-out connection was closed"
  end.
End Pool.

(** ** The connector *)
Section Connector.
Import Connect.Connect.
Context {DialError : Type} (dial_text : DialError -> bytes) (io_text : io_error -> bytes).
Abbreviation CError := (Connect.Connect.Error (DialError := DialError)).

Definition connect_error_display (e : CError) : bytes :=
  match e with
  | MissingHost => bs "URI has no host"
  | UnsupportedScheme scheme => bs "unsupported URI scheme " ++ debug_str scheme
  | TlsDisabled => bs "HTTPS requires the `tls` feature"
  | InvalidServerName host => bs "invalid TLS server name " ++ debug_str host
  | UnexpectedAlpn protocol => bs "server selected unsupported ALPN " ++ debug_vec protocol
  | RequiredHttp2NotNegotiated => bs "HTTP/2 was required but ALPN did not select h2"
  | EConnect error => io_text error
  | EResolve error => dial_text error
  | ECustom error => dial_text error
  | ETimeout => bs "connection establishment timed out"
  | ETls error => io_text error
  end.

(** The cause: an I/O error, or that of a dialer or resolver. *)
Definition connect_error_source (e : CError) : option (io_error + DialError) :=
  match e with
  | EConnect error => Some (inl error)
  | EResolve error => Some (inr error)
  | ECustom error => Some (inr error)
  | ETls error => Some (inl error)
  | _ => None
  end.

(** An error that only wraps a cause shows the text of that cause, and its kind
    says at which stage it happened: TLS for what Rustls reported,
    establishment for the rest. *)
Lemma wrapping_errors e cause : connect_error_source e = Some cause ->
  connect_error_display e = match cause with inl e => io_text e | inr e => dial_text e end /\
  (client_error_kind e = TlsKind <-> exists i, e = ETls i) /\
  (client_error_kind e = TlsKind \/ client_error_kind e = ConnectKind).
Proof.
  destruct e; intros [= <-]; (split; [done|]); (split; [split; [done || eauto | by intros [? ?]] | auto]).
Qed.
End Connector.

(** ** The asynchronous client *)
Section Asynchronous.
Import Connect.Connect.
#[export] Instance client_kind_display : Display ErrorKind := fun k =>
  match k with
  | Canceled => bs "request was cancelled before it could be sent"
  | UnsupportedSchemeKind => bs "request URI scheme is unsupported"
  | ConnectKind => bs "connection establishment failed"
  | TlsKind => bs "TLS negotiation or certificate validation failed"
  | AlpnKind => bs "TLS ALPN did not select an allowed HTTP protocol"
  | Handshake => bs "HTTP connection handshake failed"
  | SendRequest => bs "request dispatch failed"
  | UnsupportedMethod => bs "request method is unsupported for this HTTP version"
  | UnsupportedVersion => bs "request HTTP version is unsupported"
  | AbsoluteUriRequired => bs "client requests require an absolute URI"
  | ProtocolUnavailable => bs "the selected protocol was not enabled in this build"
  end.

Lemma client_texts_distinct (k k' : ErrorKind) : display k = display k' -> k = k'.
Proof. destruct k, k'; (done || discriminate). Qed.

Context {HyperError ConnectError : Type}.
Abbreviation ClientError := (Client.Client.Error (HyperError := HyperError) (ConnectError := ConnectError)).
#[export] Instance client_error_display : Display ClientError := fun e => display (Client.Client.err_kind e).
Definition client_error_source (e : ClientError) := Client.Client.source e.
End Asynchronous.

(** Both clients name the failures they share with the same words. *)
Lemma clients_agree_on_texts :
  display SyncClient.SyncClient.AbsoluteUriRequired = display Connect.Connect.AbsoluteUriRequired /\
  display SyncClient.SyncClient.UnsupportedScheme = display Connect.Connect.UnsupportedSchemeKind /\
  display SyncClient.SyncClient.Connect = display Connect.Connect.ConnectKind /\
  display SyncClient.SyncClient.Tls = display Connect.Connect.TlsKind /\
  display SyncClient.SyncClient.UnsupportedVersion = display Connect.Connect.UnsupportedVersion.
Proof. done. Qed.
End Errors.
