(* ===== verification/BodyUtil.v ===== *)
(** * Body utilities ([h12tiny-util])

    [crates/h12tiny-util/src/lib.rs]: the bounded collection of a body, the
    body of an asynchronous reader, and the idle timeout of a body.  The trait
    [http_body::Body] is the class [Body]; a [BodyScript] is a body that plays
    any sequence of frames, errors and not-ready answers.  [None] from a
    function with fuel means that the fuel ran out. *)

From Stdlib Require Import ZArith Lia String.
From Stdlib Require Import Strings.Byte.
From stdpp Require Import base option list.
From S2P Require Import Prelude Bytes HttpLib Stream AsyncIo.

Open Scope Z_scope.

Module BodyUtil.
Import AsyncIo.AsyncIo.

(** [http_body::Frame], over the type of trailers. *)
Inductive Frame (Tr : Type) := Data (b : bytes) | Trailers (t : Tr).
Arguments Data {Tr} _.
Arguments Trailers {Tr} _.

(** [http_body::SizeHint]. *)
Record SizeHint := mkSizeHint { lower : Z; upper : option Z }.

(** [http_body::Body]. *)
Class Body (B Tr E : Type) := {
  poll_frame : B -> poll (option (result (Frame Tr) E)) * B;
  is_end_stream : B -> bool;
  size_hint : B -> SizeHint
}.

(** ** Scripted bodies *)
Inductive body_event (Tr E : Type) := EPending | EFrame (f : Frame Tr) | EError (e : E).
Arguments EPending {Tr E}.
Arguments EFrame {Tr E} _.
Arguments EError {Tr E} _.

Definition BodyScript (Tr E : Type) : Type := list (body_event Tr E).

#[export] Instance script_body {Tr E} : Body (BodyScript Tr E) Tr E := {|
  poll_frame s :=
    match s with
    | [] => (Ready None, [])
    | EPending :: s' => (Pending, s')
    | EFrame f :: s' => (Ready (Some (Ok f)), s')
    | EError e :: s' => (Ready (Some (Err e)), s')
    end;
  is_end_stream s := match s with [] => true | _ => false end;
  size_hint _ := mkSizeHint 0 None
|}.

(** The data of a script, and scripts without errors. *)
Definition event_data {Tr E} (e : body_event Tr E) : bytes :=
  match e with EFrame (Data b) => b | _ => [] end.
Definition data {Tr E} (s : BodyScript Tr E) : bytes := concat (map event_data s).
Definition event_fine {Tr E} (e : body_event Tr E) : Prop := match e with EError _ => False | _ => True end.
Definition fine {Tr E} (s : BodyScript Tr E) : Prop := Forall event_fine s.

(** ** Bounded collection *)
Record BodyLimitError := mkBodyLimitError { limit : Z; received : Z }.

(** [JE] is the error of the JSON parser. *)
Inductive BodyCollectionError (E JE : Type) :=
| CBody (e : E)
| LimitExceeded (e : BodyLimitError)
| InvalidUtf8
| Json (e : JE).
Arguments CBody {E JE} _.
Arguments LimitExceeded {E JE} _.
Arguments InvalidUtf8 {E JE}.
Arguments Json {E JE} _.

(** Accessors and texts, over the texts of the errors they hold. *)
Definition limit_error_display (e : BodyLimitError) : bytes :=
  bs "body exceeded limit of " ++ print_dec (limit e) ++
  bs " bytes (received at least " ++ print_dec (received e) ++ bs " bytes)".

Section CollectionErrors.
Context {E JE : Type}.
Definition is_limit_exceeded (e : BodyCollectionError E JE) : bool :=
  match e with LimitExceeded _ => true | _ => false end.
Definition is_body_limit (e : BodyCollectionError E JE) : bool := is_limit_exceeded e.
(** What [source] refers to: every error has one. *)
Inductive CollectionSource := SourceBody (e : E) | SourceLimit (e : BodyLimitError) | SourceUtf8 | SourceJson (e : JE).
Definition collection_error_source (e : BodyCollectionError E JE) : option CollectionSource :=
  match e with
  | CBody e => Some (SourceBody e)
  | LimitExceeded e => Some (SourceLimit e)
  | InvalidUtf8 => Some SourceUtf8
  | Json e => Some (SourceJson e)
  end.
Definition limit_error (e : BodyCollectionError E JE) : option BodyLimitError :=
  match e with LimitExceeded l => Some l | _ => None end.
Definition collection_error_display (body_text : E -> bytes) (utf8_text : bytes) (json_text : JE -> bytes)
    (e : BodyCollectionError E JE) : bytes :=
  match e with
  | CBody e => bs "body error: " ++ body_text e
  | LimitExceeded e => limit_error_display e
  | InvalidUtf8 => bs "body was not valid UTF-8: " ++ utf8_text
  | Json e => bs "invalid JSON body: " ++ json_text e
  end.
End CollectionErrors.

Section Collect.
Context {B Tr E JE : Type} `{Body B Tr E}.

(** The capacity reserved before anything is read. *)
Definition initial_capacity (body : B) (lim : Z) : Z :=
  match upper (size_hint body) with
  | Some u => if u <=? USIZE_MAX then Z.min u lim else 0
  | None => 0
  end.

(** The [while let] of [collect_bytes_limited]; a pending body is polled
    again. *)
Fixpoint collect_loop (fuel : nat) (lim rcv : Z) (output : bytes) (body : B)
    : option (result bytes (BodyCollectionError E JE)) :=
  match fuel with
  | O => None
  | S fuel' =>
      let '(r, body) := poll_frame body in
      match r with
      | Pending => collect_loop fuel' lim rcv output body
      | Ready None => Some (Ok output)
      | Ready (Some (Err e)) => Some (Err (CBody e))
      | Ready (Some (Ok (Trailers _))) => collect_loop fuel' lim rcv output body
      | Ready (Some (Ok (Data d))) =>
          let next := saturating_add rcv (zlen d) in
          if lim <? next then Some (Err (LimitExceeded (mkBodyLimitError lim next)))
          else collect_loop fuel' lim next (output ++ d) body
      end
  end.

Definition collect_bytes_limited (fuel : nat) (body : B) (lim : Z)
    : option (result bytes (BodyCollectionError E JE)) :=
  collect_loop fuel lim 0 [] body.

(** The same loop against a clock: [wake] says how long after a not-ready answer
    the body wakes its reader, [None] that it never does. *)
Fixpoint collect_timed (wake : B -> option Z) (fuel : nat) (lim rcv : Z) (output : bytes) (body : B)
    : timed (result bytes (BodyCollectionError E JE)) :=
  match fuel with
  | O => None
  | S fuel' =>
      let '(r, body) := poll_frame body in
      match r with
      | Pending => w ← wake body; '(d, r) ← collect_timed wake fuel' lim rcv output body; Some (w + d, r)
      | Ready None => now_ready (Ok output)
      | Ready (Some (Err e)) => now_ready (Err (CBody e))
      | Ready (Some (Ok (Trailers _))) => collect_timed wake fuel' lim rcv output body
      | Ready (Some (Ok (Data d))) =>
          let next := saturating_add rcv (zlen d) in
          if lim <? next then now_ready (Err (LimitExceeded (mkBodyLimitError lim next)))
          else collect_timed wake fuel' lim next (output ++ d) body
      end
  end.

(** The clock does not change what is collected. *)
Lemma collect_timed_value wake fuel : forall lim rcv out body d r,
  collect_timed wake fuel lim rcv out body = Some (d, r) -> collect_loop fuel lim rcv out body = Some r.
Proof.
  induction fuel as [|fuel IH]; intros lim rcv out body d r; [done|]. cbn [collect_timed collect_loop].
  destruct (poll_frame body) as [[|[[[b|t]|e]|]] body']; try by intros [= _ <-].
  - destruct (wake body') as [w|]; simpl; [|done].
    destruct (collect_timed wake fuel lim rcv out body') as [[d' r']|] eqn:Ec; simpl; [|done].
    intros [= _ <-]. by eapply IH.
  - destruct (lim <? saturating_add rcv (zlen b)); [by intros [= _ <-]|]. apply IH.
  - apply IH.
Qed.

(** [ResponseBodyExt]; its methods take the body of the response. *)
Definition bytes_limited (fuel : nat) (body : B) (lim : Z) : option (result bytes (BodyCollectionError E JE)) :=
  collect_bytes_limited fuel body lim.

(** [ResponseBodyExt::text_limited] and [json_limited]; [invalid] is the error
    a JSON body that is not UTF-8 gets. *)
Definition text_limited (fuel : nat) (body : B) (lim : Z)
    : option (result bytes (BodyCollectionError E JE)) :=
  r ← collect_bytes_limited fuel body lim;
  Some (let? b := r in ok_or (from_utf8 b) InvalidUtf8).

Definition json_limited {T} (parse : bytes -> result T JE) (invalid : JE) (fuel : nat) (body : B) (lim : Z)
    : option (result T (BodyCollectionError E JE)) :=
  r ← collect_bytes_limited fuel body lim;
  Some (let? b := r in
        let? text := ok_or (from_utf8 b) (Json invalid) in
        map_err Json (parse text)).
End Collect.

(** ** [ReaderStream] *)
Section Reader.
Context {R : Type} `{AsyncRead R}.

Record ReaderStream := mkReaderStream { reader : R; chunk_size : nat; rs_done : bool }.

Definition reader_stream_new (r : R) : ReaderStream := mkReaderStream r (16 * 1024) false.
Definition with_chunk_size (n : nat) (s : ReaderStream) : ReaderStream :=
  mkReaderStream (reader s) (Nat.max n 1) (rs_done s).

Definition reader_into_inner (s : ReaderStream) : R := reader s.
(** [impl Stream for ReaderStream]; the buffer is zeroed and truncated to the
    reported count. *)
Definition reader_poll_next (s : ReaderStream)
    : poll (option (result bytes io_error)) * ReaderStream :=
  if rs_done s then (Ready None, s)
  else
    let '(r, rd) := async_poll_read (chunk_size s) (reader s) in
    let s' d := mkReaderStream rd (chunk_size s) d in
    match r with
    | Pending => (Pending, s' (rs_done s))
    | Ready (Ok (O, _)) => (Ready None, s' true)
    | Ready (Ok (read, dst)) =>
        let buffer := dst ++ replicate (chunk_size s - length dst) x00 in
        (Ready (Some (Ok (take read buffer))), s' (rs_done s))
    | Ready (Err e) => (Ready (Some (Err e)), s' true)
    end.

(** Reading to the end: the chunks, and the error that ended it. *)
Fixpoint read_all (fuel : nat) (s : ReaderStream) : option (list bytes * option io_error) :=
  match fuel with
  | O => None
  | S fuel' =>
      let '(r, s) := reader_poll_next s in
      match r with
      | Pending => read_all fuel' s
      | Ready None => Some ([], None)
      | Ready (Some (Err e)) => Some ([], Some e)
      | Ready (Some (Ok c)) => '(cs, e) ← read_all fuel' s; Some (c :: cs, e)
      end
  end.
End Reader.
Arguments ReaderStream : clear implicits.

(** ** [IdleTimeoutBody] *)
Inductive IdleTimeoutError (E : Type) := IBody (e : E) | TimedOut (idle : Duration).
Arguments IBody {E} _.
Arguments TimedOut {E} _.

(** A [Duration] is in nanoseconds: [as_millis] divides. *)
Definition as_millis (d : Duration) : Z := d / 1000000.
Definition idle_is_timeout {E} (e : IdleTimeoutError E) : bool :=
  match e with TimedOut _ => true | IBody _ => false end.
Definition body_error {E} (e : IdleTimeoutError E) : option E :=
  match e with IBody e => Some e | TimedOut _ => None end.
Definition idle_error_source {E} (e : IdleTimeoutError E) : option E :=
  match e with IBody e => Some e | TimedOut _ => None end.
Definition idle_error_display {E} (body_text : E -> bytes) (e : IdleTimeoutError E) : bytes :=
  match e with
  | IBody e => bs "body error: " ++ body_text e
  | TimedOut idle => bs "body idle timeout after " ++ print_dec (as_millis idle) ++ bs " ms"
  end.

Section Idle.
Context {B Tr E : Type} `{Body B Tr E}.

(** The timer is the instant at which it fires. *)
Record IdleTimeoutBody := mkIdle { inner : B; fires : Z; idle : Duration; idle_done : bool }.

Definition idle_new (b : B) (d : Duration) (now : Z) : IdleTimeoutBody := mkIdle b (now + d) d false.

(** [IdleTimeoutExt::with_idle_timeout]. *)
Definition with_idle_timeout (b : B) (d : Duration) (now : Z) : IdleTimeoutBody := idle_new b d now.

Definition idle_poll_frame (now : Z) (b : IdleTimeoutBody)
    : poll (option (result (Frame Tr) (IdleTimeoutError E))) * IdleTimeoutBody :=
  if idle_done b then (Ready None, b)
  else
    let '(r, i) := poll_frame (inner b) in
    match r with
    | Ready (Some (Ok f)) => (Ready (Some (Ok f)), mkIdle i (now + idle b) (idle b) false)
    | Ready (Some (Err e)) => (Ready (Some (Err (IBody e))), mkIdle i (fires b) (idle b) true)
    | Ready None => (Ready None, mkIdle i (fires b) (idle b) true)
    | Pending =>
        if fires b <=? now then (Ready (Some (Err (TimedOut (idle b)))), mkIdle i (fires b) (idle b) true)
        else (Pending, mkIdle i (fires b) (idle b) false)
    end.

Definition idle_is_end_stream (b : IdleTimeoutBody) : bool := idle_done b || is_end_stream (inner b).
Definition idle_size_hint (b : IdleTimeoutBody) : SizeHint := size_hint (inner b).

(** The accessors of [IdleTimeoutBody]. *)
Definition idle_timeout (b : IdleTimeoutBody) : Duration := idle b.
Definition idle_into_inner (b : IdleTimeoutBody) : B := inner b.
(** Polling at the given instants. *)
Fixpoint idle_run (times : list Z) (b : IdleTimeoutBody)
    : list (Z * poll (option (result (Frame Tr) (IdleTimeoutError E)))) :=
  match times with
  | [] => []
  | t :: times' => let '(r, b') := idle_poll_frame t b in (t, r) :: idle_run times' b'
  end.
End Idle.
Arguments IdleTimeoutBody : clear implicits.

(** ** Requests that can be built again, and small constructors *)
Section Replay.
Context {L : HttpLib}.

(** [BodyFactory] is its closure, which may answer differently each time it is
    called: [factory n] is the result of call [n]. *)
Record BodyFactory (O : Type) := BodyFactory_new { as_inner : nat -> O }.
Arguments BodyFactory_new {O} _.
Arguments as_inner {O} _ _.
Definition factory_make {O} (n : nat) (f : BodyFactory O) : O := as_inner f n.
Record ReplayableRequest (O : Type) := mkReplayable { template : Request (); body_factory : BodyFactory O }.
Arguments mkReplayable {O} _ _.
Arguments template {O} _.
Arguments body_factory {O} _.
Definition ReplayableRequest_new {O} (t : Request ()) (factory : nat -> O) : ReplayableRequest O :=
  mkReplayable t (BodyFactory_new factory).

Definition from_request {B O} (r : Request B) (factory : nat -> O) : ReplayableRequest O :=
  ReplayableRequest_new (mkRequest (r_method r) (r_uri r) (r_version r) (r_headers r) ()) factory.
Definition build_request {O} (n : nat) (r : ReplayableRequest O) : Request O :=
  let t := template r in
  mkRequest (r_method t) (r_uri t) (r_version t) (r_headers t) (factory_make n (body_factory r)).
(** [ReplayableRequest::request]. *)
Definition replay_request {O} (n : nat) (r : ReplayableRequest O) : Request O := build_request n r.
Definition replayable_value {T} (v : T) : nat -> T := fun _ => v.

Definition bearer (token : bytes) : option HeaderValue := header_value_from_bytes (bs "Bearer " ++ token).

(** Every request built has the head it was made from; with a cloneable value
    as body it is the same request each time. *)
Lemma build_request_head {B O} (r : Request B) (factory : nat -> O) n :
  let q := build_request n (from_request r factory) in
  r_method q = r_method r /\ r_uri q = r_uri r /\ r_version q = r_version r /\ r_headers q = r_headers r /\
  r_body q = factory n.
Proof. done. Qed.

Lemma replay_value {B} (r : Request B) n : build_request n (from_request r (replayable_value (r_body r))) = r.
Proof. by destruct r. Qed.
End Replay.

(** ** Collection *)
Section CollectFacts.
Context {Tr E JE : Type}.
Implicit Types (s pre post : BodyScript Tr E).

Lemma data_app s s' : data (s ++ s') = data s ++ data s'.
Proof. unfold data. by rewrite map_app, concat_app. Qed.

Lemma data_cons e s : data (e :: s) = event_data e ++ data s.
Proof. done. Qed.

Lemma data_one (d : bytes) : data [EFrame (Data d) : body_event Tr E] = d.
Proof. unfold data. simpl. apply app_nil_r. Qed.

(** How a collection ends, seen from the script. *)
Definition collected (lim : Z) s (r : result bytes (BodyCollectionError E JE)) : Prop :=
  match r with
  | Ok b => b = data s /\ zlen b <= lim /\ fine s
  | Err (CBody e) =>
      exists pre post, s = pre ++ EError e :: post /\ fine pre /\ zlen (data pre) <= lim
  | Err (LimitExceeded l) =>
      limit l = lim /\ exists pre d post, s = pre ++ EFrame (Data d) :: post /\ fine pre /\
        zlen (data pre) <= lim < received l /\
        received l = saturating_add (zlen (data pre)) (zlen d)
  | Err _ => False
  end.

Lemma saturating_add_le a b lim : 0 <= a -> 0 <= b -> lim <= USIZE_MAX ->
  saturating_add a b <= lim -> saturating_add a b = a + b \/ lim = USIZE_MAX.
Proof. unfold saturating_add. lia. Qed.

Lemma collect_loop_spec fuel : forall lim pre s,
  (length s < fuel)%nat -> fine pre -> zlen (data pre) <= lim < USIZE_MAX ->
  exists r, collect_loop (JE := JE) fuel lim (zlen (data pre)) (data pre) s = Some r /\
    collected lim (pre ++ s) r.
Proof.
  induction fuel as [|fuel IH]; intros lim pre s Hf Hp Hl; [lia|].
  destruct s as [|[|[d|t]|e] s]; cbn [collect_loop poll_frame script_body].
  - exists (Ok (data pre)). split; [done|]. rewrite app_nil_r. split_and!; [done | lia | done].
  - destruct (IH lim (pre ++ [EPending]) s) as (r & E1 & Hr);
      [simpl in Hf; lia | apply Forall_app; split; [done | repeat constructor] | rewrite data_app; simpl; by rewrite app_nil_r|].
    rewrite data_app in E1. simpl in E1. rewrite app_nil_r in E1. exists r. split; [done|].
    by rewrite <- app_assoc in Hr.
  - destruct (lim <? saturating_add (zlen (data pre)) (zlen d)) eqn:El.
    + eexists. split; [done|]. bool_hyps. split; [done|]. exists pre, d, s. split_and!; try done. lia.
    + bool_hyps. assert (saturating_add (zlen (data pre)) (zlen d) = zlen (data (pre ++ [EFrame (Data d)]))) as En.
      { rewrite data_app, zlen_app, data_one. unfold saturating_add in *. lia. }
      rewrite En in El |- *. replace (data pre ++ d) with (data (pre ++ [EFrame (Data d)])).
      2: { by rewrite data_app, data_one. }
      destruct (IH lim (pre ++ [EFrame (Data d)]) s) as (r & E1 & Hr);
        [simpl in Hf; lia | apply Forall_app; split; [done | repeat constructor] | lia|].
      exists r. split; [done|]. by rewrite <- app_assoc in Hr.
  - destruct (IH lim (pre ++ [EFrame (Trailers t)]) s) as (r & E1 & Hr);
      [simpl in Hf; lia | apply Forall_app; split; [done | repeat constructor] | rewrite data_app; simpl; by rewrite app_nil_r|].
    rewrite data_app in E1. simpl in E1. rewrite app_nil_r in E1. exists r. split; [done|].
    by rewrite <- app_assoc in Hr.
  - eexists. split; [done|]. exists pre, s. split_and!; [done | done | lia].
Qed.

(** Bounded collection: it always ends; it returns exactly the data of a body
    that fits and does not fail; it stops at the first frame that crosses the
    limit, and reports how many bytes it had seen by then; otherwise the
    body's own error is passed on.  What is reserved up front never exceeds the
    limit either. *)
Theorem collect_bytes_limited_spec s (lim : Z) :
  0 <= lim < USIZE_MAX ->
  exists r, collect_bytes_limited (JE := JE) (S (length s)) s lim = Some r /\
    initial_capacity s lim <= lim /\
    match r with
    | Ok b => b = data s /\ zlen b <= lim /\ fine s
    | Err (CBody e) =>
        exists pre post, s = pre ++ EError e :: post /\ fine pre /\ zlen (data pre) <= lim
    | Err (LimitExceeded l) =>
        limit l = lim /\ exists pre d post, s = pre ++ EFrame (Data d) :: post /\ fine pre /\
          zlen (data pre) <= lim < received l /\
          received l = saturating_add (zlen (data pre)) (zlen d)
    | Err _ => False
    end.
Proof.
  intros Hl. destruct (collect_loop_spec (S (length s)) lim [] s) as (r & E1 & Hr);
    [lia | constructor | simpl; unfold zlen; simpl; lia|].
  exists r. split; [exact E1|]. split; [simpl; unfold initial_capacity; simpl; lia | exact Hr].
Qed.
End CollectFacts.

Lemma collect_bytes_limited_spec_witness :
  exists r, collect_bytes_limited (JE := unit) (E := unit) (Tr := unit) 4
    [EFrame (Data (bs "abc")); EPending; EFrame (Data (bs "de"))] 4 = Some r /\
    r = Err (LimitExceeded (mkBodyLimitError 4 5)).
Proof.
  destruct (collect_bytes_limited_spec (JE := unit) (E := unit) (Tr := unit)
    [EFrame (Data (bs "abc")); EPending; EFrame (Data (bs "de"))] 4) as (r & E & _);
    [split; [lia | reflexivity]|].
  exists r. split; [exact E|]. vm_compute in E. injection E as <-. reflexivity.
Defined.

(** ** Readers as bodies *)
Lemma read_all_ok fuel : forall (sc : Script) n,
  (0 < n)%nat -> script_ok sc -> (length (script_bytes sc) + pendings sc < fuel)%nat ->
  exists cs, read_all fuel (mkReaderStream sc n false) = Some (cs, None) /\
    concat cs = script_bytes sc /\ Forall (fun c => c <> [] /\ (length c <= n)%nat) cs.
Proof.
  induction fuel as [|fuel IH]; intros sc n Hn Hok Hf; [lia|]. cbn [read_all].
  unfold reader_poll_next. cbn [rs_done reader chunk_size].
  assert (Hr : async_poll_read n sc = (match fst (script_read n sc) with
    | Ready (Ok b) => Ready (Ok (length b, b)) | Ready (Err e) => Ready (Err e) | Pending => Pending end,
    snd (script_read n sc))).
  { unfold async_poll_read, script_async. by destruct (script_read n sc). }
  rewrite Hr. clear Hr.
  destruct (script_read_ok n sc Hn Hok) as (r & sc' & -> & Hok' & Hr). cbn [fst snd].
  destruct r as [|[b|e]]; [| |done].
  - destruct Hr as [Eb Ep]. destruct (IH sc' n Hn Hok') as (cs & -> & Ec & Hcs); [rewrite Eb; lia|].
    exists cs. by rewrite <- Eb.
  - destruct Hr as (Eb & Hl & Ep & Hnil). destruct b as [|x b].
    + simpl. exists []. split; [done|]. by rewrite (Hnil eq_refl).
    + cbn [length]. set (c := x :: b) in *.
      rewrite take_app_exact by done.
      destruct (IH sc' n Hn Hok') as (cs & E1 & Ec & Hcs).
      { rewrite Eb, length_app in Hf. simpl in Hf. lia. }
      rewrite E1. simpl. exists (c :: cs). split; [done|]. split; [simpl; by rewrite Ec, Eb|].
      constructor; [split; [done | exact Hl] | done].
Qed.

(** A reader's body carries exactly the bytes the reader yields, in non-empty
    chunks of at most the chunk size, however the reads are cut and delayed;
    the stream ends with the reader. *)
Theorem reader_stream_roundtrip (sc : Script) (size : nat) :
  script_ok sc ->
  exists cs, read_all (S (length (script_bytes sc) + pendings sc))
               (with_chunk_size size (reader_stream_new sc)) = Some (cs, None) /\
    concat cs = script_bytes sc /\
    Forall (fun c => c <> [] /\ (length c <= Nat.max size 1)%nat) cs.
Proof. intros Hok. apply read_all_ok; [lia | done | lia]. Qed.

Lemma reader_stream_roundtrip_witness :
  exists cs, read_all 7 (with_chunk_size 2 (reader_stream_new [AData (bs "abc"); APending; AData (bs "de")]))
    = Some (cs, None) /\ concat cs = bs "abcde".
Proof.
  destruct (reader_stream_roundtrip [AData (bs "abc"); APending; AData (bs "de")] 2) as (cs & E & Hc & _).
  - repeat constructor.
  - exists cs. split; [exact E | exact Hc].
Defined.

(** ** Idle timeouts *)
Section IdleFacts.
Context {Tr E : Type}.
Implicit Types (s : BodyScript Tr E).
Abbreviation Out := (Z * poll (option (result (Frame Tr) (IdleTimeoutError E))))%type.

(** The frames of a script, and those that came out. *)
Definition frames s : list (Frame Tr) := omap (fun e => match e with EFrame f => Some f | _ => None end) s.
Definition frames_out (l : list Out) : list (Frame Tr) :=
  omap (fun o => match snd o with Ready (Some (Ok f)) => Some f | _ => None end) l.

(** The last instant at which a frame came out. *)
Definition last_activity (t0 : Z) (l : list Out) : Z :=
  fold_left (fun a (o : Out) => match snd o with Ready (Some (Ok _)) => fst o | _ => a end) l t0.

Lemma idle_run_done times s f d :
  idle_run times (mkIdle s f d true) = map (fun t => (t, Ready None)) times.
Proof. induction times as [|t times IH]; [done|]. simpl. by rewrite IH. Qed.

Lemma frames_out_done times : frames_out (map (fun t => (t, Ready None)) times) = [].
Proof. by induction times. Qed.

(** The outputs that end the body: its end and an error. *)
Definition ends_body (o : Out) : bool :=
  match snd o with Ready None | Ready (Some (Err _)) => true | _ => false end.

(** What the body underneath answers at its [i]-th poll decides the output:
    frames, errors and the end pass through, and a body that is not ready is
    timed out when the idle period has passed since [a]. *)
Definition expected s (d a t : Z) (i : nat) : poll (option (result (Frame Tr) (IdleTimeoutError E))) :=
  match s !! i with
  | Some (EFrame f) => Ready (Some (Ok f))
  | Some (EError e) => Ready (Some (Err (IBody e)))
  | Some EPending => if decide (a + d <= t) then Ready (Some (Err (TimedOut d))) else Pending
  | None => Ready None
  end.

(** The run from a body whose last activity was at [t0]. *)
Lemma idle_run_ok times : forall s d t0,
  let out := idle_run times (mkIdle s (t0 + d) d false) in
  forall i t, times !! i = Some t ->
    out !! i = Some (t, if existsb ends_body (take i out) then Ready None
                        else expected s d (last_activity t0 (take i out)) t i).
Proof.
  induction times as [|t times IH]; intros s d t0; [done|].
  cbn zeta. cbn [idle_run]. unfold idle_poll_frame. cbn [idle_done inner fires idle].
  destruct s as [|[|f|e] s]; cbn [poll_frame script_body].
  - intros [|i] t' Hi; [by injection Hi as <-|]. simpl in Hi |- *.
    by rewrite idle_run_done, list_lookup_fmap, Hi.
  - destruct (t0 + d <=? t) eqn:El; bool_hyps; intros [|i] t' Hi; simpl in Hi |- *.
    + injection Hi as <-. unfold expected. simpl. by rewrite decide_True.
    + by rewrite idle_run_done, list_lookup_fmap, Hi.
    + injection Hi as <-. unfold expected. simpl. by rewrite decide_False by lia.
    + exact (IH s d t0 i t' Hi).
  - intros [|i] t' Hi; [by injection Hi as <-|]. exact (IH s d t i t' Hi).
  - intros [|i] t' Hi; [by injection Hi as <-|]. simpl in Hi |- *.
    by rewrite idle_run_done, list_lookup_fmap, Hi.
Qed.

Lemma idle_run_times times : forall (b : IdleTimeoutBody (BodyScript Tr E)),
  map fst (idle_run times b) = times.
Proof.
  induction times as [|t times IH]; intros b; [done|]. cbn [idle_run].
  destruct (idle_poll_frame t b) as [r b']. simpl. by rewrite IH.
Qed.

Lemma idle_run_frames times : forall s d t0,
  frames_out (idle_run times (mkIdle s (t0 + d) d false)) `prefix_of` frames s.
Proof.
  induction times as [|t times IH]; intros s d t0; [apply prefix_nil|].
  cbn [idle_run]. unfold idle_poll_frame. cbn [idle_done inner fires idle].
  destruct s as [|[|f|e] s]; cbn [poll_frame script_body].
  - rewrite idle_run_done. simpl. rewrite frames_out_done. apply prefix_nil.
  - destruct (t0 + d <=? t); [|exact (IH s d t0)]. rewrite idle_run_done. simpl. rewrite frames_out_done. apply prefix_nil.
  - simpl. apply prefix_cons, IH.
  - rewrite idle_run_done. simpl. rewrite frames_out_done. apply prefix_nil.
Qed.

(** C36. The idle timeout of a body, poll by poll: there is one output for each
    poll, and until the body ended it is what the body underneath answers at
    that poll, a frame, its error or its end, except that a body that is not
    ready is reported as timed out exactly when the idle period has passed
    since the last frame (or since the body was wrapped) and is pending
    before; after the timeout, an error or the end every poll answers the end.
    So the frames come out unchanged and in order. *)
Theorem idle_timeout_spec s (d t0 : Z) (times : list Z) :
  let out := idle_run times (idle_new s d t0) in
  map fst out = times /\
  frames_out out `prefix_of` frames s /\
  forall i t, times !! i = Some t ->
    out !! i = Some (t,
      if existsb ends_body (take i out) then Ready None
      else match s !! i with
           | Some (EFrame f) => Ready (Some (Ok f))
           | Some (EError e) => Ready (Some (Err (IBody e)))
           | Some EPending =>
               if decide (last_activity t0 (take i out) + d <= t)
               then Ready (Some (Err (TimedOut d))) else Pending
           | None => Ready None
           end).
Proof. split_and!; [apply idle_run_times | apply idle_run_frames | apply idle_run_ok]. Qed.
End IdleFacts.

End BodyUtil.
