(* ===== verification/BodyStreams.v ===== *)
(** * Streams, readers and values as bodies ([h12tiny-util])

    The constructors of [crates/h12tiny-util/src/lib.rs] that turn bytes,
    streams and readers into bodies, over [http-body-util] and [futures-util],
    which are interfaces here.  A body [plays] a script when its polls answer
    as the script says; collection depends on a body only through the script it
    plays, so the theorems compose a reader, the stream over it, the erased
    body and the bounded collection. *)

From Stdlib Require Import ZArith Lia String.
From Stdlib Require Import Strings.Byte.
From stdpp Require Import base option list.
From S2P Require Import Prelude Bytes HttpLib Stream AsyncIo BodyUtil.

Open Scope Z_scope.

Module BodyStreams.
Import AsyncIo.AsyncIo BodyUtil.BodyUtil.

Definition poll_map {A B} (f : A -> B) (p : poll A) : poll B :=
  match p with Pending => Pending | Ready a => Ready (f a) end.

(** ** Bodies that play a script *)
Definition event_poll {Tr E} (e : body_event Tr E) : poll (option (result (Frame Tr) E)) :=
  match e with
  | EPending => Pending
  | EFrame f => Ready (Some (Ok f))
  | EError e => Ready (Some (Err e))
  end.

(** What a body does after it has failed is left open. *)
Fixpoint plays {B Tr E} `{Body B Tr E} (b : B) (s : BodyScript Tr E) : Prop :=
  match s with
  | [] => exists b', poll_frame b = (Ready None, b')
  | e :: s' => exists b', poll_frame b = (event_poll e, b') /\
      match e with EError _ => True | _ => plays b' s' end
  end.

(** ** The crates underneath *)

(** [futures_util::Stream]. *)
Class Stream (S I : Type) := poll_next : S -> poll (option I) * S.

(** [StreamExt::map]: the items, transformed. *)
Class StreamMap {S I J : Type} (M : Type) `{Stream S I} (f : I -> J) := {
  stream_map : S -> M;
  stream_map_stream :: Stream M J;
  stream_map_poll s : poll_next (stream_map s) =
    let '(r, s') := poll_next s in (poll_map (option_map f) r, stream_map s')
}.

(** [http_body_util::StreamBody]: the items of the stream are the frames. *)
Class StreamBody {M Tr E : Type} (B : Type) `{Stream M (result (Frame Tr) E)} := {
  stream_body_new : M -> B;
  stream_body_body :: Body B Tr E;
  stream_body_poll m : poll_frame (stream_body_new m) =
    let '(r, m') := poll_next m in (r, stream_body_new m')
}.

(** [BodyExt::map_err] followed by [BodyExt::boxed]. *)
Class BoxedMapErr {B Tr E : Type} (X E' : Type) `{Body B Tr E} (into : E -> E') := {
  boxed_map_err : B -> X;
  boxed_body_inst :: Body X Tr E';
  boxed_poll b : poll_frame (boxed_map_err b) =
    let '(r, b') := poll_frame b in (poll_map (option_map (map_err into)) r, boxed_map_err b')
}.

(** [http_body_util::Full]: one frame with the bytes, none when there are
    none. *)
Class FullBody (F Tr E : Type) := {
  full_new : bytes -> F;
  full_body :: Body F Tr E;
  full_plays b : plays (full_new b) (match b with [] => [] | _ => [EFrame (Data b)] end)
}.

(** [http_body_util::Empty]. *)
Class EmptyBody (Y Tr E : Type) := {
  empty_new : Y;
  empty_body_inst :: Body Y Tr E;
  empty_plays : plays empty_new []
}.

(** ** Constructors *)
Definition empty_body {Y Tr E} `{EmptyBody Y Tr E} : Y := empty_new.
Definition empty {Y Tr E} `{EmptyBody Y Tr E} : Y := empty_body.
Definition bytes_body {F Tr E} `{FullBody F Tr E} (b : bytes) : F := full_new b.

(** [bytes] and [static_bytes]. *)
Definition of_bytes {F Tr E} `{FullBody F Tr E} (b : bytes) : F := bytes_body b.
Definition static_bytes {F Tr E} `{FullBody F Tr E} (b : bytes) : F := bytes_body b.
(** Serializing cannot fail; the signature has an error all the same. *)
Definition json_body {F Tr E JE T} `{FullBody F Tr E} (to_json : T -> bytes) (v : T) : result F JE :=
  Ok (bytes_body (to_json v)).

Definition json_response {L : HttpLib} {F Tr E JE T} `{FullBody F Tr E} (to_json : T -> bytes) (v : T)
    : result (Response F) JE :=
  let? body := json_body to_json v in
  Ok (mkResponse 200 HTTP_11 (hm_insert CONTENT_TYPE (bs "application/json") hm_new) body).

(** [item.map(Frame::data)]. *)
Definition frame_data {Tr E} (item : result bytes E) : result (Frame Tr) E := map_ok Data item.

Definition frame_stream_body {M B Tr E} `{StreamBody M Tr E B} (m : M) : B := stream_body_new m.

Definition stream_body {S M B Tr E} `{Stream S (result bytes E)}
    `{!StreamMap M (frame_data (Tr := Tr) (E := E))} `{!StreamBody B} (s : S) : B :=
  stream_body_new (stream_map s).

Definition boxed_body {B X Tr E E'} {into : E -> E'} `{BoxedMapErr B Tr E X E' into} (b : B) : X :=
  boxed_map_err b.

(** [boxed], and the same erasure to the body that is not [Sync]. *)
Definition boxed {B X Tr E E'} {into : E -> E'} `{BoxedMapErr B Tr E X E' into} (b : B) : X := boxed_body b.
Definition boxed_unsync_body {B X Tr E E'} {into : E -> E'} `{BoxedMapErr B Tr E X E' into} (b : B) : X :=
  boxed_map_err b.
Definition data_stream_body {S M B Tr E} `{Stream S (result bytes E)}
    `{!StreamMap M (frame_data (Tr := Tr) (E := E))} `{!StreamBody B} (s : S) : B := stream_body s.
#[export] Instance reader_stream {R} `{AsyncRead R} : Stream (ReaderStream R) (result bytes io_error) :=
  reader_poll_next.

Definition reader_body {R M B Tr} `{AsyncRead R} `{!StreamMap M (frame_data (Tr := Tr) (E := io_error))}
    `{!StreamBody B} (r : R) : B :=
  stream_body (reader_stream_new r).

Definition body_from_reader {R M B Tr} `{AsyncRead R} `{!StreamMap M (frame_data (Tr := Tr) (E := io_error))}
    `{!StreamBody B} (r : R) : B := reader_body r.

(** ** Collection sees a body only through its script *)
Section Collection.
Context {B Tr E JE : Type} `{Body B Tr E}.

Lemma collect_plays fuel : forall lim rcv out (b : B) (s : BodyScript Tr E),
  plays b s -> collect_loop (JE := JE) fuel lim rcv out b = collect_loop fuel lim rcv out s.
Proof.
  induction fuel as [|fuel IH]; intros lim rcv out b s Hp; [done|].
  destruct s as [|[|[d|t]|e] s]; cbn [plays] in Hp; destruct Hp as [b' Hp];
    [|destruct Hp as [Hp Hs]..];
    cbn [collect_loop poll_frame script_body]; rewrite Hp; cbn [event_poll]; eauto.
  case_match; eauto.
Qed.

(** What reading a script to its end yields: the data up to the first error,
    and that error. *)
Fixpoint reads (s : BodyScript Tr E) : bytes * option E :=
  match s with
  | [] => ([], None)
  | EError e :: _ => ([], Some e)
  | e :: s' => (event_data e ++ fst (reads s'), snd (reads s'))
  end.

Definition chunk_max (n : Z) (s : BodyScript Tr E) : Prop := Forall (fun e => zlen (event_data e) <= n) s.

(** How a collection with the limit [lim] ends on a body that yields [b] and
    then fails with [x], in frames of at most [n] bytes. *)
Definition collects_as (lim n : Z) (b : bytes) (x : option E) (r : result bytes (BodyCollectionError E JE)) : Prop :=
  (zlen b <= lim -> r = match x with None => Ok b | Some e => Err (CBody e) end) /\
  (lim < zlen b -> exists rcv, r = Err (LimitExceeded (mkBodyLimitError lim rcv)) /\ lim < rcv <= lim + n).

Lemma collect_reads fuel : forall lim n out (s : BodyScript Tr E),
  (length s < fuel)%nat -> zlen out <= lim < USIZE_MAX -> chunk_max n s ->
  exists r, collect_loop (JE := JE) fuel lim (zlen out) out s = Some r /\
    collects_as lim n (out ++ fst (reads s)) (snd (reads s)) r.
Proof.
  induction fuel as [|fuel IH]; intros lim n out s Hf Hl Hn; [lia|].
  destruct s as [|[|[d|t]|e] s]; cbn [collect_loop poll_frame script_body reads event_data fst snd app];
    try (apply Forall_cons in Hn as [Hd Hn]; cbn [event_data] in Hd).
  1, 5: eexists; (split; [done|]); rewrite app_nil_r; split; [done | lia].
  1, 3: apply IH; [simpl in Hf; lia | done..].
  pose proof (zlen_nonneg d). destruct (lim <? saturating_add (zlen out) (zlen d)) eqn:El; bool_hyps.
  - eexists. split; [done|]. pose proof (zlen_nonneg (fst (reads s))).
    unfold saturating_add in *. split; rewrite !zlen_app; [lia|]. intros _. eexists. split; [done|]. lia.
  - assert (saturating_add (zlen out) (zlen d) = zlen (out ++ d)) as En.
    { rewrite zlen_app. unfold saturating_add in *. lia. }
    rewrite En in *. rewrite app_assoc. apply IH; [simpl in Hf; lia | lia | done].
Qed.

Lemma body_collects fuel (b : B) (s : BodyScript Tr E) lim n :
  plays b s -> (length s < fuel)%nat -> 0 <= lim < USIZE_MAX -> chunk_max n s ->
  exists r, collect_bytes_limited (JE := JE) fuel b lim = Some r /\
    collects_as lim n (fst (reads s)) (snd (reads s)) r.
Proof.
  intros Hp Hf Hl Hn. unfold collect_bytes_limited. rewrite (collect_plays _ _ _ _ _ _ Hp).
  by apply (collect_reads _ lim n []).
Qed.
End Collection.

(** Erasing a body keeps its script, with the errors converted. *)
Definition event_map_err {Tr E E'} (f : E -> E') (e : body_event Tr E) : body_event Tr E' :=
  match e with EPending => EPending | EFrame fr => EFrame fr | EError e => EError (f e) end.

Lemma boxed_plays {B X Tr E E'} {into : E -> E'} `{BoxedMapErr B Tr E X E' into} s :
  forall b, plays b s -> plays (boxed_body b) (map (event_map_err into) s).
Proof.
  induction s as [|e s IH]; intros b; cbn [plays map]; unfold boxed_body; rewrite boxed_poll.
  - intros [b' ->]. by eexists.
  - intros (b' & -> & Hs). eexists. split; [by destruct e|]. destruct e; cbn [event_map_err]; try done; by apply IH.
Qed.

Lemma reads_map_err {Tr E E'} (f : E -> E') (s : BodyScript Tr E) :
  reads (map (event_map_err f) s) = (fst (reads s), option_map f (snd (reads s))).
Proof. by induction s as [|[|fr|e] s IH]; [..|]; cbn [map event_map_err reads] in *; rewrite ?IH. Qed.

Lemma chunk_max_map_err {Tr E E'} (f : E -> E') n (s : BodyScript Tr E) :
  chunk_max n s -> chunk_max n (map (event_map_err f) s).
Proof. intros Hs. apply Forall_map. eapply Forall_impl; [exact Hs|]. by intros [|[]|]. Qed.

(** ** Readers *)

(** What a reader delivers: its bytes up to the first error, and that error. *)
Fixpoint delivered (sc : Script) : bytes * option io_error :=
  match sc with
  | [] => ([], None)
  | AErr e :: _ => ([], Some e)
  | ev :: sc' => (event_bytes ev ++ fst (delivered sc'), snd (delivered sc'))
  end.

(** Only the end of the reader reads as zero bytes. *)
Definition no_empty (sc : Script) : Prop := Forall (fun e => e <> AData []) sc.

Section Readers.
Context {M B Tr : Type} `{!StreamMap M (frame_data (Tr := Tr) (E := io_error))} `{!StreamBody B}.

Lemma stream_body_poll_reader (s : ReaderStream Script) :
  poll_frame (stream_body s : B) =
  let '(r, s') := reader_poll_next s in (poll_map (option_map frame_data) r, stream_body s').
Proof.
  unfold stream_body. rewrite stream_body_poll, stream_map_poll.
  change (poll_next s) with (reader_poll_next s). by destruct (reader_poll_next s).
Qed.

Lemma reader_poll_data n (b : bytes) sc : (0 < n)%nat -> b <> [] ->
  reader_poll_next (mkReaderStream (AData b :: sc : Script) n false) =
  (Ready (Some (Ok (take n b))),
   mkReaderStream (match drop n b with [] => sc | b' => AData b' :: sc end) n false).
Proof.
  intros Hn Hb. unfold reader_poll_next. cbn [rs_done reader chunk_size].
  unfold async_poll_read, script_async. cbn [script_read].
  destruct (take n b) as [|x c] eqn:E; [by apply take_nonempty in E|].
  cbn [length]. rewrite take_app_exact by done. done.
Qed.

(** Induction on the bytes and events that are left. *)
Lemma reader_plays n (Hn : (0 < n)%nat) fuel : forall sc : Script,
  (length (script_bytes sc) + length sc < fuel)%nat -> no_empty sc ->
  exists s : BodyScript Tr io_error,
    plays (stream_body (mkReaderStream sc n false) : B) s /\
    reads s = delivered sc /\ chunk_max (Z.of_nat n) s /\ (length s < fuel)%nat.
Proof.
  induction fuel as [|fuel IH]; intros sc Hf Hne; [lia|].
  destruct sc as [|[|b|e] sc]; try (apply Forall_cons in Hne as [He Hne]).
  - exists []. split_and!; [|done|constructor|simpl; lia]. cbn [plays]. rewrite stream_body_poll_reader. by eexists.
  - destruct (IH sc) as (s & Hp & Hr & Hc & Hl); [cbn in Hf |- *; unfold script_bytes in *; simpl in *; lia|done|].
    exists (EPending :: s). split_and!; [|cbn; by rewrite Hr|by constructor; [apply Nat2Z.is_nonneg|]|simpl; lia].
    cbn [plays]. rewrite stream_body_poll_reader. by eexists.
  - assert (b <> []) as Hb by naive_solver.
    set (rest := match drop n b with [] => sc | b' => AData b' :: sc end : Script).
    assert (script_bytes (AData b :: sc) = take n b ++ script_bytes rest) as Eb.
    { unfold script_bytes, rest. simpl. rewrite <- (take_drop n b) at 1. rewrite <- app_assoc. f_equal.
      by destruct (drop n b). }
    assert (delivered (AData b :: sc) = (take n b ++ fst (delivered rest), snd (delivered rest))) as Ed.
    { unfold rest. cbn [delivered event_bytes]. rewrite <- (take_drop n b) at 1. rewrite <- app_assoc.
      by destruct (drop n b). }
    assert (take n b <> []) as Ht. { intros E. by apply take_nonempty in E. }
    assert (length rest <= S (length sc))%nat as Hlr by (unfold rest; destruct (drop n b); simpl; lia).
    destruct (IH rest) as (s & Hp & Hr & Hc & Hl).
    { rewrite Eb, length_app in Hf. destruct (take n b); [done|]. simpl in Hf. lia. }
    { unfold rest. destruct (drop n b); [done|]. by constructor. }
    exists (EFrame (Data (take n b)) :: s). split_and!; [|cbn [reads event_data]; by rewrite Hr, Ed| |simpl; lia].
    + cbn [plays]. rewrite stream_body_poll_reader, reader_poll_data by done. by eexists.
    + constructor; [|done]. cbn [event_data]. unfold zlen. rewrite length_take. lia.
  - exists [EError e]. split_and!; [|done|constructor; [apply Nat2Z.is_nonneg|constructor]|simpl in *; lia].
    cbn [plays]. rewrite stream_body_poll_reader. by eexists.
Qed.

Context {X E' JE : Type} {into : io_error -> E'} `{!BoxedMapErr (B := B) X E' into}.

(** A reader served as an erased body and collected with a limit: however the
    reads are cut and delayed, the collection ends; within the limit it returns
    exactly the bytes of the reader, or the reader's own error, converted;
    above it, it fails having taken at most one chunk of 16 KiB beyond the
    limit. *)
Theorem reader_body_collects (sc : Script) lim :
  no_empty sc -> 0 <= lim < USIZE_MAX ->
  let fuel := S (length (script_bytes sc) + length sc) in
  exists r, collect_bytes_limited (JE := JE) fuel (boxed_body (reader_body sc : B) : X) lim = Some r /\
    collects_as lim (16 * 1024) (fst (delivered sc)) (option_map into (snd (delivered sc))) r.
Proof.
  intros Hne Hl fuel. destruct (reader_plays (16 * 1024) ltac:(lia) fuel sc) as (s & Hp & Hr & Hc & Hf); [lia | done|].
  apply boxed_plays in Hp.
  destruct (body_collects (JE := JE) fuel _ _ lim (16 * 1024) Hp) as (r & E & Hr');
    [by rewrite length_map | done | by apply chunk_max_map_err|].
  exists r. split; [exact E|]. by rewrite reads_map_err, Hr in Hr'.
Qed.
End Readers.

(** A value sent as a JSON response and read back with [json_limited] by a
    receiver whose limit it fits: the JSON library's own round trip is the only
    thing relied on. *)
Lemma json_response_roundtrip {L : HttpLib} {F Tr E JE T} `{FullBody F Tr E} (to_json : T -> bytes)
    (parse : bytes -> result T JE) (invalid : JE) (v : T) lim :
  parse (to_json v) = Ok v -> from_utf8 (to_json v) = Some (to_json v) ->
  zlen (to_json v) <= lim < USIZE_MAX ->
  exists resp : Response F, json_response (JE := JE) to_json v = Ok resp /\ rs_status resp = 200 /\
    json_limited (JE := JE) parse invalid 2 (rs_body resp) lim = Some (Ok v).
Proof.
  intros Hparse Hu Hl. eexists. split; [done|]. split; [done|]. unfold json_limited, bytes_body. cbn [rs_body].
  pose proof (zlen_nonneg (to_json v)).
  destruct (body_collects (JE := JE) 2 _ _ lim (zlen (to_json v)) (full_plays (to_json v))) as (r & -> & Hr & _).
  - destruct (to_json v); simpl; lia.
  - lia.
  - destruct (to_json v) eqn:Ej; [constructor|]. by repeat constructor.
  - assert (r = Ok (to_json v)) as ->.
    { destruct (to_json v) eqn:Ej; simpl in Hr; rewrite ?app_nil_r in Hr; apply Hr; lia. }
    simpl. by rewrite Hu; simpl; rewrite Hparse.
Qed.

(** ** An implementation of the interfaces *)
Record Mapped (S : Type) := mkMapped { mapped : S }.
Arguments mkMapped {S} _.
Arguments mapped {S} _.
Definition mapped_stream {S I J} `{Stream S I} (f : I -> J) : Stream (Mapped S) J := fun m =>
  let '(r, s) := poll_next (mapped m) in (poll_map (option_map f) r, mkMapped s).
#[refine] Instance mapped_map {S I J} `{Stream S I} (f : I -> J) : StreamMap (Mapped S) f :=
  {| stream_map := mkMapped; stream_map_stream := mapped_stream f |}.
Proof. done. Defined.

Record Framed (M : Type) := mkFramed { framed : M }.
Arguments mkFramed {M} _.
Arguments framed {M} _.
#[export] Instance framed_body {M Tr E} `{Stream M (result (Frame Tr) E)} : Body (Framed M) Tr E := {|
  poll_frame b := let '(r, m) := poll_next (framed b) in (r, mkFramed m);
  is_end_stream _ := false;
  size_hint _ := mkSizeHint 0 None |}.
#[export, refine] Instance framed_stream_body {M Tr E} `{Stream M (result (Frame Tr) E)} : StreamBody (Framed M) :=
  {| stream_body_new := mkFramed; stream_body_body := framed_body |}.
Proof. done. Defined.

Record Boxed (B : Type) := mkBoxed { unboxed : B }.
Arguments mkBoxed {B} _.
Arguments unboxed {B} _.
Definition boxed_body_impl {B Tr E E'} (into : E -> E') `{Body B Tr E} : Body (Boxed B) Tr E' := {|
  poll_frame b := let '(r, b') := poll_frame (unboxed b) in
                  (poll_map (option_map (map_err into)) r, mkBoxed b');
  is_end_stream b := is_end_stream (unboxed b);
  size_hint b := size_hint (unboxed b) |}.
#[refine] Instance boxed_impl {B Tr E E'} (into : E -> E') `{Body B Tr E} : BoxedMapErr (Boxed B) E' into :=
  {| boxed_map_err := mkBoxed; boxed_body_inst := boxed_body_impl into |}.
Proof. done. Defined.

#[export, refine] Instance script_full {Tr E} : FullBody (BodyScript Tr E) Tr E :=
  {| full_new b := match b with [] => [] | _ => [EFrame (Data b)] end; full_body := script_body |}.
Proof. intros [|x b]; simpl; eauto. Defined.

Definition sample_reader : Script :=
  [AData (bs "ab"); APending; AData (bs "c"); AErr (mkIoError ConnectionReset "reset")].
Definition SampleBody : Type := Framed (Mapped (ReaderStream Script)).

Definition sample_map : StreamMap (Mapped (ReaderStream Script)) (frame_data (Tr := unit) (E := io_error)) :=
  mapped_map frame_data.
Definition sample_framed : StreamBody (H := stream_map_stream (StreamMap := sample_map)) SampleBody :=
  framed_stream_body.
Definition sample_boxed : BoxedMapErr (H := stream_body_body (StreamBody := sample_framed)) (Boxed SampleBody) io_kind ioe_kind :=
  boxed_impl ioe_kind.

Lemma reader_body_collects_witness :
  exists r, collect_bytes_limited (JE := unit) (H := boxed_body_inst (BoxedMapErr := sample_boxed)) 8
      (boxed_body (H0 := sample_boxed)
         (reader_body (StreamMap0 := sample_map) (StreamBody0 := sample_framed) sample_reader)) 3
    = Some r /\ r = Err (CBody ConnectionReset).
Proof.
  destruct (reader_body_collects (JE := unit) (StreamMap0 := sample_map) (StreamBody0 := sample_framed)
    (BoxedMapErr0 := sample_boxed) sample_reader 3) as (r & E & Hr & _).
  - repeat constructor; done.
  - split; [lia | reflexivity].
  - exists r. split; [exact E|]. apply Hr. vm_compute. congruence.
Defined.
End BodyStreams.
