(* ===== verification/WebRouter.v ===== *)
(** * The router ([h12tiny-web], [lib.rs])

    [crates/h12tiny-web/src/lib.rs]: request bodies with a limit, responses,
    endpoints with deadlines, the method and path router, CORS.  The path
    matcher is the crate [matchit], a parameter with the operations the router
    uses; handlers are functions to timed responses.  [None] is a panic. *)

From Stdlib Require Import ZArith Lia String.
From Stdlib Require Import Strings.Byte.
From stdpp Require Import base option list gmap.
From S2P Require Import Prelude Bytes HttpLib Stream BodyUtil.

Open Scope Z_scope.

Module WebRouter.
Import BodyUtil.BodyUtil.

(** ** Route parameters *)
Definition RouteParams : Type := list (bytes * bytes).
Fixpoint params_get (name : bytes) (p : RouteParams) : option bytes :=
  match p with
  | [] => None
  | (k, v) :: p' => if bytes_eqb k name then Some v else params_get name p'
  end.
Definition params_values (p : RouteParams) : list bytes := map snd p.

Record RequestMeta := mkMeta { params : RouteParams; meta_body_limit : option Z }.

(** ** Bodies with a limit *)
Record BodyLimitExceeded := mkExceeded { ex_limit : Z; ex_received : Z }.

(** The errors a request body can carry; [LimitedBodyError] keeps the limit it
    found exceeded, and the text of an inner error otherwise. *)
Inductive BoxError := Transport (e : bytes) | LimitedBodyError (limit : option BodyLimitExceeded) (message : bytes).

Section Limited.
Context {B Tr : Type} `{Body B Tr BoxError}.

(** [error.to_string()] of a body error. *)
Definition error_text (e : BoxError) : bytes :=
  match e with Transport m => m | LimitedBodyError _ m => m end.

(** [Display for BodyLimitExceeded]. *)
Definition exceeded_text (x : BodyLimitExceeded) : bytes :=
  bs "request body exceeded limit of " ++ print_dec (ex_limit x) ++
  bs " bytes (received at least " ++ print_dec (ex_received x) ++ bs " bytes)".

Definition limited_inner (e : BoxError) : BoxError := LimitedBodyError None (error_text e).
Definition limited_limit (x : BodyLimitExceeded) : BoxError := LimitedBodyError (Some x) (exceeded_text x).

Record LimitedBody := mkLimited { lb_inner : B; lb_limit : Z; lb_received : Z }.
Definition limited_new (b : B) (limit : Z) : LimitedBody := mkLimited b limit 0.

(** What [poll_frame] makes of a frame of the inner body: the answer and the
    new count. *)
Definition limited_frame (limit rcv : Z) (r : poll (option (result (Frame Tr) BoxError)))
    : poll (option (result (Frame Tr) BoxError)) * Z :=
  match r with
  | Pending => (Pending, rcv)
  | Ready (Some (Ok (Data d))) =>
      let next := saturating_add rcv (zlen d) in
      if limit <? next then (Ready (Some (Err (limited_limit (mkExceeded limit next)))), next)
      else (Ready (Some (Ok (Data d))), next)
  | Ready (Some (Ok f)) => (Ready (Some (Ok f)), rcv)
  | Ready (Some (Err e)) => (Ready (Some (Err (limited_inner e))), rcv)
  | Ready None => (Ready None, rcv)
  end.

Definition limited_poll_frame (b : LimitedBody)
    : poll (option (result (Frame Tr) BoxError)) * LimitedBody :=
  let '(r, i) := poll_frame (lb_inner b) in
  let '(r, rcv) := limited_frame (lb_limit b) (lb_received b) r in
  (r, mkLimited i (lb_limit b) rcv).

Definition limited_size_hint (b : LimitedBody) : SizeHint :=
  let h := size_hint (lb_inner b) in
  mkSizeHint (if lb_limit b <? lower h then lb_limit b else lower h)
    (match upper h with Some u => Some (Z.min u (lb_limit b)) | None => None end).

#[export] Instance limited_body : Body LimitedBody Tr BoxError := {|
  poll_frame := limited_poll_frame;
  is_end_stream b := is_end_stream (lb_inner b);
  size_hint := limited_size_hint
|}.
End Limited.
Arguments LimitedBody : clear implicits.

(** [body_limit_from_collection]: both ways a limit shows up. *)
Definition body_limit_from_collection {JE} (e : BodyCollectionError BoxError JE) : option BodyLimitExceeded :=
  match e with
  | CBody (LimitedBodyError l _) => l
  | CBody (Transport _) => None
  | LimitExceeded l => Some (mkExceeded (limit l) (received l))
  | _ => None
  end.

(** The erased request body: as it arrived, or limited. *)
Inductive RequestBody (Tr : Type) :=
| Raw (s : BodyScript Tr BoxError)
| Limited (b : RequestBody Tr) (limit rcv : Z).
Arguments Raw {Tr} _.
Arguments Limited {Tr} _ _ _.

Fixpoint request_poll_frame {Tr} (b : RequestBody Tr)
    : poll (option (result (Frame Tr) BoxError)) * RequestBody Tr :=
  match b with
  | Raw s => let '(r, s) := poll_frame s in (r, Raw s)
  | Limited i l rcv =>
      let '(r, i) := request_poll_frame i in
      let '(r, rcv) := limited_frame l rcv r in (r, Limited i l rcv)
  end.

Fixpoint request_size_hint {Tr} (b : RequestBody Tr) : SizeHint :=
  match b with
  | Raw s => size_hint s
  | Limited i l _ =>
      let h := request_size_hint i in
      mkSizeHint (if l <? lower h then l else lower h)
        (match upper h with Some u => Some (Z.min u l) | None => None end)
  end.

Fixpoint request_is_end_stream {Tr} (b : RequestBody Tr) : bool :=
  match b with Raw s => is_end_stream s | Limited i _ _ => request_is_end_stream i end.

#[export] Instance request_body {Tr} : Body (RequestBody Tr) Tr BoxError := {|
  poll_frame := request_poll_frame;
  is_end_stream := request_is_end_stream;
  size_hint := request_size_hint
|}.

Definition empty_body {Tr} : RequestBody Tr := Raw [].

(** ** Arrival of a body
    How long after a not-ready answer the connection wakes the reader of a body
    of which the script is still to come; [None]: never. *)
Class Arrival (Tr : Type) := {
  wakes_after : BodyScript Tr BoxError -> option Z;
  wakes_nonneg s w : wakes_after s = Some w -> 0 <= w
}.
Fixpoint raw_script {Tr} (b : RequestBody Tr) : BodyScript Tr BoxError :=
  match b with Raw s => s | Limited i _ _ => raw_script i end.

(** When all of a body has arrived. *)
Fixpoint arrived {Tr} `{Arrival Tr} (s : BodyScript Tr BoxError) : timed () :=
  match s with
  | [] => now_ready ()
  | EPending :: s' => w ← wakes_after s'; '(d, u) ← arrived s'; Some (w + d, u)
  | _ :: s' => arrived s'
  end.

Lemma arrived_nonneg {Tr} `{Arrival Tr} (s : BodyScript Tr BoxError) d u : arrived s = Some (d, u) -> 0 <= d.
Proof.
  revert d u. induction s as [|[|f|e] s IH]; intros d u; cbn [arrived]; try apply IH; [by intros [= <- _]|].
  destruct (wakes_after s) as [w|] eqn:Ew; simpl; [|done].
  destruct (arrived s) as [[d' u']|] eqn:E; simpl; [|done]. intros [= <- <-].
  pose proof (IH _ _ eq_refl). apply wakes_nonneg in Ew. lia.
Qed.

(** ** Responses *)
Section Web.
Context {L : HttpLib} {Tr : Type}.

(** A buffered body, or a stream of chunks. *)
Inductive ResponseBody := RFull (b : bytes) | RStream (s : BodyScript Tr BoxError).
Abbreviation Req := (Request (RequestBody Tr)).
Abbreviation Resp := (Response ResponseBody).

Definition OK : StatusCode := 200.
Definition BAD_REQUEST : StatusCode := 400.
Definition NOT_FOUND : StatusCode := 404.
Definition METHOD_NOT_ALLOWED : StatusCode := 405.
Definition REQUEST_TIMEOUT : StatusCode := 408.
Definition PAYLOAD_TOO_LARGE : StatusCode := 413.
Definition INTERNAL_SERVER_ERROR : StatusCode := 500.

Definition insert_header (n : HeaderName) (v : HeaderValue) (r : Resp) : Resp :=
  mkResponse (rs_status r) (rs_version r) (hm_insert n v (rs_headers r)) (rs_body r).
Definition set_status (s : StatusCode) (r : Resp) : Resp :=
  mkResponse s (rs_version r) (rs_headers r) (rs_body r).

Definition response_with_body (status : StatusCode) (body : bytes) : Resp :=
  mkResponse status HTTP_11 hm_new (RFull body).

Record Rejection := mkRejection { rej_status : StatusCode; rej_message : bytes }.

Definition rejection_display (r : Rejection) : bytes := rej_message r.
(** The trait [IntoResponse] and its instances. *)
Class IntoResponse (A : Type) := into_response : A -> Resp.
#[export] Instance rejection_into_response : IntoResponse Rejection :=
  fun r => response_with_body (rej_status r) (rej_message r).
Definition status_into_response (s : StatusCode) : Resp := response_with_body s [].
Definition bytes_into_response (b : bytes) : Resp := mkResponse OK HTTP_11 hm_new (RFull b).
Definition string_into_response (s : bytes) : Resp :=
  insert_header CONTENT_TYPE (bs "text/plain; charset=utf-8") (response_with_body OK s).
(** [Vec<u8>] and [&str] through [Bytes] and [String]. *)
Definition vec_into_response (v : bytes) : Resp := bytes_into_response v.
Definition str_into_response (s : bytes) : Resp := string_into_response s.
#[export] Instance response_into_response : IntoResponse Resp := fun r => r.
#[export] Instance result_into_response {A E} `{IntoResponse A} `{IntoResponse E} : IntoResponse (result A E) :=
  fun r => match r with Ok a => into_response a | Err e => into_response e end.

#[export] Instance status_pair_into_response {A} `{IntoResponse A} : IntoResponse (StatusCode * A) :=
  fun '(s, a) => set_status s (into_response a).
Definition extend_headers (h : HeaderMap) (r : Resp) : Resp :=
  mkResponse (rs_status r) (rs_version r) (hm_extend (rs_headers r) h) (rs_body r).
#[export] Instance headers_pair_into_response {A} `{IntoResponse A} : IntoResponse (HeaderMap * A) :=
  fun '(h, a) => extend_headers h (into_response a).
#[export] Instance triple_into_response {A} `{IntoResponse A} : IntoResponse (StatusCode * HeaderMap * A) :=
  fun '(s, h, a) => extend_headers h (set_status s (into_response a)).

(** ** Extractors *)

(** [FromRequest]: the value and the rest of the request, or a rejection, when
    that is known; [None]: the body never ends, or not within the fuel. *)
Definition Extractor (S A : Type) : Type :=
  Req -> option S -> RequestMeta -> timed (result (A * Req) Rejection).

Definition state_extractor {S} : Extractor S S := fun r state _ =>
  now_ready match state with
       | Some s => Ok (s, r)
       | None => Err (mkRejection INTERNAL_SERVER_ERROR (bs "router state is not configured"))
       end.

(** Replacing the body. *)
Definition with_body (b : RequestBody Tr) (r : Req) : Req :=
  mkRequest (r_method r) (r_uri r) (r_version r) (r_headers r) b.

(** What the body-reading extractors share: the bytes, or 413 or 400. *)
Definition collect_rejection (message : bytes) (e : BodyCollectionError BoxError Empty_set) : Rejection :=
  match body_limit_from_collection e with
  | Some x => mkRejection PAYLOAD_TOO_LARGE (exceeded_text x)
  | None => mkRejection BAD_REQUEST message
  end.
Definition collect_body `{Arrival Tr} (message : bytes) (fuel : nat) (r : Req) (meta : RequestMeta)
    : timed (result bytes Rejection) :=
  timed_map (map_err (collect_rejection message))
    (collect_timed (fun b => wakes_after (raw_script b)) fuel (default USIZE_MAX (meta_body_limit meta)) 0 []
       (r_body r)).

Definition bytes_extractor `{Arrival Tr} {S} (fuel : nat) : Extractor S bytes := fun r _ meta =>
  timed_map (map_ok (fun b => (b, with_body empty_body r)))
    (collect_body (bs "failed to read request body") fuel r meta).

(** ** Endpoints *)
Section Router.
Context {S : Type}.

Definition Handler : Type := Req -> option S -> RequestMeta -> timed Resp.

Record Endpoint := mkEndpoint { handler : Handler; body_limit : option Z; timeout : option Duration }.

(** [boxed_body(LimitedBody::new(body, limit))]. *)
Definition limit_body (limit : Z) (b : RequestBody Tr) : RequestBody Tr := Limited b limit 0.

(** The response to a handler that does not finish in time, and its race with
    the timer. *)
Definition deadline_exceeded : Resp :=
  response_with_body REQUEST_TIMEOUT (bs "request handler deadline exceeded").
Definition with_deadline (t : option Duration) (future : timed Resp) : timed Resp :=
  match t with
  | Some d =>
      timed_map (fun x => match x with inl response => response | inr _ => deadline_exceeded end)
        (select future (Some (d, ())))
  | None => future
  end.
Definition endpoint_call (e : Endpoint) (r : Req) (state : option S) (p : RouteParams) : timed Resp :=
  let r := match body_limit e with Some l => with_body (limit_body l (r_body r)) r | None => r end in
  with_deadline (timeout e) (handler e r state (mkMeta p (body_limit e))).

(** [MethodRouter]: [HashMap<Method, Endpoint>]. *)
Definition MethodRouter : Type := gmap bytes Endpoint.

Definition mr_new (m : Method) (e : Endpoint) : MethodRouter := <[m := e]> ∅.
Definition method_router (m : Method) (h : Handler) : MethodRouter := mr_new m (mkEndpoint h None None).
Definition get := method_router GET.
Definition post := method_router POST.
Definition put := method_router PUT.
Definition patch := method_router PATCH.
Definition delete := method_router DELETE.
Definition head := method_router HEAD.
Definition options := method_router OPTIONS.

Definition mr_body_limit (limit : Z) : MethodRouter -> MethodRouter :=
  fmap (fun e => mkEndpoint (handler e) (Some limit) (timeout e)).
Definition mr_timeout (d : Duration) : MethodRouter -> MethodRouter :=
  fmap (fun e => mkEndpoint (handler e) (body_limit e) (Some d)).
Definition mr_without_timeout : MethodRouter -> MethodRouter :=
  fmap (fun e => mkEndpoint (handler e) (body_limit e) None).

(** [self.methods.extend(other.methods)]: the new handlers win. *)
Definition mr_merge (self other : MethodRouter) : MethodRouter := other ∪ self.

(** ** CORS *)
Record Cors := mkCors { origins : list HeaderValue; methods : HeaderValue; headers : HeaderValue }.

Definition cors_new : Cors :=
  mkCors [] (bs "GET, POST, PUT, PATCH, DELETE, HEAD, OPTIONS") (bs "content-type, authorization").
Definition allow_origin (o : bytes) (c : Cors) : Cors :=
  match header_value_from_bytes o with
  | Some v => mkCors (origins c ++ [v]) (methods c) (headers c)
  | None => c
  end.
Definition allow_methods (m : bytes) (c : Cors) : Cors :=
  match header_value_from_bytes m with Some v => mkCors (origins c) v (headers c) | None => c end.
Definition allow_headers (h : bytes) (c : Cors) : Cors :=
  match header_value_from_bytes h with Some v => mkCors (origins c) (methods c) v | None => c end.

Definition origin_allowed (c : Cors) (origin : HeaderValue) : bool :=
  existsb (fun allowed => bytes_eqb allowed (bs "*") || bytes_eqb allowed origin) (origins c).

Definition ALLOW_ORIGIN : HeaderName := bs "access-control-allow-origin".
Definition VARY : HeaderName := bs "vary".

Definition apply_response (c : Cors) (r : Resp) (origin : option HeaderValue) : Resp :=
  match origin with
  | Some o => if origin_allowed c o then insert_header VARY (bs "Origin") (insert_header ALLOW_ORIGIN o r) else r
  | None => r
  end.

Definition preflight_response (c : Cors) (origin : option HeaderValue) : Resp :=
  apply_response c
    (insert_header (bs "access-control-allow-headers") (headers c)
       (insert_header (bs "access-control-allow-methods") (methods c)
          (insert_header ALLOW (methods c) (status_into_response NO_CONTENT)))) origin.

(** ** [matchit::Router] *)
Record Matchit := mkMatchit {
  Matcher : Type;
  m_new : Matcher;
  m_insert : bytes -> nat -> Matcher -> option Matcher;
  m_at : Matcher -> bytes -> option (nat * RouteParams)
}.
Context (mi : Matchit).

(** ** The router *)
Record Router := mkRouter {
  routes : list (bytes * MethodRouter);
  matcher : Matcher mi;
  fallback : option Endpoint;
  state : option S;
  cors : option Cors
}.

Fixpoint insert_all (index : nat) (paths : list bytes) (m : Matcher mi) : option (Matcher mi) :=
  match paths with
  | [] => Some m
  | p :: paths' => m ← m_insert mi p index m; insert_all (Datatypes.S index) paths' m
  end.
Definition build_matcher (rs : list (bytes * MethodRouter)) : option (Matcher mi) :=
  insert_all O (map fst rs) (m_new mi).

Definition router_new : Router := mkRouter [] (m_new mi) None None None.
Definition with_state (s : S) (r : Router) : Router :=
  mkRouter (routes r) (matcher r) (fallback r) (Some s) (cors r).

(** The entry of a path, merged with new methods. *)
Fixpoint extend_entry (path : bytes) (ms : MethodRouter) (rs : list (bytes * MethodRouter))
    : option (list (bytes * MethodRouter)) :=
  match rs with
  | [] => None
  | (p, old) :: rs' =>
      if bytes_eqb p path then Some ((p, mr_merge old ms) :: rs')
      else cons (p, old) <$> extend_entry path ms rs'
  end.

Definition route (path : bytes) (ms : MethodRouter) (r : Router) : option Router :=
  match extend_entry path ms (routes r) with
  | Some rs => Some (mkRouter rs (matcher r) (fallback r) (state r) (cors r))
  | None =>
      let rs := routes r ++ [(path, ms)] in
      m ← build_matcher rs;
      Some (mkRouter rs m (fallback r) (state r) (cors r))
  end.

Definition map_methods (f : MethodRouter -> MethodRouter) (r : Router) : Router :=
  mkRouter (map (fun '(p, ms) => (p, f ms)) (routes r)) (matcher r) (fallback r) (state r) (cors r).
Definition router_timeout (d : Duration) : Router -> Router := map_methods (mr_timeout d).
Definition router_without_timeout : Router -> Router := map_methods mr_without_timeout.
Definition router_body_limit (l : Z) : Router -> Router := map_methods (mr_body_limit l).
Definition with_fallback (h : Handler) (r : Router) : Router :=
  mkRouter (routes r) (matcher r) (Some (mkEndpoint h None None)) (state r) (cors r).
Definition with_cors (c : Cors) (r : Router) : Router :=
  mkRouter (routes r) (matcher r) (fallback r) (state r) (Some c).

Definition join_paths (prefix path : bytes) : bytes :=
  if bytes_eqb prefix (bs "/") then path
  else
    let prefix := trim_end_while (Byte.eqb "/") prefix in
    let path := drop_while (Byte.eqb "/") path in
    match path with [] => prefix | _ => prefix ++ bs "/" ++ path end.

(** Taking over the fallback and the state of another router. *)
Definition inherit (other r : Router) : Router :=
  mkRouter (routes r) (matcher r)
    (match fallback r with Some f => Some f | None => fallback other end)
    (match state r with Some s => Some s | None => state other end) (cors r).

Fixpoint nest_routes (prefix : bytes) (rs : list (bytes * MethodRouter)) (r : Router) : option Router :=
  match rs with
  | [] => Some r
  | (path, ms) :: rs' =>
      let nested_root := bytes_eqb path (bs "/") in
      let path := join_paths prefix path in
      r ← (if nested_root && negb (bytes_eqb path (bs "/")) then route (path ++ bs "/") ms r else Some r);
      r ← route path ms r;
      nest_routes prefix rs' r
  end.
Definition nest (prefix : bytes) (nested r : Router) : option Router :=
  r ← nest_routes prefix (routes nested) r; Some (inherit nested r).

Fixpoint merge_routes (rs : list (bytes * MethodRouter)) (r : Router) : option Router :=
  match rs with
  | [] => Some r
  | (path, ms) :: rs' => r ← route path ms r; merge_routes rs' r
  end.
Definition merge (other r : Router) : option Router :=
  r ← merge_routes (routes other) r; Some (inherit other r).

Definition method_not_allowed : Resp :=
  insert_header ALLOW (bs "GET, POST, PUT, PATCH, DELETE, HEAD, OPTIONS")
    (response_with_body METHOD_NOT_ALLOWED (bs "method not allowed")).

(** [Router::call_boxed]. *)
Definition call_boxed (r : Router) (request : Req) : option (timed Resp) :=
  let request_origin := hm_get ORIGIN (r_headers request) in
  let dispatch e p :=
    let future := endpoint_call e request (state r) p in
    Some match cors r with
         | Some c => timed_map (fun resp => apply_response c resp request_origin) future
         | None => future
         end in
  let unmatched :=
    match fallback r with
    | Some e => dispatch e []
    | None => Some (now_ready (response_with_body NOT_FOUND (bs "not found")))
    end in
  let plain :=
    match m_at mi (matcher r) (uri_path (r_uri request)) with
    | Some (index, p) =>
        '(_, ms) ← routes r !! index;
        match ms !! r_method request with
        | Some e => dispatch e p
        | None => Some (now_ready method_not_allowed)
        end
    | None => unmatched
    end in
  match cors r with
  | Some c =>
      if bytes_eqb (r_method request) OPTIONS && hm_contains ORIGIN (r_headers request)
      then Some (now_ready (preflight_response c request_origin))
      else plain
  | None => plain
  end.

(** [Router::call] erases the body of the request, and [hyper::service::Service]
    for [Router] is a call that cannot fail. *)
Definition map_body {B B'} (f : B -> B') (r : Request B) : Request B' :=
  mkRequest (r_method r) (r_uri r) (r_version r) (r_headers r) (f (r_body r)).
Definition router_call {B} (boxed_body : B -> RequestBody Tr) (r : Router) (request : Request B) : option (timed Resp) :=
  call_boxed r (map_body boxed_body request).
Definition router_service_call {B} (boxed_body : B -> RequestBody Tr) (r : Router) (request : Request B)
    : option (timed (result Resp Empty_set)) :=
  response ← router_call boxed_body r request; Some (timed_map Ok response).
(** [Clone for Router] builds the matcher again. *)
Definition router_clone (r : Router) : option Router :=
  m ← build_matcher (routes r);
  Some (mkRouter (routes r) m (fallback r) (state r) (cors r)).

(** [RouterService]: a dispatch function around a router. *)
Record RouterService := mkService { rs_router : Router; rs_dispatch : Req -> Router -> option (timed Resp) }.
Definition service_with (d : Req -> Router -> option (timed Resp)) (r : Router) : RouterService := mkService r d.
Definition service_call_boxed (s : RouterService) (request : Req) : option (timed Resp) :=
  r ← router_clone (rs_router s); rs_dispatch s request r.

Definition dispatch_service_call {B} (boxed_body : B -> RequestBody Tr) (s : RouterService) (request : Request B)
    : option (timed (result Resp Empty_set)) :=
  response ← service_call_boxed s (map_body boxed_body request); Some (timed_map Ok response).
(** ** Route tables *)

(** The methods registered for a path, and the handler of a method. *)
Fixpoint route_of (path : bytes) (rs : list (bytes * MethodRouter)) : option MethodRouter :=
  match rs with
  | [] => None
  | (p, ms) :: rs' => if bytes_eqb p path then Some ms else route_of path rs'
  end.
Definition table (r : Router) (path : bytes) (m : Method) : option Endpoint :=
  route_of path (routes r) ≫= (fun ms => ms !! m).

(** The handlers a list of registrations adds: later ones win. *)
Fixpoint layers (rs : list (bytes * MethodRouter)) (path : bytes) (m : Method) : option Endpoint :=
  match rs with
  | [] => None
  | (p, ms) :: rs' => layers rs' path m ∪ (if bytes_eqb p path then ms !! m else None)
  end.

(** The registrations a nested router turns into. *)
Fixpoint expand (prefix : bytes) (rs : list (bytes * MethodRouter)) : list (bytes * MethodRouter) :=
  match rs with
  | [] => []
  | (p, ms) :: rs' =>
      let path := join_paths prefix p in
      (if bytes_eqb p (bs "/") && negb (bytes_eqb path (bs "/")) then [(path ++ bs "/", ms)] else [])
      ++ (path, ms) :: expand prefix rs'
  end.

(** Paths are distinct, and the matcher is the one of the routes. *)
Record wf (r : Router) : Prop := {
  wf_paths : NoDup (map fst (routes r));
  wf_matcher : build_matcher (routes r) = Some (matcher r)
}.

Lemma wf_new : wf router_new.
Proof. split; [constructor | done]. Qed.

(** A clone is the router itself, so a service that only calls it answers as the
    router does. *)
Lemma router_clone_same r : wf r -> router_clone r = Some r.
Proof. intros [_ Hm]. unfold router_clone. rewrite Hm. by destruct r. Qed.

Lemma service_transparent r request :
  wf r -> service_call_boxed (service_with (fun q r => call_boxed r q) r) request = call_boxed r request.
Proof. intros Hw. unfold service_call_boxed. simpl. by rewrite router_clone_same. Qed.

Lemma route_of_none path rs : path ∉ map fst rs -> route_of path rs = None.
Proof.
  induction rs as [|[p ms] rs IH]; simpl; [done|]. intros [Hne Hin]%not_elem_of_cons.
  destruct (bytes_eqb p path) eqn:E; [apply bool_decide_eq_true in E; congruence | auto].
Qed.

Lemma route_of_app path rs rs' :
  route_of path (rs ++ rs') = match route_of path rs with Some ms => Some ms | None => route_of path rs' end.
Proof. induction rs as [|[p ms] rs IH]; simpl; [done|]. by destruct (bytes_eqb p path). Qed.

Lemma extend_entry_none path ms rs : extend_entry path ms rs = None -> path ∉ map fst rs.
Proof.
  induction rs as [|[p old] rs IH]; simpl; [intros _; apply not_elem_of_nil|].
  destruct (bytes_eqb p path) eqn:E; [done|]. apply bool_decide_eq_false in E.
  destruct (extend_entry path ms rs) eqn:E2; [done|]. intros _. apply not_elem_of_cons. split; [congruence | auto].
Qed.

Lemma extend_entry_some path ms rs rs' :
  extend_entry path ms rs = Some rs' ->
  map fst rs' = map fst rs /\ path ∈ map fst rs /\
  forall q, route_of q rs' = if bytes_eqb q path then (fun old => mr_merge old ms) <$> route_of q rs else route_of q rs.
Proof.
  revert rs'. induction rs as [|[p old] rs IH]; intros rs'; simpl; [done|].
  destruct (bytes_eqb p path) eqn:E.
  - intros [= <-]. apply bool_decide_eq_true in E as ->. split; [done|]. split; [left|].
    intros q. simpl. destruct (bytes_eqb q path) eqn:Eq.
    + apply bool_decide_eq_true in Eq as ->. unfold bytes_eqb. by rewrite bool_decide_eq_true_2.
    + apply bool_decide_eq_false in Eq. unfold bytes_eqb. by rewrite bool_decide_eq_false_2.
  - destruct (extend_entry path ms rs) as [rs1|]; simpl; [|done]. intros [= <-].
    destruct (IH rs1 eq_refl) as (Hm & Hin & Hr). simpl. split; [by rewrite Hm|]. split; [by right|].
    intros q. rewrite Hr. destruct (bytes_eqb p q) eqn:Epq; [|done].
    apply bool_decide_eq_true in Epq as ->. by rewrite E.
Qed.

Lemma union_none_l (o : option Endpoint) : None ∪ o = o.
Proof. by destruct o. Qed.
Lemma union_none_r (o : option Endpoint) : o ∪ None = o.
Proof. by destruct o. Qed.

(** Registering methods for a path. *)
Lemma route_ok path ms r r' :
  wf r -> route path ms r = Some r' ->
  wf r' /\ fallback r' = fallback r /\ state r' = state r /\ cors r' = cors r /\
  (forall p, p ∈ map fst (routes r') <-> p ∈ map fst (routes r) \/ p = path) /\
  forall q m, table r' q m = (if bytes_eqb q path then ms !! m else None) ∪ table r q m.
Proof.
  intros [Hn Hm] E. unfold route in E. destruct (extend_entry path ms (routes r)) as [rs|] eqn:Ee.
  - injection E as <-. apply extend_entry_some in Ee as (Ef & Hin & Hr).
    split; [split; simpl; [by rewrite Ef | unfold build_matcher in *; by rewrite Ef]|].
    split_and!; try done; simpl; [intros p; rewrite Ef; naive_solver|].
    intros q m. unfold table. simpl. rewrite Hr. destruct (bytes_eqb q path) eqn:Eq; [|by rewrite union_none_l].
    apply bool_decide_eq_true in Eq as ->. destruct (route_of path (routes r)) as [old|] eqn:Eo; simpl.
    + unfold mr_merge. apply lookup_union.
    + exfalso. clear -Hin Eo. induction (routes r) as [|[p o] rs IH]; simpl in *; [by apply not_elem_of_nil in Hin|].
      destruct (bytes_eqb p path) eqn:E; [done|]. apply bool_decide_eq_false in E.
      apply elem_of_cons in Hin as [?|Hin]; [congruence | auto].
  - apply extend_entry_none in Ee. destruct (build_matcher (routes r ++ [(path, ms)])) as [m'|] eqn:Eb; [|done].
    simpl in E. injection E as <-. split; [split; simpl; [|done]|].
    { rewrite map_app. apply NoDup_app. split_and!; [done | | apply NoDup_singleton].
      intros x Hx Hx'. apply list_elem_of_singleton in Hx'. simpl in Hx'. by subst. }
    split_and!; try done; simpl.
    { intros p. rewrite map_app, elem_of_app. simpl. by rewrite list_elem_of_singleton. }
    intros q m. unfold table. simpl. rewrite route_of_app. destruct (bytes_eqb q path) eqn:Eq.
    + apply bool_decide_eq_true in Eq as ->. rewrite (route_of_none _ _ Ee). simpl.
      unfold bytes_eqb. rewrite bool_decide_eq_true_2 by done. simpl. by rewrite union_none_r.
    + apply bool_decide_eq_false in Eq. simpl. unfold bytes_eqb.
      rewrite bool_decide_eq_false_2 by congruence. rewrite union_none_l.
      by destruct (route_of q (routes r)).
Qed.

Lemma merge_routes_ok rs : forall r r',
  wf r -> merge_routes rs r = Some r' ->
  wf r' /\ fallback r' = fallback r /\ state r' = state r /\ cors r' = cors r /\
  forall q m, table r' q m = layers rs q m ∪ table r q m.
Proof.
  induction rs as [|[p ms] rs IH]; intros r r' Hw E; simpl in E.
  { injection E as <-. split_and!; try done. intros q m. simpl. by rewrite union_none_l. }
  destruct (route p ms r) as [r1|] eqn:E1; [|done]. simpl in E.
  destruct (route_ok _ _ _ _ Hw E1) as (Hw1 & F1 & S1 & C1 & _ & T1).
  destruct (IH _ _ Hw1 E) as (Hw2 & F2 & S2 & C2 & T2). split_and!; try congruence.
  intros q m. rewrite T2, T1. simpl.
  assert (bytes_eqb q p = bytes_eqb p q) as -> by (unfold bytes_eqb; apply bool_decide_ext; split; done).
  destruct (layers rs q m), (if bytes_eqb p q then ms !! m else None), (table r q m); done.
Qed.

Lemma nest_routes_expand prefix rs : forall r, nest_routes prefix rs r = merge_routes (expand prefix rs) r.
Proof.
  induction rs as [|[p ms] rs IH]; intros r; simpl; [done|].
  destruct (bytes_eqb p (bs "/") && negb (bytes_eqb (join_paths prefix p) (bs "/"))); simpl.
  - destruct (route _ ms r) as [r1|]; simpl; [|done]. destruct (route _ ms r1); simpl; [apply IH | done].
  - destruct (route _ ms r) as [r1|]; simpl; [apply IH | done].
Qed.

Lemma layers_table rs q m : NoDup (map fst rs) -> layers rs q m = route_of q rs ≫= (fun ms => ms !! m).
Proof.
  induction rs as [|[p ms] rs IH]; simpl; [done|]. intros [Hp Hn]%NoDup_cons. rewrite (IH Hn).
  destruct (bytes_eqb p q) eqn:E; [|by rewrite union_none_r]. apply bool_decide_eq_true in E as ->.
  rewrite (route_of_none _ _ Hp). simpl. apply union_none_l.
Qed.

Lemma drop_while_slashes j b :
  hd_error b <> Some ("/"%byte) -> drop_while (Byte.eqb "/") (replicate j ("/"%byte) ++ b) = b.
Proof.
  intros Hb. induction j as [|j IH]; simpl; [|done].
  destruct b as [|x b]; [done|]. apply drop_while_stop.
  destruct (Byte.eqb "/" x) eqn:E; [|done]. apply Byte.byte_dec_bl in E as <-. done.
Qed.

Lemma trim_end_slashes i a :
  last a <> Some ("/"%byte) -> trim_end_while (Byte.eqb "/") (a ++ replicate i ("/"%byte)) = a.
Proof.
  intros Ha. unfold trim_end_while. rewrite !rev_alt.
  change (reverse (drop_while (Byte.eqb "/") (reverse (a ++ replicate i ("/"%byte)))) = a).
  rewrite reverse_app, reverse_replicate, drop_while_slashes; [apply reverse_involutive|].
  by rewrite head_reverse.
Qed.

(** How a prefix and a nested path are joined: the slashes between them count as
    one, and none is left behind a path that is all slashes. *)
Lemma join_paths_spec prefix path a b i j :
  last a <> Some ("/"%byte) -> hd_error b <> Some ("/"%byte) ->
  prefix = a ++ replicate i ("/"%byte) -> path = replicate j ("/"%byte) ++ b ->
  join_paths prefix path
    = if decide (prefix = bs "/") then path
      else if decide (b = []) then a else a ++ bs "/" ++ b.
Proof.
  intros Ha Hb -> ->. unfold join_paths, bytes_eqb.
  rewrite trim_end_slashes, drop_while_slashes by done.
  repeat case_decide; repeat case_bool_decide; try done; subst; try done. by destruct b.
Qed.

(** C24. What registering, merging and nesting do to the handler of a path and a
    method: new registrations win over old ones, every other handler stays, a
    nested router appears under its prefix (its root under both spellings; the
    slashes between the prefix and the path count as one), and the fallback
    and the state are taken over only where there was none.  The
    matcher always agrees with the routes. *)
Theorem route_tables (path prefix : bytes) (ms : MethodRouter) (other r r' : Router) :
  wf r -> wf other ->
  (route path ms r = Some r' -> wf r' /\
     forall q m, table r' q m = (if bytes_eqb q path then ms !! m else None) ∪ table r q m) /\
  (merge other r = Some r' -> wf r' /\ (forall q m, table r' q m = table other q m ∪ table r q m) /\
     (fallback r' = match fallback r with Some f => Some f | None => fallback other end) /\
     state r' = match state r with Some s => Some s | None => state other end) /\
  (nest prefix other r = Some r' -> wf r' /\
     (forall q m, table r' q m = layers (expand prefix (routes other)) q m ∪ table r q m) /\
     (fallback r' = match fallback r with Some f => Some f | None => fallback other end) /\
     state r' = match state r with Some s => Some s | None => state other end) /\
  (forall a b i j, last a <> Some ("/"%byte) -> hd_error b <> Some ("/"%byte) ->
     prefix = a ++ replicate i ("/"%byte) -> path = replicate j ("/"%byte) ++ b ->
     join_paths prefix path
       = if decide (prefix = bs "/") then path
         else if decide (b = []) then a else a ++ bs "/" ++ b).
Proof.
  intros Hw Ho. split; [|split; [|split]].
  - intros E. destruct (route_ok _ _ _ _ Hw E) as (H1 & _ & _ & _ & _ & H2). done.
  - unfold merge. destruct (merge_routes (routes other) r) as [r1|] eqn:E; [|done]. simpl. intros [= <-].
    destruct (merge_routes_ok _ _ _ Hw E) as ([W1 W2] & F & St & C & T).
    split; [by split|]. simpl. rewrite F, St. split_and!; try done.
    intros q m. change (table (inherit other r1) q m) with (table r1 q m). rewrite T.
    unfold table at 2. by rewrite layers_table by apply Ho.
  - unfold nest. rewrite nest_routes_expand.
    destruct (merge_routes (expand prefix (routes other)) r) as [r1|] eqn:E; [|done]. simpl. intros [= <-].
    destruct (merge_routes_ok _ _ _ Hw E) as ([W1 W2] & F & St & C & T).
    split; [by split|]. simpl. by rewrite F, St.
  - apply join_paths_spec.
Qed.

(** ** Dispatch *)

(** [matchit] answers with a value that was inserted, and a path without
    parameters is matched by its own route. *)
Definition static (path : bytes) : Prop := (("{" : byte) ∉ path) /\ (("}" : byte) ∉ path).
Record MatchitLaws : Prop := {
  at_inserted paths m p i ps :
    insert_all O paths (m_new mi) = Some m -> m_at mi m p = Some (i, ps) -> (i < length paths)%nat;
  at_static paths m p i :
    insert_all O paths (m_new mi) = Some m -> paths !! i = Some p -> static p ->
    m_at mi m p = Some (i, [])
}.
Context (ml : MatchitLaws).

Lemma call_total r request : wf r -> is_Some (call_boxed r request).
Proof.
  intros [_ Hm]. unfold call_boxed.
  assert (is_Some (match m_at mi (matcher r) (uri_path (r_uri request)) with
    | Some (index, p) => routes r !! index
    | None => Some ([], ∅) end)) as Hat.
  { destruct (m_at mi (matcher r) (uri_path (r_uri request))) as [[i ps]|] eqn:E; [|done].
    apply lookup_lt_is_Some. apply (at_inserted ml _ _ _ _ _ Hm) in E. by rewrite length_map in E. }
  destruct (cors r); [destruct (bytes_eqb _ _ && _); [done|]|];
    (destruct (m_at mi (matcher r) (uri_path (r_uri request))) as [[i ps]|];
     [destruct Hat as [[q ms] ->]; simpl; destruct (ms !! r_method request); done
     |destruct (fallback r); done]).
Qed.

Lemma route_of_lookup path rs ms :
  route_of path rs = Some ms -> exists i, rs !! i = Some (path, ms).
Proof.
  induction rs as [|[p o] rs IH]; simpl; [done|]. destruct (bytes_eqb p path) eqn:E.
  - intros [= ->]. apply bool_decide_eq_true in E as ->. by exists O.
  - intros H. destruct (IH H) as [i Hi]. by exists (Datatypes.S i).
Qed.

(** Whether CORS answers the request itself. *)
Definition is_preflight (r : Router) (request : Req) : bool :=
  match cors r with
  | Some _ => bytes_eqb (r_method request) OPTIONS && hm_contains ORIGIN (r_headers request)
  | None => false
  end.
Definition cors_applied (r : Router) (request : Req) (f : timed Resp) : timed Resp :=
  match cors r with
  | Some c => timed_map (fun resp => apply_response c resp (hm_get ORIGIN (r_headers request))) f
  | None => f
  end.

(** What a route does with a request: the handler of its method, or 405. *)
Definition routed (r : Router) (request : Req) (ms : MethodRouter) (ps : RouteParams) : timed Resp :=
  match ms !! r_method request with
  | Some e => cors_applied r request (endpoint_call e request (state r) ps)
  | None => now_ready method_not_allowed
  end.

(** [call_boxed] on a request that is no preflight. *)
Lemma call_plain (r : Router) (request : Req) :
  is_preflight r request = false ->
  call_boxed r request =
    match m_at mi (matcher r) (uri_path (r_uri request)) with
    | Some (index, p) => '(_, ms) ← routes r !! index; Some (routed r request ms p)
    | None =>
        Some match fallback r with
             | Some e => cors_applied r request (endpoint_call e request (state r) [])
             | None => now_ready (response_with_body NOT_FOUND (bs "not found"))
             end
    end.
Proof.
  unfold is_preflight, call_boxed, routed, cors_applied. intros Hp.
  destruct (cors r) as [c|]; [rewrite Hp|];
    (destruct (m_at mi (matcher r) _) as [[i ps]|]; [destruct (routes r !! i) as [[path ms]|]; [|done]; simpl;
       by destruct (ms !! r_method request) | by destruct (fallback r)]).
Qed.

(** C23. Dispatch never panics; a request for a registered path without parameters
    goes to the handler registered for its method, with the router's state and
    policies, and to 405 when the path has other methods only, also when there
    is a fallback; a path the matcher finds goes to that route with the
    parameters of the match; a path no route matches goes to the fallback or to
    404; and a CORS preflight is answered before any route. *)
Theorem call_dispatches (r : Router) (request : Req) :
  wf r ->
  exists f, call_boxed r request = Some f /\
    if is_preflight r request then
      forall c, cors r = Some c -> f = now_ready (preflight_response c (hm_get ORIGIN (r_headers request)))
    else
      (forall ms, static (uri_path (r_uri request)) ->
         route_of (uri_path (r_uri request)) (routes r) = Some ms -> f = routed r request ms []) /\
      (forall i ps, m_at mi (matcher r) (uri_path (r_uri request)) = Some (i, ps) ->
         exists path ms, routes r !! i = Some (path, ms) /\ f = routed r request ms ps) /\
      (m_at mi (matcher r) (uri_path (r_uri request)) = None ->
         f = match fallback r with
             | Some e => cors_applied r request (endpoint_call e request (state r) [])
             | None => now_ready (response_with_body NOT_FOUND (bs "not found"))
             end).
Proof.
  intros Hw. destruct (call_total r request Hw) as [f E]. exists f. split; [done|].
  destruct (is_preflight r request) eqn:Hp.
  - unfold is_preflight, call_boxed in *. intros c Hc. rewrite Hc in *. rewrite Hp in E. by injection E as <-.
  - assert (Hm : forall i ps, m_at mi (matcher r) (uri_path (r_uri request)) = Some (i, ps) ->
      exists path ms, routes r !! i = Some (path, ms) /\ f = routed r request ms ps).
    { intros i ps Hat. rewrite (call_plain r request Hp), Hat in E.
      destruct (routes r !! i) as [[path ms]|]; [|done]. exists path, ms. split; [done|].
      by injection E as <-. }
    split; [|split; [done|]].
    + intros ms Hs Hr. destruct (route_of_lookup _ _ _ Hr) as [i Hi].
      destruct (Hm i []) as (path & ms' & Hi' & ->).
      { apply (at_static ml _ _ _ _ (wf_matcher _ Hw)); [|done]. by rewrite list_lookup_fmap, Hi. }
      rewrite Hi in Hi'. by injection Hi' as _ ->.
    + intros Hat. rewrite (call_plain r request Hp), Hat in E. by injection E as <-.
Qed.

(** A handler with a deadline always answers by then: with its own response
    when that is ready in time, with 408 otherwise. *)
Theorem handler_deadline (e : Endpoint) (request : Req) (st : option S) (p : RouteParams) (d : Duration) :
  timeout e = Some d -> 0 <= d ->
  exists t resp, endpoint_call e request st p = Some (t, resp) /\ t <= d /\
    let limited := match body_limit e with
                   | Some l => with_body (limit_body l (r_body request)) request
                   | None => request
                   end in
    match handler e limited st (mkMeta p (body_limit e)) with
    | Some (t', resp') =>
        if t' <=? d then t = t' /\ resp = resp' else rs_status resp = REQUEST_TIMEOUT
    | None => rs_status resp = REQUEST_TIMEOUT
    end.
Proof.
  intros Et Hd. unfold endpoint_call, with_deadline. rewrite Et.
  destruct (handler e _ st _) as [[t' resp']|]; simpl.
  - destruct (t' <=? d) eqn:E; simpl; bool_hyps; eexists _, _; (split; [done|]); split; try done; lia.
  - eexists _, _. split; [done|]. split; [lia | done].
Qed.

(** ** Limits *)

(** How an error of the raw body looks through the limiting wrapper. *)
Definition relabel (r : result bytes (BodyCollectionError BoxError Empty_set))
    : result bytes (BodyCollectionError BoxError Empty_set) :=
  match r with
  | Err (CBody e) => Err (CBody (limited_inner e))
  | Err (LimitExceeded l) => Err (CBody (limited_limit (mkExceeded (limit l) (received l))))
  | r => r
  end.

(** Collecting through a wrapper with the same limit stops where collecting the
    raw body does. *)
Lemma collect_limited fuel : forall lim rcv out (s : BodyScript Tr BoxError),
  collect_loop fuel lim rcv out (Limited (Raw s) lim rcv) =
    relabel <$> collect_loop fuel lim rcv out s.
Proof.
  induction fuel as [|fuel IH]; intros lim rcv out s; [done|].
  destruct s as [|[|[d|t]|e] s]; cbn [collect_loop poll_frame request_body request_poll_frame script_body limited_frame].
  - done.
  - apply IH.
  - destruct (lim <? saturating_add rcv (zlen d)) eqn:E; [done|]. rewrite E. apply IH.
  - apply IH.
  - done.
Qed.

(** Reading a body under a limit takes until all of it has arrived, or less when
    it fails. *)
Lemma collect_arrival `{Arrival Tr} fuel : forall lim rcv out (s : BodyScript Tr BoxError),
  (length s < fuel)%nat ->
  match collect_timed (JE := Empty_set) (fun b => wakes_after (raw_script b)) fuel lim rcv out
          (Limited (Raw s) lim rcv) with
  | Some (d, r) =>
      0 <= d /\ (forall a u, arrived s = Some (a, u) -> d <= a) /\ (is_ok r = true -> arrived s = Some (d, ()))
  | None => arrived s = None
  end.
Proof.
  induction fuel as [|fuel IH]; intros lim rcv out s Hf; [lia|].
  destruct s as [|ev s]; [split_and!; try done; by intros a u [= <- _]|].
  assert (Hs : (length s < fuel)%nat) by (simpl in Hf; lia).
  destruct ev as [|[d|t]|e];
    cbn [collect_timed poll_frame request_body request_poll_frame script_body limited_frame arrived raw_script].
  - destruct (wakes_after s) as [w|] eqn:Ew; simpl; [|done]. specialize (IH lim rcv out s Hs).
    apply wakes_nonneg in Ew.
    destruct (collect_timed _ fuel lim rcv out _) as [[d r]|]; simpl; [|by rewrite IH].
    destruct IH as (H0 & H1 & H2). split_and!; [lia| |intros Hr; by rewrite (H2 Hr)].
    intros a u. destruct (arrived s) as [[a' u']|]; simpl; [|done]. intros [= <- <-].
    specialize (H1 _ _ eq_refl). lia.
  - destruct (lim <? saturating_add rcv (zlen d)) eqn:E.
    + split_and!; try done. intros a u Ha. by eapply arrived_nonneg.
    + rewrite E. by apply IH.
  - by apply IH.
  - split_and!; try done. intros a u Ha. by eapply arrived_nonneg.
Qed.

(** A body that arrives is collected, in at most the time it takes to arrive. *)
Lemma collect_limited_arrives `{Arrival Tr} fuel lim (s : BodyScript Tr BoxError) a :
  (length s < fuel)%nat -> 0 <= lim < USIZE_MAX -> arrived s = Some (a, ()) ->
  exists d r, collect_timed (JE := Empty_set) (fun b => wakes_after (raw_script b)) fuel lim 0 []
      (Limited (Raw s) lim 0) = Some (d, relabel r) /\ 0 <= d <= a /\ collected lim s r.
Proof.
  intros Hf Hl Ha. pose proof (collect_arrival fuel lim 0 [] s Hf) as Ht.
  destruct (collect_loop_spec (JE := Empty_set) fuel lim [] s) as (r & E1 & Hr);
    [lia | constructor | simpl; unfold zlen; simpl; lia|].
  destruct (collect_timed _ fuel lim 0 [] _) as [[d r']|] eqn:E; [|congruence].
  apply collect_timed_value in E. rewrite collect_limited in E.
  change (collect_loop fuel lim 0 [] s = Some r) in E1. rewrite E1 in E. simpl in E. injection E as <-.
  exists d, r. destruct Ht as (H0 & H1 & _). specialize (H1 _ _ Ha). done.
Qed.

(** A route's body limit: a handler that reads the whole body gets all of it
    when it fits, and otherwise the client gets 413 with the limit and what was
    received; a body that fails first gives 400.  The handler never holds more
    than the limit. *)
Theorem body_limit_enforced `{Arrival Tr} (e : Endpoint) (request : Req) (s : BodyScript Tr BoxError) (st : option S)
    (p : RouteParams) (lim a : Z) :
  body_limit e = Some lim -> 0 <= lim < USIZE_MAX -> r_body request = Raw s -> arrived s = Some (a, ()) ->
  let limited := with_body (limit_body lim (r_body request)) request in
  exists t res, bytes_extractor (S := S) (Datatypes.S (length s)) limited st (mkMeta p (body_limit e)) = Some (t, res) /\
    0 <= t <= a /\
    match res with
    | Ok (b, rest) => b = data s /\ zlen b <= lim /\ fine s /\ r_body rest = empty_body
    | Err rej =>
        (rej_status rej = PAYLOAD_TOO_LARGE /\
         exists pre d post, s = pre ++ EFrame (Data d) :: post /\ fine pre /\
           zlen (data pre) <= lim < zlen (data pre) + zlen d /\
           rej_message rej = exceeded_text (mkExceeded lim (saturating_add (zlen (data pre)) (zlen d)))) \/
        (rej_status rej = BAD_REQUEST /\
         exists pre x post, s = pre ++ EError x :: post /\ fine pre /\ zlen (data pre) <= lim)
    end.
Proof.
  intros El Hl Eb Ha limited. unfold bytes_extractor, collect_body. rewrite El.
  cbn [meta_body_limit default]. unfold limited. cbn [r_body with_body]. unfold limit_body. rewrite Eb.
  change (id lim) with lim.
  destruct (collect_limited_arrives (Datatypes.S (length s)) lim s a) as (t & r & -> & Ht & Hr); [lia|done|done|].
  simpl. destruct r as [b|[x|[l rc]| |[]]]; simpl; [| | |done]; (eexists _, _; split; [done|]; split; [done|]).
  - simpl in Hr. naive_solver.
  - right. simpl. split; [done|]. destruct Hr as (pre & post & Hs & Hf & Hz). by exists pre, x, post.
  - left. simpl. split; [done|]. destruct Hr as (E2 & pre & d & post & Hs & Hf & Hz & Hc).
    simpl in *. subst l rc. exists pre, d, post. split_and!; try done; [lia|].
    unfold saturating_add in Hz. pose proof (zlen_nonneg d). lia.
Qed.

(** ** CORS *)
Context {W : HttpLaws L}.

Lemma origin_allowed_spec (c : Cors) o :
  origin_allowed c o = true <-> bs "*" ∈ origins c \/ o ∈ origins c.
Proof.
  unfold origin_allowed. rewrite existsb_exists. setoid_rewrite orb_true_iff.
  unfold bytes_eqb. setoid_rewrite bool_decide_eq_true. setoid_rewrite <- list_elem_of_In.
  split; [intros (x & Hx & [->| ->]); auto | intros [H|H]; eauto].
Qed.

Lemma origin_allowed_false (c : Cors) o :
  bs "*" ∉ origins c -> o ∉ origins c -> origin_allowed c o = false.
Proof. intros H1 H2. apply not_true_is_false. rewrite origin_allowed_spec. tauto. Qed.

Lemma apply_response_granted (c : Cors) (resp : Resp) o :
  origin_allowed c o = true ->
  hm_get_all ALLOW_ORIGIN (rs_headers (apply_response c resp (Some o))) = [o] /\
  hm_get_all VARY (rs_headers (apply_response c resp (Some o))) = [bs "Origin"].
Proof.
  intros Ho. simpl. rewrite Ho. simpl. rewrite get_all_insert_eq, get_all_insert_ne by done.
  by rewrite get_all_insert_eq.
Qed.

Lemma apply_response_other (c : Cors) (resp : Resp) origin n :
  n <> ALLOW_ORIGIN -> n <> VARY ->
  hm_get_all n (rs_headers (apply_response c resp origin)) = hm_get_all n (rs_headers resp).
Proof.
  intros H1 H2. destruct origin as [o|]; simpl; [|done]. destruct (origin_allowed c o); [|done].
  simpl. by rewrite !get_all_insert_ne by done.
Qed.

Lemma origins_allow_origin x (c : Cors) v :
  v ∈ origins (allow_origin x c) <-> v ∈ origins c \/ header_value_from_bytes x = Some v.
Proof.
  unfold allow_origin. destruct (header_value_from_bytes x) as [w|]; simpl; [|naive_solver].
  rewrite elem_of_app, list_elem_of_singleton. naive_solver.
Qed.

(** C37. The grant of an origin, on an ordinary answer and on a preflight alike:
    an origin in the policy's list, or any origin when the list holds the
    wildcard, is echoed, and only the request's own origin is ever written,
    never the wildcard or another one; a request without an origin, or with one
    that is not listed while the wildcard is not listed either, is answered
    unchanged.  Headers the policy does not own are left alone; a preflight is
    204 with the configured methods and headers; and the list holds exactly the
    origins configured. *)
Theorem cors_grants_allowed_origins (c : Cors) (resp : Resp) (origin : option HeaderValue) :
  (forall o, origin = Some o -> bs "*" ∈ origins c \/ o ∈ origins c ->
     forall r, r = apply_response c resp origin \/ r = preflight_response c origin ->
     hm_get_all ALLOW_ORIGIN (rs_headers r) = [o] /\ hm_get_all VARY (rs_headers r) = [bs "Origin"]) /\
  ((forall o, origin = Some o -> (bs "*" ∉ origins c) /\ (o ∉ origins c)) ->
     apply_response c resp origin = resp /\
     hm_get_all ALLOW_ORIGIN (rs_headers (preflight_response c origin)) = []) /\
  (forall n, n <> ALLOW_ORIGIN -> n <> VARY ->
     hm_get_all n (rs_headers (apply_response c resp origin)) = hm_get_all n (rs_headers resp)) /\
  (rs_status (preflight_response c origin) = NO_CONTENT /\
   hm_get_all ALLOW (rs_headers (preflight_response c origin)) = [methods c] /\
   hm_get_all (bs "access-control-allow-methods") (rs_headers (preflight_response c origin)) = [methods c] /\
   hm_get_all (bs "access-control-allow-headers") (rs_headers (preflight_response c origin)) = [headers c]) /\
  (origins cors_new = [] /\
   forall x v, v ∈ origins (allow_origin x c) <-> v ∈ origins c \/ header_value_from_bytes x = Some v).
Proof.
  split_and!.
  - intros o -> Ho%origin_allowed_spec r [-> | ->]; by apply apply_response_granted.
  - intros Hn. assert (forall r, apply_response c r origin = r) as Ha.
    { intros r. destruct origin as [o|]; simpl; [|done]. destruct (Hn o eq_refl).
      by rewrite origin_allowed_false. }
    split; [apply Ha|]. unfold preflight_response. rewrite Ha. simpl.
    rewrite !get_all_insert_ne by done. apply get_all_new.
  - intros n H1 H2. by apply apply_response_other.
  - unfold preflight_response, apply_response. destruct origin as [o|]; [|done].
    by destruct (origin_allowed c o).
  - unfold preflight_response. rewrite apply_response_other by done. simpl.
    by rewrite !get_all_insert_ne, get_all_insert_eq by done.
  - unfold preflight_response. rewrite apply_response_other by done. simpl.
    by rewrite get_all_insert_ne, get_all_insert_eq by done.
  - unfold preflight_response. rewrite apply_response_other by done. simpl.
    by rewrite get_all_insert_eq.
  - done.
  - intros x v. apply origins_allow_origin.
Qed.

End Router.
End Web.
(** ** Concrete runs *)
Section Samples.
Import RefHttp.

(** A matcher of literal paths. *)
Fixpoint find_path (p : bytes) (l : list bytes) : option nat :=
  match l with
  | [] => None
  | q :: l' => if bytes_eqb q p then Some O else Datatypes.S <$> find_path p l'
  end.
Definition sample_matchit : Matchit := {|
  Matcher := list bytes;
  m_new := [];
  m_insert p i m := if (i =? length m)%nat && negb (bool_decide (is_Some (find_path p m))) then Some (m ++ [p]) else None;
  m_at m p := (fun i => (i, [])) <$> find_path p m
|}.

Lemma find_path_none p l : find_path p l = None -> p ∉ l.
Proof.
  induction l as [|q l IH]; simpl; [intros _; apply not_elem_of_nil|].
  destruct (bytes_eqb q p) eqn:E; [done|]. apply bool_decide_eq_false in E.
  destruct (find_path p l); [done|]. intros _. apply not_elem_of_cons. split; [congruence | auto].
Qed.

Lemma find_path_lookup l : NoDup l -> forall i p, l !! i = Some p -> find_path p l = Some i.
Proof.
  induction 1 as [|q l Hq Hn IH]; intros i p Hi; [done|]. simpl. destruct i as [|i]; simpl in Hi.
  - injection Hi as ->. unfold bytes_eqb. by rewrite bool_decide_eq_true_2.
  - unfold bytes_eqb. rewrite bool_decide_eq_false_2; [by rewrite (IH i p Hi)|]. intros ->.
    apply Hq. by eapply list_elem_of_lookup_2.
Qed.

Lemma find_path_lt p l i : find_path p l = Some i -> (i < length l)%nat.
Proof.
  revert i. induction l as [|q l IH]; intros i; simpl; [done|]. destruct (bytes_eqb q p); [intros [= <-]; lia|].
  destruct (find_path p l) as [j|]; [|done]. intros [= <-]. specialize (IH j eq_refl). lia.
Qed.

Lemma sample_insert_all paths : forall i (m m' : list bytes),
  NoDup m -> insert_all sample_matchit i paths m = Some m' -> m' = m ++ paths /\ NoDup m'.
Proof.
  induction paths as [|p paths IH]; intros i m m' Hn E; cbn [insert_all] in E.
  { injection E as <-. by rewrite app_nil_r. }
  cbn [m_insert sample_matchit] in E.
  destruct ((i =? length m)%nat && negb (bool_decide (is_Some (find_path p m)))) eqn:Eb; [|done].
  apply andb_true_iff in Eb as [_ Eb%negb_true_iff%bool_decide_eq_false]. rewrite some_bind in E.
  apply IH in E as [-> Hn'].
  - by rewrite <- app_assoc in *.
  - apply NoDup_app. split_and!; [done | | apply NoDup_singleton].
    intros x Hx Hx'%list_elem_of_singleton. subst x. apply find_path_none in Hx; [done|].
    by apply eq_None_not_Some.
Qed.

Lemma sample_matchit_laws : MatchitLaws sample_matchit.
Proof.
  split.
  - intros paths m p i ps E Hat. apply sample_insert_all in E as [-> _]; [|constructor].
    simpl in Hat. destruct (find_path p paths) as [j|] eqn:Ef; [|done]. simpl in Hat.
    injection Hat as <- _. by apply find_path_lt in Ef.
  - intros paths m p i E Hi _. apply sample_insert_all in E as [-> Hn]; [|constructor].
    cbn [m_at sample_matchit]. simpl app in *. by rewrite (find_path_lookup _ Hn _ _ Hi).
Qed.

Definition sample_handler : @Handler lib unit nat := fun r st _ => Some (3, string_into_response (r_method r)).
Definition sample_router : @Router lib unit nat sample_matchit :=
  default (router_new sample_matchit) (route sample_matchit (bs "/a") (get sample_handler) (router_new sample_matchit)).
Definition sample_request (m : Method) (path : bytes) (b : RequestBody unit) : Request (RequestBody unit) :=
  mkRequest m (mkParts None None (Some path)) HTTP_11 [] b.

Lemma sample_wf : wf sample_matchit sample_router.
Proof. split; [repeat constructor; by intros ?%not_elem_of_nil | reflexivity]. Qed.

Lemma route_tables_witness :
  exists r', route sample_matchit (bs "/a") (post sample_handler) sample_router = Some r' /\
    wf sample_matchit r' /\ is_Some (table sample_matchit r' (bs "/a") GET) /\
    is_Some (table sample_matchit r' (bs "/a") POST).
Proof.
  assert (exists r', route sample_matchit (bs "/a") (post sample_handler) sample_router = Some r')
    as [r' E] by (eexists; reflexivity).
  exists r'. split; [exact E|].
  destruct (route_tables sample_matchit (bs "/a") (bs "/x") (post sample_handler)
    (router_new sample_matchit) sample_router r' sample_wf (wf_new sample_matchit)) as [H _].
  destruct (H E) as [Hw Ht]. split; [exact Hw|]. rewrite !Ht. split; eexists; reflexivity.
Defined.

Lemma call_dispatches_witness :
  exists f, call_boxed sample_matchit sample_router (sample_request GET (bs "/a") (Raw [])) = Some f /\
    exists t resp, f = Some (t, resp) /\ rs_status resp = OK.
Proof.
  destruct (call_dispatches sample_matchit sample_matchit_laws sample_router
    (sample_request GET (bs "/a") (Raw [])) sample_wf) as (f & E & H & _).
  exists f. split; [exact E|]. eexists _, _. rewrite (H (get sample_handler)).
  - split; reflexivity.
  - split; vm_compute; intros Hin; repeat (apply elem_of_cons in Hin as [Hin|Hin]; [discriminate Hin|]);
      by apply not_elem_of_nil in Hin.
  - reflexivity.
Defined.

Lemma handler_deadline_witness :
  exists t resp, endpoint_call (mkEndpoint (fun _ (_ : option nat) _ => None) None (Some 9))
    (sample_request GET (bs "/a") (Raw [])) None [] = Some (t, resp) /\ t <= 9 /\ rs_status resp = REQUEST_TIMEOUT.
Proof.
  destruct (handler_deadline (mkEndpoint (fun _ (_ : option nat) _ => None) None (Some 9))
    (sample_request GET (bs "/a") (Raw [])) None [] 9) as (t & resp & E & Ht & Hr); [reflexivity | lia|].
  exists t, resp. split; [exact E|]. split; [exact Ht | exact Hr].
Defined.

(** A connection that wakes its reader after five nanoseconds. *)
#[export] Instance sample_arrival : Arrival unit.
Proof. refine {| wakes_after _ := Some 5 |}. intros s w [= <-]. lia. Defined.

Lemma body_limit_enforced_witness :
  exists t res, bytes_extractor (S := nat) 3
    (with_body (limit_body 4 (Raw [EFrame (Data (bs "abc")); EFrame (Data (bs "de"))]))
       (sample_request POST (bs "/a") (Raw [EFrame (Data (bs "abc")); EFrame (Data (bs "de"))])))
    None (mkMeta [] (Some 4)) = Some (t, res) /\ exists rej, res = Err rej /\ rej_status rej = PAYLOAD_TOO_LARGE.
Proof.
  destruct (body_limit_enforced (mkEndpoint sample_handler (Some 4) None)
    (sample_request POST (bs "/a") (Raw [EFrame (Data (bs "abc")); EFrame (Data (bs "de"))]))
    [EFrame (Data (bs "abc")); EFrame (Data (bs "de"))] None [] 4 0) as (t & res & E & _ & H);
    [reflexivity | split; [lia | reflexivity] | reflexivity | reflexivity|].
  exists t, res. split; [exact E|]. destruct res as [[b rest]|rej].
  - destruct H as (-> & H & _). exfalso. vm_compute in H. by apply H.
  - exists rej. split; [reflexivity|]. destruct H as [[H _]|[_ (pre & x & post & Hs & _)]]; [exact H|].
    exfalso. apply (f_equal (fun l => List.existsb (fun e => match e with EError _ => true | _ => false end) l)) in Hs.
    rewrite existsb_app in Hs. simpl in Hs. by rewrite orb_true_r in Hs.
Defined.

Lemma cors_grants_allowed_origins_witness :
  let c := allow_origin (bs "https://a.test") cors_new in
  hm_get_all ALLOW_ORIGIN (rs_headers (apply_response c (response_with_body (Tr := unit) OK [])
    (Some (bs "https://a.test")))) = [bs "https://a.test"] /\
  apply_response c (response_with_body (Tr := unit) OK []) (Some (bs "https://b.test"))
    = response_with_body OK [].
Proof.
  intros c. split.
  - refine (proj1 (proj1 (cors_grants_allowed_origins (Tr := unit) c (response_with_body OK [])
      (Some (bs "https://a.test"))) (bs "https://a.test") eq_refl _ _ (or_introl eq_refl))).
    right. apply list_elem_of_here.
  - refine (proj1 (proj1 (proj2 (cors_grants_allowed_origins (Tr := unit) c (response_with_body OK [])
      (Some (bs "https://b.test")))) _)).
    intros o [= <-]. split; intros H; by apply list_elem_of_singleton in H.
Defined.
End Samples.

End WebRouter.
