(* ===== verification/Numbers.v ===== *)
(** * Numbers as text

    The parsing and printing of the Rust standard library that the web
    extractors use: [str::parse] for signed and unsigned integers and for
    [bool], and [str::parse::<f64>] followed by [Display for f64].  A finite
    [f64] is [m * 2 ^ e] with a sign; parsing rounds to nearest, ties to even,
    printing finds the fewest decimal digits that parse back. *)

From Stdlib Require Import ZArith Lia String.
From Stdlib Require Import Strings.Byte.
From stdpp Require Import base option list.
From S2P Require Import Prelude Bytes.

Open Scope Z_scope.

Module Numbers.

(** ** Integers *)

(** [s.parse::<T>()] for an integer type with the given bounds: a signed type
    also accepts a leading [-]. *)
Definition parse_int (lo hi : Z) (l : bytes) : option Z :=
  match l with
  | c :: _ :: _ =>
      if (lo <? 0) && Byte.eqb c "-" then Z.opp <$> parse_digits 10 (- lo) 0 (List.tl l)
      else from_str_radix 10 hi l
  | _ => from_str_radix 10 hi l
  end.

(** [n.to_string()]. *)
Definition print_int (n : Z) : bytes :=
  if n <? 0 then "-"%byte :: print_dec (- n) else print_dec n.

Definition I64_MIN : Z := - 2 ^ 63.
Definition I64_MAX : Z := 2 ^ 63 - 1.
Definition parse_i64 : bytes -> option Z := parse_int I64_MIN I64_MAX.

(** [s.parse::<bool>()]. *)
Definition parse_bool (l : bytes) : option bool :=
  if bytes_eqb l (bs "true") then Some true
  else if bytes_eqb l (bs "false") then Some false else None.

(** ** [f64] *)

(** A positive finite number [m * 2 ^ e] as a fraction. *)
Definition ratio (m e : Z) : Z * Z := if 0 <=? e then (m * 2 ^ e, 1) else (m, 2 ^ (- e)).

(** [round(p / q)], ties to even. *)
Definition round_even (p q : Z) : Z :=
  let d := p / q in
  let r := 2 * (p mod q) in
  if (q <? r) || ((q =? r) && Z.odd d) then d + 1 else d.

(** The [f64] nearest to [p / q > 0]: [Some (0, _)] for zero, [None] for an
    infinity. *)
Definition nearest (p q : Z) : option (Z * Z) :=
  let l0 := Z.log2 p - Z.log2 q in
  let l := if (if 0 <=? l0 then p <? q * 2 ^ l0 else p * 2 ^ (- l0) <? q) then l0 - 1 else l0 in
  let e := Z.max (l - 52) (-1074) in
  let m := if 0 <=? e then round_even p (q * 2 ^ e) else round_even (p * 2 ^ (- e)) q in
  let '(m, e) := if m =? 2 ^ 53 then (2 ^ 52, e + 1) else (m, e) in
  if 971 <? e then None else Some (m, e).

(** [c * 10 ^ j] rounded; exponents far outside the range of [f64] are decided
    without computing the power. *)
Definition of_decimal (c j : Z) : option (Z * Z) :=
  if c =? 0 then Some (0, 0)
  else
    let digits := zlen (print_dec c) in
    if 400 <? digits + j then None
    else if digits + j <? -400 then Some (0, 0)
    else if 0 <=? j then nearest (c * 10 ^ j) 1 else nearest c (10 ^ (- j)).

(** The longest run of decimal digits. *)
Fixpoint digits_of (l : bytes) : bytes * bytes :=
  match l with
  | c :: l' => if in_range 48 57 c then let '(d, r) := digits_of l' in (c :: d, r) else ([], l)
  | [] => ([], [])
  end.
Definition digits_value (l : bytes) : Z := fold_left (fun a c => a * 10 + (bz c - 48)) l 0.

Definition parse_sign (l : bytes) : bool * bytes :=
  match l with
  | c :: l' => if Byte.eqb c "-" then (true, l') else if Byte.eqb c "+" then (false, l') else (false, l)
  | [] => (false, [])
  end.

(** The exponent part: nothing, or [e], a sign and digits, to the end. *)
Definition parse_exponent (l : bytes) : option Z :=
  match l with
  | [] => Some 0
  | c :: l' =>
      if Byte.eqb c "e" || Byte.eqb c "E" then
        let '(neg, l') := parse_sign l' in
        match digits_of l' with
        | (d :: ds, []) => Some (if neg then - digits_value (d :: ds) else digits_value (d :: ds))
        | _ => None
        end
      else None
  end.

(** A finite value: the sign, and [m * 2 ^ e]. *)
Inductive f64 := Finite (neg : bool) (m e : Z) | Infinite | NaN.

(** [s.parse::<f64>()]. *)
Definition parse_f64 (l : bytes) : option f64 :=
  let '(neg, l) := parse_sign l in
  let '(int, rest) := digits_of l in
  let '(frac, rest') :=
    match rest with
    | c :: r => if Byte.eqb c "." then digits_of r else ([], rest)
    | [] => ([], [])
    end in
  match int ++ frac with
  | [] =>
      if eq_ignore_ascii_case l (bs "inf") || eq_ignore_ascii_case l (bs "infinity") then Some Infinite
      else if eq_ignore_ascii_case l (bs "nan") then Some NaN else None
  | ds =>
      e ← parse_exponent rest';
      Some match of_decimal (digits_value ds) (e - zlen frac) with
           | Some (m, e) => Finite neg m e
           | None => Infinite
           end
  end.

(** [x.is_finite()]. *)
Definition is_finite (x : f64) : bool := match x with Finite _ _ _ => true | _ => false end.

(** The decimal exponent [k] with [p / q < 10 ^ k]. *)
Fixpoint decimal_exponent (fuel : nat) (k p q : Z) : Z :=
  match fuel with
  | O => k
  | S fuel' =>
      if (if 0 <=? k then p <? q * 10 ^ k else p * 10 ^ (- k) <? q) then k
      else decimal_exponent fuel' (k + 1) p q
  end.

(** The fewest digits [c] with [c * 10 ^ j] parsing back to [(m, e)], the
    closest such [c]; ends with the exact expansion. *)
Fixpoint shortest (fuel : nat) (n k m e : Z) : Z * Z :=
  let '(p, q) := ratio m e in
  let j := k - n in
  let '(p', q') := if 0 <=? j then (p, q * 10 ^ j) else (p * 10 ^ (- j), q) in
  match fuel with
  | O => (p' / q', j)
  | S fuel' =>
      let lo := p' / q' in
      let good c := bool_decide (of_decimal c j = Some (m, e)) in
      let up := q' <=? 2 * (p' mod q') in
      if good (if up then lo + 1 else lo) then ((if up then lo + 1 else lo), j)
      else if good (if up then lo else lo + 1) then ((if up then lo else lo + 1), j)
      else shortest fuel' (n + 1) k m e
  end.

Definition zeros (n : Z) : bytes := replicate (Z.to_nat n) "0"%byte.

(** [c * 10 ^ j] without an exponent. *)
Definition decimal_text (c j : Z) : bytes :=
  let ds := print_dec c in
  if 0 <=? j then ds ++ zeros j
  else
    let point := zlen ds + j in
    if 0 <? point then take (Z.to_nat point) ds ++ "."%byte :: drop (Z.to_nat point) ds
    else bs "0." ++ zeros (- point) ++ ds.

(** [x.to_string()] of a finite [x]; every [f64] has at most 1074 fractional
    digits, so the search ends. *)
Definition print_finite (neg : bool) (m e : Z) : bytes :=
  (if neg then bs "-" else []) ++
  (if m =? 0 then bs "0"
   else
     let '(p, q) := ratio m e in
     let '(c, j) := shortest 1100 1 (decimal_exponent 700 (-330) p q) m e in
     decimal_text (Z.abs c) j).

Definition print_f64 (x : f64) : bytes :=
  match x with Finite neg m e => print_finite neg m e | Infinite => bs "inf" | NaN => bs "NaN" end.

(** ** Facts *)

(** The bytes a printed number is made of. *)
Definition number_byte (b : byte) : bool := in_range 48 57 b || Byte.eqb b "-" || Byte.eqb b ".".
Definition number_text (l : bytes) : Prop := l <> [] /\ Forall (fun b => number_byte b = true) l.

Lemma digit_number_byte d : 0 <= d < 10 -> number_byte (digit_char d) = true.
Proof.
  intros H. unfold number_byte, in_range, digit_char. destruct (d <? 10) eqn:E; bool_hyps; [|lia].
  rewrite bz_byte_of_Z by lia. apply orb_true_iff. left. apply orb_true_iff. left.
  apply andb_true_iff. split; apply Z.leb_le; lia.
Qed.

Lemma print_dec_text n : 0 <= n -> number_text (print_dec n).
Proof.
  intros Hn. split; [apply print_radix_nonempty|].
  eapply Forall_impl; [exact (print_radix_chars 10 n ltac:(lia) Hn)|].
  intros b (d & Hd & ->). by apply digit_number_byte.
Qed.

Lemma print_int_text n : number_text (print_int n).
Proof.
  unfold print_int. destruct (n <? 0) eqn:E; bool_hyps; [|apply print_dec_text; lia].
  split; [done|]. constructor; [done | apply print_dec_text; lia].
Qed.

Lemma zeros_text n : Forall (fun b => number_byte b = true) (zeros n).
Proof. apply Forall_replicate. done. Qed.

Lemma decimal_text_text c j : 0 <= c -> number_text (decimal_text c j).
Proof.
  intros Hc. destruct (print_dec_text c Hc) as [Hne Hf]. unfold decimal_text.
  destruct (0 <=? j); [|destruct (0 <? zlen (print_dec c) + j)].
  - split; [by destruct (print_dec c) | apply Forall_app; split; [done | apply zeros_text]].
  - split; [by destruct (take _ _)|]. apply Forall_app. split; [by apply Forall_take|].
    constructor; [done | by apply Forall_drop].
  - split; [done|]. repeat (constructor; [done|]). apply Forall_app. split; [apply zeros_text | done].
Qed.

Lemma print_finite_text neg m e : number_text (print_finite neg m e).
Proof.
  unfold print_finite.
  assert (forall l, number_text l -> number_text ((if neg then bs "-" else []) ++ l)) as Hs.
  { intros l [Hne Hf]. destruct neg; [split; [done | by constructor] | done]. }
  apply Hs. destruct (m =? 0); [split; [done | by repeat constructor]|].
  destruct (ratio m e) as [p q]. destruct (shortest _ _ _ _ _) as [c j].
  apply decimal_text_text. lia.
Qed.

(** [parse] reads back what [to_string] printed, for every integer type. *)
Lemma parse_print_int lo hi n : lo <= n <= hi -> lo <= 0 <= hi -> parse_int lo hi (print_int n) = Some n.
Proof.
  intros Hn H0. unfold print_int. destruct (n <? 0) eqn:E; bool_hyps.
  - assert (parse_digits 10 (- lo) 0 (print_dec (- n)) = Some (- n)) as Hp.
    { unfold print_dec, print_radix. rewrite parse_print_loop; [done | lia | lia | | lia]. apply log2_fuel; lia. }
    pose proof (print_radix_nonempty 10 (- n)) as Hne. fold print_dec in Hne.
    unfold print_dec in *. destruct (print_radix 10 (- n)) as [|c l] eqn:Ep; [done|].
    cbn [parse_int List.tl]. rewrite Hp. rewrite (proj2 (Z.ltb_lt lo 0)) by lia. simpl. f_equal. lia.
  - pose proof (parse_print_radix 10 hi n ltac:(lia) ltac:(lia)) as Hp. fold print_dec in Hp.
    destruct (print_dec_text n E) as [_ Hf]. unfold print_dec in *.
    pose proof (print_radix_chars 10 n ltac:(lia) E) as Hc.
    destruct (print_radix 10 n) as [|c [|c' l]]; try done. cbn [parse_int].
    apply Forall_cons in Hc as [(d & Hd & ->) _].
    assert (Byte.eqb (digit_char d) "-" = false) as ->; [|by rewrite andb_false_r].
    apply eqb_byte_false. intros Ed. pose proof (digit_char_range d ltac:(lia)) as Hr. rewrite Ed in Hr.
    vm_compute in Hr. by destruct Hr as [Hr _].
Qed.

Lemma parse_int_range lo hi l n : lo <= 0 <= hi -> parse_int lo hi l = Some n -> lo <= n <= hi.
Proof.
  intros H0 Hp. assert (from_str_radix 10 hi l = Some n -> lo <= n <= hi) as Hu.
  { intros E%from_str_radix_range; lia. }
  unfold parse_int in Hp. destruct l as [|c [|c' l]]; try by apply Hu.
  destruct ((lo <? 0) && Byte.eqb c "-"); [|by apply Hu].
  destruct (parse_digits 10 (- lo) 0 (List.tl (c :: c' :: l))) as [k|] eqn:E; [|done].
  injection Hp as <-. apply parse_digits_range in E; lia.
Qed.

(** The digits of a printed number, and their value. *)
Lemma parse_digits_value max l : forall acc n,
  parse_digits 10 max acc l = Some n ->
  fold_left (fun a c => a * 10 + (bz c - 48)) l acc = n /\ forallb (in_range 48 57) l = true.
Proof.
  induction l as [|c l IH]; intros acc n; simpl; [intros [= <-]; done|].
  destruct (to_digit 10 c) as [d|] eqn:E; [|done]. destruct (max <? acc * 10 + d); [done|].
  intros H. apply IH in H as [<- ->]. unfold to_digit in E.
  destruct (in_range 48 57 c) eqn:Ec; [bool_cases; by simplify_eq|].
  exfalso. unfold in_range in *. bool_cases; simplify_eq; lia.
Qed.

Lemma digits_value_print n : 0 <= n ->
  digits_value (print_dec n) = n /\ forallb (in_range 48 57) (print_dec n) = true.
Proof.
  intros Hn. apply (parse_digits_value n). unfold print_dec, print_radix.
  rewrite parse_print_loop; [done | lia | lia | apply log2_fuel; lia | lia].
Qed.

(** Wider bounds accept what narrower ones do, with the same value. *)
Lemma parse_digits_wider radix max max' l : forall acc n,
  max <= max' -> parse_digits radix max acc l = Some n -> parse_digits radix max' acc l = Some n.
Proof.
  induction l as [|c l IH]; intros acc n Hm; simpl; [done|]. destruct (to_digit radix c) as [d|]; [|done].
  destruct (max <? acc * radix + d) eqn:E; bool_hyps; [done|].
  rewrite (proj2 (Z.ltb_ge _ _)) by lia. by apply IH.
Qed.

Lemma parse_int_wider lo hi lo' hi' l n :
  lo' <= lo -> hi <= hi' -> parse_int lo hi l = Some n -> parse_int lo' hi' l = Some n.
Proof.
  intros Hl Hh. assert (from_str_radix 10 hi l = Some n -> from_str_radix 10 hi' l = Some n) as Hu.
  { unfold from_str_radix. destruct l as [|c [|c' l]]; [done|destruct (_ || _); [done|]|]; by apply parse_digits_wider. }
  unfold parse_int. destruct l as [|c [|c' l]]; try done. destruct (lo <? 0) eqn:E; bool_hyps.
  - rewrite (proj2 (Z.ltb_lt _ _)) by lia. destruct (Byte.eqb c "-"); [|done]. cbn [andb].
    destruct (parse_digits 10 (- lo) 0 _) as [k|] eqn:Ek; [|done].
    by rewrite (parse_digits_wider _ (- lo) (- lo') _ _ _ ltac:(lia) Ek).
  - cbn [andb]. destruct (Byte.eqb c "-") eqn:Ec; [|by rewrite andb_false_r].
    apply byte_dec_bl in Ec as ->. intros Hp. exfalso. by vm_compute in Hp.
Qed.

Lemma parse_int_value lo hi n m : lo <= 0 <= hi -> parse_int lo hi (print_int n) = Some m -> m = n.
Proof.
  intros H0 H. apply (parse_int_wider _ _ (Z.min lo n) (Z.max hi n)) in H; [|lia..].
  rewrite parse_print_int in H by lia. by injection H.
Qed.
End Numbers.
