(* ===== verification/Load.v ===== *)
(** * The load generator and its servers ([examples/])

    [examples/client-load.rs]: the command line, the batches of concurrent
    requests with their shared counters, and the account of a run.
    [examples/support/benchmark.rs]: the deterministic service both servers
    use.  [examples/interop-server.rs] and [examples/h2-reference-server.rs]:
    their command lines and the task of a connection.  [usize] counters wrap at
    64 bits, the [i32] counters of response versions at 32. *)

From Stdlib Require Import ZArith Lia String.
From Stdlib Require Import Strings.Byte.
From stdpp Require Import base option list relations.
From S2P Require Import Prelude Bytes HttpLib Stream AsyncIo Pool BodyUtil ServerAuto.

Open Scope Z_scope.

Module Load.
Import Pool.Pool AsyncIo.AsyncIo BodyUtil.BodyUtil.

Definition LF : bytes := [x0a].

(** ** Command lines *)

(** [--help] prints the usage and exits with 0. *)
Inductive parsed (A : Type) := Parsed (a : A) | BadArgs (message : bytes) | Help.
Arguments Parsed {A} _.
Arguments BadArgs {A} _.
Arguments Help {A}.

Definition arg_is (arg : bytes) (flag : string) : bool := bytes_eqb arg (bs flag).
Definition is_help (arg : bytes) : bool := arg_is arg "--help" || arg_is arg "-h".

Definition unknown_option (usage other : bytes) : bytes :=
  bs "unknown option " ++ debug_str other ++ LF ++ LF ++ usage.

Section ClientLoad.
Context {Uri : Type} (parse_uri : bytes -> result Uri bytes).

Record Options := mkOptions {
  uri : Uri;
  requests : Z;
  concurrency : Z;
  http2 : bool;
  debug_events : bool
}.

Definition usage : bytes :=
  bs "usage: cargo run --release --example client-load -- URI [--requests N] [--concurrency N] [--http2] [--debug-events]" ++ LF ++ LF ++
  bs "URI should end in /0, /1k, or /64k when body-size validation is desired." ++ LF ++
  bs "HTTPS uses the system web PKI; the committed localhost fixture is intended" ++ LF ++
  bs "for the server-side curl/nghttp checks, not for this default client policy." ++ LF ++ LF ++
  bs "--debug-events retains endpoint lifecycle observations and is intended for" ++ LF ++
  bs "diagnostic runs, not throughput or memory measurements.".

Definition positive (value flag : bytes) : result Z bytes :=
  let? n := ok_or (from_str_radix 10 USIZE_MAX value)
              (flag ++ bs " expects a positive integer, got " ++ debug_str value) in
  if n =? 0 then Err (flag ++ bs " expects a positive integer") else Ok n.

(** The [while let] over the arguments after the URI. *)
Fixpoint parse_flags (args : list bytes) (o : Options) : parsed Options :=
  match args with
  | [] => Parsed o
  | arg :: rest =>
      if arg_is arg "--requests" then
        match rest with
        | [] => BadArgs (bs "--requests needs N")
        | value :: rest =>
            match positive value (bs "--requests") with
            | Err e => BadArgs e
            | Ok n => parse_flags rest (mkOptions (uri o) n (concurrency o) (http2 o) (debug_events o))
            end
        end
      else if arg_is arg "--concurrency" then
        match rest with
        | [] => BadArgs (bs "--concurrency needs N")
        | value :: rest =>
            match positive value (bs "--concurrency") with
            | Err e => BadArgs e
            | Ok n => parse_flags rest (mkOptions (uri o) (requests o) n (http2 o) (debug_events o))
            end
        end
      else if arg_is arg "--http2" then
        parse_flags rest (mkOptions (uri o) (requests o) (concurrency o) true (debug_events o))
      else if arg_is arg "--debug-events" then
        parse_flags rest (mkOptions (uri o) (requests o) (concurrency o) (http2 o) true)
      else if is_help arg then Help
      else BadArgs (unknown_option usage arg)
  end.

Definition parse_options (args : list bytes) : parsed Options :=
  match args with
  | [] => BadArgs usage
  | first :: rest =>
      if is_help first then Help
      else match parse_uri first with
           | Err e => BadArgs (bs "invalid URI: " ++ e)
           | Ok u => parse_flags rest (mkOptions u 1000 16 false false)
           end
  end.
End ClientLoad.
Arguments Options : clear implicits.

(** ** Counters *)

(** [AtomicUsize::fetch_add] and [fetch_sub] wrap. *)
Definition wrap_usize (n : Z) : Z := n mod 2 ^ 64.

(** The counters shared by the clones of a [Concurrency]. *)
Record Concurrency := mkConcurrency { in_flight : Z; peak : Z }.
Definition Concurrency_default : Concurrency := mkConcurrency 0 0.
Definition enter (c : Concurrency) : Concurrency :=
  let current := wrap_usize (in_flight c + 1) in
  mkConcurrency current (Z.max (peak c) current).
(** [Drop for InFlight]. *)
Definition leave (c : Concurrency) : Concurrency := mkConcurrency (wrap_usize (in_flight c - 1)) (peak c).

Record EventCounts := mkCounts {
  tcp_connections : Z;
  tls_handshakes : Z;
  h1_connections : Z;
  h2_sessions : Z
}.

Definition count_event (c : EventCounts) (e : DebugEvent) : EventCounts :=
  match e with
  | ConnectionEstablished _ ConnHttp1 =>
      mkCounts (tcp_connections c + 1) (tls_handshakes c) (h1_connections c + 1) (h2_sessions c)
  | ConnectionEstablished _ ConnHttp2 =>
      mkCounts (tcp_connections c + 1) (tls_handshakes c) (h1_connections c) (h2_sessions c + 1)
  | AlpnSelected _ _ =>
      mkCounts (tcp_connections c) (tls_handshakes c + 1) (h1_connections c) (h2_sessions c)
  | _ => c
  end.
Definition count_events (es : list DebugEvent) : EventCounts := fold_left count_event es (mkCounts 0 0 0 0).

(** ** One request *)
Definition expected_body_len (path : bytes) : option Z :=
  if arg_is path "/0" then Some 0
  else if arg_is path "/1k" then Some 1024
  else if arg_is path "/64k" then Some (64 * 1024)
  else None.

Section Request.
Context {B Tr E : Type} `{Body B Tr E} (error_text : E -> bytes).

(** The loop of [body_len]; a pending body is polled again. *)
Fixpoint body_len (fuel : nat) (length : Z) (body : B) : option (result Z bytes) :=
  match fuel with
  | O => None
  | S fuel' =>
      let '(r, body) := poll_frame body in
      match r with
      | Pending => body_len fuel' length body
      | Ready None => Some (Ok length)
      | Ready (Some (Err e)) => Some (Err (error_text e))
      | Ready (Some (Ok (Data d))) => body_len fuel' (wrap_usize (length + zlen d)) body
      | Ready (Some (Ok (Trailers _))) => body_len fuel' length body
      end
  end.

(** What [one_request] returns when [client.get] resolved to [response]: the
    version and whether the body has the expected length. *)
Definition one_request (fuel : nat) (expected : option Z) (response : result (HttpLib.Version * B) bytes)
    : option (result (HttpLib.Version * bool) bytes) :=
  match response with
  | Err e => Some (Err e)
  | Ok (version, body) =>
      r ← body_len fuel 0 body;
      Some (let? length := r in
            Ok (version, match expected with None => true | Some expected => expected =? length end))
  end.
End Request.

(** ** Batches

    [join_all] polls the requests of a batch in any order until all are done.
    A request enters at its first poll and leaves when it is done. *)
Inductive RequestState (R : Type) := Unpolled | Running | Done (r : R).
Arguments Unpolled {R}.
Arguments Running {R}.
Arguments Done {R} _.

Record Batch (R : Type) := mkBatch { states : list (RequestState R); counters : Concurrency }.
Arguments mkBatch {R} _ _.
Arguments states {R} _.
Arguments counters {R} _.

Definition start_batch {R} (n : Z) (c : Concurrency) : Batch R := mkBatch (replicate (Z.to_nat n) Unpolled) c.

Inductive batch_step {R} : Batch R -> Batch R -> Prop :=
| first_poll b i : states b !! i = Some Unpolled ->
    batch_step b (mkBatch (<[i := Running]> (states b)) (enter (counters b)))
| completes b i r : states b !! i = Some Running ->
    batch_step b (mkBatch (<[i := Done r]> (states b)) (leave (counters b))).

Section Run.
Context {Uri : Type} (o : Options Uri).
Abbreviation R := (result (HttpLib.Version * bool) bytes).

Definition batch_size (completed : Z) : Z := Z.min (requests o - completed) (concurrency o).

(** The states of a run: the requests completed by earlier batches, their
    results in order, and the current batch. *)
Inductive reaches : Z -> list R -> Batch R -> Prop :=
| reaches_start : 0 < requests o -> reaches 0 [] (start_batch (batch_size 0) Concurrency_default)
| reaches_step k rs b b' : reaches k rs b -> batch_step b b' -> reaches k rs b'
| reaches_next k rs b results :
    reaches k rs b -> states b = map Done results -> k + batch_size k < requests o ->
    reaches (k + batch_size k) (rs ++ results) (start_batch (batch_size (k + batch_size k)) (counters b)).

(** ** The account of a run *)
Record Tally := mkTally {
  completed : Z;
  errors : Z;
  body_mismatches : Z;
  http11 : Z;
  http2_responses : Z;
  first_error : option bytes
}.
Definition Tally_new : Tally := mkTally 0 0 0 0 0 None.

Definition wrap_i32 (n : Z) : Z := (n + 2 ^ 31) mod 2 ^ 32 - 2 ^ 31.

Definition count_result (t : Tally) (r : R) : Tally :=
  match r with
  | Ok (version, body_ok) =>
      mkTally (completed t) (errors t) (body_mismatches t + if body_ok then 0 else 1)
        (match version with HTTP_11 => wrap_i32 (http11 t + 1) | _ => http11 t end)
        (match version with HTTP_2 => wrap_i32 (http2_responses t + 1) | _ => http2_responses t end)
        (first_error t)
  | Err error =>
      mkTally (completed t) (errors t + 1) (body_mismatches t) (http11 t) (http2_responses t)
        (if errors t + 1 =? 1 then Some error else first_error t)
  end.
Definition add_completed (batch : Z) (t : Tally) : Tally :=
  mkTally (completed t + batch) (errors t) (body_mismatches t) (http11 t) (http2_responses t) (first_error t).

(** The [while] loop of [main]; [outcome k] is the result of request [k]. *)
Fixpoint load_loop (fuel : nat) (outcome : nat -> R) (t : Tally) : option Tally :=
  if completed t <? requests o then
    match fuel with
    | O => None
    | S fuel' =>
        let batch := batch_size (completed t) in
        let results := map outcome (seq (Z.to_nat (completed t)) (Z.to_nat batch)) in
        load_loop fuel' outcome (add_completed batch (fold_left count_result results t))
    end
  else Some t.

(** The line [ok=], and the exit code. *)
Definition ok_count (t : Tally) : Z := requests o - errors t - body_mismatches t.
Definition exit_code (t : Tally) : Z :=
  if negb (errors t =? 0) || negb (body_mismatches t =? 0) then 1 else 0.
End Run.

(** ** The benchmark service *)
Definition BODY_1K : bytes := replicate 1024 "x"%byte.
Definition BODY_64K : bytes := replicate (64 * 1024) "x"%byte.

Definition OneFrameBody : Type := option bytes.
Definition from_bytes (body : bytes) : OneFrameBody := match body with [] => None | _ => Some body end.
#[export] Instance one_frame_body : Body OneFrameBody () Empty_set := {|
  poll_frame b := (Ready ((fun body => Ok (Data body)) <$> b), None);
  is_end_stream b := match b with None => true | Some _ => false end;
  size_hint _ := mkSizeHint 0 None
|}.

Definition service_call {L : HttpLib} {B} (request : Request B) : Response OneFrameBody :=
  let path := uri_path (r_uri request) in
  let '(status, body) :=
    if arg_is path "/0" then (200, [])
    else if arg_is path "/1k" then (200, BODY_1K)
    else if arg_is path "/64k" then (200, BODY_64K)
    else (404, bs "use /0, /1k, or /64k" ++ LF) in
  mkResponse status HTTP_11 (hm_append (bs "content-type") (bs "application/octet-stream") hm_new) (from_bytes body).

(** ** The servers *)
Record ServerOptions := mkServerOptions { plain : option bytes; tls : option bytes }.

Definition server_usage : bytes :=
  bs "usage: cargo run --example interop-server -- [--plain ADDR] [--tls ADDR]" ++ LF ++ LF ++
  bs "defaults: --plain 127.0.0.1:3000 --tls 127.0.0.1:3443" ++ LF ++
  bs "endpoints: /0, /1k, /64k".

Fixpoint server_flags (args : list bytes) (o : ServerOptions) : parsed ServerOptions :=
  match args with
  | [] =>
      match plain o, tls o with
      | None, None => BadArgs (bs "at least one listener must be enabled")
      | _, _ => Parsed o
      end
  | arg :: rest =>
      if is_help arg then Help
      else if arg_is arg "--plain" then
        match rest with
        | [] => BadArgs (bs "--plain needs ADDR")
        | a :: rest => server_flags rest (mkServerOptions (Some a) (tls o))
        end
      else if arg_is arg "--tls" then
        match rest with
        | [] => BadArgs (bs "--tls needs ADDR")
        | a :: rest => server_flags rest (mkServerOptions (plain o) (Some a))
        end
      else if arg_is arg "--no-plain" then server_flags rest (mkServerOptions None (tls o))
      else if arg_is arg "--no-tls" then server_flags rest (mkServerOptions (plain o) None)
      else BadArgs (unknown_option server_usage arg)
  end.
Definition server_options (args : list bytes) : parsed ServerOptions :=
  server_flags args (mkServerOptions (Some (bs "127.0.0.1:3000")) (Some (bs "127.0.0.1:3443"))).

Definition reference_usage : bytes :=
  bs "usage: cargo run --example h2-reference-server -- [--addr ADDR]" ++ LF ++ LF ++
  bs "default: --addr 127.0.0.1:3001" ++ LF ++
  bs "endpoints: /0, /1k, /64k" ++ LF ++ LF ++
  bs "This is a direct-Hyper H2 prior-knowledge benchmark reference, not a production server.".

Fixpoint reference_flags (args : list bytes) (address : bytes) : parsed bytes :=
  match args with
  | [] => Parsed address
  | arg :: rest =>
      if is_help arg then Help
      else if arg_is arg "--addr" then
        match rest with
        | [] => BadArgs (bs "--addr needs ADDR")
        | a :: rest => reference_flags rest a
        end
      else BadArgs (unknown_option reference_usage arg)
  end.
Definition reference_options (args : list bytes) : parsed bytes := reference_flags args (bs "127.0.0.1:3001").

Section Servers.
Import ServerAuto.ServerAuto.
Context {IO Service : Type} `{HyperRead IO} (ft : Features) (hy : Hyper IO Service).
Context (h1 : h1_config _ _ hy) (h2 : h2_config _ _ hy) (benchmark_service : Service).

(** The connection a task of [serve_plain] drives. *)
Definition plain_task (stream : IO) : ConnState hy :=
  serve_connection ft hy (builder_new hy h1 h2) stream benchmark_service.

(** The task of [serve_tls]: a failed handshake or selection is printed and
    ends it. *)
Inductive TlsTask := HandshakeFailed (e : io_error) | SelectionFailed (e : io_error) | Serving (c : ConnState hy).
Definition tls_task (accepted : result (option bytes * IO) io_error) : option TlsTask :=
  match accepted with
  | Err e => Some (HandshakeFailed e)
  | Ok (alpn, stream) =>
      r ← serve_tls_connection ft hy (builder_new hy h1 h2) alpn stream benchmark_service;
      Some match r with Ok c => Serving c | Err e => SelectionFailed e end
  end.
End Servers.

(** ** Command lines *)
Section ClientLoadFacts.
Context {Uri : Type} (parse_uri : bytes -> result Uri bytes).

(** Counts an accepted command line may have. *)
Definition options_ok (o : Options Uri) : Prop :=
  1 <= requests o <= USIZE_MAX /\ 1 <= concurrency o <= USIZE_MAX.

Lemma positive_ok value flag n : positive value flag = Ok n -> 1 <= n <= USIZE_MAX.
Proof.
  unfold positive. intros (m & E & Em)%and_then_ok.
  destruct (from_str_radix 10 USIZE_MAX value) as [v|] eqn:Ev; [|done]. injection E as ->.
  destruct (m =? 0) eqn:E0; [done|]. injection Em as ->. bool_hyps.
  apply from_str_radix_range in Ev; unfold USIZE_MAX in *; lia.
Qed.

Lemma parse_flags_ok args : forall o o' : Options Uri,
  options_ok o -> parse_flags args o = Parsed o' -> options_ok o'.
Proof.
  assert (forall n args, (length args <= n)%nat -> forall o o' : Options Uri,
    options_ok o -> parse_flags args o = Parsed o' -> options_ok o') as H; [|by apply (H (length args))].
  clear args. induction n as [|n IH]; intros [|arg rest] Hn o o' Ho E; cbn [parse_flags length] in *; try lia.
  - by injection E as <-.
  - by injection E as <-.
  - destruct Ho as [Hr Hc].
    repeat case_match; try done; simplify_eq/=;
      try (match goal with H : positive _ _ = Ok _ |- _ => apply positive_ok in H end);
      (eapply IH; [..|eassumption]; [simpl in *; lia | split; simpl; lia]).
Qed.

(** The command line of options, with the URI as the user writes it. *)
Definition command_line (uri_text : bytes) (o : Options Uri) : list bytes :=
  [uri_text; bs "--requests"; print_dec (requests o); bs "--concurrency"; print_dec (concurrency o)]
  ++ (if http2 o then [bs "--http2"] else []) ++ (if debug_events o then [bs "--debug-events"] else []).

Lemma positive_print n flag : 1 <= n <= USIZE_MAX -> positive (print_dec n) flag = Ok n.
Proof.
  intros Hn. unfold positive, print_dec. rewrite parse_print_radix by (unfold USIZE_MAX in *; lia). simpl.
  destruct (n =? 0) eqn:E; bool_hyps; [lia | done].
Qed.

(** The command line: whatever it holds, accepted options ask for at least one
    request, one at a time, within [usize]; and the command line of any such
    options is parsed back to them. *)
Theorem options_roundtrip args o text u :
  (parse_options parse_uri args = Parsed o -> options_ok o) /\
  (options_ok o -> is_help text = false -> parse_uri text = Ok u -> uri o = u ->
   parse_options parse_uri (command_line text o) = Parsed o).
Proof.
  split.
  - destruct args as [|first rest]; [done|]. cbn [parse_options]. destruct (is_help first); [done|].
    destruct (parse_uri first); [|done]. apply parse_flags_ok. unfold options_ok, USIZE_MAX. simpl. lia.
  - intros [Hr Hc] Hh Hu <-. unfold command_line. cbn [app parse_options]. rewrite Hh, Hu.
    cbn [parse_flags]. change (arg_is (bs "--requests") "--requests") with true. cbn iota.
    rewrite positive_print by done.
    cbn [parse_flags]. change (arg_is (bs "--concurrency") "--requests") with false.
    change (arg_is (bs "--concurrency") "--concurrency") with true. cbn iota. rewrite positive_print by done.
    destruct o as [ou on oc oh od]. by destruct oh, od.
Qed.
End ClientLoadFacts.

(** ** Concurrency *)
Section Batches.
Context {R : Type}.
Implicit Types (l : list (RequestState R)) (b : Batch R).

Definition is_running (s : RequestState R) : bool := match s with Running => true | _ => false end.
Definition running l : Z := Z.of_nat (length (List.filter is_running l)).

Lemma running_bounds l : 0 <= running l <= zlen l.
Proof. unfold running, zlen. pose proof (List.filter_length_le is_running l). lia. Qed.

Lemma running_insert l i s s' : l !! i = Some s ->
  running (<[i := s']> l) = running l - Z.b2z (is_running s) + Z.b2z (is_running s').
Proof.
  intros Hi. unfold running. rewrite <- (take_drop_middle l i s Hi) at 2.
  rewrite insert_take_drop by (by eapply lookup_lt_Some). rewrite !List.filter_app, !length_app. cbn [List.filter].
  destruct (is_running s), (is_running s'); simpl; lia.
Qed.

Lemma running_unpolled n : running (replicate n Unpolled) = 0.
Proof. unfold running. induction n; [done | exact IHn]. Qed.

Lemma running_done (rs : list R) : running (map Done rs) = 0.
Proof. unfold running. induction rs; [done | exact IHrs]. Qed.

(** The counters agree with the requests that are running, and the peak is
    within the largest batch so far. *)
Definition counted (bound : Z) b : Prop :=
  in_flight (counters b) = running (states b) /\ running (states b) <= peak (counters b) <= bound.

Lemma batch_step_counted bound b b' :
  batch_step b b' -> zlen (states b) <= bound <= USIZE_MAX -> counted bound b ->
  counted bound b' /\ zlen (states b') = zlen (states b).
Proof.
  intros Hs Hb [Hi Hp]. unfold USIZE_MAX in *.
  assert (forall i s s', states b !! i = Some s -> is_running s' = negb (is_running s) ->
    running (<[i := s']> (states b)) = (if is_running s then running (states b) - 1 else running (states b) + 1) /\
    0 <= running (<[i := s']> (states b)) <= zlen (states b) /\
    zlen (<[i := s']> (states b)) = zlen (states b)) as H.
  { intros i s s' Hl Hn. rewrite (running_insert _ _ s s' Hl), Hn.
    pose proof (running_bounds (<[i := s']> (states b))) as Hr. rewrite (running_insert _ _ s s' Hl), Hn in Hr.
    unfold zlen in *. rewrite length_insert in *. destruct (is_running s); simpl in *; lia. }
  destruct Hs as [b i Hl|b i r Hl];
    [destruct (H i _ Running Hl eq_refl) as (Er & Hr & Ez) | destruct (H i _ (Done r) Hl eq_refl) as (Er & Hr & Ez)];
    unfold counted, enter, leave, wrap_usize; cbn [states counters in_flight peak is_running] in *;
    rewrite Er in *; rewrite Hi, Z.mod_small by lia; lia.
Qed.
End Batches.

(** ** Termination of a batch *)
Section Termination.
Context {R : Type} `{Inhabited R}.
Implicit Types (l : list (RequestState R)) (b : Batch R).

Definition weight_of (s : RequestState R) : nat := match s with Unpolled => 2 | Running => 1 | Done _ => 0 end.
Definition weight b : nat := sum_list_with weight_of (states b).

Lemma weight_insert l i s s' : l !! i = Some s ->
  (sum_list_with weight_of (<[i := s']> l) + weight_of s = sum_list_with weight_of l + weight_of s')%nat.
Proof.
  intros Hi. rewrite <- (take_drop_middle l i s Hi) at 2.
  rewrite insert_take_drop by (by eapply lookup_lt_Some). rewrite !sum_list_with_app. simpl. lia.
Qed.

Lemma batch_step_weight b b' : batch_step b b' -> (weight b' < weight b)%nat.
Proof.
  unfold weight. intros [b0 i Hl|b0 i r Hl]; cbn [states];
    [pose proof (weight_insert _ i _ Running Hl) | pose proof (weight_insert _ i _ (Done r) Hl)]; simpl in *; lia.
Qed.

(** However the requests of a batch are polled, it ends, and it can only end
    with the result of every request. *)
Lemma batch_ends b : Acc (flip batch_step) b /\
  ((forall b' : Batch R, ~ batch_step b b') -> exists results, states b = map Done results).
Proof.
  split.
  - assert (forall n b, (weight b < n)%nat -> Acc (flip (batch_step (R := R))) b) as Hacc; [|apply (Hacc (S (weight b))); lia].
    induction n as [|n IH]; intros b0 Hw; [lia|]. constructor. intros b1 Hs%batch_step_weight. apply IH. lia.
  - intros Hstuck. assert (Forall (fun s => exists r, s = Done r) (states b)) as Hf.
    { apply Forall_lookup. intros i [| |r] Hi; [| |by exists r].
      - by destruct (Hstuck _ (first_poll b i Hi)).
      - by destruct (Hstuck _ (completes b i inhabitant Hi)). }
    clear Hstuck. induction Hf as [|s l (r & ->) _ (results & ->)]; [by exists [] | by exists (r :: results)].
Qed.
End Termination.

Section RunFacts.
Context {Uri : Type} (o : Options Uri).

(** The requests in flight, at every point of a run and for every order of
    polls: the counter is the number of requests running, it and the reported
    peak never exceed the concurrency asked for, and between batches nothing
    is in flight; no request is lost or repeated. *)
Theorem concurrency_bounded k rs b :
  options_ok o -> reaches o k rs b ->
  in_flight (counters b) = running (states b) /\
  running (states b) <= peak (counters b) <= concurrency o /\
  zlen rs = k /\ zlen (states b) = batch_size o k /\ 1 <= batch_size o k /\ k + batch_size o k <= requests o /\
  (forall results, states b = map Done results -> in_flight (counters b) = 0).
Proof.
  intros [Hr Hc] H.
  assert (counted (concurrency o) b /\ zlen rs = k /\ zlen (states b) = batch_size o k /\ 0 <= k < requests o) as (Hcount & Hk & Hz & Hlt).
  { induction H as [H|k rs b b' _ IH Hs|k rs b results _ IH Hd Hlt].
    - unfold start_batch, counted, zlen, batch_size. cbn [states counters in_flight peak Concurrency_default].
      rewrite running_unpolled, length_replicate. unfold zlen in *. simpl. lia.
    - destruct IH as (Hi & Hk & Hz & Hlt).
      destruct (batch_step_counted (concurrency o) b b' Hs) as [? ->]; [unfold batch_size in Hz; lia | done|]. done.
    - destruct IH as (Hi & Hk & Hz & Hlt'). destruct Hi as [Hi Hp]. rewrite Hd, running_done in Hi, Hp.
      unfold start_batch, counted. cbn [states counters in_flight peak]. rewrite running_unpolled, Hi.
      rewrite zlen_app. rewrite Hd in Hz. unfold zlen in *. rewrite length_map in Hz. rewrite length_replicate.
      unfold batch_size in *. lia. }
  destruct Hcount as [Hi Hp]. unfold batch_size in *. split_and!; try done; try lia.
  intros results Hd. by rewrite Hi, Hd, running_done.
Qed.

(** ** The account *)
Definition is_error (r : result (HttpLib.Version * bool) bytes) : bool := match r with Err _ => true | Ok _ => false end.
Definition is_mismatch (r : result (HttpLib.Version * bool) bytes) : bool :=
  match r with Ok (_, body_ok) => negb body_ok | Err _ => false end.
Definition is_good (r : result (HttpLib.Version * bool) bytes) : bool :=
  match r with Ok (_, body_ok) => body_ok | Err _ => false end.
Definition has_version (v : HttpLib.Version) (r : result (HttpLib.Version * bool) bytes) : bool :=
  match r with Ok (v', _) => bool_decide (v' = v) | Err _ => false end.
Definition count {A} (f : A -> bool) (l : list A) : Z := zlen (List.filter f l).

Lemma count_app {A} (f : A -> bool) l k : count f (l ++ k) = count f l + count f k.
Proof. unfold count. by rewrite List.filter_app, zlen_app. Qed.

(** A tally after the results [rs], of which [done_] are counted as complete. *)
Definition tallies (done_ : Z) (rs : list (result (HttpLib.Version * bool) bytes)) (t : Tally) : Prop :=
  completed t = done_ /\ errors t = count is_error rs /\ body_mismatches t = count is_mismatch rs /\
  (zlen rs < 2 ^ 31 -> http11 t = count (has_version HTTP_11) rs /\ http2_responses t = count (has_version HTTP_2) rs) /\
  first_error t = head (omap (fun r => match r with Err e => Some e | Ok _ => None end) rs).

Lemma wrap_i32_small n : 0 <= n < 2 ^ 31 -> wrap_i32 n = n.
Proof. intros Hn. unfold wrap_i32. rewrite Z.mod_small; lia. Qed.

Lemma count_bounds {A} (f : A -> bool) l : 0 <= count f l <= zlen l.
Proof. unfold count, zlen. pose proof (List.filter_length_le f l). lia. Qed.

Lemma omap_error_nil rs : count is_error rs = 0 ->
  omap (fun r : result (HttpLib.Version * bool) bytes => match r with Err e => Some e | Ok _ => None end) rs = [].
Proof.
  unfold count, zlen. induction rs as [|[x|e] rs IH]; simpl; [done | exact IH | lia].
Qed.

Lemma count_result_ok d rs t r : tallies d rs t -> tallies d (rs ++ [r]) (count_result t r).
Proof.
  intros (Hc & He & Hm & Hv & Hf). unfold tallies. rewrite !count_app, zlen_app, omap_app.
  pose proof (zlen_nonneg rs). pose proof (count_bounds (has_version HTTP_11) rs).
  pose proof (count_bounds (has_version HTTP_2) rs). pose proof (count_bounds is_error rs).
  destruct r as [[v []]|e]; cbn [count_result completed errors body_mismatches http11 http2_responses first_error].
  1, 2: (split_and!; [done | by rewrite He, Z.add_0_r | by rewrite Hm | | by rewrite Hf, app_nil_r]);
    change (zlen [_]) with 1; intros Hl; destruct Hv as [-> ->]; [lia|];
    destruct v; simpl; change (count ?f [?x]) with (if f x then 1 else 0); rewrite ?wrap_i32_small by lia;
    split; reflexivity || (simpl; lia).
  split_and!; [done | by rewrite He | by rewrite Hm, Z.add_0_r | |].
  - change (zlen [_]) with 1. intros Hl. destruct Hv as [-> ->]; [lia|]. by rewrite !Z.add_0_r.
  - rewrite Hf, He. destruct (count is_error rs + 1 =? 1) eqn:E; bool_hyps.
    + by rewrite omap_error_nil by lia.
    + simpl. assert (omap (fun r : result (HttpLib.Version * bool) bytes => match r with Err e => Some e | Ok _ => None end) rs <> []) as Hn.
      { clear -E. unfold count, zlen in E. induction rs as [|[x|e'] rs IH]; simpl in *; [done | by apply IH | done]. }
      by destruct (omap _ rs).
Qed.
Lemma count_results_ok d rs' : forall rs t, tallies d rs t -> tallies d (rs ++ rs') (fold_left count_result rs' t).
Proof.
  induction rs' as [|r rs' IH]; intros rs t Ht; cbn [fold_left]; [by rewrite app_nil_r|].
  rewrite cons_middle, app_assoc. by apply IH, count_result_ok.
Qed.

Definition outcomes (outcome : nat -> result (HttpLib.Version * bool) bytes) (n : Z) : list (result (HttpLib.Version * bool) bytes) :=
  map outcome (seq 0 (Z.to_nat n)).

Lemma outcomes_app outcome n m : 0 <= n -> 0 <= m ->
  outcomes outcome (n + m) = outcomes outcome n ++ map outcome (seq (Z.to_nat n) (Z.to_nat m)).
Proof. intros. unfold outcomes. by rewrite <- map_app, Z2Nat.inj_add, seq_app by lia. Qed.

Lemma load_loop_ok outcome fuel : forall k t,
  1 <= concurrency o -> 0 <= k <= requests o -> requests o - k <= Z.of_nat fuel -> tallies k (outcomes outcome k) t ->
  exists t', load_loop o fuel outcome t = Some t' /\ tallies (requests o) (outcomes outcome (requests o)) t'.
Proof.
  induction fuel as [|fuel IH]; intros k t Hc Hk Hf Ht; pose proof (proj1 Ht) as Ek; cbn [load_loop]; rewrite Ek;
    destruct (k <? requests o) eqn:E; bool_hyps; try lia.
  1, 3: replace (requests o) with k by lia; eauto.
  unfold batch_size. set (m := Z.min (requests o - k) (concurrency o)) in *.
  apply (IH (k + m)); [done | lia | lia|]. rewrite outcomes_app by lia.
  destruct (count_results_ok k (map outcome (seq (Z.to_nat k) (Z.to_nat m))) _ _ Ht) as (Hd & Hrest).
  split; [|exact Hrest]. simpl. lia.
Qed.

Lemma good_or_bad rs : count is_good rs + count is_error rs + count is_mismatch rs = zlen rs.
Proof.
  unfold count, zlen. induction rs as [|[[v []]|e] rs IH]; simpl; lia.
Qed.

Lemma forall_good rs : Forall (fun r => is_good r = true) rs <-> count is_good rs = zlen rs.
Proof.
  unfold count, zlen. split.
  - induction 1 as [|r rs Hr _ IH]; [done|]. cbn [List.filter]. rewrite Hr. simpl. lia.
  - intros E. induction rs as [|r rs IH]; [constructor|]. cbn [List.filter] in E.
    pose proof (List.filter_length_le is_good rs). destruct (is_good r) eqn:Er; simpl in E; [|lia].
    constructor; [done|]. apply IH. lia.
Qed.

Lemma load_loop_accounts outcome :
  options_ok o ->
  exists t, load_loop o (Z.to_nat (requests o)) outcome Tally_new = Some t /\
    tallies (requests o) (outcomes outcome (requests o)) t /\
    ok_count o t = count is_good (outcomes outcome (requests o)) /\ 0 <= ok_count o t /\
    (exit_code t = 0 <-> Forall (fun r => is_good r = true) (outcomes outcome (requests o))).
Proof.
  intros [Hr Hc]. destruct (load_loop_ok outcome (Z.to_nat (requests o)) 0 Tally_new) as (t & E & Ht); [lia..| |].
  { unfold outcomes, tallies. simpl. done. }
  exists t. split; [done|]. split; [done|]. destruct Ht as (_ & He & Hm & _).
  pose proof (good_or_bad (outcomes outcome (requests o))) as Hg.
  pose proof (count_bounds is_good (outcomes outcome (requests o))) as Hb.
  assert (zlen (outcomes outcome (requests o)) = requests o) as Hz.
  { unfold zlen, outcomes. rewrite length_map, length_seq. lia. }
  unfold ok_count, exit_code. rewrite He, Hm. split; [lia|]. split; [lia|].
  rewrite (forall_good (outcomes outcome (requests o))).
  pose proof (count_bounds is_error (outcomes outcome (requests o))).
  pose proof (count_bounds is_mismatch (outcomes outcome (requests o))).
  destruct (negb _ || negb _) eqn:Ex; bool_hyps; split; intros; lia.
Qed.

(** The account of a run: the loop ends after exactly the requests asked for;
    errors, mismatches and good responses are counted exactly and add up to
    them, so that the reported number of good ones cannot underflow; the
    versions are counted exactly while the [i32] counters suffice; the first
    error is the one printed; and the exit code is 0 exactly when every request
    was good. *)
Theorem load_accounts outcome :
  options_ok o ->
  exists t, load_loop o (Z.to_nat (requests o)) outcome Tally_new = Some t /\
    tallies (requests o) (outcomes outcome (requests o)) t /\
    ok_count o t = count is_good (outcomes outcome (requests o)) /\ 0 <= ok_count o t /\
    (exit_code t = 0 <-> Forall (fun r => is_good r = true) (outcomes outcome (requests o))).
Proof. apply load_loop_accounts. Qed.
End RunFacts.

(** ** Against the benchmark service *)
Section Benchmark.
Context {L : HttpLib} {Uri0 : Type} (o : Options Uri0).

(** The service answers the paths the load generator knows with a body of
    exactly the length it expects, and any other path with 404. *)
Lemma benchmark_body {B} (r : Request B) :
  match expected_body_len (uri_path (r_uri r)) with
  | Some n => rs_status (service_call r) = 200 /\
      forall text, body_len text 2 0 (rs_body (service_call r)) = Some (Ok n)
  | None => rs_status (service_call r) = 404
  end.
Proof.
  unfold expected_body_len, service_call.
  destruct (arg_is (uri_path (r_uri r)) "/0"); [done|].
  destruct (arg_is (uri_path (r_uri r)) "/1k"); [done|].
  destruct (arg_is (uri_path (r_uri r)) "/64k"); [|done].
  split; [done|]. intros text.
  change (rs_body _) with (from_bytes BODY_64K).
  assert (from_bytes BODY_64K = Some BODY_64K) as -> by done.
  cbn [body_len poll_frame one_frame_body fmap option_fmap option_map].
  assert (zlen BODY_64K = 65536) as -> by (unfold zlen, BODY_64K; by rewrite length_replicate). done.
Qed.

(** Generator and service together: a run whose requests all reach the service
    ends with every response good and the exit code 0, whatever versions the
    responses have. *)
Theorem load_against_benchmark {B} (request : Request B) (versions : nat -> HttpLib.Version) text outcome :
  options_ok o -> expected_body_len (uri_path (r_uri request)) <> None ->
  (forall k, one_request text 2 (expected_body_len (uri_path (r_uri request)))
     (Ok (versions k, rs_body (service_call request))) = Some (outcome k)) ->
  exists t, load_loop o (Z.to_nat (requests o)) outcome Tally_new = Some t /\
    ok_count o t = requests o /\ errors t = 0 /\ body_mismatches t = 0 /\ exit_code t = 0.
Proof.
  intros Ho He Hone. pose proof (benchmark_body request) as Hb.
  destruct (expected_body_len (uri_path (r_uri request))) as [n|]; [|done]. destruct Hb as [_ Hb].
  assert (forall k, outcome k = Ok (versions k, true)) as Hout.
  { intros k. specialize (Hone k). cbn [one_request] in Hone. rewrite Hb in Hone. simpl in Hone.
    rewrite Z.eqb_refl in Hone. by injection Hone as <-. }
  assert (Forall (fun r => is_good r = true) (outcomes outcome (requests o))) as Hg.
  { apply Forall_map, Forall_forall. intros k _. by rewrite Hout. }
  destruct (load_loop_accounts o outcome Ho) as (t & E & _ & Hok & _ & Hx). exists t. split; [done|].
  apply Hx in Hg as Hc. apply forall_good in Hg. rewrite Hg in Hok.
  split; [rewrite Hok; unfold zlen, outcomes; rewrite length_map, length_seq; destruct Ho; lia|].
  unfold exit_code in Hc. destruct (errors t =? 0) eqn:E1, (body_mismatches t =? 0) eqn:E2; simpl in Hc; try done.
  bool_hyps. unfold exit_code. by rewrite E1, E2.
Qed.
End Benchmark.

(** ** The servers *)
Section ServerFacts.
Import ServerAuto.ServerAuto.
Context {IO Service : Type} `{HyperRead IO} (ft : Features) (hy : Hyper IO Service).

(** A task with the fresh builder of the example never panics: it serves the
    connection or reports why not. *)
Lemma tls_task_total h1 h2 s accepted : is_Some (tls_task ft hy h1 h2 s accepted).
Proof.
  destruct accepted as [[alpn io]|e]; [|by eexists]. unfold tls_task, serve_tls_connection, http1_only, http2_only, builder_new.
  cbn [version]. repeat case_match; simplify_eq/=; by eexists.
Qed.
End ServerFacts.

(** Accepted server options have a listener. *)
Lemma server_options_listen args o : server_options args = Parsed o -> plain o <> None \/ tls o <> None.
Proof.
  unfold server_options. generalize (mkServerOptions (Some (bs "127.0.0.1:3000")) (Some (bs "127.0.0.1:3443"))).
  assert (forall n args, (length args <= n)%nat -> forall i,
    server_flags args i = Parsed o -> plain o <> None \/ tls o <> None) as Hn; [|intros i; by apply (Hn (length args))].
  clear args. induction n as [|n IH]; intros [|arg rest] Hl i E; cbn [server_flags length] in *; try lia.
  1, 2: destruct (plain i) eqn:Ep, (tls i) eqn:Et; simplify_eq; rewrite ?Ep, ?Et; eauto.
  repeat case_match; try done; simplify_eq/=; (eapply IH; [|eassumption]; simpl in *; lia).
Qed.

(** ** Concrete runs *)
Section Samples.
Definition sample_options : Options () := mkOptions () 5 2 false true.
Definition sample_parse (b : bytes) : result () bytes := if bytes_eqb b (bs "http://a/1k") then Ok () else Err (bs "bad").

Lemma options_roundtrip_witness :
  parse_options sample_parse (command_line (bs "http://a/1k") sample_options) = Parsed sample_options.
Proof.
  apply (options_roundtrip sample_parse [] sample_options (bs "http://a/1k") ()); try reflexivity.
  unfold options_ok, USIZE_MAX. simpl. lia.
Defined.

Definition one_running : Batch (result (HttpLib.Version * bool) bytes) :=
  mkBatch [Unpolled; Running] (mkConcurrency 1 1).

Lemma concurrency_bounded_witness :
  reaches sample_options 0 [] one_running /\ in_flight (counters one_running) = 1 /\
  peak (counters one_running) <= concurrency sample_options.
Proof.
  assert (Hr : reaches sample_options 0 [] one_running).
  { refine (reaches_step _ _ _ _ _ (reaches_start _ _) (first_poll _ 1 _)); reflexivity. }
  destruct (concurrency_bounded sample_options 0 [] one_running) as (Hi & Hp & _);
    [unfold options_ok, USIZE_MAX; simpl; lia | exact Hr|].
  split; [exact Hr|]. split; [exact Hi | exact (proj2 Hp)].
Defined.

Definition sample_outcome (k : nat) : result (HttpLib.Version * bool) bytes :=
  if (k =? 3)%nat then Err (bs "reset") else Ok (HTTP_11, true).

Lemma load_accounts_witness :
  exists t, load_loop sample_options 5 sample_outcome Tally_new = Some t /\ ok_count sample_options t = 4 /\ errors t = 1.
Proof.
  destruct (load_accounts sample_options sample_outcome) as (t & E & (_ & He & _) & Hok & _);
    [unfold options_ok, USIZE_MAX; simpl; lia|].
  exists t. split; [exact E|]. split; [rewrite Hok | rewrite He]; reflexivity.
Defined.

Definition benchmark_request : Request (H := RefHttp.lib) () :=
  @mkRequest RefHttp.lib () (bs "GET") (mkParts None None (Some (bs "/1k"))) HTTP_11 (@hm_new RefHttp.lib) ().

Lemma load_against_benchmark_witness :
  exists t, load_loop sample_options 5 (fun _ => Ok (HTTP_2, true)) Tally_new = Some t /\ exit_code t = 0.
Proof.
  destruct (load_against_benchmark sample_options benchmark_request (fun _ => HTTP_2) (fun _ => [])
    (fun _ => Ok (HTTP_2, true))) as (t & E & _ & _ & _ & Hx).
  - unfold options_ok, USIZE_MAX. simpl. lia.
  - discriminate.
  - intros k. vm_compute. reflexivity.
  - exists t. split; [exact E | exact Hx].
Defined.
End Samples.
End Load.
