(* ===== verification/Programs.v ===== *)
(** * The programs of [examples/], from the command line to the exit code

    [main] of [examples/client-load.rs], [examples/interop-server.rs] and
    [examples/h2-reference-server.rs], over the parts modelled in [Load]: what
    they print, the client and the listeners they set up, the tasks they spawn
    and how they end.  Binding and accepting are parameters, and so are the
    texts of the two floating-point times of a report. *)

From Stdlib Require Import ZArith Lia String.
From Stdlib Require Import Strings.Byte.
From stdpp Require Import base option list.
From S2P Require Import Prelude Bytes HttpLib Stream Pool AsyncIo ServerAuto Connect Agreement Client Numbers Load.

Open Scope Z_scope.

Module Programs.
Import Pool.Pool Load.Load.

(** What a finished process leaves: its lines and its exit code. *)
Record Exit := mkExit { stdout : list bytes; stderr : list bytes; code : Z }.

(** A command line that ends the program at once. *)
Definition usage_exit (usage : bytes) {A} (p : parsed A) (k : A -> option Exit) : option Exit :=
  match p with
  | Help => Some (mkExit [usage] [] 0)
  | BadArgs e => Some (mkExit [] [bs "error: " ++ e] 2)
  | Parsed a => k a
  end.

(** ** [client-load] *)
Section ClientLoad.
Context {Uri : Type} (parse_uri : bytes -> result Uri bytes) (uri_text : Uri -> bytes).

(** The client of a run: the builder's defaults, HTTP/2 only and an event log
    when the flags ask for them. *)
Definition load_builder {Connector} (connector_new : Connector) (o : Options Uri) : Client.Client.Builder Connector :=
  let b := Client.Client.Builder_new connector_new in
  let b := if http2 o then Client.Client.http2_only true b else b in
  if debug_events o then Client.Client.debug_event_log [] b else b.

(** What a run leaves for the report. *)
Record Run := mkRun {
  tally : Tally;
  concurrency_counters : Concurrency;
  log : DebugEventLog;
  elapsed_seconds : bytes;
  requests_per_second : bytes
}.

Definition event_report (l : DebugEventLog) : list bytes :=
  match l with
  | Some _ =>
      let c := count_events (fst (drain l)) in
      [bs "debug_events=enabled"; bs "tcp_connections=" ++ print_dec (tcp_connections c);
       bs "tls_handshakes=" ++ print_dec (tls_handshakes c);
       bs "h1_connections=" ++ print_dec (h1_connections c); bs "h2_sessions=" ++ print_dec (h2_sessions c)]
  | None => [bs "debug_events=disabled"]
  end.
Definition load_report (o : Options Uri) (r : Run) : list bytes :=
  let t := tally r in
  [bs "uri=" ++ uri_text (uri o); bs "protocol=" ++ (if http2 o then bs "h2" else bs "auto");
   bs "requests=" ++ print_dec (requests o); bs "concurrency=" ++ print_dec (concurrency o);
   bs "logical_concurrency=" ++ print_dec (concurrency o);
   bs "peak_concurrency=" ++ print_dec (peak (concurrency_counters r));
   bs "elapsed_seconds=" ++ elapsed_seconds r; bs "requests_per_second=" ++ requests_per_second r;
   bs "ok=" ++ print_dec (ok_count o t); bs "errors=" ++ print_dec (errors t);
   bs "body_mismatches=" ++ print_dec (body_mismatches t);
   bs "http1_responses=" ++ Numbers.Numbers.print_int (http11 t);
   bs "http2_responses=" ++ Numbers.Numbers.print_int (http2_responses t)]
  ++ event_report (log r).

Definition load_finish (o : Options Uri) (r : Run) : Exit :=
  let failed := negb (exit_code (tally r) =? 0) in
  mkExit (load_report o r)
    ((match first_error (tally r) with Some e => [bs "first request error: " ++ e] | None => [] end)
     ++ (if failed then [bs "error: load run did not complete cleanly"] else []))
    (exit_code (tally r)).

(** [main]; [run] is the [while] loop, [None] when it does not end. *)
Definition load_main (run : Options Uri -> option Run) (args : list bytes) : option Exit :=
  usage_exit usage (parse_options parse_uri args) (fun o => r ← run o; Some (load_finish o r)).
End ClientLoad.

(** ** The servers *)
Section Servers.
Context {Listener IO Peer Task Config : Type}.
Context (bind : bytes -> result Listener io_error) (local_addr : Listener -> result bytes io_error).

(** The accept loop of a server, on what [accept] answers: a task for every
    connection, in order, until the listener fails, which panics. *)
Fixpoint accept_loop (spawn : IO -> Peer -> Task) (accepts : list (result (IO * Peer) io_error))
    : list Task * option io_error :=
  match accepts with
  | [] => ([], None)
  | Err e :: _ => ([], Some e)
  | Ok (stream, peer) :: rest =>
      let '(tasks, failed) := accept_loop spawn rest in (spawn stream peer :: tasks, failed)
  end.

Inductive Spawned := ServePlain (l : Listener) | ServeTls (l : Listener) (config : Config).

(** One listener: bound and announced. *)
Definition open_listener (announce : bytes) (address : bytes) : result (Listener * bytes) io_error :=
  let? l := bind address in
  let? text := local_addr l in
  Ok (l, announce ++ text).

(** The listeners of [interop-server] with what was announced so far, also when
    a later one fails; [config] is the TLS configuration, [None] when making it
    panics, which is the [None] of the answer. *)
Definition interop_listen (config : option Config) (o : ServerOptions)
    : list bytes * option (result (list Spawned) io_error) :=
  let tls_part lines spawned :=
    match tls o with
    | Some address =>
        match open_listener (bs "h12tiny TLS server listening on https://") address with
        | Ok (l, line) => (lines ++ [line], c ← config; Some (Ok (spawned ++ [ServeTls l c])))
        | Err e => (lines, Some (Err e))
        end
    | None => (lines, Some (Ok spawned))
    end in
  match plain o with
  | Some address =>
      match open_listener (bs "h12tiny plaintext server listening on http://") address with
      | Ok (l, line) => tls_part [line] [ServePlain l]
      | Err e => ([], Some (Err e))
      end
  | None => tls_part [] []
  end.

(** A server that runs, or how it ended before that. *)
Inductive Started :=
| Serving (announced : list bytes) (tasks : list Spawned)
| Ended (e : Exit)
| Panicked (announced : list bytes).

Definition started (failure : bytes) (r : list bytes * option (result (list Spawned) io_error)) : Started :=
  match r with
  | (lines, Some (Ok tasks)) => Serving lines tasks
  | (lines, Some (Err e)) => Ended (mkExit [] (lines ++ [failure ++ bs (ioe_message e)]) 1)
  | (lines, None) => Panicked lines
  end.
Definition start_server {A} (usage : bytes) (p : parsed A) (k : A -> Started) : Started :=
  match p with
  | Help => Ended (mkExit [usage] [] 0)
  | BadArgs e => Ended (mkExit [] [bs "error: " ++ e] 2)
  | Parsed a => k a
  end.

Definition interop_main (config : option Config) (args : list bytes) : Started :=
  start_server server_usage (server_options args)
    (fun o => started (bs "server failed: ") (interop_listen config o)).

(** The reference server has one listener, without TLS. *)
Definition reference_listen (address : bytes) : list bytes * option (result (list Spawned) io_error) :=
  match open_listener (bs "direct Hyper H2 reference listening on http://") address with
  | Ok (l, line) => ([line], Some (Ok [ServePlain l]))
  | Err e => ([], Some (Err e))
  end.
Definition reference_main (args : list bytes) : Started :=
  start_server reference_usage (reference_options args)
    (fun address => started (bs "reference server failed: ") (reference_listen address)).
End Servers.
Arguments Spawned : clear implicits.
Arguments Started : clear implicits.

(** The loops of the servers: the plaintext and the TLS one of [interop-server]
    over the tasks of [Load], and the one of the reference server over Hyper's
    own HTTP/2 connection. *)
Section Loops.
Import ServerAuto.ServerAuto.
Context {IO Peer Service H2Conn : Type} `{HyperRead IO} (ft : Features) (hy : Hyper IO Service).
Context (h1 : h1_config _ _ hy) (h2 : h2_config _ _ hy) (benchmark_service : Service).

Definition serve_plain (accepts : list (result (IO * Peer) io_error)) : list (ConnState hy) * option io_error :=
  accept_loop (fun stream _ => plain_task ft hy h1 h2 benchmark_service stream) accepts.
(** [handshake] is what [acceptor.accept] resolves to on a stream. *)
Definition serve_tls {Raw : Type} (handshake : Raw -> result (option bytes * IO) io_error)
    (accepts : list (result (Raw * Peer) io_error)) : list (option (TlsTask hy)) * option io_error :=
  accept_loop (fun stream _ => tls_task ft hy h1 h2 benchmark_service (handshake stream)) accepts.
Definition reference_serve (h2_serve_connection : IO -> Service -> H2Conn)
    (accepts : list (result (IO * Peer) io_error)) : list H2Conn * option io_error :=
  accept_loop (fun stream _ => h2_serve_connection stream benchmark_service) accepts.
End Loops.

(** The accept loop as a map: the tasks of the connections before a failure. *)
Lemma accept_loop_tasks {IO Peer Task} (spawn : IO -> Peer -> Task) conns rest :
  accept_loop spawn (map Ok conns ++ rest)
    = (map (fun '(s, p) => spawn s p) conns ++ fst (accept_loop spawn rest), snd (accept_loop spawn rest)).
Proof.
  induction conns as [|[s p] conns IH]; simpl; [by destruct (accept_loop spawn rest)|]. by rewrite IH.
Qed.

(** ** TLS of [interop-server] *)
Section Tls.
(** [rustls::ServerConfig] and its builder. *)
Class RustlsServer := {
  ServerConfig : Type;
  Certificate : Type;
  PrivateKey : Type;
  WantsVersions : Type;
  WantsVerifier : Type;
  WantsServerCert : Type;
  private_key_from : bytes -> option PrivateKey;
  certificate_from : bytes -> Certificate;
  server_builder : WantsVersions;                     (* with the Graviola provider *)
  safe_default_versions : WantsVersions -> option WantsVerifier;
  no_client_auth : WantsVerifier -> WantsServerCert;
  with_single_cert : list Certificate -> PrivateKey -> WantsServerCert -> option ServerConfig;
  set_alpn : list bytes -> ServerConfig -> ServerConfig;
  (* the protocols a handshake can end with *)
  negotiates : ServerConfig -> option bytes -> Prop
}.

(** Rustls: a handshake selects one of the configured protocols, or none. *)
Class AlpnLaw (R : RustlsServer) : Prop :=
  negotiates_offered l c p : negotiates (set_alpn l c) (Some p) -> p ∈ l.

Context {R : RustlsServer} (cert_der key_der : bytes).

(** [tls_config]; [None] is one of its three [expect]s. *)
Definition tls_config : option ServerConfig :=
  let certificate := certificate_from cert_der in
  key ← private_key_from key_der;
  versions ← safe_default_versions server_builder;
  config ← with_single_cert [certificate] key (no_client_auth versions);
  Some (set_alpn [bs "h2"; bs "http/1.1"] config).

Import AsyncIo.AsyncIo ServerAuto.ServerAuto.
Context {Service : Type} (ft : Features) (hy : Hyper Script Service) {AL : AlpnLaw R}.

(** Whatever a client negotiates with the server's own TLS configuration, the
    connection is served, with the protocol that was negotiated: protocol
    selection cannot fail. *)
Theorem interop_tls_serves config alpn (stream : Script) h1 h2 s :
  f_http1 ft = true -> f_http2 ft = true -> tls_config = Some config -> negotiates config alpn ->
  tls_task ft hy h1 h2 s (Ok (alpn, stream)) =
    Some (Load.Load.Serving hy (start ft hy (builder_new hy h1 h2)
      (if bool_decide (alpn = Some (bs "h2")) then H2 else H1) (new_buffered stream []) s)).
Proof.
  intros H1' H2' Hc Hn. unfold tls_config in Hc.
  destruct (private_key_from key_der) as [key|]; [|done]. destruct (safe_default_versions server_builder) as [v|]; [|done].
  simpl in Hc. destruct (with_single_cert _ _ _) as [c|]; [|done]. simpl in Hc. injection Hc as <-.
  assert (match alpn with Some p => p = bs "h2" \/ p = bs "http/1.1" | None => True end) as Ha.
  { destruct alpn as [p|]; [|done]. apply negotiates_offered in Hn.
    apply elem_of_cons in Hn as [->|Hn]; [by left|]. apply list_elem_of_singleton in Hn as ->. by right. }
  unfold tls_task. erewrite Agreement.Agreement.tls_served; [|done..|reflexivity|done]. simpl.
  destruct alpn as [p|]; [|done]. by destruct Ha as [-> | ->].
Qed.
End Tls.

(** ** Facts of the programs *)
Section LoadFacts.
Context {Uri : Type} (parse_uri : bytes -> result Uri bytes) (uri_text : Uri -> bytes).

Lemma load_finish_clean (o : Options Uri) (r : Run) : code (load_finish uri_text o r) = 0 -> first_error (tally r) = None ->
  stderr (load_finish uri_text o r) = [].
Proof. intros Hc Hf. unfold load_finish in *. simpl in *. by rewrite Hc, Hf. Qed.

(** The load generator's verdict: with an accepted command line the program
    ends; its exit code is 0 exactly when every request was answered with a body
    of the expected length, and then nothing is printed to the error stream; the
    report's counts are those of the outcomes. *)
Theorem load_main_reports args (o : Options Uri) outcome counters events secs rate :
  parse_options parse_uri args = Parsed o -> options_ok o ->
  exists e, load_main parse_uri uri_text
      (fun o => t ← load_loop o (Z.to_nat (requests o)) outcome Tally_new; Some (mkRun t counters events secs rate)) args = Some e /\
    let rs := outcomes outcome (requests o) in
    (code e = 0 \/ code e = 1) /\ (code e = 0 <-> Forall (fun r => is_good r = true) rs) /\
    (code e = 0 <-> stderr e = []) /\
    (bs "ok=" ++ print_dec (count is_good rs)) ∈ stdout e /\
    (bs "errors=" ++ print_dec (count is_error rs)) ∈ stdout e /\
    (bs "body_mismatches=" ++ print_dec (count is_mismatch rs)) ∈ stdout e.
Proof.
  intros Hp Ho. destruct (load_loop_accounts o outcome Ho) as (t & E & Ht & Hok & _ & Hx).
  exists (load_finish uri_text o (mkRun t counters events secs rate)). unfold load_main. rewrite Hp. simpl. rewrite E.
  split; [done|]. simpl. destruct Ht as (_ & He & Hm & _ & Hf).
  assert (exit_code t = 0 \/ exit_code t = 1) as Hcode.
  { unfold exit_code. destruct (_ || _); auto. }
  assert (exit_code t = 0 -> first_error t = None) as Hnone.
  { intros H0. apply Hx in H0. rewrite Hf. clear -H0. induction H0 as [|[[v b]|e] rs Hb _ IH]; done. }
  split; [done|]. split; [done|]. split.
  - destruct Hcode as [Hc|Hc]; rewrite Hc; simpl; [by rewrite (Hnone Hc)|].
    split; [done|]. by destruct (first_error t).
  - rewrite <- Hok, <- He, <- Hm. split_and!; (apply elem_of_app; left; apply list_elem_of_In; simpl; tauto).
Qed.
End LoadFacts.

Section ServerFacts.
Context {Listener Config : Type} (config : Config).
Context (bind : bytes -> result Listener io_error) (local_addr : Listener -> result bytes io_error).

Lemma interop_listen_spec o : plain o <> None \/ tls o <> None ->
  match interop_listen bind local_addr (Some config) o with
  | (lines, Some (Ok tasks)) => tasks <> [] /\ length lines = length tasks
  | (_, Some (Err _)) => True
  | (_, None) => False
  end.
Proof.
  intros Ho. unfold interop_listen. destruct (plain o) as [p|], (tls o) as [t|]; try (by destruct Ho);
    repeat match goal with |- context [open_listener ?b ?l ?a ?x] => destruct (open_listener b l a x) as [[]|]; simpl end; done.
Qed.

(** How the server starts, with a TLS configuration that can be made: it runs with at least one listener, each of them
    announced, or it ends; it ends with 0 only for a request for help, and any
    failure is reported on the error stream alone. *)
Theorem interop_main_spec args :
  match interop_main bind local_addr (Some config) args with
  | Serving announced tasks => tasks <> [] /\ length announced = length tasks
  | Ended e =>
      (code e = 0 /\ stdout e = [server_usage] /\ stderr e = []) \/
      ((code e = 1 \/ code e = 2) /\ stdout e = [] /\ stderr e <> [])
  | Panicked _ => False
  end.
Proof.
  unfold interop_main, start_server. destruct (server_options args) as [o|m|] eqn:E; simpl.
  - pose proof (interop_listen_spec o (server_options_listen _ _ E)) as H. unfold started.
    destruct (interop_listen bind local_addr (Some config) o) as [lines [[tasks|e]|]]; [done| |done]. right. simpl.
    split; [by left|]. split; [done|]. by destruct lines.
  - right. auto.
  - left. auto.
Qed.
End ServerFacts.

(** ** Concrete runs *)
Section Samples.
Definition answered (k : nat) : result (HttpLib.Version * bool) bytes := Ok (HTTP_11, true).
Definition sample_run (o : Options ()) : option Run :=
  t ← load_loop o (Z.to_nat (requests o)) answered Tally_new;
  Some (mkRun t (mkConcurrency 0 2) (Some []) (bs "0.000001") (bs "5000000.000")).

Lemma load_main_reports_witness :
  exists e, load_main sample_parse (fun _ => bs "http://a/1k") sample_run
      [bs "http://a/1k"; bs "--requests"; bs "5"; bs "--concurrency"; bs "2"] = Some e /\
    code e = 0 /\ (bs "ok=5") ∈ stdout e.
Proof.
  destruct (load_main_reports sample_parse (fun _ => bs "http://a/1k")
    [bs "http://a/1k"; bs "--requests"; bs "5"; bs "--concurrency"; bs "2"] (mkOptions () 5 2 false false)
    answered (mkConcurrency 0 2) (Some []) (bs "0.000001") (bs "5000000.000"))
    as (e & E & _ & Hc & _ & Hok & _).
  - reflexivity.
  - unfold options_ok, USIZE_MAX. simpl. lia.
  - exists e. split; [exact E|]. split; [|exact Hok]. apply Hc. apply Forall_map, Forall_forall. done.
Defined.

Lemma interop_main_defaults :
  interop_main (fun a => Ok a) (fun a => Ok a) (Some ()) [] =
  Serving [bs "h12tiny plaintext server listening on http://127.0.0.1:3000";
           bs "h12tiny TLS server listening on https://127.0.0.1:3443"]
    [ServePlain (bs "127.0.0.1:3000"); ServeTls (bs "127.0.0.1:3443") ()].
Proof. reflexivity. Qed.

#[local] Instance sample_rustls : RustlsServer := {|
  ServerConfig := list bytes; Certificate := bytes; PrivateKey := bytes;
  WantsVersions := (); WantsVerifier := (); WantsServerCert := ();
  private_key_from b := Some b; certificate_from b := b; server_builder := ();
  safe_default_versions _ := Some (); no_client_auth _ := ();
  with_single_cert _ _ _ := Some []; set_alpn l _ := l;
  negotiates c a := match a with Some p => p ∈ c | None => True end
|}.
#[local] Instance sample_alpn : AlpnLaw sample_rustls.
Proof. by intros l c p. Qed.

Lemma interop_tls_serves_witness :
  exists config, tls_config (bs "cert") (bs "key") = Some config /\
    is_Some (tls_task (ServerAuto.ServerAuto.mkFeatures true true) ServerAuto.ServerAuto.sample_hyper
      (ServerAuto.ServerAuto.http1 _ ServerAuto.ServerAuto.sample_builder)
      (ServerAuto.ServerAuto.http2 _ ServerAuto.ServerAuto.sample_builder) ()
      (Ok (Some (bs "h2"), ServerAuto.ServerAuto.sample_script))).
Proof.
  eexists. split; [reflexivity|]. eexists.
  apply (interop_tls_serves (R := sample_rustls) (bs "cert") (bs "key") (ServerAuto.ServerAuto.mkFeatures true true)
    ServerAuto.ServerAuto.sample_hyper ([bs "h2"; bs "http/1.1"] : @ServerConfig sample_rustls)); try reflexivity.
  left.
Defined.
End Samples.
End Programs.
