(* ===== verification/WebExtract.v ===== *)
(** * Extractors ([h12tiny-web], [lib.rs])

    [crates/h12tiny-web/src/lib.rs]: path parameters, queries and JSON bodies
    as arguments of handlers, and the handlers that take them.  The JSON
    library [miniserde] is a parameter; [JsonLaws] is what its printer promises
    about strings, read by the reference reader [read_object]. *)

From Stdlib Require Import ZArith Lia String.
From Stdlib Require Import Strings.Byte.
From stdpp Require Import base option list.
From S2P Require Import Prelude Bytes HttpLib Stream BodyUtil Numbers WebRouter.

Open Scope Z_scope.

Module WebExtract.
Import BodyUtil.BodyUtil Numbers.Numbers WebRouter.WebRouter.

(** ** Path parameters *)
Definition bad_request (message : bytes) : Rejection := mkRejection BAD_REQUEST message.

(** The trait [ScalarPathValue]. *)
Class ScalarPathValue (A : Type) := parse_scalar : bytes -> result A Rejection.

#[export] Instance string_scalar : ScalarPathValue bytes := Ok.

(** The scalars of the macro, over their [parse]. *)
Definition scalar {A} (parse : bytes -> option A) : ScalarPathValue A := fun value =>
  ok_or (parse value) (bad_request (bs "invalid path parameter: " ++ value)).
Definition int_scalar (lo hi : Z) : ScalarPathValue Z := scalar (parse_int lo hi).
#[export] Instance bool_scalar : ScalarPathValue bool := scalar parse_bool.

(** [PathValue] for one scalar, and for the tuples. *)
Definition from_path_one {A} `{ScalarPathValue A} (p : RouteParams) : result A Rejection :=
  match params_values p with
  | [value] => parse_scalar value
  | _ => Err (bad_request (bs "expected one path parameter"))
  end.

(** [PathValue for String] repeats the match; the scalars of the macro are the
    integers at their widths, and [bool]. *)
Definition string_from_path (p : RouteParams) : result bytes Rejection :=
  match params_values p with
  | [value] => Ok value
  | _ => Err (bad_request (bs "expected one path parameter"))
  end.
Inductive IntType := U8 | U16 | U32 | U64 | U128 | Usize | I8 | I16 | I32 | I64 | I128 | Isize.
Definition int_bounds (t : IntType) : Z * Z :=
  match t with
  | U8 => (0, 2 ^ 8 - 1) | U16 => (0, 2 ^ 16 - 1) | U32 => (0, 2 ^ 32 - 1)
  | U64 | Usize => (0, 2 ^ 64 - 1) | U128 => (0, 2 ^ 128 - 1)
  | I8 => (- 2 ^ 7, 2 ^ 7 - 1) | I16 => (- 2 ^ 15, 2 ^ 15 - 1) | I32 => (- 2 ^ 31, 2 ^ 31 - 1)
  | I64 | Isize => (- 2 ^ 63, 2 ^ 63 - 1) | I128 => (- 2 ^ 127, 2 ^ 127 - 1)
  end.
Definition int_path (t : IntType) (p : RouteParams) : result Z Rejection :=
  @from_path_one Z (int_scalar (fst (int_bounds t)) (snd (int_bounds t))) p.
Definition from_path_two {A B} `{ScalarPathValue A} `{ScalarPathValue B} (p : RouteParams)
    : result (A * B) Rejection :=
  match params_values p with
  | [] => Err (bad_request (bs "missing first path parameter"))
  | [_] => Err (bad_request (bs "missing second path parameter"))
  | [first; second] =>
      let? a := parse_scalar first in
      let? b := parse_scalar second in Ok (a, b)
  | _ => Err (bad_request (bs "too many path parameters"))
  end.

Definition from_path_three {A B C} `{ScalarPathValue A} `{ScalarPathValue B} `{ScalarPathValue C}
    (p : RouteParams) : result (A * B * C) Rejection :=
  match params_values p with
  | [x; y; z] =>
      let? a := parse_scalar x in
      let? b := parse_scalar y in
      let? c := parse_scalar z in Ok (a, b, c)
  | _ => Err (bad_request (bs "expected three path parameters"))
  end.

(** ** Query text *)
Definition hex_digit (b : byte) : option Z :=
  if in_range 48 57 b then Some (bz b - 48)
  else if in_range 97 102 b then Some (bz b - 97 + 10)
  else if in_range 65 70 b then Some (bz b - 65 + 10)
  else None.

Definition INVALID_ESCAPE : bytes := bs "invalid percent escape".
Definition INVALID_UTF8 : bytes := bs "query is not valid UTF-8".

(** The loop over the input. *)
Fixpoint decode_loop (input : bytes) : result bytes bytes :=
  match input with
  | [] => Ok []
  | b :: t =>
      if Byte.eqb b "+" then let? o := decode_loop t in Ok (" "%byte :: o)
      else if Byte.eqb b "%" then
        match t with
        | [] => Err INVALID_ESCAPE
        | h :: t' =>
            let? high := ok_or (hex_digit h) INVALID_ESCAPE in
            match t' with
            | [] => Err INVALID_ESCAPE
            | l :: t'' =>
                let? low := ok_or (hex_digit l) INVALID_ESCAPE in
                let? o := decode_loop t'' in
                Ok (byte_of_Z (Z.lor (Z.shiftl high 4) low) :: o)
            end
        end
      else let? o := decode_loop t in Ok (b :: o)
  end.

Definition decode_query_component (input : bytes) : result bytes bytes :=
  let? o := decode_loop input in ok_or (from_utf8 o) INVALID_UTF8.

(** [miniserde]: printing a string, and reading and printing typed values; its
    error displays as [json_error]. *)
Class Miniserde := {
  json_string : bytes -> bytes;
  json_error : bytes
}.
Class Deserialize (T : Type) := from_str : bytes -> option T.
Class Serialize (T : Type) := to_string : T -> bytes.

Section Query.
Context {J : Miniserde}.

Definition query_value_as_json (value : bytes) : bytes :=
  if bytes_eqb value (bs "true") || bytes_eqb value (bs "false") || bytes_eqb value (bs "null") then value
  else match parse_i64 value with
  | Some n => print_int n
  | None =>
      match parse_u64 value with
      | Some n => print_dec n
      | None =>
          match parse_f64 value with
          | Some (Finite neg m e) => print_finite neg m e
          | _ => json_string value
          end
      end
  end.

(** One pair: the key and the value, decoded. *)
Definition decode_pair (kv : bytes) : result (bytes * bytes) bytes :=
  let '(raw_key, raw_value) := default (kv, []) (split_once "=" kv) in
  let? key := decode_query_component raw_key in
  let? value := decode_query_component raw_value in
  Ok (key, value).

Fixpoint json_pairs (has_pair : bool) (pairs : list bytes) : result bytes bytes :=
  match pairs with
  | [] => Ok []
  | p :: pairs' =>
      let? kv := decode_pair p in
      let? rest := json_pairs true pairs' in
      Ok ((if has_pair then bs "," else []) ++ json_string (fst kv) ++ bs ":"
          ++ query_value_as_json (snd kv) ++ rest)
  end.

Definition query_pairs (query : bytes) : list bytes :=
  List.filter (fun p => negb (bytes_eqb p [])) (split_on "&" query).

Definition query_as_json (query : bytes) : result bytes bytes :=
  let? o := json_pairs false (query_pairs query) in Ok (bs "{" ++ o ++ bs "}").

(** ** The extractors *)
Section Extractors.
Context {L : HttpLib} {Tr S : Type}.
Abbreviation Req := (Request (RequestBody Tr)).
Abbreviation Resp := (@Response L (@ResponseBody Tr)).
Abbreviation Extract := (@Extractor L Tr S).

Definition path_extractor {T} (from_path : RouteParams -> result T Rejection) : Extract T :=
  fun r _ meta => now_ready (let? v := from_path (params meta) in Ok (v, r)).

(** [Extension<T>] and its optional form; [ext] is [extensions().get::<T>()]. *)
Definition extension_extractor {T} (ext : Req -> option T) : Extract T := fun r _ _ =>
  now_ready (match ext r with
        | Some v => Ok (v, r)
        | None => Err (mkRejection INTERNAL_SERVER_ERROR (bs "request extension is missing"))
        end).
Definition optional_extension_extractor {T} (ext : Req -> option T) : Extract (option T) := fun r _ _ =>
  now_ready (Ok (ext r, r)).

(** A default request around an empty body takes the place of the request. *)
Definition request_extractor : Extract Req := fun r _ _ =>
  now_ready (Ok (r, mkRequest GET uri_default HTTP_11 hm_new empty_body)).

Definition raw_query_extractor : Extract (option bytes) := fun r _ _ =>
  now_ready (Ok (uri_query (r_uri r), r)).

Definition query_extractor {T} `{Deserialize T} : Extract T := fun r _ _ =>
  now_ready (map_err (fun e => bad_request (bs "invalid query: " ++ e))
    (let? json := query_as_json (default [] (uri_query (r_uri r))) in
     let? v := ok_or (from_str json) (bs "invalid query") in
     Ok (v, r))).

Definition parse_json {T} `{Deserialize T} (b : bytes) : result T Rejection :=
  let? text := ok_or (from_utf8 b) (bad_request (bs "invalid JSON: miniserde error")) in
  ok_or (from_str text) (bad_request (bs "invalid JSON: " ++ json_error)).

Definition json_extractor `{Arrival Tr} {T} `{Deserialize T} (fuel : nat) : Extract T := fun r _ meta =>
  timed_map (fun res =>
      let? b := res in
      let? v := parse_json b in
      Ok (v, with_body empty_body r))
    (collect_body (bs "failed to read JSON body") fuel r meta).
Definition optional_json_extractor `{Arrival Tr} {T} `{Deserialize T} (fuel : nat) : Extract (option T) := fun r _ meta =>
  timed_map (fun res =>
      let? b := res in
      let? v := (match b with [] => Ok None | _ => let? v := parse_json b in Ok (Some v) end) in
      Ok (v, with_body empty_body r))
    (collect_body (bs "failed to read optional JSON body") fuel r meta).

Definition json_into_response {T} `{Serialize T} (v : T) : Resp :=
  insert_header CONTENT_TYPE (bs "application/json") (bytes_into_response (to_string v)).

(** ** Handlers of several arguments

    [handler_impl]: the arguments are extracted in order, each from what the
    one before left of the request; the first rejection is the response. *)
Inductive Extractors : Type -> Type :=
| XNil : Extractors unit
| XCons {A T} : Extract A -> Extractors T -> Extractors (A * T).

Fixpoint extract {T} (xs : Extractors T) (r : Req) (st : option S) (meta : RequestMeta)
    : timed (result T Rejection) :=
  match xs in Extractors T return timed (result T Rejection) with
  | XNil => now_ready (Ok ())
  | XCons x xs' =>
      await? (a, remainder) := x r st meta in
      timed_map (map_ok (fun t => (a, t))) (extract xs' remainder st meta)
  end.
(** The handler itself is a function to a timed value, which starts when the
    last argument is there. *)
Definition handler_call {T R} {I : @IntoResponse L Tr R} (xs : Extractors T) (f : T -> timed R) : Handler :=
  fun r st meta =>
    await (extract xs r st meta) (fun res =>
      match res with
      | Err e => now_ready (into_response e)
      | Ok args => timed_map into_response (f args)
      end).
(** The handler without arguments: the request is not looked at. *)
Definition handler0 {R} {I : @IntoResponse L Tr R} (f : () -> timed R) : Handler :=
  fun _ (_ : option S) _ => timed_map into_response (f ()).
End Extractors.
End Query.

(** ** What a query component stands for

    [encodes text s]: some choice of literal bytes, [+] for a space and percent
    escapes in either case spells [s]. *)
Inductive encodes : bytes -> bytes -> Prop :=
| enc_nil : encodes [] []
| enc_plus t s : encodes t s -> encodes ("+"%byte :: t) (" "%byte :: s)
| enc_escape h l a b t s :
    hex_digit h = Some a -> hex_digit l = Some b -> encodes t s ->
    encodes ("%"%byte :: h :: l :: t) (byte_of_Z (16 * a + b) :: s)
| enc_literal c t s : c <> "+"%byte -> c <> "%"%byte -> encodes t s -> encodes (c :: t) (c :: s).

Lemma hex_digit_range b d : hex_digit b = Some d -> 0 <= d < 16.
Proof. unfold hex_digit, in_range. intros H. bool_cases; simplify_eq; lia. Qed.

Lemma escape_value a b : 0 <= a < 16 -> 0 <= b < 16 -> Z.lor (Z.shiftl a 4) b = 16 * a + b.
Proof.
  intros Ha Hb. rewrite Z.shiftl_mul_pow2 by lia. change (2 ^ 4) with 16.
  rewrite <- Z.add_nocarry_lor; [lia|]. apply Z.bits_inj'. intros n Hn. rewrite Z.land_spec, Z.bits_0.
  destruct (Z.lt_ge_cases n 4).
  - change 16 with (2 ^ 4). by rewrite Z.mul_pow2_bits_low.
  - rewrite (Z.bits_above_log2 b n); [apply andb_false_r | lia |].
    destruct (Z.eq_dec b 0) as [->|]; [simpl; lia|].
    assert (Z.log2 b < 4) by (apply Z.log2_lt_pow2; lia). lia.
Qed.

(** The loop decodes exactly the spellings. *)
Lemma decode_loop_spec n : forall t, (length t <= n)%nat ->
  match decode_loop t with
  | Ok s => encodes t s
  | Err e => e = INVALID_ESCAPE /\ forall s, ~ encodes t s
  end.
Proof.
  induction n as [|n IH]; intros t Hn; destruct t as [|b t]; simpl in *; try lia; try constructor.
  destruct (Byte.eqb b "+") eqn:Ep; [|destruct (Byte.eqb b "%") eqn:Ee].
  - apply eqb_byte_true in Ep as ->. specialize (IH t ltac:(lia)).
    destruct (decode_loop t) as [s|e]; simpl; [by constructor|]. destruct IH as [-> IH].
    split; [done|]. intros s Hs. inversion Hs; subst; [by eapply IH | done].
  - apply eqb_byte_true in Ee as ->.
    destruct t as [|h [|l t]]; simpl.
    + split; [done|]. intros s Hs. by inversion Hs.
    + destruct (hex_digit h); simpl; (split; [done|]); intros s Hs; by inversion Hs.
    + destruct (hex_digit h) as [a|] eqn:Eh; simpl.
      2: { split; [done|]. intros s Hs. inversion Hs; subst; [congruence | done]. }
      destruct (hex_digit l) as [c|] eqn:El; simpl.
      2: { split; [done|]. intros s Hs. inversion Hs; subst; [congruence | done]. }
      simpl in Hn. specialize (IH t ltac:(lia)). destruct (decode_loop t) as [s|e]; simpl.
      * rewrite escape_value by (by eapply hex_digit_range). by constructor.
      * destruct IH as [-> IH]. split; [done|]. intros s Hs. inversion Hs; subst; [by eapply IH | done].
  - apply eqb_byte_false in Ep, Ee. specialize (IH t ltac:(lia)).
    destruct (decode_loop t) as [s|e]; simpl; [by constructor|]. destruct IH as [-> IH].
    split; [done|]. intros s Hs. inversion Hs; subst; try done. by eapply IH.
Qed.

Lemma encodes_det t s : encodes t s -> forall s', encodes t s' -> s = s'.
Proof.
  induction 1; intros s' Hs'; inversion Hs'; subst; try done; f_equal; auto; congruence.
Qed.

Definition component (t s : bytes) : Prop := encodes t s /\ utf8_valid s = true.
Definition component_error (t e : bytes) : Prop :=
  (e = INVALID_ESCAPE /\ forall s, ~ encodes t s) \/
  (e = INVALID_UTF8 /\ exists s, encodes t s /\ utf8_valid s = false).

Lemma decode_component_spec t :
  match decode_query_component t with Ok s => component t s | Err e => component_error t e end.
Proof.
  unfold decode_query_component. pose proof (decode_loop_spec (length t) t ltac:(lia)) as H.
  destruct (decode_loop t) as [s|e]; simpl; [|by left].
  unfold from_utf8. destruct (utf8_valid s) eqn:E; simpl; [done | right; eauto].
Qed.

(** The two halves of a pair. *)
Definition raw_pair (p : bytes) : bytes * bytes := default (p, []) (split_once "=" p).
Definition pair_ok (p : bytes) (kv : bytes * bytes) : Prop :=
  component (fst (raw_pair p)) (fst kv) /\ component (snd (raw_pair p)) (snd kv).

Lemma decode_pair_spec p :
  match decode_pair p with
  | Ok kv => pair_ok p kv
  | Err e => component_error (fst (raw_pair p)) e \/ component_error (snd (raw_pair p)) e
  end.
Proof.
  unfold decode_pair, pair_ok, raw_pair. destruct (default (p, []) (split_once "=" p)) as [rk rv].
  pose proof (decode_component_spec rk) as Hk. pose proof (decode_component_spec rv) as Hv. simpl.
  destruct (decode_query_component rk); simpl; [|by left].
  destruct (decode_query_component rv); simpl; [done | by right].
Qed.

(** ** A reference reader of flat JSON objects *)
Inductive json := JString (s : bytes) | JLiteral (text : bytes).

Definition unescape (c : byte) : option byte :=
  if Byte.eqb c x22 || Byte.eqb c "\" || Byte.eqb c "/" then Some c
  else if Byte.eqb c "b" then Some x08 else if Byte.eqb c "f" then Some x0c
  else if Byte.eqb c "n" then Some x0a else if Byte.eqb c "r" then Some x0d
  else if Byte.eqb c "t" then Some x09 else None.

(** The characters of a string up to its closing quote (byte 34). *)
Fixpoint read_chars (l : bytes) : option (bytes * bytes) :=
  match l with
  | [] => None
  | c :: t =>
      if Byte.eqb c x22 then Some ([], t)
      else if Byte.eqb c "\" then
        match t with
        | [] => None
        | e :: t' =>
            if Byte.eqb e "u" then
              match t' with
              | a :: b :: c :: d :: t'' =>
                  code ← parse_digits 16 127 0 [a; b; c; d];
                  '(s, r) ← read_chars t''; Some (byte_of_Z code :: s, r)
              | _ => None
              end
            else x ← unescape e; '(s, r) ← read_chars t'; Some (x :: s, r)
        end
      else '(s, r) ← read_chars t; Some (c :: s, r)
  end.

Definition expect (c : byte) (l : bytes) : option bytes :=
  match l with x :: t => if Byte.eqb x c then Some t else None | [] => None end.
Definition read_string (l : bytes) : option (bytes * bytes) := t ← expect x22 l; read_chars t.

Fixpoint read_literal (l : bytes) : bytes * bytes :=
  match l with
  | c :: t => if Byte.eqb c "," || Byte.eqb c "}" then ([], l)
              else let '(s, r) := read_literal t in (c :: s, r)
  | [] => ([], [])
  end.
Definition read_value (l : bytes) : option (json * bytes) :=
  match expect x22 l with
  | Some t => '(s, r) ← read_chars t; Some (JString s, r)
  | None =>
      match read_literal l with
      | ([], _) => None
      | (s, r) => Some (JLiteral s, r)
      end
  end.

(** The members up to the closing brace, which ends the text. *)
Fixpoint read_members (fuel : nat) (l : bytes) : option (list (bytes * json)) :=
  match fuel with
  | O => None
  | S fuel' =>
      '(k, l) ← read_string l;
      l ← expect ":" l;
      '(v, l) ← read_value l;
      match expect "," l with
      | Some l' => ms ← read_members fuel' l'; Some ((k, v) :: ms)
      | None => l' ← expect "}" l; match l' with [] => Some [(k, v)] | _ => None end
      end
  end.
Definition read_object (l : bytes) : option (list (bytes * json)) :=
  l ← expect "{" l;
  match expect "}" l with
  | Some [] => Some []
  | _ => read_members (length l) l
  end.

(** [miniserde] prints a string as its JSON string. *)
Class JsonLaws (J : Miniserde) : Prop :=
  read_json_string s rest : utf8_valid s = true -> read_string (json_string s ++ rest) = Some (s, rest).

(** The JSON value a query value denotes: a literal for the three keywords and
    for numbers, the text itself otherwise. *)
Definition json_value (v : bytes) : json :=
  if bytes_eqb v (bs "true") || bytes_eqb v (bs "false") || bytes_eqb v (bs "null") then JLiteral v
  else match parse_i64 v, parse_u64 v, parse_f64 v with
  | Some n, _, _ => JLiteral (print_int n)
  | None, Some n, _ => JLiteral (print_dec n)
  | None, None, Some (Finite neg m e) => JLiteral (print_finite neg m e)
  | None, None, _ => JString v
  end.

(** ** Queries as JSON *)
Section QueryFacts.
Context {J : Miniserde} {JL : JsonLaws J}.

Definition stops (b : byte) : bool := Byte.eqb b "," || Byte.eqb b "}".

Lemma read_literal_app s c rest :
  Forall (fun b => stops b = false) s -> stops c = true -> read_literal (s ++ c :: rest) = (s, c :: rest).
Proof.
  intros Hs Hc. unfold stops in *. induction Hs as [|x s Hx _ IH]; simpl; [by rewrite Hc|].
  by rewrite Hx, IH.
Qed.

Lemma read_value_literal s c rest :
  s <> [] -> Forall (fun b => stops b = false /\ b <> x22) s -> stops c = true ->
  read_value (s ++ c :: rest) = Some (JLiteral s, c :: rest).
Proof.
  intros Hne Hs Hc. unfold read_value. destruct s as [|x s]; [done|].
  assert (expect x22 ((x :: s) ++ c :: rest) = None) as ->.
  { apply Forall_cons in Hs as [[_ Hx] _]. simpl. by rewrite (proj2 (eqb_byte_false x x22) Hx). }
  rewrite read_literal_app; [done | | done]. eapply Forall_impl; [exact Hs | by intros b [? _]].
Qed.

Lemma number_byte_plain b : number_byte b = true -> stops b = false /\ b <> x22.
Proof. destruct b; simpl; intros H; (split; [reflexivity || discriminate H | discriminate]). Qed.

Lemma read_value_number s c rest :
  number_text s -> stops c = true -> read_value (s ++ c :: rest) = Some (JLiteral s, c :: rest).
Proof.
  intros [Hne Hs] Hc. apply read_value_literal; [done | | done].
  eapply Forall_impl; [exact Hs | apply number_byte_plain].
Qed.

Lemma read_value_string s rest :
  utf8_valid s = true -> read_value (json_string s ++ rest) = Some (JString s, rest).
Proof.
  intros Hs. pose proof (read_json_string s rest Hs) as H. unfold read_string in H. unfold read_value.
  destruct (expect x22 (json_string s ++ rest)) as [t|]; [|done]. simpl in *. by rewrite H.
Qed.

Lemma read_query_value v c rest :
  utf8_valid v = true -> stops c = true ->
  read_value (query_value_as_json v ++ c :: rest) = Some (json_value v, c :: rest).
Proof.
  intros Hv Hc. unfold query_value_as_json, json_value.
  destruct (bytes_eqb v (bs "true") || bytes_eqb v (bs "false") || bytes_eqb v (bs "null")) eqn:E.
  - apply orb_true_iff in E as [E|E]; [apply orb_true_iff in E as [E|E]|];
      apply bool_decide_eq_true in E as ->; (apply read_value_literal; [done | by repeat constructor | done]).
  - destruct (parse_i64 v) as [n|]; [apply read_value_number; [apply print_int_text | done]|].
    destruct (parse_u64 v) as [n|] eqn:Eu.
    { apply read_value_number; [|done]. apply print_dec_text.
      apply from_str_radix_range in Eu; unfold U64_MAX in *; lia. }
    destruct (parse_f64 v) as [[neg m e| |]|]; try by apply read_value_string.
    apply read_value_number; [apply print_finite_text | done].
Qed.

Definition member (kv : bytes * bytes) : bytes * json := (fst kv, json_value (snd kv)).

Lemma json_string_nonempty s : utf8_valid s = true -> json_string s <> [].
Proof. intros Hs E. pose proof (read_json_string s [] Hs) as H. by rewrite E in H. Qed.

(** The printed members are read back as the decoded pairs. *)
Lemma json_pairs_read ps : forall o,
  json_pairs true ps = Ok o ->
  exists kvs, Forall2 pair_ok ps kvs /\
    forall k v fuel, utf8_valid k = true -> utf8_valid v = true -> (length ps < fuel)%nat ->
      read_members fuel (json_string k ++ bs ":" ++ query_value_as_json v ++ o ++ bs "}")
        = Some (member (k, v) :: map member kvs).
Proof.
  induction ps as [|p ps IH]; intros o E; simpl in E.
  - injection E as <-. exists []. split; [constructor|]. intros k v fuel Hk Hv Hf.
    destruct fuel as [|fuel]; [lia|]. cbn [read_members]. rewrite read_json_string by done. simpl.
    change (bs "}") with ["}"%byte]. rewrite read_query_value by done. done.
  - pose proof (decode_pair_spec p) as Hp. destruct (decode_pair p) as [[k' v']|]; [|done]. simpl in E.
    destruct (json_pairs true ps) as [o'|] eqn:Eo; [|done]. simpl in E. injection E as <-.
    destruct (IH o' eq_refl) as (kvs & Hkvs & Hread). exists ((k', v') :: kvs).
    split; [by constructor|]. intros k v fuel Hk Hv Hf. destruct fuel as [|fuel]; [lia|].
    cbn [read_members]. rewrite read_json_string by done. simpl.
    rewrite read_query_value by done. simpl. rewrite <- !app_assoc. simpl.
    specialize (Hread k' v' fuel). destruct Hp as [[_ Hk'] [_ Hv']]. simpl in *.
    rewrite <- !app_assoc, Hread by (done || lia). done.
Qed.

Lemma json_pairs_length ps : forall o, json_pairs true ps = Ok o -> (length ps <= length o)%nat.
Proof.
  induction ps as [|p ps IH]; intros o E; simpl in *; [lia|].
  destruct (decode_pair p) as [kv|]; [|done]. simpl in E.
  destruct (json_pairs true ps) as [o'|]; [|done]. specialize (IH o' eq_refl). simpl in E. injection E as <-.
  simpl. rewrite !length_app. simpl. rewrite length_app. lia.
Qed.

(** C10. A query is turned into the JSON object of its decoded pairs, in order, with
    literals for the values that spell one and strings for all others, whatever
    characters they hold; it is refused exactly when a component of a pair is
    not a spelling, or spells something that is not UTF-8. *)
Theorem query_as_json_spec (query : bytes) :
  match query_as_json query with
  | Ok out =>
      exists kvs, Forall2 pair_ok (query_pairs query) kvs /\ read_object out = Some (map member kvs)
  | Err e =>
      exists p, p ∈ query_pairs query /\
        (component_error (fst (raw_pair p)) e \/ component_error (snd (raw_pair p)) e)
  end.
Proof.
  unfold query_as_json. generalize (query_pairs query). intros ps.
  assert (forall ps b, match json_pairs b ps with
    | Ok _ => True
    | Err e => exists p, p ∈ ps /\ (component_error (fst (raw_pair p)) e \/ component_error (snd (raw_pair p)) e)
    end) as Herr.
  { clear ps. induction ps as [|p ps IH]; intros b; simpl; [done|].
    pose proof (decode_pair_spec p) as Hp. destruct (decode_pair p) as [kv|e]; simpl.
    - specialize (IH true). destruct (json_pairs true ps) as [|e]; simpl; [done|].
      destruct IH as (q & Hq & He). exists q. split; [by right | done].
    - exists p. split; [by left | done]. }
  specialize (Herr ps false). destruct (json_pairs false ps) as [o|e] eqn:E; simpl; [|done].
  destruct ps as [|p ps]; simpl in E.
  { injection E as <-. exists []. split; [constructor | done]. }
  pose proof (decode_pair_spec p) as Hp. destruct (decode_pair p) as [[k v]|]; [|done]. simpl in E.
  destruct (json_pairs true ps) as [o'|] eqn:Eo; [|done]. simpl in E. injection E as <-.
  destruct (json_pairs_read _ _ Eo) as (kvs & Hkvs & Hread). exists ((k, v) :: kvs).
  split; [by constructor|]. destruct Hp as [[_ Hk] [_ Hv]]. simpl in Hk, Hv.
  unfold read_object. simpl. rewrite <- !app_assoc. simpl. rewrite <- !app_assoc.
  assert (expect "}" (json_string k ++ ":"%byte :: query_value_as_json v ++ o' ++ bs "}") = None) as Hx.
  { pose proof (read_json_string k (":"%byte :: query_value_as_json v ++ o' ++ bs "}") Hk) as H.
    unfold read_string in H. destruct (json_string k ++ _) as [|x t]; [done|]. simpl in *.
    destruct (Byte.eqb x x22) eqn:Ex; [|done]. apply eqb_byte_true in Ex as ->. done. }
  rewrite Hx. apply (Hread k v); [done | done |]. apply json_pairs_length in Eo.
  rewrite length_app. simpl. rewrite !length_app. lia.
Qed.
End QueryFacts.

(** ** Path values *)
Section PathFacts.

(** A well-typed value of a two-parameter path. *)
Definition in_bounds (lo hi n : Z) : Prop := lo <= n <= hi.

Lemma int_scalar_spec lo hi v : lo <= 0 <= hi ->
  match int_scalar lo hi v with
  | Ok n => in_bounds lo hi n
  | Err rej => rej = bad_request (bs "invalid path parameter: " ++ v)
  end.
Proof.
  intros H0. unfold int_scalar, scalar. destruct (parse_int lo hi v) as [n|] eqn:E; simpl; [|done].
  by apply parse_int_range in E.
Qed.

(** Path parameters are typed: what a handler gets is within the bounds of the
    integer type it asks for, anything else in the path is answered with 400,
    and the printed form of every value of the types is read back as itself. *)
Theorem path_values_typed (lo hi lo' hi' : Z) (names : bytes * bytes) (p : RouteParams) :
  lo <= 0 <= hi -> lo' <= 0 <= hi' ->
  let from_path := @from_path_two Z Z (int_scalar lo hi) (int_scalar lo' hi') in
  match from_path p with
  | Ok (a, b) => length p = 2%nat /\ in_bounds lo hi a /\ in_bounds lo' hi' b
  | Err rej => rej_status rej = BAD_REQUEST
  end /\
  forall a b, in_bounds lo hi a -> in_bounds lo' hi' b ->
    from_path [(fst names, print_int a); (snd names, print_int b)] = Ok (a, b).
Proof.
  intros H1 H2 from_path. split.
  - unfold from_path, from_path_two, params_values.
    destruct p as [|[k1 v1] [|[k2 v2] [|q p]]]; simpl; try done.
    unfold parse_scalar. pose proof (int_scalar_spec lo hi v1 H1) as Ha.
    destruct (int_scalar lo hi v1) as [a|]; simpl; [|by subst].
    pose proof (int_scalar_spec lo' hi' v2 H2) as Hb.
    destruct (int_scalar lo' hi' v2) as [b|]; simpl; [done | by subst].
  - intros a b Ha Hb. unfold from_path, from_path_two, parse_scalar, int_scalar, scalar. simpl.
    by rewrite !parse_print_int.
Qed.

(** Integer parameters at every width of the macro: the values of the type are
    read back from their printed form, and nothing outside them is accepted. *)
Lemma int_path_exact (t : IntType) (name : bytes) (n : Z) :
  int_path t [(name, print_int n)] =
    if bool_decide (fst (int_bounds t) <= n <= snd (int_bounds t)) then Ok n
    else Err (bad_request (bs "invalid path parameter: " ++ print_int n)).
Proof.
  unfold int_path, from_path_one, parse_scalar, int_scalar, scalar. simpl.
  assert (fst (int_bounds t) <= 0 <= snd (int_bounds t)) as H0 by (destruct t; simpl; lia).
  case_bool_decide as Hn; [by rewrite parse_print_int|].
  destruct (parse_int _ _ _) as [m|] eqn:E; [|done]. exfalso. apply Hn.
  apply parse_int_range in E as Hm; [|done]. apply parse_int_value in E; [|done]. by rewrite <- E.
Qed.
End PathFacts.

(** ** JSON bodies *)
Section JsonFacts.
Context {J : Miniserde} {L : HttpLib} {Tr S T : Type} {AR : Arrival Tr} {D : Deserialize T}.
Abbreviation Req := (Request (RequestBody Tr)).

(** The two messages of the extractors differ, their time and their verdict do
    not. *)
Lemma collect_body_cases (m m' : bytes) fuel (r : Req) meta :
  match collect_body m fuel r meta with
  | None => collect_body m' fuel r meta = None
  | Some (d, Ok b) => collect_body m' fuel r meta = Some (d, Ok b)
  | Some (d, Err rej) =>
      (rej_status rej = PAYLOAD_TOO_LARGE /\ collect_body m' fuel r meta = Some (d, Err rej)) \/
      (rej = bad_request m /\ collect_body m' fuel r meta = Some (d, Err (bad_request m')))
  end.
Proof.
  unfold collect_body. destruct (collect_timed _ _ _ _ _ _) as [[d [b|e]]|]; simpl; try done.
  unfold collect_rejection. destruct (body_limit_from_collection e); [left | right]; done.
Qed.

(** The two JSON extractors: an empty body is [None] to the optional one; any
    other body gets the same value, or the same rejection up to the text for a
    body that cannot be read, from both, at the same time.  A rejection is 413
    or 400, and the body is consumed. *)
Theorem json_extractors_agree fuel (r : Req) (st : option S) (meta : RequestMeta) :
  match collect_body (bs "failed to read JSON body") fuel r meta with
  | None =>
      json_extractor (T := T) fuel r st meta = None /\ optional_json_extractor (T := T) fuel r st meta = None
  | Some (d, Ok []) =>
      optional_json_extractor (T := T) fuel r st meta = Some (d, Ok (None, with_body empty_body r))
  | Some (d, res) =>
      exists j o, json_extractor (T := T) fuel r st meta = Some (d, j) /\
        optional_json_extractor (T := T) fuel r st meta = Some (d, o) /\
        match j, o with
        | Ok (v, rest), Ok (v', rest') => v' = Some v /\ rest = rest' /\ r_body rest = empty_body /\ is_ok res = true
        | Err e, Err e' =>
            rej_status e = rej_status e' /\ (rej_status e = BAD_REQUEST \/ rej_status e = PAYLOAD_TOO_LARGE) /\
            (rej_message e = rej_message e' \/ is_ok res = false /\ e = bad_request (bs "failed to read JSON body"))
        | _, _ => False
        end
  end.
Proof.
  pose proof (collect_body_cases (bs "failed to read JSON body") (bs "failed to read optional JSON body") fuel r meta) as H.
  unfold json_extractor, optional_json_extractor.
  destruct (collect_body (bs "failed to read JSON body") fuel r meta) as [[d [b|rej]]|]; simpl.
  - rewrite H. destruct b as [|c b]; simpl; [done|].
    unfold parse_json. destruct (from_utf8 (c :: b)) as [text|]; simpl.
    + destruct (from_str text) as [v|]; simpl; eexists _, _; (split; [done|]); (split; [done|]); simpl; naive_solver.
    + eexists _, _; (split; [done|]); (split; [done|]). simpl. naive_solver.
  - destruct H as [[H1 H]|[-> H]]; rewrite H; simpl; eexists _, _; (split; [done|]); (split; [done|]); simpl; naive_solver.
  - by rewrite H.
Qed.
End JsonFacts.

(** ** A handler behind the router *)
Section EndToEnd.
Context {L : HttpLib} {Tr S R : Type} {AR : Arrival Tr} {I : @IntoResponse L Tr R}.
Context (mi : Matchit) (ml : MatchitLaws mi).
Abbreviation Req := (Request (RequestBody Tr)).
Abbreviation Resp := (@Response L (@ResponseBody Tr)).

(** [async fn (State(s), bytes)] as an endpoint with a body limit and perhaps a
    deadline. *)
Definition state_and_body (fuel : nat) : @Extractors L Tr S (S * (bytes * unit)) :=
  XCons state_extractor (XCons (bytes_extractor fuel) XNil).
Definition limited_endpoint (fuel : nat) (lim : Z) (deadline : option Duration) (f : S * (bytes * unit) -> timed R)
    : Endpoint :=
  mkEndpoint (handler_call (state_and_body fuel) f) (Some lim) deadline.

(** Bodies that arrive whole and fit. *)
Definition acceptable (lim : Z) (s : BodyScript Tr BoxError) : bool :=
  bool_decide (zlen (data s) <= lim) && forallb (fun e => match e with EError _ => false | _ => true end) s.

Lemma acceptable_spec lim s : acceptable lim s = true <-> fine s /\ zlen (data s) <= lim.
Proof.
  assert (fine s <-> forallb (fun e => match e with EError _ => false | _ => true end) s = true) as Hfine.
  { unfold fine. rewrite forallb_forall, Forall_forall. setoid_rewrite list_elem_of_In.
    split; intros H x Hx; specialize (H x Hx); by destruct x. }
  unfold acceptable. rewrite andb_true_iff, bool_decide_eq_true, <- Hfine. tauto.
Qed.

Lemma collected_acceptable lim s (r : result bytes (BodyCollectionError BoxError Empty_set)) :
  collected lim s r -> if acceptable lim s then r = Ok (data s) else is_ok r = false.
Proof.
  intros Hr. destruct (acceptable lim s) eqn:Ea.
  - apply acceptable_spec in Ea as [Hfine Hz]. destruct r as [b|[x|l| |[]]]; simpl in Hr.
    + by destruct Hr as [-> _].
    + destruct Hr as (pre & post & -> & _). apply Forall_app in Hfine as [_ Hfine].
      by apply Forall_cons in Hfine as [[] _].
    + destruct Hr as (_ & pre & d & post & -> & _ & Hz' & Hrc). exfalso.
      rewrite Hrc in Hz'. rewrite data_app, data_cons, !zlen_app in Hz. simpl in Hz.
      unfold saturating_add in Hz'. pose proof (zlen_nonneg (data post)). lia.
    + done.
  - destruct r as [b|e]; [|done]. destruct Hr as (-> & Hz & Hfine).
    by rewrite (proj2 (acceptable_spec lim s)) in Ea.
Qed.

(** The outcome of reading a body under a limit: the bytes when all of them
    have arrived, or a rejection no later than that. *)
Lemma bytes_extractor_limited (r : Req) (s : BodyScript Tr BoxError) fuel lim (st : option S) p :
  r_body r = Raw s -> 0 <= lim < USIZE_MAX -> (length s < fuel)%nat ->
  let out := bytes_extractor fuel (with_body (limit_body lim (r_body r)) r) st (mkMeta p (Some lim)) in
  if acceptable lim s
  then exists rest, out = timed_map (fun _ => Ok (data s, rest)) (arrived s)
  else exists rej (t : timed ()), out = timed_map (fun _ => Err rej) t /\
         forall a, arrived s = Some (a, ()) -> exists d, t = Some (d, ()) /\ 0 <= d <= a.
Proof.
  intros Eb Hl Hf. unfold bytes_extractor, collect_body, limit_body. rewrite Eb. cbn [r_body with_body meta_body_limit from_option].
  change (id lim) with lim.
  destruct (collect_loop_spec (JE := Empty_set) fuel lim [] s) as (res & E1 & Hr);
    [lia | constructor | unfold zlen; simpl; lia|].
  change (collect_loop fuel lim 0 [] s = Some res) in E1. simpl in Hr. apply collected_acceptable in Hr.
  pose proof (collect_arrival fuel lim 0 [] s Hf) as Ht.
  destruct (collect_timed _ fuel lim 0 [] _) as [[d r']|] eqn:E.
  - apply collect_timed_value in E. rewrite collect_limited, E1 in E. simpl in E. injection E as <-.
    destruct Ht as (H0 & H1 & H2). destruct (acceptable lim s).
    + subst res. rewrite (H2 eq_refl). by eexists.
    + destruct res as [b|e]; [done|].
      assert (exists e', relabel (Err e) = Err e') as [e' ->] by (destruct e; by eexists).
      eexists _, (Some (d, ())). split; [done|]. intros a Ha. exists d. split; [done|]. specialize (H1 _ _ Ha). lia.
  - rewrite Ht. destruct (acceptable lim s); [by exists r|].
    exists (bad_request []), None. split; [done|]. by intros a [=].
Qed.

(** What the endpoint does with a body, before the router's policies. *)
Lemma limited_endpoint_call fuel lim deadline f (st : S) (request : Req) (s : BodyScript Tr BoxError) :
  r_body request = Raw s -> 0 <= lim < USIZE_MAX -> (length s < fuel)%nat ->
  if acceptable lim s
  then endpoint_call (limited_endpoint fuel lim deadline f) request (Some st) [] =
         with_deadline deadline (await (arrived s) (fun _ => timed_map into_response (f (st, (data s, ())))))
  else exists (rej : Rejection) (t : timed ()),
         endpoint_call (limited_endpoint fuel lim deadline f) request (Some st) [] =
           with_deadline deadline (timed_map (fun _ => into_response rej) t) /\
         forall a, arrived s = Some (a, ()) -> exists d, t = Some (d, ()) /\ 0 <= d <= a.
Proof.
  intros Eb Hl Hf. pose proof (bytes_extractor_limited request s fuel lim (Some st) [] Eb Hl Hf) as H.
  unfold endpoint_call. cbn [limited_endpoint body_limit timeout handler].
  unfold handler_call, state_and_body. cbn [extract]. unfold state_extractor, await_ok.
  rewrite await_now, await_map. cbn zeta in H.
  destruct (acceptable lim s).
  - destruct H as [rest ->]. by destruct (arrived s) as [[d []]|]; simpl; rewrite ?Z.add_0_r.
  - destruct H as (rej & t & -> & Ht). exists rej, t. split; [|done].
    by destruct t as [[d []]|]; simpl; rewrite ?Z.add_0_r.
Qed.

(** A request for a registered path and method reaches the endpoint. *)
Lemma call_registered (r : Router mi) (request : Req) (ms : MethodRouter) (e : @Endpoint L Tr S) :
  wf mi r -> is_preflight mi r request = false ->
  static (uri_path (r_uri request)) -> route_of (uri_path (r_uri request)) (routes mi r) = Some ms ->
  ms !! r_method request = Some e ->
  call_boxed mi r request = Some (cors_applied mi r request (endpoint_call e request (state mi r) [])).
Proof.
  intros Hw Hpre Hs Hr Hm. destruct (route_of_lookup _ _ _ Hr) as [i Hi].
  assert (m_at mi (matcher mi r) (uri_path (r_uri request)) = Some (i, [])) as Hat.
  { apply (at_static mi ml _ _ _ _ (wf_matcher mi _ Hw)); [|done]. by rewrite list_lookup_fmap, Hi. }
  rewrite (call_plain mi r request Hpre), Hat, Hi. simpl. unfold routed. by rewrite Hm.
Qed.

(** C8. From the router to the handler and back: a request for a registered path
    and method reaches the handler with the router's state and exactly the
    bytes of its body, once all of them have arrived, when they arrive whole and
    fit the limit, and the response is the handler's; otherwise the handler is
    not run, whatever it would do, and the response is there no later than the
    body.  A deadline covers both the arrival of the body and the handler. *)
Theorem handler_receives_state_and_body (r : Router mi) (request : Req) (ms : MethodRouter)
    (fuel : nat) (lim : Z) (deadline : option Duration) (f : S * (bytes * unit) -> timed R) (st : S)
    (s : BodyScript Tr BoxError) :
  wf mi r -> is_preflight mi r request = false ->
  static (uri_path (r_uri request)) -> route_of (uri_path (r_uri request)) (routes mi r) = Some ms ->
  ms !! r_method request = Some (limited_endpoint fuel lim deadline f) ->
  state mi r = Some st -> r_body request = Raw s -> 0 <= lim < USIZE_MAX -> (length s < fuel)%nat ->
  if acceptable lim s
  then call_boxed mi r request = Some (cors_applied mi r request (with_deadline deadline
         (await (arrived s) (fun _ => timed_map into_response (f (st, (data s, ())))))))
  else exists (rej : Rejection) (t : timed ()),
         call_boxed mi r request =
           Some (cors_applied mi r request (with_deadline deadline (timed_map (fun _ => into_response rej) t))) /\
         forall a, arrived s = Some (a, ()) -> exists d, t = Some (d, ()) /\ 0 <= d <= a.
Proof.
  intros Hw Hpre Hs Hr Hm Hst Eb Hl Hf. rewrite (call_registered r request ms _ Hw Hpre Hs Hr Hm), Hst.
  pose proof (limited_endpoint_call fuel lim deadline f st request s Eb Hl Hf) as H.
  destruct (acceptable lim s); [by rewrite H|]. destruct H as (rej & t & -> & Ht). by exists rej, t.
Qed.

(** C9. A slow client cannot hold an endpoint with a deadline: if its body, which
    would be accepted, has not arrived by then (perhaps it never does), the
    response is 408 at exactly the deadline and does not depend on the handler;
    and whatever the body, there is a response by the deadline. *)
Theorem slow_body_times_out (request : Req) (fuel : nat) (lim d : Z) (f : S * (bytes * unit) -> timed R)
    (st : S) (s : BodyScript Tr BoxError) :
  0 <= d -> r_body request = Raw s -> 0 <= lim < USIZE_MAX -> (length s < fuel)%nat ->
  (exists t resp, endpoint_call (limited_endpoint fuel lim (Some d) f) request (Some st) [] = Some (t, resp) /\ t <= d) /\
  (acceptable lim s = true -> (forall args t x, f args = Some (t, x) -> 0 <= t) ->
   (forall a, arrived s = Some (a, ()) -> d < a) ->
   endpoint_call (limited_endpoint fuel lim (Some d) f) request (Some st) [] = Some (d, deadline_exceeded)).
Proof.
  intros Hd Eb Hl Hf. split.
  - unfold endpoint_call. cbn [limited_endpoint timeout].
    destruct (handler _ _ _ _) as [[t x]|]; simpl; [destruct (t <=? d) eqn:E; bool_hyps|];
      eexists _, _; (split; [done|]); lia.
  - intros Ha Hft Hlate. pose proof (limited_endpoint_call fuel lim (Some d) f st request s Eb Hl Hf) as H.
    rewrite Ha in H. rewrite H. destruct (arrived s) as [[a []]|] eqn:Ea; [|done].
    specialize (Hlate a eq_refl). rewrite await_some. destruct (f (st, (data s, ()))) as [[t x]|] eqn:Ef; [|done].
    apply Hft in Ef. simpl. by rewrite (proj2 (Z.leb_gt _ _)) by lia.
Qed.
End EndToEnd.

(** ** Concrete runs *)
Section Samples.
Import RefHttp.

(** A JSON printer that escapes quotes, backslashes and control bytes. *)
Definition escape_byte (c : byte) : bytes :=
  if Byte.eqb c x22 || Byte.eqb c "\" then ["\"%byte; c]
  else if bz c <? 32 then bs "\u00" ++ [digit_char (bz c / 16); digit_char (bz c mod 16)]
  else [c].
#[local] Instance sample_miniserde : Miniserde := {|
  json_string s := [x22] ++ concat (map escape_byte s) ++ [x22];
  json_error := bs "miniserde error"
|}.

Lemma read_escaped s rest : read_chars (concat (map escape_byte s) ++ x22 :: rest) = Some (s, rest).
Proof.
  induction s as [|c s IH]; [done|]. simpl. rewrite <- app_assoc.
  assert (forall t, read_chars (escape_byte c ++ t) = '(s, r) ← read_chars t; Some (c :: s, r)) as Hc.
  { intros t. by destruct c. }
  by rewrite Hc, IH.
Qed.

#[local] Instance sample_json_laws : JsonLaws sample_miniserde.
Proof. intros s rest _. unfold read_string. simpl. rewrite <- app_assoc. apply read_escaped. Qed.

Lemma query_as_json_spec_witness :
  exists out kvs, query_as_json (bs "q=%22a+b%22,&page=2&&f") = Ok out /\
    Forall2 pair_ok (query_pairs (bs "q=%22a+b%22,&page=2&&f")) kvs /\
    read_object out = Some (map member kvs).
Proof.
  pose proof (query_as_json_spec (bs "q=%22a+b%22,&page=2&&f")) as H.
  destruct (query_as_json (bs "q=%22a+b%22,&page=2&&f")) as [out|e] eqn:E.
  - destruct H as (kvs & H1 & H2). by exists out, kvs.
  - exfalso. vm_compute in E. discriminate E.
Defined.

Lemma path_values_typed_witness :
  @from_path_two Z Z (int_scalar 0 255) (int_scalar (-128) 127) [(bs "a", bs "255"); (bs "b", bs "-128")]
    = Ok (255, -128).
Proof.
  apply (proj2 (path_values_typed 0 255 (-128) 127 (bs "a", bs "b") [] ltac:(lia) ltac:(lia))
    255 (-128)); unfold in_bounds; lia.
Defined.

Definition echo (x : nat * (bytes * unit)) : timed (result (@Response lib (@ResponseBody unit)) Rejection) :=
  Some (1, Ok (bytes_into_response (fst (snd x)))).
Definition echo_router : @Router lib unit nat sample_matchit :=
  mkRouter sample_matchit [(bs "/a", {[ POST := limited_endpoint 9 4 None echo ]})] [bs "/a"] None (Some 7%nat) None.

Lemma handler_receives_state_and_body_witness :
  exists f, call_boxed sample_matchit echo_router
      (sample_request POST (bs "/a") (Raw [EFrame (Data (bs "abc"))])) = Some f /\
    exists t resp, f = Some (t, resp) /\ rs_body resp = RFull (bs "abc").
Proof.
  pose proof (handler_receives_state_and_body sample_matchit sample_matchit_laws echo_router
    (sample_request POST (bs "/a") (Raw [EFrame (Data (bs "abc"))])) {[ POST := limited_endpoint 9 4 None echo ]}
    9 4 None echo 7%nat [EFrame (Data (bs "abc"))]) as H.
  eexists. split.
  - apply H.
    + split; [repeat constructor; by intros ?%not_elem_of_nil | reflexivity].
    + reflexivity.
    + split; vm_compute; intros Hin; repeat (apply elem_of_cons in Hin as [Hin|Hin]; [discriminate Hin|]);
        by apply not_elem_of_nil in Hin.
    + reflexivity.
    + reflexivity.
    + reflexivity.
    + reflexivity.
    + split; [lia | reflexivity].
    + simpl. lia.
  - eexists _, _. split; reflexivity.
Defined.

(** A body of which the second half is five nanoseconds late. *)
Lemma slow_body_times_out_witness :
  endpoint_call (limited_endpoint 9 4 (Some 3) echo)
      (sample_request POST (bs "/a") (Raw [EFrame (Data (bs "ab")); EPending; EFrame (Data (bs "c"))])) (Some 7%nat) []
    = Some (3, deadline_exceeded).
Proof.
  refine (proj2 (slow_body_times_out
    (sample_request POST (bs "/a") (Raw [EFrame (Data (bs "ab")); EPending; EFrame (Data (bs "c"))]))
    9 4 3 echo 7%nat [EFrame (Data (bs "ab")); EPending; EFrame (Data (bs "c"))] _ _ _ _) _ _ _).
  - lia.
  - reflexivity.
  - split; [lia | reflexivity].
  - simpl. lia.
  - reflexivity.
  - intros args t x [= <- _]. lia.
  - intros a [= <-]. reflexivity.
Defined.
End Samples.
End WebExtract.
