(* ===== verification/WebSse.v ===== *)
(** * Server-sent events ([h12tiny-web], [lib.rs])

    [crates/h12tiny-web/src/lib.rs]: events and their wire format, the stream
    that inserts keepalive comments, and the streaming response.  [Client] is a
    reference reader of the event-stream format as the HTML standard defines
    it; the theorems read the encoder through it.  Timers are instants; [None]
    from a builder is a panic. *)

From Stdlib Require Import ZArith Lia String.
From Stdlib Require Import Strings.Byte.
From stdpp Require Import base option list.
From S2P Require Import Prelude Bytes HttpLib Stream BodyUtil Numbers WebRouter.

Open Scope Z_scope.

Module WebSse.
Import BodyUtil.BodyUtil Numbers.Numbers WebRouter.WebRouter.

(** ** Events *)
Record Event := mkEvent {
  ev_data : option bytes;
  ev_event : option bytes;
  ev_id : option bytes;
  ev_retry : option Z;
  ev_comments : list bytes
}.

Definition event_new : Event := mkEvent None None None None [].
Definition set_data (d : bytes) (e : Event) : Event :=
  mkEvent (Some d) (ev_event e) (ev_id e) (ev_retry e) (ev_comments e).
Definition set_event (t : bytes) (e : Event) : Event :=
  mkEvent (ev_data e) (Some t) (ev_id e) (ev_retry e) (ev_comments e).
Definition set_id (i : bytes) (e : Event) : Event :=
  mkEvent (ev_data e) (ev_event e) (Some i) (ev_retry e) (ev_comments e).
Definition set_retry (ms : Z) (e : Event) : Event :=
  mkEvent (ev_data e) (ev_event e) (ev_id e) (Some ms) (ev_comments e).

(** [comment.contains(['\n', '\r'])]. *)
Definition has_newline (l : bytes) : bool := contains x0a l || contains x0d l.
Definition comment (c : bytes) (e : Event) : option Event :=
  if has_newline c then None
  else Some (mkEvent (ev_data e) (ev_event e) (ev_id e) (ev_retry e) (ev_comments e ++ [c])).

Definition line (prefix text : bytes) : bytes := prefix ++ text ++ [x0a].
Definition field (prefix : bytes) (text : option bytes) : bytes :=
  match text with Some t => line prefix t | None => [] end.

Definition encode (e : Event) : bytes :=
  concat (map (line (bs ":")) (ev_comments e)) ++
  match ev_data e with
  | Some d => concat (map (line (bs "data: ")) (split_on x0a d))
  | None => []
  end ++
  field (bs "event: ") (ev_event e) ++
  field (bs "id: ") (ev_id e) ++
  field (bs "retry: ") (print_dec <$> ev_retry e) ++
  [x0a].

(** ** Keepalive *)
Record KeepAlive := mkKeepAlive { ka_event : Event; ka_interval : Duration }.

Definition with_event (e : Event) (k : KeepAlive) : KeepAlive := mkKeepAlive e (ka_interval k).
Definition keep_alive_new : option KeepAlive :=
  e ← comment [] event_new; Some (mkKeepAlive e (15 * 10 ^ 9)).
Definition keep_alive_default : option KeepAlive := keep_alive_new.
Definition event_value (k : KeepAlive) : Event := ka_event k.
Definition interval (d : Duration) (k : KeepAlive) : option KeepAlive :=
  if d =? 0 then None else Some (mkKeepAlive (ka_event k) d).
Definition text (t : bytes) (k : KeepAlive) : option KeepAlive :=
  e ← comment t event_new; Some (with_event e k).

(** Streams of items, and a stream that plays a script. *)
Class ItemStream (St I : Type) := poll_next : St -> poll (option I) * St.
Definition StreamScript (I : Type) : Type := list (option I).
#[export] Instance script_stream {I} : ItemStream (StreamScript I) I := fun s =>
  match s with
  | [] => (Ready None, [])
  | None :: s' => (Pending, s')
  | Some i :: s' => (Ready (Some i), s')
  end.

(** The items of a response: events, or results of events. *)
Class IntoSseEvent (I : Type) := into_sse_event : I -> result Event BoxError.
Class KeepAliveItem (I : Type) := keep_alive : Event -> I.
#[export] Instance event_into_sse : IntoSseEvent Event := Ok.
#[export] Instance event_keep_alive : KeepAliveItem Event := fun e => e.
#[export] Instance result_into_sse : IntoSseEvent (result Event bytes) := map_err Transport.
#[export] Instance result_keep_alive : KeepAliveItem (result Event bytes) := Ok.

Section Keep.
Context {St I : Type} `{ItemStream St I} `{KeepAliveItem I}.

Record KeepAliveStream := mkKeepAliveStream { kas_inner : St; kas_fires : Z; kas_policy : KeepAlive }.

Definition keep_alive_stream_new (inner : St) (k : KeepAlive) (now : Z) : KeepAliveStream :=
  mkKeepAliveStream inner (now + ka_interval k) k.

(** The timer starts again from [now]. *)
Definition reset_timer (now : Z) (s : KeepAliveStream) : KeepAliveStream :=
  mkKeepAliveStream (kas_inner s) (now + ka_interval (kas_policy s)) (kas_policy s).
Definition kas_poll_next (now : Z) (s : KeepAliveStream) : poll (option I) * KeepAliveStream :=
  let '(r, inner) := poll_next (kas_inner s) in
  let same := mkKeepAliveStream inner (kas_fires s) (kas_policy s) in
  let reset := reset_timer now same in
  match r with
  | Ready (Some item) => (Ready (Some item), reset)
  | Ready None => (Ready None, same)
  | Pending =>
      if kas_fires s <=? now then (Ready (Some (keep_alive (event_value (kas_policy s)))), reset)
      else (Pending, same)
  end.

(** Polling at the given instants, up to the end of the stream. *)
Fixpoint kas_run (times : list Z) (s : KeepAliveStream) : list (Z * poll (option I)) :=
  match times with
  | [] => []
  | t :: times' =>
      let '(r, s') := kas_poll_next t s in
      (t, r) :: match r with Ready None => [] | _ => kas_run times' s' end
  end.
End Keep.
Arguments KeepAliveStream : clear implicits.

(** [Sse] around a stream, and around the same stream with keepalives. *)
Record Sse (S : Type) := Sse_new { sse_stream : S }.
Arguments Sse_new {S} _.
Arguments sse_stream {S} _.
Definition sse_keep_alive {S} (k : KeepAlive) (now : Z) (s : Sse S) : Sse (KeepAliveStream S) :=
  Sse_new (keep_alive_stream_new (sse_stream s) k now).

(** ** The response *)
Section Respond.
Context {L : HttpLib} {Tr : Type}.

(** The frames of a stream of items. *)
Definition sse_event {I} `{IntoSseEvent I} (i : option I) : body_event Tr BoxError :=
  match i with
  | None => EPending
  | Some i => match into_sse_event i with Ok e => EFrame (Data (encode e)) | Err x => EError x end
  end.

Definition sse_into_response {I} `{IntoSseEvent I} (s : StreamScript I) : @Response L (@ResponseBody Tr) :=
  insert_header CACHE_CONTROL (bs "no-cache")
    (insert_header CONTENT_TYPE (bs "text/event-stream")
       (mkResponse OK HTTP_11 hm_new (RStream (map sse_event s)))).
End Respond.

(** ** A reference reader *)

(** Lines end in LF, CR or CR LF; an unfinished last line is dropped. *)
Fixpoint lines (cur : bytes) (l : bytes) : list bytes :=
  match l with
  | [] => []
  | c :: t =>
      if Byte.eqb c x0a then cur :: lines [] t
      else if Byte.eqb c x0d then
        match t with
        | d :: t' => if Byte.eqb d x0a then cur :: lines [] t' else cur :: lines [] t
        | [] => [cur]
        end
      else lines (cur ++ [c]) t
  end.

Record Message := mkMessage { m_type : bytes; m_data : bytes; m_id : bytes }.
Record Client := mkClient { c_data : bytes; c_type : bytes; c_id : bytes; c_retry : option Z; c_out : list Message }.
Definition client_new : Client := mkClient [] [] [] None [].

(** A field of an event. *)
Definition process_field (name value : bytes) (c : Client) : Client :=
  if bytes_eqb name (bs "event") then mkClient (c_data c) value (c_id c) (c_retry c) (c_out c)
  else if bytes_eqb name (bs "data") then mkClient (c_data c ++ value ++ [x0a]) (c_type c) (c_id c) (c_retry c) (c_out c)
  else if bytes_eqb name (bs "id") then
    if contains x00 value then c else mkClient (c_data c) (c_type c) value (c_retry c) (c_out c)
  else if bytes_eqb name (bs "retry") then
    if forallb (in_range 48 57) value && negb (bytes_eqb value [])
    then mkClient (c_data c) (c_type c) (c_id c) (Some (digits_value value)) (c_out c) else c
  else c.

(** An empty line: the message is delivered if there is data. *)
Definition dispatch (c : Client) : Client :=
  match c_data c with
  | [] => mkClient [] [] (c_id c) (c_retry c) (c_out c)
  | d => mkClient [] [] (c_id c) (c_retry c)
           (c_out c ++ [mkMessage (match c_type c with [] => bs "message" | t => t end)
                          (removelast d) (c_id c)])
  end.

Definition process_line (c : Client) (l : bytes) : Client :=
  match l with
  | [] => dispatch c
  | x :: _ =>
      if Byte.eqb x ":" then c
      else match split_once ":" l with
      | None => process_field l [] c
      | Some (name, value) =>
          process_field name (match value with x :: v => if Byte.eqb x " " then v else value | [] => [] end) c
      end
  end.

Definition client_read (c : Client) (wire : bytes) : Client := fold_left process_line (lines [] wire) c.

(** ** Reading what is written *)
Definition plain (l : bytes) : Prop := (x0a ∉ l) /\ (x0d ∉ l).

Lemma has_newline_plain l : has_newline l = false -> plain l.
Proof.
  unfold has_newline, plain. intros [H1 H2]%orb_false_iff.
  split; rewrite <- contains_spec; congruence.
Qed.

Lemma lines_plain t rest : plain t -> forall cur, lines cur (t ++ x0a :: rest) = (cur ++ t) :: lines [] rest.
Proof.
  intros [Hn Hr]. induction t as [|c t IH]; intros cur; simpl; [by rewrite app_nil_r|].
  apply not_elem_of_cons in Hn as [Hc Hn]. apply not_elem_of_cons in Hr as [Hc' Hr].
  rewrite (proj2 (eqb_byte_false c x0a)), (proj2 (eqb_byte_false c x0d)) by congruence.
  rewrite IH by done. by rewrite <- app_assoc.
Qed.

Lemma client_read_line c t rest : plain t -> client_read c (t ++ x0a :: rest) = client_read (process_line c t) rest.
Proof. intros Ht. unfold client_read. by rewrite lines_plain. Qed.

Lemma unbroken_app a b : plain a -> plain b -> plain (a ++ b).
Proof. unfold plain. rewrite !elem_of_app. tauto. Qed.

Lemma plain_bs s : has_newline (bs s) = false -> plain (bs s).
Proof. apply has_newline_plain. Qed.

(** One line with a known prefix. *)
Lemma client_read_prefix c prefix t rest :
  plain prefix -> plain t -> client_read c (line prefix t ++ rest) = client_read (process_line c (prefix ++ t)) rest.
Proof.
  intros Hp Ht. unfold line. rewrite <- !app_assoc. simpl. rewrite app_assoc.
  apply client_read_line. by apply unbroken_app.
Qed.

Lemma client_read_comments c cs rest :
  Forall plain cs -> client_read c (concat (map (line (bs ":")) cs) ++ rest) = client_read c rest.
Proof.
  induction 1 as [|t cs Ht _ IH]; [done|]. cbn [map concat]. rewrite <- app_assoc, client_read_prefix by (done || by apply plain_bs).
  apply IH.
Qed.

Lemma client_read_data ls rest : forall c,
  Forall plain ls ->
  client_read c (concat (map (line (bs "data: ")) ls) ++ rest) =
    client_read (mkClient (c_data c ++ concat (map (fun l => l ++ [x0a]) ls)) (c_type c) (c_id c) (c_retry c) (c_out c)) rest.
Proof.
  induction ls as [|t ls IH]; intros c Hls; cbn [map concat]; [rewrite app_nil_r; by destruct c|].
  apply Forall_cons in Hls as [Ht Hls]. rewrite <- app_assoc, client_read_prefix by (done || by apply plain_bs).
  rewrite IH by done. simpl. by rewrite <- !app_assoc.
Qed.

(** A field that may be absent; [f] is what reading it does. *)
Lemma client_read_field c name t f rest :
  plain name -> (forall v, t = Some v -> plain v /\ process_line c (name ++ v) = f v) ->
  client_read c (field name t ++ rest) = client_read (match t with Some v => f v | None => c end) rest.
Proof.
  intros Hn Ht. destruct t as [v|]; [|done]. destruct (Ht v eq_refl) as [Hv <-]. by apply client_read_prefix.
Qed.

(** ** Events a client can read

    The texts hold no line breaks where the format has no room for them. *)
Record clean (e : Event) : Prop := {
  clean_data d : ev_data e = Some d -> x0d ∉ d;
  clean_event t : ev_event e = Some t -> plain t;
  clean_id i : ev_id e = Some i -> plain i /\ x00 ∉ i;
  clean_retry r : ev_retry e = Some r -> 0 <= r;
  clean_comments : Forall plain (ev_comments e)
}.

(** What an event does to a client. *)
Definition deliver (c : Client) (e : Event) : Client :=
  let id := default (c_id c) (ev_id e) in
  mkClient [] [] id (match ev_retry e with Some r => Some r | None => c_retry c end)
    (c_out c ++ match ev_data e with
                | Some d => [mkMessage (match ev_event e with Some (x :: t) => x :: t | _ => bs "message" end) d id]
                | None => []
                end).

Lemma join_lines ls : ls <> [] -> concat (map (fun l => l ++ [x0a]) ls) = join_with x0a ls ++ [x0a].
Proof.
  induction ls as [|l ls IH]; [done|]. intros _. simpl. destruct ls as [|l' ls].
  - simpl. by rewrite app_nil_r.
  - rewrite IH by done. rewrite <- !app_assoc. simpl. done.
Qed.

Lemma dispatch_data d ty id r out :
  dispatch (mkClient (d ++ [x0a]) ty id r out) =
    mkClient [] [] id r (out ++ [mkMessage (match ty with [] => bs "message" | t => t end) d id]).
Proof.
  unfold dispatch. cbn [c_data c_type c_id c_retry c_out].
  destruct (d ++ [x0a]) as [|x l] eqn:El; [by destruct d|].
  assert (removelast (x :: l) = d) as -> by (rewrite <- El; apply removelast_last). by destruct ty.
Qed.

(** The lines of data without carriage returns. *)
Lemma data_pieces_plain d : x0d ∉ d -> Forall plain (split_on x0a d).
Proof.
  intros Hd. pose proof (split_on_pieces x0a d) as Hp. rewrite Forall_forall in Hp |- *.
  intros p Hin. split; [by apply Hp|]. intros Hx. apply Hd. rewrite <- (join_split x0a d).
  clear -Hin Hx. induction (split_on x0a d) as [|q ps IH]; [by apply not_elem_of_nil in Hin|].
  apply elem_of_cons in Hin as [->|Hin].
  - simpl. destruct ps; [done|]. apply elem_of_app. by left.
  - simpl. destruct ps; [by apply not_elem_of_nil in Hin|]. apply elem_of_app. right. right. by apply IH.
Qed.

Lemma client_read_event c e rest :
  clean e -> c_data c = [] -> c_type c = [] ->
  client_read c (encode e ++ rest) = client_read (deliver c e) rest.
Proof.
  intros [Hd Ht Hi Hr Hc] Ed Et. destruct c as [cd ct ci cr co]. simpl in Ed, Et. subst cd ct.
  unfold encode. rewrite <- !app_assoc, client_read_comments by done.
  set (data := match ev_data e with Some d => d ++ [x0a] | None => [] end).
  assert (forall r, client_read (mkClient [] [] ci cr co)
    (match ev_data e with Some d => concat (map (line (bs "data: ")) (split_on x0a d)) | None => [] end ++ r)
    = client_read (mkClient data [] ci cr co) r) as ->.
  { intros r. unfold data. destruct (ev_data e) as [d|]; [|done]. rewrite client_read_data.
    - simpl. by rewrite join_lines, join_split by apply split_on_nonempty.
    - by apply data_pieces_plain, Hd. }
  rewrite (client_read_field _ _ _ (fun v => mkClient data v ci cr co)); [|by apply plain_bs|].
  2: { intros v Ev. split; [by apply Ht | done]. }
  set (c1 := match ev_event e with Some v => _ | None => _ end).
  assert (c1 = mkClient data (default [] (ev_event e)) ci cr co) as -> by (unfold c1; by destruct (ev_event e)).
  set (ty := default [] (ev_event e)).
  rewrite (client_read_field _ _ _ (fun v => mkClient data ty v cr co)); [|by apply plain_bs|].
  2: { intros v Ev. destruct (Hi v Ev) as [Hp H0]. split; [done|]. unfold process_line. simpl. unfold process_field. simpl.
       destruct (contains x00 v) eqn:E; [apply contains_spec in E; done | done]. }
  set (c2 := match ev_id e with Some v => _ | None => _ end).
  assert (c2 = mkClient data ty (default ci (ev_id e)) cr co) as -> by (unfold c2; by destruct (ev_id e)).
  set (id := default ci (ev_id e)).
  rewrite (client_read_field _ _ _ (fun v => mkClient data ty id (Some (digits_value v)) co)); [|by apply plain_bs|].
  2: { intros v Ev. destruct (ev_retry e) as [r|]; [|done]. injection Ev as <-. specialize (Hr r eq_refl).
       destruct (digits_value_print r Hr) as [_ Hf]. split.
       - split; apply (print_radix_not_elem 10 r); done || lia.
       - unfold process_line. simpl. unfold process_field. simpl. rewrite Hf. simpl.
         unfold bytes_eqb. rewrite bool_decide_eq_false_2 by apply print_radix_nonempty. done. }
  change ([x0a] ++ rest) with ([] ++ x0a :: rest).
  rewrite client_read_line by (split; apply not_elem_of_nil).
  f_equal. unfold deliver, process_line, data, ty, id. cbn [c_data c_type c_id c_retry c_out].
  destruct (ev_retry e) as [r|]; simpl; [rewrite (proj1 (digits_value_print r (Hr r eq_refl)))|];
    (destruct (ev_data e) as [d|]; [rewrite dispatch_data | by rewrite app_nil_r];
     by destruct (ev_event e) as [[|y t]|]).
Qed.

(** The events a script holds, and what their frames carry. *)
Definition items {I} (s : StreamScript I) : list I := omap id s.

Lemma client_read_events evs : forall c,
  Forall clean evs -> c_data c = [] -> c_type c = [] ->
  client_read c (concat (map encode evs)) = fold_left deliver evs c.
Proof.
  induction evs as [|e evs IH]; intros c Hc Ed Et; [done|]. apply Forall_cons in Hc as [He Hc].
  cbn [map concat fold_left]. rewrite client_read_event by done. by apply IH.
Qed.

Lemma sse_event_data {Tr} (s : StreamScript Event) :
  fine (map (sse_event (Tr := Tr)) s) /\ data (map (sse_event (Tr := Tr)) s) = concat (map encode (items s)).
Proof.
  induction s as [|[e|] s [IH1 IH2]]; simpl; [split; [constructor | done] | |];
    (split; [by constructor | rewrite data_cons, IH2; done]).
Qed.

(** A builder call keeps an event readable; only comments are checked by the
    code, the other texts are the caller's obligation. *)
Lemma comment_clean c e e' : clean e -> comment c e = Some e' -> clean e'.
Proof.
  intros [Hd Ht Hi Hr Hc]. unfold comment. destruct (has_newline c) eqn:E; [done|]. intros [= <-].
  split; try done. simpl. apply Forall_app. split; [done|]. by constructor; [apply has_newline_plain|].
Qed.

(** The body of the response to a stream of readable events. *)
Lemma sse_frames {L : HttpLib} {Tr : Type} (s : StreamScript Event) :
  Forall clean (items s) ->
  exists frames, rs_body (sse_into_response (L := L) (Tr := Tr) s) = RStream frames /\ fine frames /\
    client_read client_new (data frames) = fold_left deliver (items s) client_new.
Proof.
  intros Hc. exists (map sse_event s). destruct (sse_event_data (Tr := Tr) s) as [Hf ->].
  split; [done|]. split; [done|]. by apply client_read_events.
Qed.

(** Event streams round trip: the body of the response to a stream of readable
    events, through a client of the event-stream format, gives their types,
    data, identifiers and reconnection delay, in order; data may hold line
    feeds, and an event without data only updates the client. *)
Theorem sse_roundtrip {L : HttpLib} {Tr : Type} (s : StreamScript Event) :
  Forall clean (items s) ->
  exists frames, rs_body (sse_into_response (L := L) (Tr := Tr) s) = RStream frames /\ fine frames /\
    client_read client_new (data frames) = fold_left deliver (items s) client_new.
Proof. apply sse_frames. Qed.

(** The event type is not checked: a line feed in it starts a field of the
    caller's choosing. *)
Lemma event_type_injects (d x y : bytes) :
  plain d -> plain x -> plain y ->
  c_out (client_read client_new
    (encode (set_event (x ++ [x0a] ++ bs "data: " ++ y) (set_data d event_new))))
  = [mkMessage (match x with [] => bs "message" | t => t end) (d ++ [x0a] ++ y) []].
Proof.
  intros Hd Hx Hy.
  assert (encode (set_event (x ++ [x0a] ++ bs "data: " ++ y) (set_data d event_new)) =
    line (bs "data: ") d ++ line (bs "event: ") x ++ line (bs "data: ") y ++ [x0a]) as ->.
  { unfold encode. cbn [set_event set_data event_new ev_data ev_event ev_id ev_retry ev_comments].
    rewrite split_on_none by apply Hd. cbn [map concat field fmap option_fmap option_map]. unfold line.
    by rewrite !app_nil_r, !app_nil_l, <- !app_assoc. }
  rewrite !client_read_prefix by (done || by apply plain_bs).
  change [x0a] with ([] ++ x0a :: []) at 1. rewrite client_read_line by (split; apply not_elem_of_nil).
  set (c := process_line _ (bs "data: " ++ y)).
  assert (c = mkClient ((d ++ [x0a] ++ y) ++ [x0a]) x [] None []) as ->.
  { rewrite <- !app_assoc. change (c = mkClient ([] ++ d ++ [x0a] ++ y ++ [x0a]) x [] None []).
    rewrite (app_assoc d), app_assoc. reflexivity. }
  cbn [process_line]. rewrite dispatch_data. done.
Qed.

(** ** Keepalive comments *)
Section KeepFacts.
Context (k : KeepAlive).
Abbreviation Out := (Z * poll (option Event))%type.

(** The instant of the last output. *)
Definition last_output (t0 : Z) (l : list Out) : Z :=
  fold_left (fun a (o : Out) => match snd o with Ready (Some _) => fst o | _ => a end) l t0.
Definition events_out (l : list Out) : list Event :=
  omap (fun o => match snd o with Ready (Some e) => Some e | _ => None end) l.

(** An event that is only a comment. *)
Definition comment_only (e : Event) : Prop :=
  ev_data e = None /\ ev_event e = None /\ ev_id e = None /\ ev_retry e = None.

(** What the [i]-th poll answers. *)
Definition answer (s : StreamScript Event) (last t : Z) (i : nat) : poll (option Event) :=
  match s !! i with
  | None => Ready None
  | Some (Some e) => Ready (Some e)
  | Some None => if last + ka_interval k <=? t then Ready (Some (ka_event k)) else Pending
  end.

Lemma kas_run_spec times : forall (s : StreamScript Event) last i t r,
  let run := kas_run times (mkKeepAliveStream s (last + ka_interval k) k) in
  run !! i = Some (t, r) -> r = answer s (last_output last (take i run)) t i.
Proof.
  induction times as [|t0 times IH]; intros s last i t r run Hi; [done|]. unfold run in *.
  cbn [kas_run] in *. unfold kas_poll_next in *.
  cbn [kas_inner kas_fires kas_policy poll_next script_stream] in *.
  destruct s as [|[e|] s]; cbn [poll_next script_stream] in *.
  - destruct i as [|i]; [|done]. by injection Hi as <- <-.
  - destruct i as [|i]; simpl in Hi; [by injection Hi as <- <-|]. by apply IH in Hi.
  - destruct (last + ka_interval k <=? t0) eqn:E; (destruct i as [|i]; simpl in Hi;
      [injection Hi as <- <-; unfold answer; simpl; by rewrite E | by apply IH in Hi]).
Qed.

Lemma comment_only_deliver c e :
  comment_only e -> c_data c = [] -> c_type c = [] -> deliver c e = c.
Proof.
  intros (E1 & E2 & E3 & E4) Ed Et. unfold deliver. rewrite E1, E3, E4. simpl. rewrite app_nil_r.
  destruct c. simpl in *. by subst.
Qed.

(** The events of a run are those of the stream, with keepalives between. *)
Lemma kas_run_events times : forall (s : StreamScript Event) fires c,
  comment_only (ka_event k) -> clean (ka_event k) -> Forall clean (items s) ->
  c_data c = [] -> c_type c = [] ->
  let run := kas_run times (mkKeepAliveStream s fires k) in
  Forall clean (events_out run) /\
  fold_left deliver (events_out run) c = fold_left deliver (items (take (length run) s)) c.
Proof.
  induction times as [|t0 times IH]; intros s fires c Hk Hck Hs Ed Et run; [split; [constructor | done]|].
  unfold run in *. cbn [kas_run] in *. unfold kas_poll_next in *.
  cbn [kas_inner kas_fires kas_policy poll_next script_stream] in *.
  destruct s as [|[e|] s]; cbn [poll_next script_stream] in *.
  - split; [constructor | done].
  - apply Forall_cons in Hs as [He Hs].
    destruct (IH s (t0 + ka_interval k) (deliver c e) Hk Hck Hs) as [H1 H2]; try done.
    split; [by constructor | exact H2].
  - destruct (fires <=? t0) eqn:E.
    + destruct (IH s (t0 + ka_interval k) c Hk Hck Hs Ed Et) as [H1 H2].
      split; [by constructor|]. simpl. unfold keep_alive, event_keep_alive. by rewrite comment_only_deliver.
    + destruct (IH s fires c Hk Hck Hs Ed Et) as [H1 H2]. split; [exact H1 | exact H2].
Qed.

(** C35. Keepalive: every poll passes on what the stream has, and emits the
    keepalive event exactly when the stream has nothing and nothing was sent
    for the interval; comments inserted this way are invisible: a client reads
    the messages of the stream alone. *)
Theorem keep_alive_spec (s : StreamScript Event) (t0 : Z) (times : list Z) :
  let run := kas_run times (keep_alive_stream_new s k t0) in
  (forall i t r, run !! i = Some (t, r) ->
     r = match s !! i with
         | None => Ready None
         | Some (Some e) => Ready (Some e)
         | Some None =>
             if last_output t0 (take i run) + ka_interval k <=? t then Ready (Some (ka_event k)) else Pending
         end) /\
  (comment_only (ka_event k) -> clean (ka_event k) -> Forall clean (items s) ->
     client_read client_new (concat (map encode (events_out run)))
     = fold_left deliver (items (take (length run) s)) client_new).
Proof.
  split; [intros i t r; apply kas_run_spec|]. intros Hk Hck Hs.
  destruct (kas_run_events times s (t0 + ka_interval k) client_new Hk Hck Hs) as [H1 H2]; try done.
  rewrite client_read_events by done. exact H2.
Qed.
End KeepFacts.

(** ** Concrete runs *)
Section Samples.
Import RefHttp.

Definition sample_events : StreamScript Event :=
  [None; Some (set_id (bs "1") (set_data (bs "two
lines") event_new)); None; Some (set_retry 250 (set_event (bs "done") (set_data [] event_new)))].

Lemma sample_clean : Forall clean (items sample_events).
Proof.
  assert (forall c l, contains c l = false -> c ∉ l) as Hn by (intros c l H; rewrite <- contains_spec; congruence).
  apply Forall_cons; split; [|apply Forall_cons; split; [|constructor]];
    (split; simpl; [intros ? [= <-] | intros ? ? | intros ? ? | intros ? ? | constructor]);
    simplify_eq; repeat split; try apply Hn; try reflexivity; lia.
Qed.

Lemma sse_roundtrip_witness :
  exists frames, rs_body (sse_into_response (L := lib) (Tr := unit) sample_events) = RStream frames /\
    c_out (client_read client_new (data frames)) =
      [mkMessage (bs "message") (bs "two
lines") (bs "1"); mkMessage (bs "done") [] (bs "1")].
Proof.
  destruct (sse_roundtrip (L := lib) (Tr := unit) sample_events sample_clean) as (frames & E & _ & H).
  exists frames. split; [exact E|]. rewrite H. reflexivity.
Defined.
End Samples.
End WebSse.
