(* ===== verification/EndToEnd.v ===== *)
(** * One exchange, from the caller of the blocking client to a handler and back

    Composition of the blocking client ([SyncClient]), the router
    ([WebRouter]), the extractors ([WebExtract]) and the event streams
    ([WebSse]).  Between them is Hyper's HTTP/1 codec, which is not part of this
    repository: [carries] is what its decoder promises about the request it
    hands to a service, whose body is what the framing fields announce
    ([request_content]), [answers] what its encoder promises
    about the bytes it sends for a response.  The network may cut those bytes
    anywhere. *)

From Stdlib Require Import ZArith Lia String.
From Stdlib Require Import Strings.Byte.
From stdpp Require Import base option list.
From S2P Require Import Prelude Bytes HttpLib Normalize Stream SyncBody SyncClient BodyUtil WebRouter WebExtract WebSse.

Open Scope Z_scope.

Module EndToEnd.
Import Normalize.Normalize SyncBody.SyncBody BodyUtil.BodyUtil WebRouter.WebRouter WebExtract.WebExtract.
Import SyncClient.SyncClient.

(** ** Hyper's HTTP/1 codec *)
Section Codec.
Context {L : HttpLib} {Tr : Type}.
Abbreviation Req := (Request (RequestBody Tr)).
Abbreviation Resp := (@HttpLib.Response L (@ResponseBody Tr)).

(** The content of a request with the fields [hs] whose head is followed by the
    bytes [after] (RFC 9112, section 6.3): the chunks when [chunked] is the
    transfer coding, as many bytes as every [Content-Length] announces when
    there is no [Transfer-Encoding], and nothing when there is neither field. *)
Definition request_content (hs : HeaderMap) (after body : bytes) : Prop :=
  (exists coding rest, codings hs [coding] /\ map to_lower coding = bs "chunked" /\
     framed (Chunked 0 false false) after body rest) \/
  (hm_get_all TRANSFER_ENCODING hs = [] /\ hm_get_all CONTENT_LENGTH hs <> [] /\
     exists n, (forall v, v ∈ hm_get_all CONTENT_LENGTH hs -> announces v n) /\
       n <= zlen after /\ body = take (Z.to_nat n) after) \/
  (hm_get_all TRANSFER_ENCODING hs = [] /\ hm_get_all CONTENT_LENGTH hs = [] /\ body = []).

(** The request a service gets for a message with the head of [r] and the fields
    [hs], followed by the bytes of [r]'s body: the same method, path and field
    values, and the content that those fields announce, in whatever pieces it
    arrives. *)
Definition carries (r : Request bytes) (hs : HeaderMap) (req : Req) (s : BodyScript Tr BoxError) : Prop :=
  r_method req = r_method r /\ uri_path (r_uri req) = uri_path (r_uri r) /\
  (forall n, hm_get_all n (r_headers req) = hm_get_all n hs) /\
  r_body req = Raw s /\ fine s /\ request_content hs (r_body r) (data s).

(** The content of a response. *)
Definition content (b : @ResponseBody Tr) : bytes := match b with RFull b => b | RStream s => data s end.

(** The fields the encoder sets itself. *)
Definition DATE : HeaderName := bs "date".
Definition owned : list HeaderName := [CONNECTION; CONTENT_LENGTH; TRANSFER_ENCODING; DATE].

(** The bytes sent for a response: perhaps interim responses, then a head with
    its status and fields and the framing the encoder chose, then its content;
    a response that has no content has none. *)
Definition answers (head_request : bool) (resp : Resp) (wire : bytes) : Prop :=
  exists hs h fs m w rest,
    wire = interims_wire hs ++ encode_head h ++ BLANK ++ w /\
    Forall (fun h => interim h /\ exists fs, wire_head_ok h fs) hs /\
    wire_head_ok h fs /\ h_status h = rs_status resp /\
    (forall n, n ∉ owned -> SyncClient.SyncClient.values_of n fs = hm_get_all n (rs_headers resp)) /\
    framing_of (append_all fs hm_new) (h_status h) head_request m /\
    framed m w (if decide (no_content (rs_status resp) head_request) then [] else content (rs_body resp)) rest.
End Codec.

(** ** The client's side *)

Lemma interims_count (hs : list ResponseHead) rest : (length hs <= length (interims_wire hs ++ rest))%nat.
Proof.
  unfold interims_wire. rewrite length_app. induction hs as [|h hs IH]; simpl; [lia|].
  rewrite !length_app. change (length BLANK) with 4%nat. lia.
Qed.

Section Client.
Context {L : HttpLib} {W : HttpLaws L} {Tr : Type}.

(** The client returns the response it was sent. *)
Lemma answered fuel c head_request (resp : @HttpLib.Response L (@ResponseBody Tr)) wire sizes :
  answers head_request resp wire -> is_informational (rs_status resp) = false ->
  delivers (incoming (transport c)) wire -> (length wire < fuel)%nat ->
  Forall (fun n => 0 < n)%nat sizes -> (length (content (rs_body resp)) < length sizes)%nat ->
  exists res b', read_response fuel c [] head_request = Some (Ok res) /\
    rs_status res = rs_status resp /\
    (forall n, n ∉ owned -> hm_get_all n (rs_headers res) = hm_get_all n (rs_headers resp)) /\
    read_seq sizes (rs_body res)
      = Some (Ok (if decide (no_content (rs_status resp) head_request) then [] else content (rs_body resp)), b').
Proof.
  intros (hs & h & fs & m & w & rest & -> & Hhs & Hw & Es & Hn & Hm & Hf) Hi Hd Hfuel Hs Hl.
  pose proof (interims_count hs (encode_head h ++ BLANK ++ w)) as Hc.
  destruct (response_read fuel c hs h fs m w _ rest sizes head_request Hhs Hw ltac:(by rewrite Es) Hm Hf Hd)
    as (res & b' & E & E1 & _ & E2 & E3 & _); [lia|done|case_decide; simpl; lia|].
  exists res, b'. split; [done|]. split; [congruence|]. split; [|done].
  intros n Hin. by rewrite E2, Hn.
Qed.
End Client.

(** ** The request's side *)
Section Framed.
Context {L : HttpLib} {W : HttpLaws L}.

(** The framing fields a caller may set: no transfer coding, and only lengths
    that are the body's. *)
Definition caller_framing (m : HeaderMap) (body : bytes) : Prop :=
  hm_get_all TRANSFER_ENCODING m = [] /\
  forall v, v ∈ hm_get_all CONTENT_LENGTH m -> announces v (zlen body).

Lemma announces_print n : 0 <= n <= U64_MAX -> announces (print_dec n) n.
Proof.
  intros Hn. apply parse_length_iff. unfold parse_length, trim_ows.
  pose proof (print_radix_chars 10 n ltac:(lia) ltac:(lia)) as HF. rewrite Forall_forall in HF.
  assert (forall y, y ∈ print_dec n -> 48 <= bz y <= 122) as Hd.
  { intros y Hy. destruct (HF y Hy) as (d & Hd & ->). apply digit_char_range. lia. }
  assert (forall y, y ∈ print_dec n -> is_ows y = false) as Hows.
  { intros y Hy%Hd. apply is_ows_false. lia. }
  rewrite trim_while_id.
  - unfold from_utf8, parse_u64. rewrite utf8_ascii.
    + simpl. unfold print_dec. by rewrite parse_print_radix by lia.
    + apply Forall_forall. intros y Hy%Hd. lia.
  - intros x r E. apply Hows. rewrite E. left.
  - intros r x E. apply Hows. rewrite E. apply elem_of_app. right. left.
Qed.

(** What is sent frames the body it is sent with. *)
Lemma completed_content m hs body got :
  caller_framing m body -> completed body m hs -> zlen body <= U64_MAX ->
  request_content hs body got -> got = body.
Proof.
  intros [Ht Hc] (Hl & _ & Ho) Hz.
  assert (hm_get_all TRANSFER_ENCODING hs = []) as Ht' by by rewrite Ho.
  assert (hm_get_all CONTENT_LENGTH hs <> [] /\
    forall v, v ∈ hm_get_all CONTENT_LENGTH hs -> announces v (zlen body)) as [Hne Ha].
  { destruct (hm_contains TRANSFER_ENCODING m) eqn:E1; [by apply hm_contains_spec in E1|].
    rewrite orb_false_r in Hl. destruct (hm_contains CONTENT_LENGTH m) eqn:E2; rewrite Hl.
    - apply hm_contains_spec in E2. done.
    - split; [done|]. intros v ->%list_elem_of_singleton. apply announces_print. pose proof (zlen_nonneg body). lia. }
  intros [(coding & rest & Hcs & _)|[(_ & _ & n & Hn & _ & ->)|(_ & Hno & _)]]; [|..|done].
  - apply codings_iff in Hcs. unfold transfer_codings in Hcs. by rewrite Ht' in Hcs.
  - destruct (hm_get_all CONTENT_LENGTH hs) as [|v vs]; [done|].
    pose proof (proj2 (parse_length_iff _ _) (Hn v ltac:(left))) as E1.
    pose proof (proj2 (parse_length_iff _ _) (Ha v ltac:(left))) as E2.
    assert (n = zlen body) as -> by congruence. unfold zlen. by rewrite Nat2Z.id, firstn_all.
Qed.
End Framed.

(** ** The exchange *)
Section Exchange.
Context {L : HttpLib} {W : HttpLaws L} (net : SyncClient.SyncClient.Net).
Context {Tr S R : Type} {AR : Arrival Tr} {I : @IntoResponse L Tr R} (mi : Matchit) (ml : MatchitLaws mi).

(** What a router does with a handler's result. *)
Definition response_of (router : @Router L Tr S mi) (req : Request (RequestBody Tr)) (x : R) : @HttpLib.Response L (@ResponseBody Tr) :=
  match cors mi router with
  | Some c => apply_response c (into_response x) (hm_get ORIGIN (r_headers req))
  | None => into_response x
  end.

(** C4. One exchange: a request of the blocking client for a registered path and
    method, with no [Transfer-Encoding] of the caller's and no [Content-Length]
    other than the body's, runs the handler on the router's state and exactly
    the caller's body: the framing fields the client writes announce all of it,
    however it arrives, and the response the handler returns, with the
    grants of the CORS policy, is the one the caller gets: its status, every
    field the codec does not own, and its content to the last byte, however
    the network cuts the bytes and whatever sizes the caller reads with. *)
Theorem exchange_end_to_end cl r timeout uri o c0 :
  caller_framing (r_headers r) (r_body r) ->
  timeout <> Some 0 -> r_version r = HTTP_10 \/ r_version r = HTTP_11 ->
  extract_origin (r_uri r) (bytes_eqb (r_method r) CONNECT) = Some (uri, Ok o) ->
  connect net cl o = Some (Ok c0) -> write_fault (transport c0) = None ->
  exists r' hs c1, normalize_http1_request (with_uri uri r) (set_host net cl) = Some r' /\
    completed (r_body r') (r_headers r') hs /\
    sent (transport c1) = sent (transport c0) ++ request_wire r' hs /\
    r_method r' = r_method r /\ r_body r' = r_body r /\
    forall (router : Router mi) req s ms fuel lim f (st : S) a d x wire sizes,
      carries r' hs req s -> arrived s = Some (a, ()) ->
      wf mi router -> is_preflight mi router req = false -> static (uri_path (r_uri req)) ->
      route_of (uri_path (r_uri req)) (routes mi router) = Some ms ->
      ms !! r_method r = Some (limited_endpoint fuel lim None f) -> state mi router = Some st ->
      zlen (r_body r) <= lim < USIZE_MAX -> (length s < fuel)%nat ->
      f (st, (r_body r, ())) = Some (d, x) ->
      let resp := response_of router req x in
      call_boxed mi router req = Some (Some (a + d, resp)) /\
      (answers (bytes_eqb (r_method r) HEAD) resp wire -> is_informational (rs_status resp) = false ->
       delivers (incoming (transport c0)) wire ->
       Forall (fun n => 0 < n)%nat sizes -> (length (content (rs_body resp)) < length sizes)%nat ->
       exists res b', (forall n, (length wire < n)%nat -> request_with_timeout net n cl r timeout = Some (Ok res)) /\
         rs_status res = rs_status resp /\
         (forall n, n ∉ owned -> hm_get_all n (rs_headers res) = hm_get_all n (rs_headers resp)) /\
         read_seq sizes (rs_body res)
           = Some (Ok (if decide (no_content (rs_status resp) (bytes_eqb (r_method r) HEAD)) then []
                       else content (rs_body resp)), b')).
Proof.
  intros Hcf Ht Hv E Hc Hw.
  destruct (request_exchange_ok net cl r timeout uri o c0 Ht Hv E Hc Hw) as (r' & hs & c1 & En & Hh & Hs & Hi & Er).
  exists r', hs, c1. split; [done|]. split; [done|]. split; [done|].
  assert (r_method r' = r_method r /\ r_body r' = r_body r /\ caller_framing (r_headers r') (r_body r))
    as (Em & Eb & Hcf').
  { pose proof (proj2 (extract_origin_absolute _ _ _ _ E)) as Ha.
    destruct (normalize_ok (with_uri uri r) (set_host net cl) _ Ha) as (t & En' & _). rewrite En in En'.
    injection En' as ->. split; [done|]. split; [done|]. unfold caller_framing. simpl.
    destruct (set_host net cl); [|done]. by rewrite !host_headers_other. }
  split; [done|]. split; [done|].
  intros router req s ms fuel lim f st a d x wire sizes (Cm & _ & _ & Cb & Cf & Cd) Ha Hwf Hp Hst Hr Hm Hs' Hl Hfuel Hf resp.
  rewrite Eb in Hh, Cd. apply (completed_content _ _ _ _ Hcf' Hh) in Cd; [|unfold U64_MAX, USIZE_MAX in *; lia].
  assert (acceptable lim s = true) as Hacc by (apply acceptable_spec; rewrite Cd; split; [done|lia]).
  split.
  - rewrite (call_registered mi ml router req ms (limited_endpoint fuel lim None f) Hwf Hp Hst Hr); [|by rewrite Cm, Em].
    pose proof (limited_endpoint_call fuel lim None f st req s Cb ltac:(pose proof (zlen_nonneg (r_body r)); lia) Hfuel) as H.
    rewrite Hacc in H. rewrite Hs', H. cbn [with_deadline]. rewrite Ha, await_some, Cd, Hf.
    unfold cors_applied, resp, response_of. by destruct (cors mi router).
  - intros Hans Hinf Hd Hsz Hlen. rewrite <- Hi in Hd.
    destruct (answered (Datatypes.S (length wire)) c1 _ resp wire sizes Hans Hinf Hd ltac:(lia) Hsz Hlen)
      as (res & b' & Eres & H). exists res, b'. split; [|done].
    intros n Hn. rewrite Er. eapply read_response_more; [exact Eres | lia].
Qed.
End Exchange.

(** ** Event streams *)
Section Events.
Context {L : HttpLib} {W : HttpLaws L} {Tr : Type}.
Import WebSse.WebSse.

(** C21. Event streams over HTTP: a response to a stream of readable events,
    however its body is framed and the network cuts it, is read by the blocking
    client as an event stream, and a reader of the event-stream format gets from
    what the client reads the types, data, identifiers and reconnection delay of
    all the events, in order. *)
Theorem events_end_to_end fuel c (s : StreamScript Event) wire sizes :
  Forall clean (items s) ->
  answers (L := L) (Tr := Tr) false (sse_into_response s) wire ->
  delivers (incoming (transport c)) wire -> (length wire < fuel)%nat ->
  Forall (fun n => 0 < n)%nat sizes ->
  (length (content (rs_body (sse_into_response (L := L) (Tr := Tr) s))) < length sizes)%nat ->
  exists res b' text, read_response fuel c [] false = Some (Ok res) /\ rs_status res = OK /\
    hm_get_all CONTENT_TYPE (rs_headers res) = [bs "text/event-stream"] /\
    read_seq sizes (rs_body res) = Some (Ok text, b') /\
    client_read client_new text = fold_left deliver (items s) client_new.
Proof.
  intros Hs Ha Hd Hp Hz Hl. destruct (sse_frames (L := L) (Tr := Tr) s Hs) as (frames & Ef & _ & Hr).
  destruct (answered fuel c false _ wire sizes Ha eq_refl Hd Hp Hz Hl) as (res & b' & E & E1 & E2 & E3).
  exists res, b', (data frames). split; [done|]. split; [done|]. split.
  - rewrite E2; [|by apply (bool_decide_unpack _)]. cbn [sse_into_response insert_header rs_headers].
    by rewrite get_all_insert_ne, get_all_insert_eq.
  - split; [|done]. rewrite E3. change (rs_status (sse_into_response s)) with 200.
    rewrite decide_False by (unfold no_content; naive_solver lia). by rewrite Ef.
Qed.
End Events.

(** ** A concrete exchange *)
Section Samples.
Import RefHttp.

Definition posted : Request bytes :=
  mkRequest POST (mkParts (Some (bs "http")) (Some (mkAuth (bs "a.test") None)) (Some (bs "/a"))) HTTP_11 [] (bs "abc").
Definition echoed_head : ResponseHead := mkHead HTTP_11 200 (bs "OK") [(bs "Content-Length", bs " 3")].
Definition echoed : list rx := [RxData (encode_head echoed_head); RxData (BLANK ++ bs "a"); RxData (bs "bc")].
(** The body in two pieces, the second one late. *)
Definition pieces : BodyScript unit BoxError := [EFrame (Data (bs "ab")); EPending; EFrame (Data (bs "c"))].
Definition received (hs : @HeaderMap lib) : Request (RequestBody unit) :=
  mkRequest POST (mkParts None None (Some (bs "/a"))) HTTP_11 hs (Raw pieces).

Lemma echoed_answers : answers (L := lib) (Tr := unit) false (bytes_into_response (bs "abc"))
  (encode_head echoed_head ++ BLANK ++ bs "abc").
Proof.
  exists [], echoed_head, [(CONTENT_LENGTH, bs "3")], (ContentLength 3), (bs "abc"), [].
  split; [done|]. split; [constructor|]. split.
  { split; [|done]. split; [by right|]. split; [simpl; lia|]. split; [by apply plain_dec|].
    split; [repeat constructor|]. constructor; [|constructor].
    split; [by apply plain_dec|split; [by apply plain_dec|split; [by apply not_elem_dec|done]]]. }
  split; [done|]. split.
  { intros n Hn. unfold SyncClient.SyncClient.values_of. rewrite filter_cons, decide_False; [done|].
    intros <-. apply Hn. right. left. }
  split; [apply response_body_mode_iff; vm_compute; reflexivity|].
  exact (framed_length (bs "abc") []).
Qed.

Lemma exchange_end_to_end_witness :
  exists res b', request_with_timeout (sample_net echoed) 99 (sample_client echoed) posted (Some 9) = Some (Ok res) /\
    rs_status res = 200 /\ read_seq [4; 4; 4; 4]%nat (rs_body res) = Some (Ok (bs "abc"), b').
Proof.
  edestruct (exchange_end_to_end (S := nat) (R := result (@HttpLib.Response lib (@ResponseBody unit)) Rejection)
    (sample_net echoed) sample_matchit sample_matchit_laws (sample_client echoed) posted (Some 9))
    as (r' & hs & c1 & En & Hh & _ & Em & Eb & H).
  - split; [reflexivity|]. intros v Hv. by apply not_elem_of_nil in Hv.
  - discriminate.
  - by right.
  - reflexivity.
  - reflexivity.
  - reflexivity.
  - pose proof En as En'. apply (f_equal (fmap (fun q => uri_path (r_uri q)))) in En.
    change (Some (bs "/a") = Some (uri_path (r_uri r'))) in En. injection En as En.
    destruct (H echo_router (received hs) pieces {[ POST := limited_endpoint 9 4 None echo ]} 9%nat 4 echo 7%nat
      5 1 (Ok (bytes_into_response (bs "abc"))) (encode_head echoed_head ++ BLANK ++ bs "abc") [4; 4; 4; 4]%nat)
      as [_ Hc].
    + split_and!; try done; [by repeat constructor|]. right. left.
      apply (f_equal (fmap r_headers)) in En'.
      change (Some [(HOST, bs "a.test")] = Some (r_headers r')) in En'. injection En' as En'.
      rewrite <- En' in Hh. destruct Hh as (Hl & _ & Ho). rewrite Ho, Hl, Eb by done. split; [reflexivity|].
      split; [discriminate|]. exists 3. split; [|split; [vm_compute; discriminate | reflexivity]].
      intros v ->%list_elem_of_singleton. exact (announces_print 3 ltac:(unfold U64_MAX; lia)).
    + reflexivity.
    + split; [repeat constructor; by intros ?%not_elem_of_nil | reflexivity].
    + reflexivity.
    + split; vm_compute; intros Hin; repeat (apply elem_of_cons in Hin as [Hin|Hin]; [discriminate Hin|]);
        by apply not_elem_of_nil in Hin.
    + reflexivity.
    + reflexivity.
    + reflexivity.
    + vm_compute. split; [discriminate | reflexivity].
    + simpl. lia.
    + reflexivity.
    + destruct Hc as (res & b' & E1 & E2 & _ & E3).
      * exact echoed_answers.
      * reflexivity.
      * split; [done|]. eexists. split; [reflexivity|]. split; [done|]. eexists. split; [reflexivity|].
        split; [done|]. by exists [].
      * repeat constructor.
      * simpl. lia.
      * exists res, b'. split; [apply E1; vm_compute; lia|]. split; [exact E2 | exact E3].
Defined.
End Samples.

Section EventSamples.
Import RefHttp WebSse.WebSse.

(** A response to the events of the sample stream, close-delimited. *)
Definition streamed_head : ResponseHead := mkHead HTTP_11 200 (bs "OK")
  [(bs "content-type", bs " text/event-stream"); (bs "cache-control", bs "no-cache")].
Definition streamed_body : bytes :=
  content (rs_body (sse_into_response (L := lib) (Tr := unit) sample_events)).
Definition streamed : list rx := [RxData (encode_head streamed_head ++ BLANK); RxData streamed_body].

Lemma events_end_to_end_witness :
  exists res b' text, read_response 200 (Tcp (mkTransport streamed [] None None None)) [] false = Some (Ok res) /\
    read_seq (repeat 64%nat 64) (rs_body res) = Some (Ok text, b') /\
    c_out (client_read client_new text) =
      [mkMessage (bs "message") (bs "two
lines") (bs "1"); mkMessage (bs "done") [] (bs "1")].
Proof.
  edestruct (events_end_to_end (L := lib) (Tr := unit) 200 (Tcp (mkTransport streamed [] None None None))
    sample_events (encode_head streamed_head ++ BLANK ++ streamed_body) (repeat 64%nat 64))
    as (res & b' & text & E1 & _ & _ & E2 & E3).
  - exact sample_clean.
  - exists [], streamed_head, [(CONTENT_TYPE, bs "text/event-stream"); (CACHE_CONTROL, bs "no-cache")], Eof, streamed_body, [].
    split; [done|]. split; [constructor|]. split.
    { split; [|done]. split; [by right|]. split; [simpl; lia|]. split; [by apply plain_dec|].
      split; [repeat constructor|]. constructor; [|constructor; [|constructor]];
      (split; [by apply plain_dec|split; [by apply plain_dec|split; [by apply not_elem_dec|done]]]). }
    split; [done|]. split; [done|].
    split; [apply response_body_mode_iff; vm_compute; reflexivity|]. apply framed_eof.
  - split; [done|]. exists streamed_body. split; [by rewrite <- app_assoc|]. split; [done|].
    exists []. by rewrite app_nil_r.
  - vm_compute. lia.
  - repeat constructor.
  - vm_compute. lia.
  - exists res, b', text. split; [exact E1|]. split; [exact E2|]. rewrite E3. reflexivity.
Defined.
End EventSamples.
End EndToEnd.
