(* ===== verification/WebSocket.v ===== *)
(** * The WebSocket handshake ([h12tiny-web], [lib.rs])

    [crates/h12tiny-web/src/lib.rs]: the validation of an RFC 6455 upgrade
    request and the switching response.  Base64, SHA-1, [HeaderValue::to_str]
    and Hyper's [upgrade::on] are parameters ([WebSocketLib]). *)

From Stdlib Require Import ZArith Lia String.
From Stdlib Require Import Strings.Byte.
From stdpp Require Import base option list.
From S2P Require Import Prelude Bytes HttpLib Stream BodyUtil WebRouter.

Open Scope Z_scope.

Module WebSocket.
Import BodyUtil.BodyUtil WebRouter.WebRouter.

(** [HeaderValue::to_str], the [STANDARD] engine of [base64], [Sha1], and
    [hyper::upgrade::on]. *)
Class WebSocketLib {L : HttpLib} {Tr : Type} := {
  to_str : HeaderValue -> option bytes;
  b64_decode : bytes -> option bytes;
  b64_encode : bytes -> bytes;
  sha1 : bytes -> bytes;
  OnUpgrade : Type;
  upgrade_on : Request (RequestBody Tr) -> OnUpgrade * Request (RequestBody Tr)
}.

Inductive WebSocketUpgradeError :=
| EMethod | EHttpVersion | EHost | EConnection | EUpgrade | EVersion | EMissingKey | EInvalidKey.

Definition error_message (e : WebSocketUpgradeError) : bytes :=
  match e with
  | EMethod => bs "WebSocket upgrades require GET"
  | EHttpVersion => bs "WebSocket upgrades require HTTP/1.1"
  | EHost => bs "WebSocket upgrades require Host"
  | EConnection => bs "WebSocket upgrades require Connection: Upgrade"
  | EUpgrade => bs "WebSocket upgrades require Upgrade: websocket"
  | EVersion => bs "WebSocket upgrades require Sec-WebSocket-Version: 13"
  | EMissingKey => bs "WebSocket upgrades require Sec-WebSocket-Key"
  | EInvalidKey => bs "Sec-WebSocket-Key must decode to exactly 16 bytes"
  end.

Section Handshake.
Context {L : HttpLib} {Tr : Type} {WL : @WebSocketLib L Tr}.
Abbreviation Req := (Request (RequestBody Tr)).
Abbreviation Resp := (@Response L (@ResponseBody Tr)).

Definition UPGRADE : HeaderName := bs "upgrade".
Definition SEC_VERSION : HeaderName := bs "sec-websocket-version".
Definition SEC_KEY : HeaderName := bs "sec-websocket-key".
Definition SEC_ACCEPT : HeaderName := bs "sec-websocket-accept".
Definition GUID : bytes := bs "258EAFA5-E914-47DA-95CA-C5AB0DC85B11".

Definition header_has_token (request : Req) (header : HeaderName) (expected : bytes) : bool :=
  existsb (fun token => eq_ignore_ascii_case (str_trim token) expected)
    (concat (map (split_on ",") (omap to_str (hm_get_all header (r_headers request))))).

(** [values.iter().next().and_then(to_str).is_none_or(|v| test(v.trim()))]. *)
Definition first_fails (values : list HeaderValue) (test : bytes -> bool) : bool :=
  match list.head values ≫= to_str with
  | None => true
  | Some v => test (str_trim v)
  end.

Definition validate_websocket_request (request : Req) : result bytes WebSocketUpgradeError :=
  let headers := r_headers request in
  if negb (bytes_eqb (r_method request) GET) then Err EMethod
  else if negb (bool_decide (r_version request = HTTP_11)) then Err EHttpVersion
  else if negb (length (hm_get_all HOST headers) =? 1)%nat
          || first_fails (hm_get_all HOST headers) (fun v => bytes_eqb v []) then Err EHost
  else if negb (header_has_token request CONNECTION (bs "upgrade")) then Err EConnection
  else if negb (header_has_token request UPGRADE (bs "websocket")) then Err EUpgrade
  else if negb (length (hm_get_all SEC_VERSION headers) =? 1)%nat
          || first_fails (hm_get_all SEC_VERSION headers) (fun v => negb (bytes_eqb v (bs "13"))) then Err EVersion
  else
    match map str_trim (omap to_str (hm_get_all SEC_KEY headers)) with
    | [] => Err EMissingKey
    | key :: more =>
        if negb (length more =? 0)%nat
           || negb (match b64_decode key with Some d => (length d =? 16)%nat | None => false end)
        then Err EInvalidKey
        else Ok key
    end.

Definition websocket_accept (key : bytes) : bytes := b64_encode (sha1 (key ++ GUID)).

Record WebSocketUpgrade := mkUpgrade { accept : bytes; on_upgrade : OnUpgrade }.

(** The request is left without its upgrade. *)
Definition try_from_request (request : Req) : result (WebSocketUpgrade * Req) WebSocketUpgradeError :=
  let? key := validate_websocket_request request in
  let '(u, request) := upgrade_on request in
  Ok (mkUpgrade (websocket_accept key) u, request).

Definition append_header (n : HeaderName) (v : HeaderValue) (r : Resp) : Resp :=
  mkResponse (rs_status r) (rs_version r) (hm_append n v (rs_headers r)) (rs_body r).

(** [None]: the accept value is not a header value. *)
Definition response (u : WebSocketUpgrade) : option Resp :=
  v ← header_value_from_bytes (accept u);
  Some (append_header SEC_ACCEPT v
    (append_header UPGRADE (bs "websocket")
      (append_header CONNECTION (bs "Upgrade")
        (mkResponse SWITCHING_PROTOCOLS HTTP_11 hm_new (RFull []))))).

Definition websocket_extractor {S} : @Extractor L Tr S WebSocketUpgrade := fun r _ _ =>
  now_ready (map_err (fun e => mkRejection BAD_REQUEST (error_message e)) (try_from_request r)).

(** [HttpUpgrade]: any request gives up its upgrade. *)
Definition http_upgrade_extractor {S} : @Extractor L Tr S OnUpgrade := fun r _ _ =>
  let '(u, r) := upgrade_on r in now_ready (Ok (u, r)).

(** [into_connection]: the upgraded stream, split, with the framing of the
    [fastwebsockets] crate on both halves. *)
Record WebSocketConnection (Reader Writer : Type) := mkConnection { reader : Reader; writer : Writer }.
Definition into_connection {Upgraded ReadHalf WriteHalf Reader Writer E}
    (awaited : OnUpgrade -> result Upgraded E) (split : Upgraded -> ReadHalf * WriteHalf)
    (after_handshake_split : ReadHalf -> WriteHalf -> Reader * Writer) (u : WebSocketUpgrade)
    : result (WebSocketConnection Reader Writer) E :=
  let? upgraded := awaited (on_upgrade u) in
  let '(read, write) := split upgraded in
  let '(r, w) := after_handshake_split read write in
  Ok (mkConnection _ _ r w).

(** ** RFC 6455 *)

(** A list header carries a token: some readable value has it among its
    comma-separated members, up to case and surrounding white space. *)
Definition has_token (request : Req) (header : HeaderName) (expected : bytes) : Prop :=
  exists value text token, value ∈ hm_get_all header (r_headers request) /\ to_str value = Some text /\
    token ∈ split_on "," text /\ eq_ignore_ascii_case (str_trim token) expected = true.

(** Exactly one value of the header, readable and with the property. *)
Definition single (request : Req) (header : HeaderName) (P : bytes -> Prop) : Prop :=
  exists value text, hm_get_all header (r_headers request) = [value] /\ to_str value = Some text /\
    P (str_trim text).

(** The readable keys of a request. *)
Definition keys (request : Req) : list bytes :=
  map str_trim (omap to_str (hm_get_all SEC_KEY (r_headers request))).
Definition valid_key (key : bytes) : Prop := exists nonce, b64_decode key = Some nonce /\ length nonce = 16%nat.

(** The requirement an error names. *)
Definition requirement (request : Req) (e : WebSocketUpgradeError) : Prop :=
  match e with
  | EMethod => r_method request = GET
  | EHttpVersion => r_version request = HTTP_11
  | EHost => single request HOST (fun h => h <> [])
  | EConnection => has_token request CONNECTION (bs "upgrade")
  | EUpgrade => has_token request UPGRADE (bs "websocket")
  | EVersion => single request SEC_VERSION (fun v => v = bs "13")
  | EMissingKey => keys request <> []
  | EInvalidKey => exists key, keys request = [key] /\ valid_key key
  end.

Lemma header_has_token_spec request header expected :
  header_has_token request header expected = true <-> has_token request header expected.
Proof.
  unfold header_has_token, has_token. rewrite existsb_exists. setoid_rewrite <- list_elem_of_In. split.
  - intros (token & Hin & Ht). apply list_elem_of_In, in_concat in Hin as (ts & Hts & Hin).
    apply in_map_iff in Hts as (text & <- & Hx). apply list_elem_of_In, list_elem_of_omap in Hx as (value & Hv & Es).
    exists value, text, token. split_and!; [done | done | by apply list_elem_of_In | done].
  - intros (value & text & token & Hv & Es & Hin & Ht). exists token. split; [|done].
    apply list_elem_of_In, in_concat. exists (split_on "," text). split; [|by apply list_elem_of_In].
    apply in_map_iff. exists text. split; [done|]. apply list_elem_of_In, list_elem_of_omap. by exists value.
Qed.

(** The count test and the value test together. *)
Lemma single_spec request header test P :
  (forall t, test t = true <-> ~ P t) -> (forall t, P t \/ ~ P t) ->
  negb (length (hm_get_all header (r_headers request)) =? 1)%nat
    || first_fails (hm_get_all header (r_headers request)) test = false <-> single request header P.
Proof.
  intros Ht Hdec. unfold single, first_fails. destruct (hm_get_all header (r_headers request)) as [|v [|v' vs]]; simpl.
  - split; [done|]. by intros (? & ? & ? & _).
  - destruct (to_str v) as [text|] eqn:Ev; simpl.
    + specialize (Ht (str_trim text)). destruct (test (str_trim text)).
      * split; [done|]. intros (? & ? & ? & ? & HP). simplify_eq. by apply Ht in HP.
      * split; [|done]. intros _. exists v, text. split_and!; try done. destruct (Hdec (str_trim text)); [done|].
        by apply Ht in H.
    + split; [done|]. intros (? & ? & ? & ? & _). simplify_eq.
  - split; [done|]. by intros (? & ? & ? & _).
Qed.

(** The requirements in the order they are checked. *)
Definition checks : list WebSocketUpgradeError :=
  [EMethod; EHttpVersion; EHost; EConnection; EUpgrade; EVersion; EMissingKey; EInvalidKey].

Lemma valid_key_spec key :
  (match b64_decode key with Some d => (length d =? 16)%nat | None => false end) = true <-> valid_key key.
Proof.
  unfold valid_key. destruct (b64_decode key) as [d|]; [rewrite Nat.eqb_eq|]; naive_solver.
Qed.

(** Validation decides the requirements, and reports the first that fails. *)
Lemma validate_spec request :
  match validate_websocket_request request with
  | Ok key => Forall (requirement request) checks /\ keys request = [key]
  | Err e => exists i, checks !! i = Some e /\ ~ requirement request e /\ Forall (requirement request) (take i checks)
  end.
Proof.
  unfold validate_websocket_request.
  pose proof (single_spec request HOST (fun v => bytes_eqb v []) (fun h => h <> [])
    ltac:(intros t; unfold bytes_eqb; rewrite bool_decide_eq_true; destruct t; naive_solver)
    ltac:(intros [|]; naive_solver)) as Hh.
  pose proof (single_spec request SEC_VERSION (fun v => negb (bytes_eqb v (bs "13"))) (fun v => v = bs "13")
    ltac:(intros t; unfold bytes_eqb; rewrite negb_true_iff, bool_decide_eq_false; naive_solver)
    ltac:(intros t; destruct (decide (t = bs "13")); naive_solver)) as Hv.
  pose proof (header_has_token_spec request CONNECTION (bs "upgrade")) as Hc.
  pose proof (header_has_token_spec request UPGRADE (bs "websocket")) as Hu.
  destruct (negb (bytes_eqb (r_method request) GET)) eqn:E1.
  { exists 0%nat. split_and!; [done | | constructor]. simpl. apply negb_true_iff, bool_decide_eq_false in E1. done. }
  apply negb_false_iff, bool_decide_eq_true in E1.
  destruct (negb (bool_decide (r_version request = HTTP_11))) eqn:E2.
  { exists 1%nat. apply negb_true_iff, bool_decide_eq_false in E2. split_and!; [done | done | by repeat constructor]. }
  apply negb_false_iff, bool_decide_eq_true in E2.
  destruct (negb (length (hm_get_all HOST (r_headers request)) =? 1)%nat || _).
  { exists 2%nat. split_and!; [done | simpl; rewrite <- Hh; done | by repeat constructor]. }
  assert (single request HOST (fun h => h <> [])) as E3 by (by apply Hh).
  destruct (header_has_token request CONNECTION (bs "upgrade")); simpl.
  2: { exists 3%nat. split_and!; [done | simpl; rewrite <- Hc; done | by repeat constructor]. }
  destruct (header_has_token request UPGRADE (bs "websocket")); simpl.
  2: { exists 4%nat. split_and!; [done | simpl; rewrite <- Hu; done | repeat (apply Forall_cons; split; [first [done | by apply Hc]|]); constructor]. }
  destruct (negb (length (hm_get_all SEC_VERSION (r_headers request)) =? 1)%nat || _).
  { exists 5%nat. split_and!; [done | simpl; rewrite <- Hv; done |
      repeat (apply Forall_cons; split; [first [done | by apply Hc | by apply Hu]|]); constructor]. }
  assert (Forall (requirement request) (take 6 checks)) as H6.
  { repeat (apply Forall_cons; split; [first [done | by apply Hc | by apply Hu | by apply Hv]|]). constructor. }
  fold (keys request). destruct (keys request) as [|key more] eqn:Ek.
  { exists 6%nat. split_and!; [done | | done]. unfold requirement. rewrite Ek. intros H. by apply H. }
  assert (requirement request EMissingKey) as H7 by (unfold requirement; by rewrite Ek).
  pose proof (valid_key_spec key) as Hk.
  destruct (negb (length more =? 0)%nat || negb _) eqn:E8.
  - exists 7%nat. split_and!; [done | | by apply (Forall_app _ (take 6 checks)); split; [|constructor]].
    unfold requirement. rewrite Ek. intros (k & [= <- ->] & Hval). apply Hk in Hval. rewrite Hval in E8. done.
  - apply orb_false_iff in E8 as [Hl%negb_false_iff%Nat.eqb_eq Hd%negb_false_iff]. apply nil_length_inv in Hl as ->.
    split; [|done]. apply (Forall_app _ (take 6 checks)). split; [done|]. constructor; [done|].
    constructor; [|constructor]. exists key. split; [done|]. by apply Hk.
Qed.

(** Base64 text is a legal header value. *)
Context (Hb64 : forall b, header_value_from_bytes (b64_encode b) = Some (b64_encode b)).
Context {W : HttpLaws L}.

(** C20. The handshake: an upgrade is granted exactly when the request satisfies all
    the requirements of the handshake, those of RFC 6455 on the field values
    that are readable text (a [Sec-WebSocket-Key] that is not is not counted,
    though the RFC forbids a second one of any kind), and the response is then
    the 101 with the digest of the request's key; otherwise the rejection is a
    400 that names the first requirement that fails. *)
Theorem websocket_upgrade_spec {S} (request : Req) (st : option S) (meta : RequestMeta) :
  exists res, websocket_extractor request st meta = now_ready res /\
    match res with
    | Ok (u, _) =>
        Forall (requirement request) checks /\
        exists key resp, keys request = [key] /\ response u = Some resp /\
          rs_status resp = SWITCHING_PROTOCOLS /\
          hm_get_all CONNECTION (rs_headers resp) = [bs "Upgrade"] /\
          hm_get_all UPGRADE (rs_headers resp) = [bs "websocket"] /\
          hm_get_all SEC_ACCEPT (rs_headers resp) = [b64_encode (sha1 (key ++ GUID))]
    | Err rej =>
        exists i e, checks !! i = Some e /\ rej = mkRejection BAD_REQUEST (error_message e) /\
          ~ requirement request e /\ Forall (requirement request) (take i checks)
    end.
Proof.
  unfold websocket_extractor, try_from_request. pose proof (validate_spec request) as H.
  destruct (validate_websocket_request request) as [key|e]; simpl.
  - destruct (upgrade_on request) as [o r]. simpl. eexists. split; [done|]. simpl. destruct H as [H1 H2].
    split; [done|]. unfold response, websocket_accept. simpl. rewrite Hb64. simpl.
    eexists _, _. split; [done|]. split; [done|]. simpl. split; [done|].
    split_and!; repeat first [rewrite get_all_append_eq | rewrite get_all_append_ne by done | rewrite get_all_new]; done.
  - eexists. split; [done|]. simpl. destruct H as (i & H1 & H2 & H3). by exists i, e.
Qed.
End Handshake.

(** ** A concrete handshake *)
Section Samples.
Import RefHttp.

(** Keys and digests in hexadecimal, for a run. *)
#[local] Instance sample_ws : @WebSocketLib lib unit := {|
  to_str v := if forallb value_char v then Some v else None;
  b64_decode k := if (length k =? 32)%nat then Some (take 16 k) else None;
  b64_encode b := List.filter value_char b;
  sha1 b := take 20 b;
  OnUpgrade := unit;
  upgrade_on r := (tt, r)
|}.

Definition sample_upgrade : Request (RequestBody unit) :=
  mkRequest GET (mkParts None None (Some (bs "/ws"))) HTTP_11
    [(HOST, bs "a.test"); (CONNECTION, bs "keep-alive, Upgrade"); (UPGRADE, bs "WebSocket");
     (SEC_VERSION, bs "13"); (SEC_KEY, bs "000102030405060708090a0b0c0d0e0f")] (Raw []).

Lemma sample_b64 b : header_value_from_bytes (b64_encode b) = Some (b64_encode b).
Proof.
  change ((if forallb value_char (List.filter value_char b) then Some (List.filter value_char b) else None)
    = Some (List.filter value_char b)).
  rewrite (proj2 (forallb_forall _ _)); [done|]. by intros x [_ ?]%filter_In.
Qed.

Lemma websocket_upgrade_spec_witness :
  exists u r resp, websocket_extractor (S := nat) sample_upgrade None (mkMeta [] None) = now_ready (Ok (u, r)) /\
    response u = Some resp /\ rs_status resp = SWITCHING_PROTOCOLS.
Proof.
  destruct (websocket_upgrade_spec sample_b64 (S := nat) sample_upgrade None (mkMeta [] None)) as (res & E & H).
  destruct res as [[u r]|rej].
  - destruct H as (_ & key & resp & _ & E1 & E2 & _). by exists u, r, resp.
  - exfalso. assert (websocket_extractor (S := nat) sample_upgrade None (mkMeta [] None) <> now_ready (Err rej)) as Hn.
    { intros Hx. apply (f_equal (fun o => match o with Some (_, Ok _) => true | _ => false end)) in Hx. discriminate Hx. }
    by apply Hn.
Defined.
End Samples.
End WebSocket.
