(* ===== verification/TlsConfig.v ===== *)
(** * TLS configuration builders

    [ClientTlsConfigBuilder] of [crates/h12tiny-client-sync/src/lib.rs]
    ([Blocking]) and of [crates/h12tiny-client/src/connect.rs] ([Async]): the
    settings they keep and the Rustls configuration they end in.  Rustls is a
    parameter: [Rustls] has its operations, [RustlsLaws] what its documentation
    says of the configuration it returns. *)

From Stdlib Require Import ZArith Lia String.
From stdpp Require Import base option list.
From S2P Require Import Prelude Bytes.

Module TlsConfig.

(** [rustls], [rustls_graviola::default_provider] and the [webpki_roots]. *)
Class Rustls := {
  CryptoProvider : Type;
  RootCertStore : Type;
  ProtocolVersion : Type;
  Certificate : Type;
  PrivateKey : Type;
  TlsError : Type;
  WantsVersions : Type;                    (* the states of the config builder *)
  WantsVerifier : Type;
  WantsClientCert : Type;
  ClientConfig : Type;
  default_provider : CryptoProvider;
  webpki_roots : RootCertStore;
  roots_add : Certificate -> RootCertStore -> result RootCertStore TlsError;
  builder_with_provider : CryptoProvider -> WantsVersions;
  with_protocol_versions : list ProtocolVersion -> WantsVersions -> result WantsVerifier TlsError;
  with_safe_default_protocol_versions : WantsVersions -> result WantsVerifier TlsError;
  with_root_certificates : RootCertStore -> WantsVerifier -> WantsClientCert;
  with_no_client_auth : WantsClientCert -> ClientConfig;
  with_client_auth_cert : list Certificate -> PrivateKey -> WantsClientCert -> result ClientConfig TlsError;
  set_alpn_protocols : list bytes -> ClientConfig -> ClientConfig
}.

Section Builders.
Context {R : Rustls}.

Inductive ClientAuthentication :=
| NoAuth
| Certificates (certificate_chain : list Certificate) (private_key : PrivateKey).

(** The settings; the blocking client has no ALPN field. *)
Record Settings := mkSettings {
  provider : CryptoProvider;
  roots : RootCertStore;
  protocol_versions : option (list ProtocolVersion);
  client_auth : ClientAuthentication
}.

Definition set_roots (r : RootCertStore) (s : Settings) : Settings :=
  mkSettings (provider s) r (protocol_versions s) (client_auth s).
Definition set_versions (v : list ProtocolVersion) (s : Settings) : Settings :=
  mkSettings (provider s) (roots s) (Some v) (client_auth s).
Definition set_client_auth (a : ClientAuthentication) (s : Settings) : Settings :=
  mkSettings (provider s) (roots s) (protocol_versions s) a.
Definition add_root (c : Certificate) (s : Settings) : result Settings TlsError :=
  let? r := roots_add c (roots s) in Ok (set_roots r s).
Definition settings_with_provider (p : CryptoProvider) : Settings := mkSettings p webpki_roots None NoAuth.

(** What both [build]s do before the ALPN list. *)
Definition base_config (s : Settings) : result ClientConfig TlsError :=
  let builder := builder_with_provider (provider s) in
  let? builder := match protocol_versions s with
                  | Some versions => with_protocol_versions versions builder
                  | None => with_safe_default_protocol_versions builder
                  end in
  match client_auth s with
  | NoAuth => Ok (with_no_client_auth (with_root_certificates (roots s) builder))
  | Certificates chain key => with_client_auth_cert chain key (with_root_certificates (roots s) builder)
  end.
End Builders.

(** ** The blocking client *)
Module Blocking.
Section Blocking.
Context {R : Rustls}.

Definition with_provider (p : CryptoProvider) : Settings := settings_with_provider p.
Definition new : Settings := with_provider default_provider.
Definition root_certificates : RootCertStore -> Settings -> Settings := set_roots.
Definition add_root_certificate : Certificate -> Settings -> result Settings TlsError := add_root.
Definition protocol_versions : list ProtocolVersion -> Settings -> Settings := set_versions.
Definition no_client_auth : Settings -> Settings := set_client_auth NoAuth.
Definition client_auth (chain : list Certificate) (key : PrivateKey) : Settings -> Settings :=
  set_client_auth (Certificates chain key).

Definition build (s : Settings) : result ClientConfig TlsError :=
  let? config := base_config s in Ok (set_alpn_protocols [bs "http/1.1"] config).

(** [None]: the [expect] fails. *)
Definition default_tls_config : option ClientConfig := result_ok (build new).
End Blocking.
End Blocking.

(** ** The asynchronous client *)
Module Async.
Section Async.
Context {R : Rustls}.

Record ClientTlsConfigBuilder := mkBuilder { settings : Settings; alpn : list bytes }.
Definition with_settings (f : Settings -> Settings) (b : ClientTlsConfigBuilder) : ClientTlsConfigBuilder :=
  mkBuilder (f (settings b)) (alpn b).

Definition with_provider (p : CryptoProvider) : ClientTlsConfigBuilder :=
  mkBuilder (settings_with_provider p) [bs "h2"; bs "http/1.1"].
Definition new : ClientTlsConfigBuilder := with_provider default_provider.
Definition root_certificates (r : RootCertStore) := with_settings (set_roots r).
Definition add_root_certificate (c : Certificate) (b : ClientTlsConfigBuilder)
    : result ClientTlsConfigBuilder TlsError :=
  let? s := add_root c (settings b) in Ok (mkBuilder s (alpn b)).
Definition alpn_protocols (l : list bytes) (b : ClientTlsConfigBuilder) : ClientTlsConfigBuilder :=
  mkBuilder (settings b) l.
Definition protocol_versions (v : list ProtocolVersion) := with_settings (set_versions v).
Definition no_client_auth := with_settings (set_client_auth NoAuth).
Definition client_auth (chain : list Certificate) (key : PrivateKey) :=
  with_settings (set_client_auth (Certificates chain key)).

Definition build (b : ClientTlsConfigBuilder) : result ClientConfig TlsError :=
  let? config := base_config (settings b) in Ok (set_alpn_protocols (alpn b) config).
Definition default_tls_config : option ClientConfig := result_ok (build new).
End Async.
End Async.

(** ** What a configuration promises *)
Section Facts.
Context {R : Rustls}.

(** Rustls: a view of the policy of a configuration, and how the operations
    determine it; an empty list of versions is refused. *)
Class RustlsLaws := {
  offered : ClientConfig -> list bytes;
  trusted : ClientConfig -> RootCertStore;
  presents : ClientConfig -> option (list Certificate);
  offered_set l c : offered (set_alpn_protocols l c) = l;
  trusted_set l c : trusted (set_alpn_protocols l c) = trusted c;
  presents_set l c : presents (set_alpn_protocols l c) = presents c;
  trusted_no_auth r b : trusted (with_no_client_auth (with_root_certificates r b)) = r;
  presents_no_auth b : presents (with_no_client_auth b) = None;
  trusted_auth chain key r b c :
    with_client_auth_cert chain key (with_root_certificates r b) = Ok c -> trusted c = r;
  presents_auth chain key b c : with_client_auth_cert chain key b = Ok c -> presents c = Some chain;
  no_versions b : exists e, with_protocol_versions [] b = Err e
}.
Context {RL : RustlsLaws}.

(** The certificates a setting presents. *)
Definition chain_of (a : ClientAuthentication) : option (list Certificate) :=
  match a with NoAuth => None | Certificates chain _ => Some chain end.

Lemma base_config_ok s c :
  base_config s = Ok c -> trusted c = roots s /\ presents c = chain_of (TlsConfig.client_auth s) /\
    TlsConfig.protocol_versions s <> Some [].
Proof.
  unfold base_config. intros H. destruct (TlsConfig.protocol_versions s) as [v|] eqn:Ev.
  - destruct (with_protocol_versions v _) as [b|] eqn:Eb; [|done]. simpl in H.
    assert (Some v <> Some []) as Hne.
    { intros [= ->]. destruct (no_versions (builder_with_provider (provider s))) as [e He]. congruence. }
    destruct (TlsConfig.client_auth s) as [|chain key]; simpl.
    + injection H as <-. by rewrite trusted_no_auth, presents_no_auth.
    + by rewrite (trusted_auth _ _ _ _ _ H), (presents_auth _ _ _ _ H).
  - destruct (with_safe_default_protocol_versions _) as [b|]; [|done]. simpl in H.
    destruct (TlsConfig.client_auth s) as [|chain key]; simpl.
    + injection H as <-. by rewrite trusted_no_auth, presents_no_auth.
    + by rewrite (trusted_auth _ _ _ _ _ H), (presents_auth _ _ _ _ H).
Qed.

(** A configuration trusts exactly the configured roots and presents exactly
    the configured certificates; the blocking client only ever offers
    [http/1.1], the asynchronous one what it was told to; and restricting the
    versions to none is an error, never a wider policy. *)
Theorem tls_policy_is_kept (s : Settings) (protocols : list bytes) :
  (forall c, Blocking.build s = Ok c ->
     offered c = [bs "http/1.1"] /\ trusted c = roots s /\ presents c = chain_of (TlsConfig.client_auth s)) /\
  (forall c, Async.build (Async.mkBuilder s protocols) = Ok c ->
     offered c = protocols /\ trusted c = roots s /\ presents c = chain_of (TlsConfig.client_auth s)) /\
  is_ok (Blocking.build (Blocking.protocol_versions [] s)) = false /\
  is_ok (Async.build (Async.protocol_versions [] (Async.mkBuilder s protocols))) = false.
Proof.
  assert (is_ok (base_config (set_versions [] s)) = false) as Hv.
  { destruct (base_config (set_versions [] s)) as [c|] eqn:E; [|done].
    by apply base_config_ok in E as (_ & _ & ?). }
  unfold Blocking.build, Async.build, Blocking.protocol_versions, Async.protocol_versions. simpl. split_and!.
  - intros c. destruct (base_config s) as [c0|] eqn:E; [|done]. intros [= <-].
    apply base_config_ok in E as (E1 & E2 & _). by rewrite offered_set, trusted_set, presents_set.
  - intros c. destruct (base_config s) as [c0|] eqn:E; [|done]. intros [= <-].
    apply base_config_ok in E as (E1 & E2 & _). by rewrite offered_set, trusted_set, presents_set.
  - by destruct (base_config (set_versions [] s)).
  - by destruct (base_config (set_versions [] s)).
Qed.
End Facts.

(** ** A concrete policy *)
Section Samples.
Record SampleConfig := mkSample { sc_alpn : list bytes; sc_roots : list nat; sc_chain : option (list nat) }.
#[local] Instance sample_rustls : Rustls := {|
  CryptoProvider := unit; RootCertStore := list nat; ProtocolVersion := nat; Certificate := nat;
  PrivateKey := nat; TlsError := unit; WantsVersions := unit; WantsVerifier := unit;
  WantsClientCert := list nat; ClientConfig := SampleConfig;
  default_provider := (); webpki_roots := [1; 2]%nat; roots_add c r := Ok (r ++ [c]);
  builder_with_provider _ := ();
  with_protocol_versions v _ := match v with [] => Err () | _ => Ok () end;
  with_safe_default_protocol_versions _ := Ok ();
  with_root_certificates r _ := r;
  with_no_client_auth r := mkSample [] r None;
  with_client_auth_cert chain _ r := Ok (mkSample [] r (Some chain));
  set_alpn_protocols l c := mkSample l (sc_roots c) (sc_chain c)
|}.
#[local] Instance sample_laws : RustlsLaws.
Proof.
  refine {| offered := sc_alpn; trusted := sc_roots; presents := sc_chain |}; try done.
  - intros chain key r b c [= <-]. done.
  - intros chain key b c [= <-]. done.
  - intros b. by eexists.
Defined.

Lemma tls_policy_is_kept_witness :
  exists c, Blocking.build (Blocking.client_auth [7%nat] 9%nat Blocking.new) = Ok c /\ offered c = [bs "http/1.1"].
Proof.
  eexists. split; [reflexivity|].
  refine (proj1 (proj1 (tls_policy_is_kept (Blocking.client_auth [7%nat] 9%nat Blocking.new) []) _ _)). reflexivity.
Defined.
End Samples.
End TlsConfig.
