(* ===== verification/ServerSystem.v ===== *)
(** * The server as a whole ([h12tiny-server], [lifecycle.rs])

    The accept loop of [Lifecycle] and the tasks it spawns, running
    concurrently: a step is one poll of the lifecycle future or one poll of one
    task.  The loop sees a task as finished when the task has sent [done]; a
    task sees the shutdown request when the loop has sent it.  The invariant
    [sys_inv] is preserved by every step; the theorems hold in every reachable
    state. *)

From Stdlib Require Import ZArith Lia.
From stdpp Require Import base option list relations.
From S2P Require Import Prelude Bytes Stream Lifecycle.

Open Scope Z_scope.

Module ServerSystem.
Import Lifecycle.Lifecycle.

Section System.
Context (server : Serve) (tls : bool).

(** The loop, the tasks by number, and what the error hook was given. *)
Record System := mkSystem { loop : Run; tasks : list Task; reports : list (nat * io_error) }.

(** What [execute] is given: a handshake first under TLS. *)
Definition new_task : Task := if tls then Handshake else Serving.
Definition sys_init : System := mkSystem init [] [].

Definition task_done (s : System) (t : nat) : bool := bool_decide (tasks s !! t = Some Finished).
Definition task_asked (s : System) (t : nat) : bool := bool_decide (t ∈ signalled (state (loop s))).

(** A poll of the lifecycle future; the tasks it starts are appended. *)
Definition poll_loop (shutdown : bool) (accept : option (result () io_error)) (s : System) : System :=
  let r := run_step (max_connections server) (mkEnv shutdown (task_done s) accept) (loop s) in
  mkSystem r (tasks s ++ replicate (started (state r) - length (tasks s)) new_task) (reports s).

(** A poll of task [t]. *)
Definition poll_task (t : nat) (hs : poll (result () io_error)) (disp : result () io_error)
    (conn shut : poll (result () io_error)) (s : System) : System :=
  match tasks s !! t with
  | Some st =>
      let '(st', h) := task_poll (on_connection_error server) (mkTaskEnv hs disp conn shut (task_asked s t)) st in
      mkSystem (loop s) (<[t := st']> (tasks s)) (reports s ++ map (pair t) h)
  | None => s
  end.

Inductive sys_step : System -> System -> Prop :=
| step_loop shutdown accept s : sys_step s (poll_loop shutdown accept s)
| step_task t hs disp conn shut s : sys_step s (poll_task t hs disp conn shut s).

Definition reachable (s : System) : Prop := rtc sys_step sys_init s.

(** The tasks that are still running. *)
Definition alive (s : System) : list nat :=
  List.filter (fun t => negb (task_done s t)) (seq 0 (length (tasks s))).
Definition reports_of (t : nat) (s : System) : list (nat * io_error) :=
  List.filter (fun r => (fst r =? t)%nat) (reports s).

Record sys_inv (s : System) : Prop := {
  s_loop : inv (max_connections server) (task_done s) (loop s);
  s_tasks : length (tasks s) = started (state (loop s));
  s_reports t : (length (reports_of t s) <= 1)%nat;
  s_silent t : task_done s t = false -> reports_of t s = []
}.

(** ** Each step *)
Lemma run_step_started limit env r :
  started (state (run_step limit env r)) = started (state r) \/
  started (state (run_step limit env r)) = S (started (state r)).
Proof.
  destruct r as [s|e s|res s]; simpl; [| |by left].
  - destruct (negb (accepting s) && _); [by left|]. destruct (next_event env s) as [[|[[]|e]|i]|]; simpl; try by left.
    destruct (at_capacity limit s); [by left | by right].
  - destruct (active s); [by left|]. destruct (find_done _ _); by left.
Qed.

Lemma task_done_app s r k :
  later (task_done s) (task_done (mkSystem r (tasks s ++ k) (reports s))).
Proof.
  intros t. unfold task_done. rewrite !bool_decide_eq_true. simpl. intros E. by apply lookup_app_l_Some.
Qed.

Lemma task_poll_finished hook env t t' h :
  task_poll hook env t = (t', h) -> t = Finished -> t' = Finished /\ h = [].
Proof. intros E ->. simpl in E. by injection E as <- <-. Qed.

Lemma sys_inv_loop shutdown accept s : sys_inv s -> sys_inv (poll_loop shutdown accept s).
Proof.
  intros [Hl Ht Hr Hs]. unfold poll_loop. set (env := mkEnv _ _ _).
  pose proof (run_step_started (max_connections server) env (loop s)) as Hst.
  set (k := replicate _ _). split.
  - eapply inv_later; [apply task_done_app|].
    apply (inv_step (max_connections server) (task_done s) env (loop s)); [by intros t | done].
  - simpl. unfold k. rewrite length_app, length_replicate. lia.
  - exact Hr.
  - intros t Hd. apply (Hs t). destruct (task_done s t) eqn:E; [|done].
    apply (task_done_app s (run_step (max_connections server) env (loop s)) k) in E. simpl in *. congruence.
Qed.

Lemma task_done_insert s r t st rs i :
  (t < length (tasks s))%nat ->
  task_done (mkSystem r (<[t := st]> (tasks s)) rs) i
  = if decide (i = t) then bool_decide (st = Finished) else task_done s i.
Proof.
  intros Hl. unfold task_done. simpl. case_decide as E.
  - subst. rewrite list_lookup_insert_eq by done. apply bool_decide_ext. split; congruence.
  - by rewrite list_lookup_insert_ne by done.
Qed.

Lemma filter_pair (t i : nat) (h : list io_error) :
  List.filter (fun r => (fst r =? i)%nat) (map (pair t) h) = if decide (i = t) then map (pair t) h else [].
Proof.
  induction h as [|x h IH]; simpl; [by case_decide|]. rewrite IH. case_decide as E.
  - by rewrite (proj2 (Nat.eqb_eq t i)).
  - by rewrite (proj2 (Nat.eqb_neq t i)).
Qed.

Lemma sys_inv_task t hs disp conn shut s : sys_inv s -> sys_inv (poll_task t hs disp conn shut s).
Proof.
  intros [Hl Ht Hr Hs]. unfold poll_task. destruct (tasks s !! t) as [st|] eqn:Est; [|by split].
  destruct (task_poll _ _ st) as [st' h] eqn:Ep. pose proof (lookup_lt_Some _ _ _ Est) as Hlt.
  pose proof (task_done_insert s (loop s) t st' (reports s ++ map (pair t) h)) as Hd.
  assert (forall i, reports_of i (mkSystem (loop s) (<[t:=st']> (tasks s)) (reports s ++ map (pair t) h))
    = reports_of i s ++ if decide (i = t) then map (pair t) h else []) as Hro.
  { intros i. unfold reports_of. simpl. by rewrite List.filter_app, filter_pair. }
  assert (st = Finished -> st' = Finished /\ h = []) as Hfin by (by eapply task_poll_finished).
  pose proof (task_poll_hook _ _ _ _ _ Ep) as Hh. split.
  - eapply inv_later; [|exact Hl]. intros i Hi. rewrite Hd by done.
    destruct (decide (i = t)) as [->|E]; [|exact Hi].
    unfold task_done in Hi. apply bool_decide_eq_true in Hi. rewrite Est in Hi. injection Hi as ->.
    apply bool_decide_eq_true. by apply Hfin.
  - simpl. by rewrite length_insert.
  - intros i. rewrite Hro, length_app. specialize (Hr i).
    destruct (decide (i = t)) as [->|E]; [|cbn [length]; lia].
    destruct (decide (st = Finished)) as [->|Hne].
    + destruct (Hfin eq_refl) as [_ ->]. simpl. lia.
    + rewrite (Hs t); [|unfold task_done; apply bool_decide_eq_false; congruence].
      rewrite length_map. simpl. destruct Hh as [[_ Hh]| ->]; simpl; lia.
  - intros i Hi. rewrite Hd in Hi by done. rewrite Hro.
    destruct (decide (i = t)) as [->|E]; [|by rewrite Hs, app_nil_r]. apply bool_decide_eq_false in Hi. destruct Hh as [[-> _]| ->]; [done|]. rewrite app_nil_r.
    apply Hs. unfold task_done. apply bool_decide_eq_false. rewrite Est. intros [= ->]. by destruct Hfin.
Qed.

Lemma sys_inv_step s s' : sys_step s s' -> sys_inv s -> sys_inv s'.
Proof. destruct 1; [apply sys_inv_loop | apply sys_inv_task]. Qed.

Lemma sys_reachable_inv s : reachable s -> sys_inv s.
Proof.
  unfold reachable. remember sys_init as i eqn:Ei. intros H.
  assert (sys_inv i) as Hi.
  { subst i. split; simpl; [apply inv_init | done | intros; unfold reports_of; simpl; lia | done]. }
  clear Ei. induction H as [|x y z Hxy _ IH]; [done|]. apply IH. by eapply sys_inv_step.
Qed.

(** A running task is tracked by the loop. *)
Lemma alive_tracked s t : sys_inv s -> t ∈ alive s -> t ∈ map task (active (state (loop s))).
Proof.
  intros [Hl Ht _ _] Hin. apply list_elem_of_In, filter_In in Hin as [Hin Hd].
  apply in_seq in Hin. apply negb_true_iff in Hd.
  destruct (i_tracked _ _ _ Hl t) as [Hx|Hx]; [lia | congruence | done].
Qed.

(** ** In every reachable state *)

(** The loop no longer accepts. *)
Definition stopping (r : Run) : Prop := match r with Running s => accepting s = false | _ => True end.

Lemma alive_asked s t : sys_inv s -> stopping (loop s) -> t ∈ alive s -> task_asked s t = true.
Proof.
  intros Hi Hst Hin. pose proof (alive_tracked s t Hi Hin) as Ht. destruct Hi as [Hl _ _ _].
  apply list_elem_of_fmap in Ht as (a & -> & Ha). unfold task_asked. apply bool_decide_eq_true.
  apply (i_signalled _ _ _ Hl a Ha). apply (i_stopping _ _ _ Hl a); [|done]. by destruct (loop s).
Qed.

Lemma returned_none s r st : sys_inv s -> loop s = Returned r st -> alive s = [].
Proof.
  intros Hi El. destruct (alive s) as [|t ts] eqn:Ea; [done|].
  assert (t ∈ alive s) as Hin by (rewrite Ea; left). apply alive_tracked in Hin; [|done].
  pose proof (i_returned _ _ _ (s_loop s Hi)) as Hr. rewrite El in Hr, Hin. simpl in *. rewrite Hr in Hin.
  by apply not_elem_of_nil in Hin.
Qed.

(** C7. However the lifecycle future and the connection tasks are interleaved: at
    most [max_connections] connections are alive; when the future has returned
    none is; once it stops accepting, every connection that is still alive has
    been asked to shut down; and the error hook gets at most one error per
    connection, after its end. *)
Theorem server_lifecycle (s : System) :
  reachable s ->
  (forall l, max_connections server = Some l -> 0 <= l -> zlen (alive s) <= l) /\
  (forall r st, loop s = Returned r st -> alive s = []) /\
  (stopping (loop s) -> forall t, t ∈ alive s -> task_asked s t = true) /\
  (forall t, (length (reports_of t s) <= 1)%nat /\ (reports_of t s <> [] -> task_done s t = true)).
Proof.
  intros Hi%sys_reachable_inv. split_and!.
  - intros l El H0. pose proof (i_limit _ _ _ (s_loop s Hi) l El H0) as Hb. unfold zlen in *.
    assert (length (alive s) <= length (map task (active (state (loop s)))))%nat as Hlen.
    { apply NoDup_incl_length; [apply List.NoDup_filter, seq_NoDup|].
      intros t Ht%list_elem_of_In. apply list_elem_of_In. by apply alive_tracked. }
    rewrite length_map in Hlen. lia.
  - intros r st. by apply returned_none.
  - intros Hst t. by apply alive_asked.
  - intros t. split; [apply Hi|]. intros Hne. destruct (task_done s t) eqn:E; [done|].
    by destruct Hne; apply Hi.
Qed.

(** ** Shutdown is always possible *)

(** A poll of the loop that starts no task leaves the tasks alone. *)
Lemma poll_loop_same shutdown accept s :
  let r := run_step (max_connections server) (mkEnv shutdown (task_done s) accept) (loop s) in
  started (state r) = started (state (loop s)) -> sys_inv s ->
  poll_loop shutdown accept s = mkSystem r (tasks s) (reports s).
Proof.
  intros r Hs Hi. unfold poll_loop. fold r. rewrite Hs, (s_tasks s Hi), Nat.sub_diag. simpl. by rewrite app_nil_r.
Qed.

(** The shutdown signal stops the loop. *)
Lemma shutdown_stops s : sys_inv s ->
  exists r, poll_loop true None s = mkSystem r (tasks s) (reports s) /\ stopping r.
Proof.
  intros Hi. set (r := run_step (max_connections server) (mkEnv true (task_done s) None) (loop s)).
  assert (started (state r) = started (state (loop s)) /\ stopping r) as [Hs Hst].
  { unfold r. destruct (loop s) as [x|e x|res x]; simpl; [| |done].
    - destruct (accepting x) eqn:Ea; simpl.
      + unfold next_event. by rewrite Ea.
      + destruct (active x) eqn:Eact; [done|]. unfold next_event. rewrite Ea, Eact. simpl.
        by destruct (if task_done s (task a) then _ else _).
    - destruct (active x); [done|]. by destruct (find_done _ _). }
  exists r. split; [by apply poll_loop_same | done].
Qed.

(** A poll that ends a task which was asked to shut down, silently. *)
Lemma finish_task t s st :
  tasks s !! t = Some st -> (st <> Finished -> task_asked s t = true) ->
  poll_task t Pending (Ok ()) (Ready (Ok ())) (Ready (Ok ())) s = mkSystem (loop s) (<[t := Finished]> (tasks s)) (reports s).
Proof.
  intros Est Hask. unfold poll_task. rewrite Est. destruct st; simpl.
  - rewrite Hask by done. by rewrite app_nil_r.
  - by rewrite app_nil_r.
  - by rewrite app_nil_r.
  - by rewrite app_nil_r.
Qed.

(** Polling the tasks from [n] down finishes them all. *)
Lemma finish_tasks n : forall s,
  sys_inv s -> stopping (loop s) -> (n <= length (tasks s))%nat ->
  (forall t, (n <= t < length (tasks s))%nat -> task_done s t = true) ->
  exists s', rtc sys_step s s' /\ sys_inv s' /\ loop s' = loop s /\ reports s' = reports s /\ alive s' = [].
Proof.
  induction n as [|n IH]; intros s Hi Hst Hn Hd.
  - exists s. split; [apply rtc_refl|]. split_and!; try done. unfold alive.
    assert (forall l, (forall t, t ∈ l -> task_done s t = true) ->
      List.filter (fun t => negb (task_done s t)) l = []) as Hf.
    { induction l as [|t l IH]; intros Hl; [done|]. simpl. rewrite Hl by left. simpl. apply IH. intros t' Ht'. apply Hl. by right. }
    apply Hf. intros t Ht%list_elem_of_In%in_seq. apply Hd. lia.
  - destruct (lookup_lt_is_Some_2 (tasks s) n ltac:(lia)) as [st Est].
    set (s1 := poll_task n Pending (Ok ()) (Ready (Ok ())) (Ready (Ok ())) s).
    assert (s1 = mkSystem (loop s) (<[n := Finished]> (tasks s)) (reports s)) as E1.
    { apply (finish_task n s st Est). intros Hne. apply alive_asked; [done | done|].
      apply list_elem_of_In, filter_In. split; [apply in_seq; lia|]. apply negb_true_iff.
      apply bool_decide_eq_false. congruence. }
    assert (sys_inv s1) as Hi1 by (by apply sys_inv_task).
    destruct (IH s1) as (s' & Hr & Hi' & El & Er & Ha).
    + done.
    + by rewrite E1.
    + rewrite E1. simpl. rewrite length_insert. lia.
    + intros t Ht. rewrite E1 in Ht |- *. simpl in Ht. rewrite length_insert in Ht.
      rewrite task_done_insert by lia. destruct (decide (t = n)); [by apply bool_decide_eq_true|]. apply Hd. lia.
    + exists s'. rewrite E1 in El, Er. split_and!; try done. eapply rtc_l; [|exact Hr]. apply step_task.
Qed.

(** With every task finished, the loop reaps them one by one and returns. *)
Lemma reap_tasks n : forall s,
  sys_inv s -> stopping (loop s) -> alive s = [] -> (length (active (state (loop s))) <= n)%nat ->
  exists s' res st, rtc sys_step s s' /\ loop s' = Returned res st /\ reports s' = reports s.
Proof.
  induction n as [|n IH]; intros s Hi Hst Ha Hn.
  - set (r := run_step (max_connections server) (mkEnv false (task_done s) None) (loop s)).
    assert (exists res st, r = Returned res st /\ started st = started (state (loop s))) as (res & st & Er & Es).
    { unfold r. destruct (loop s) as [x|e x|res x]; simpl in *; [| |by eauto].
      - rewrite Hst. destruct (active x); [simpl; eauto | simpl in Hn; lia].
      - destruct (active x); [eauto | simpl in Hn; lia]. }
    exists (poll_loop false None s), res, st. split_and!; [apply rtc_once, step_loop | done | done].
  - set (r := run_step (max_connections server) (mkEnv false (task_done s) None) (loop s)).
    destruct (active (state (loop s))) as [|a l] eqn:Eact; [apply IH; try done; rewrite Eact; simpl; lia|].
    assert (forall b, b ∈ a :: l -> task_done s (task b) = true) as Hd.
    { intros b Hb. destruct (task_done s (task b)) eqn:E; [done|]. exfalso.
      assert (task b ∈ alive s) as Hin; [|rewrite Ha in Hin; by apply not_elem_of_nil in Hin].
      apply list_elem_of_In, filter_In. split; [|by rewrite E]. apply in_seq.
      pose proof (i_old _ _ _ (s_loop s Hi) b) as Hold. rewrite Eact in Hold. specialize (Hold Hb).
      rewrite <- (s_tasks s Hi) in Hold. lia. }
    assert (stopping r /\ started (state r) = started (state (loop s)) /\
            (length (active (state r)) <= n)%nat) as (Hst' & Hs & Hlen).
    { pose proof (swap_remove_perm 0 (a :: l) a eq_refl) as Hp. apply Permutation_length in Hp.
      pose proof (s_loop s Hi) as [_ _ _ _ _ _ Hret]. simpl in Hp, Hn.
      unfold r. destruct (loop s) as [x|e x|res x]; cbn [state] in *; [| |congruence].
      - assert (run_step (max_connections server) (mkEnv false (task_done s) None) (Running x)
          = Running (set_active (swap_remove 0 (active x)) x)) as ->.
        { change (accepting x = false) in Hst. cbn [run_step]. rewrite Hst, Eact. cbn [negb andb]. unfold next_event.
          rewrite Hst, Eact. cbn [andb find_done finished]. rewrite (Hd a) by left. cbn [handle]. by rewrite Eact. }
        cbn [state set_active active started]. rewrite Eact. split_and!; [done | done | lia].
      - assert (run_step (max_connections server) (mkEnv false (task_done s) None) (Draining e x)
          = Draining e (set_active (swap_remove 0 (active x)) x)) as ->.
        { cbn [run_step]. rewrite Eact. cbn [find_done finished]. by rewrite (Hd a) by left. }
        cbn [state set_active active started]. rewrite Eact. split_and!; [done | done | lia]. }
    assert (poll_loop false None s = mkSystem r (tasks s) (reports s)) as E1 by (by apply poll_loop_same).
    destruct (IH (poll_loop false None s)) as (s' & res & st & Hr & El & Er).
    + by apply sys_inv_loop.
    + by rewrite E1.
    + by rewrite E1.
    + by rewrite E1.
    + exists s', res, st. rewrite E1 in Er. split_and!; try done. eapply rtc_l; [apply step_loop | exact Hr].
Qed.

(** C22. Graceful shutdown never gets stuck: from every reachable state there is an
    execution, in which the shutdown future resolves and the connections end
    without an error, that makes the lifecycle future return; no further error
    is reported on it. *)
Theorem server_can_shut_down (s : System) :
  reachable s ->
  exists s' res st, rtc sys_step s s' /\ loop s' = Returned res st /\ reports s' = reports s /\ alive s' = [].
Proof.
  intros Hr. pose proof (sys_reachable_inv s Hr) as Hi.
  destruct (shutdown_stops s Hi) as (r & E1 & Hst). pose proof (sys_inv_loop true None s Hi) as Hi1.
  destruct (finish_tasks (length (tasks s)) (poll_loop true None s)) as (s2 & Hr2 & Hi2 & El2 & Er2 & Ha2).
  - done.
  - by rewrite E1.
  - by rewrite E1.
  - rewrite E1. simpl. intros t Ht. lia.
  - destruct (reap_tasks (length (active (state (loop s2)))) s2 Hi2) as (s3 & res & st & Hr3 & El3 & Er3);
      [by rewrite El2, E1 | done | lia|].
    assert (rtc sys_step s s3) as Hs3 by (eapply rtc_l; [apply step_loop | by etrans]).
    exists s3, res, st. split_and!; [done | done | by rewrite Er3, Er2, E1|].
    assert (sys_inv s3) as Hi3 by (apply sys_reachable_inv; unfold reachable in *; by etrans).
    by eapply returned_none.
Qed.
End System.

(** ** A concrete run: two connections accepted with a limit of one *)
Definition sample_server : Serve := with_connection_error_hook (with_max_connections 1 serve).
Definition sample_system : System :=
  poll_loop sample_server true false (Some (Ok ()))
    (poll_task sample_server 0 (Ready (Ok ())) (Ok ()) Pending Pending
      (poll_loop sample_server true false (Some (Ok ())) sys_init)).

Lemma sample_reachable : reachable sample_server true sample_system.
Proof.
  eapply rtc_l; [apply step_loop|]. eapply rtc_l; [apply step_task|]. apply rtc_once, step_loop.
Qed.

Lemma server_lifecycle_witness : alive sample_system = [0%nat] /\ zlen (alive sample_system) <= 1.
Proof.
  split; [reflexivity|].
  apply (server_lifecycle sample_server true sample_system sample_reachable); [reflexivity | lia].
Defined.

Lemma server_can_shut_down_witness :
  exists s' res st, rtc (sys_step sample_server true) sample_system s' /\ loop s' = Returned res st /\ alive s' = [].
Proof.
  destruct (server_can_shut_down sample_server true sample_system sample_reachable) as (s' & res & st & H1 & H2 & _ & H3).
  exists s', res, st. split; [exact H1|]. split; [exact H2 | exact H3].
Defined.
End ServerSystem.
