(* ===== verification/Runtime.v ===== *)
(** * Executors and timers ([h12tiny-core], [runtime.rs])

    [crates/h12tiny-core/src/runtime.rs]: the executor handle that erases the
    type of a future and hands it on, and the timer adapter over
    [async_io::Timer], which is a parameter with its documented contract. *)

From Stdlib Require Import ZArith Lia.
From stdpp Require Import base option list.
From S2P Require Import Prelude Stream.

Open Scope Z_scope.

Module Runtime.

(** ** Executors *)
Section Executors.
(** Futures, and the state of the runtime a submission changes. *)
Context {Fut Rt : Type}.

(** [hyper::rt::Executor]. *)
Class Executor (E : Type) := execute : E -> Fut -> Rt -> Rt.

(** [FnExecutor] calls its function, [BoxExecutor] the executor it holds. *)
Record FnExecutor := mkFn { submit : Fut -> Rt -> Rt }.
#[export] Instance fn_executor : Executor FnExecutor := fun e f rt => submit e f rt.

Record BoxExecutor := mkBox { erased : Fut -> Rt -> Rt }.
Definition box_new {E} `{Executor E} (e : E) : BoxExecutor := mkBox (execute e).
#[export] Instance box_executor : Executor BoxExecutor := fun e f rt => erased e f rt.

(** Erasing an executor changes nothing about what it runs. *)
Lemma box_executes {E} `{Executor E} (e : E) fs rt :
  fold_left (fun rt f => execute (box_new e) f rt) fs rt = fold_left (fun rt f => execute e f rt) fs rt.
Proof. done. Qed.
End Executors.

(** ** Timers *)

(** What the crate uses of [async_io::Timer]: a timer armed for a delay or an
    instant, re-armed in place, and polled; polling may change it. *)
Class AsyncTimer (T : Type) := {
  after : Z -> Duration -> T;
  at_ : Z -> T;
  set_at : T -> Z -> T;
  timer_poll : T -> Z -> poll () * T
}.

(** Its documented contract: a timer fires once the clock has reached the
    instant it was last armed for, and not before. [armed tm t] says that [tm]
    waits for [t]. *)
Class AsyncTimerLaws (T : Type) `{AsyncTimer T} := {
  armed : T -> Z -> Prop;
  after_armed now d : armed (after now d) (now + d);
  at_armed t : armed (at_ t) t;
  set_at_armed tm t : armed (set_at tm t) t;
  armed_early tm t now : armed tm t -> now < t ->
    exists tm', timer_poll tm now = (Pending, tm') /\ armed tm' t;
  armed_late tm t now : armed tm t -> t <= now -> fst (timer_poll tm now) = Ready ()
}.

Section Timers.
Context {T Other : Type} `{AsyncTimer T}.

(** A pinned [hyper::rt::Sleep]: this crate's, or another runtime's. *)
Inductive Sleep := FuturesSleep (inner : T) | Foreign (o : Other).

(** [FuturesSleep::reset] and its [Future::poll]. *)
Definition futures_reset (inner : T) (deadline : Z) : T := set_at inner deadline.
Definition futures_poll (inner : T) (now : Z) : poll () * T :=
  match timer_poll inner now with
  | (Ready _, inner') => (Ready (), inner')
  | (Pending, inner') => (Pending, inner')
  end.

(** [AsyncIoTimer]: [sleep], [sleep_until] and [reset]. *)
Definition sleep (now : Z) (d : Duration) : Sleep := FuturesSleep (after now d).
Definition sleep_until (deadline : Z) : Sleep := FuturesSleep (at_ deadline).
Definition reset (s : Sleep) (new_deadline : Z) : Sleep :=
  match s with
  | FuturesSleep inner => FuturesSleep (futures_reset inner new_deadline)
  | Foreign _ => sleep_until new_deadline
  end.

Context `{!AsyncTimerLaws T}.

(** Polled at the given instants, in order: the first one that is ready. *)
Fixpoint first_ready (inner : T) (polls : list Z) : option Z :=
  match polls with
  | [] => None
  | now :: rest =>
    match futures_poll inner now with
    | (Ready _, _) => Some now
    | (Pending, inner') => first_ready inner' rest
    end
  end.

Lemma armed_first_ready polls : forall inner t, armed inner t ->
  first_ready inner polls = List.find (fun now => t <=? now) polls.
Proof.
  induction polls as [|now rest IH]; intros inner t Ha; [done|]. cbn [first_ready List.find].
  unfold futures_poll. destruct (t <=? now) eqn:E; bool_hyps.
  - pose proof (armed_late _ _ _ Ha E) as Hl. destruct (timer_poll inner now) as [p i']. cbn in Hl. by subst.
  - destruct (armed_early _ _ _ Ha E) as (i' & -> & Ha'). by apply IH.
Qed.

(** Whatever a sleep was before (this crate's, however often polled, or
    another runtime's), after a reset it completes at the first poll that
    is not before the new deadline. *)
Lemma reset_completes s deadline polls : exists inner,
  reset s deadline = FuturesSleep inner /\
  first_ready inner polls = List.find (fun now => deadline <=? now) polls.
Proof.
  destruct s as [inner|o]; eexists; (split; [reflexivity|]); apply armed_first_ready.
  - apply set_at_armed.
  - apply at_armed.
Qed.

Lemma sleep_completes start d polls : exists inner,
  sleep start d = FuturesSleep inner /\
  first_ready inner polls = List.find (fun now => start + d <=? now) polls.
Proof. eexists; split; [reflexivity|]. apply armed_first_ready, after_armed. Qed.
End Timers.

(** The contract is satisfiable: a timer that is the instant it waits for. *)
#[export] Instance instant_timer : AsyncTimer Z := {
  after now d := now + d; at_ t := t; set_at _ t := t;
  timer_poll t now := (if t <=? now then Ready () else Pending, t) }.
#[export, refine] Instance instant_timer_laws : AsyncTimerLaws Z := { armed tm t := tm = t }.
Proof.
  all: try done.
  - intros tm t now -> Hn. exists t. cbn. destruct (t <=? now) eqn:E; bool_hyps; [lia|done].
  - intros tm t now -> Hn. cbn. destruct (t <=? now) eqn:E; bool_hyps; [done|lia].
Qed.

Example reset_foreign :
  reset (T:=Z) (Foreign true) 7 = FuturesSleep 7 /\ first_ready 7 [3; 6; 9; 12] = Some 9.
Proof. split; reflexivity. Qed.
End Runtime.
